(** * orphics.analysis.pipeline: task distribution and MPI statistics gathering

    A shallow embedding of [src/orphics/analysis/pipeline.py] (Python 2):
    - [mpi_distribute], the pure partition of task indices over cores;
    - [Pipeline.__init__] (striding, communicator split),
      [Pipeline.distribute] and [Pipeline.loop] with the methods it calls;
    - [count_not_nones] and [is_only_one_not_none];
    - [MPIStats]: [add_to_stats], [add_to_stack], [get_stacks], [get_stats],
      run over a small model of MPI point-to-point messaging.

    [Pipeline.info] only prints, and [CMB_Pipeline] and
    [CMB_Lensing_Pipeline] call into [enlib] and read a file: they are not
    modelled.

    Python integers are [Z].  A raised exception is [inl e]. *)

From Stdlib Require Import ZArith List Bool Lia Permutation FinFun.
From Stdlib Require String.
From Stdlib Require Import PrimFloat Uint63.
From Stdlib Require FloatAxioms.
Import ListNotations.
Import String.StringSyntax.
Delimit Scope string_scope with string.
Open Scope Z_scope.

(** ** Exceptions *)

Inductive exn : Type :=
| AssertionError
| ZeroDivisionError
| KeyError
| IndexError
| ValueError
| AttributeError
| MPIError.

Definition result (A : Type) : Type := (exn + A)%type.

(** ** The Python and numpy primitives the module uses *)

Module Py.

(** [len(l)] *)
Definition len {A} (l : list A) : Z := Z.of_nat (length l).

(** [range(n)]: Python 2 returns the list [0, 1, ..., n-1], empty when
    [n <= 0]. *)
Definition range (n : Z) : list Z := map Z.of_nat (seq 0 (Z.to_nat n)).

(** [range(start, stop, step)] for a positive step; a step that is not
    positive gives the empty list whenever [start <= stop], which is the only
    way the module calls it ([range(0, wsize, stride)]). *)
Definition range3 (start stop step : Z) : list Z :=
  if 0 <? step
  then map (fun k => start + Z.of_nat k * step)
           (seq 0 (Z.to_nat ((stop - start + step - 1) / step)))
  else [].

(** How a slice bound is clipped against the length: a negative bound counts
    from the end. *)
Definition clip (n i : Z) : Z :=
  if i <? 0 then Z.max 0 (n + i) else Z.min i n.

(** [l[x:y]] *)
Definition slice {A} (l : list A) (x y : Z) : list A :=
  let a := clip (len l) x in
  let b := clip (len l) y in
  firstn (Z.to_nat (b - a)) (skipn (Z.to_nat a) l).

(** [l[:y]] *)
Definition slice_to {A} (l : list A) (y : Z) : list A := slice l 0 y.

(** [a[i:] += c] on a one-dimensional integer array. *)
Definition iadd_from (a : list Z) (i c : Z) : list Z :=
  let s := Z.to_nat (clip (len a) i) in
  firstn s a ++ map (fun v => v + c) (skipn s a).

(** [np.cumsum(a)] *)
Fixpoint cumsum_from (acc : Z) (a : list Z) : list Z :=
  match a with
  | [] => []
  | x :: t => (acc + x) :: cumsum_from (acc + x) t
  end.

Definition cumsum (a : list Z) : list Z := cumsum_from 0 a.

(** [sum(a)] *)
Definition sum (a : list Z) : Z := fold_left Z.add a 0.

(** [[x] * n]: list repetition, empty for [n <= 0]. *)
Definition replicate {A} (x : A) (n : Z) : list A := repeat x (Z.to_nat n).

(** [max(a)] and [min(a)] of a list with head [d]. *)
Definition maximum (a : list Z) : Z := fold_left Z.max a (hd 0 a).
Definition minimum (a : list Z) : Z := fold_left Z.min a (hd 0 a).

End Py.

(** ** [mpi_distribute]

    The counts are a numpy [int64] array; every value the function computes
    lies between [0] and [num_tasks] (see [mpi_distribute_bounds]), so no
    wrap-around happens for a task count that a list can hold. *)

Definition mpi_distribute (num_tasks avail_cores : Z)
  : result (list Z * list (list Z)) :=
  if negb (avail_cores <=? num_tasks) then inl AssertionError
  else if avail_cores =? 0 then inl ZeroDivisionError
  else
    let min_each := num_tasks / avail_cores in
    let rem := num_tasks mod avail_cores in
    let num_each := Py.replicate min_each avail_cores in
    let num_each := if 0 <? rem then Py.iadd_from num_each (- rem) 1
                    else num_each in
    let task_range := Py.range num_tasks in
    let cumul := Py.cumsum num_each in
    let task_dist :=
      map (fun xy => Py.slice task_range (fst xy) (snd xy))
          (combine (0 :: Py.slice_to cumul (-1)) cumul) in
    inr (num_each, task_dist).

Example mpi_distribute_10_4 :
  mpi_distribute 10 4
  = inr ([2; 2; 3; 3], [[0; 1]; [2; 3]; [4; 5; 6]; [7; 8; 9]]).
Proof. reflexivity. Qed.

Example mpi_distribute_7_3 :
  mpi_distribute 7 3 = inr ([2; 2; 3], [[0; 1]; [2; 3]; [4; 5; 6]]).
Proof. reflexivity. Qed.

Example mpi_distribute_3_5 : mpi_distribute 3 5 = inl AssertionError.
Proof. reflexivity. Qed.

(** *** Facts about the primitives *)

Module PyFacts.
Import Py.

Lemma len_nonneg {A} (l : list A) : 0 <= len l.
Proof. unfold len. lia. Qed.

Lemma len_range n : 0 <= n -> len (range n) = n.
Proof.
  intros Hn. unfold len, range. rewrite length_map, length_seq. lia.
Qed.

Lemma In_range n i : In i (range n) <-> 0 <= i < n.
Proof.
  unfold range. rewrite in_map_iff. split.
  - intros [k [<- Hk]]. apply in_seq in Hk. lia.
  - intros Hi. exists (Z.to_nat i). split; [lia|]. apply in_seq. lia.
Qed.

Lemma NoDup_range n : NoDup (range n).
Proof.
  unfold range. apply Injective_map_NoDup.
  - intros a b Hab. lia.
  - apply seq_NoDup.
Qed.

Lemma clip_inside n i : 0 <= i <= n -> clip n i = i.
Proof. intros H. unfold clip. destruct (Z.ltb_spec i 0); lia. Qed.

Lemma clip_from_end n i : i < 0 -> - i <= n -> clip n i = n + i.
Proof. intros H1 H2. unfold clip. destruct (Z.ltb_spec i 0); lia. Qed.

Lemma slice_inside {A} (l : list A) x y :
  0 <= x <= y -> y <= len l ->
  slice l x y = firstn (Z.to_nat (y - x)) (skipn (Z.to_nat x) l).
Proof.
  intros Hx Hy. unfold slice. rewrite !clip_inside by lia. reflexivity.
Qed.

Lemma slice_to_last {A} (l : list A) : slice_to l (-1) = removelast l.
Proof.
  unfold slice_to, slice.
  rewrite (clip_inside _ 0) by (pose proof (len_nonneg l); lia).
  rewrite removelast_firstn_len. simpl skipn. f_equal.
  unfold clip, len. simpl. lia.
Qed.

Lemma sum_from (a : list Z) : forall acc,
  fold_left Z.add a acc = acc + sum a.
Proof.
  unfold sum. induction a as [|x t IH]; intros acc; simpl; [lia|].
  rewrite IH, (IH x). lia.
Qed.

Lemma sum_cons x t : sum (x :: t) = x + sum t.
Proof. unfold sum at 1. simpl. apply sum_from. Qed.

Lemma sum_app a b : sum (a ++ b) = sum a + sum b.
Proof.
  induction a as [|x t IH]; simpl; [reflexivity|].
  rewrite !sum_cons, IH. lia.
Qed.

Lemma sum_repeat x k : sum (repeat x k) = Z.of_nat k * x.
Proof.
  induction k as [|k IH]; [reflexivity|].
  cbn [repeat]. rewrite sum_cons, IH. lia.
Qed.

Lemma firstn_plus {A} (l : list A) : forall a b,
  firstn (a + b) l = firstn a l ++ firstn b (skipn a l).
Proof.
  induction l as [|x t IH]; intros a b.
  - now rewrite skipn_nil, !firstn_nil.
  - destruct a as [|a]; simpl; [reflexivity|]. now rewrite IH.
Qed.

Lemma firstn_repeat {A} (x : A) : forall k n,
  (k <= n)%nat -> firstn k (repeat x n) = repeat x k.
Proof.
  induction k as [|k IH]; intros n Hk; [reflexivity|].
  destruct n as [|n]; [lia|]. simpl. f_equal. apply IH. lia.
Qed.

Lemma skipn_repeat {A} (x : A) : forall k n,
  skipn k (repeat x n) = repeat x (n - k).
Proof.
  induction k as [|k IH]; intros n.
  - now rewrite Nat.sub_0_r.
  - destruct n as [|n]; [reflexivity|]. simpl. apply IH.
Qed.

Lemma nth_repeat_lt {A} (x d : A) : forall n k,
  (k < n)%nat -> nth k (repeat x n) d = x.
Proof.
  induction n as [|n IH]; intros k Hk; [lia|].
  destruct k as [|k]; [reflexivity|]. simpl. apply IH. lia.
Qed.

Lemma map_repeat {A B} (f : A -> B) x k :
  map f (repeat x k) = repeat (f x) k.
Proof. induction k; simpl; congruence. Qed.

(** [a[-r:] += 1] on a constant array bumps exactly the last [r] entries. *)
Lemma iadd_from_repeat q (m r : nat) :
  (0 < r <= m)%nat ->
  iadd_from (repeat q m) (- Z.of_nat r) 1
  = repeat q (m - r) ++ repeat (q + 1) r.
Proof.
  intros Hr. unfold iadd_from, len. rewrite repeat_length.
  rewrite clip_from_end by lia.
  replace (Z.to_nat (Z.of_nat m + - Z.of_nat r)) with (m - r)%nat by lia.
  rewrite firstn_repeat by lia. rewrite skipn_repeat, map_repeat.
  do 2 f_equal. lia.
Qed.

(** The pairs [(start, end)] that [zip([0]+cumul[:-1], cumul)] yields. *)
Fixpoint bounds_from (acc : Z) (cs : list Z) : list (Z * Z) :=
  match cs with
  | [] => []
  | c :: t => (acc, acc + c) :: bounds_from (acc + c) t
  end.

Lemma combine_removelast {A} (a : A) (r : list A) :
  combine (removelast (a :: r)) r = combine (a :: removelast r) r.
Proof. destruct r as [|b r]; reflexivity. Qed.

Lemma combine_cumsum cs : forall acc,
  combine (acc :: removelast (cumsum_from acc cs)) (cumsum_from acc cs)
  = bounds_from acc cs.
Proof.
  induction cs as [|c t IH]; intros acc; [reflexivity|].
  cbn [cumsum_from bounds_from]. cbn [combine]. f_equal.
  rewrite combine_removelast. apply IH.
Qed.

Lemma concat_slices {A} (l : list A) cs : forall acc,
  0 <= acc -> Forall (fun c => 0 <= c) cs -> acc + sum cs <= len l ->
  concat (map (fun xy => slice l (fst xy) (snd xy)) (bounds_from acc cs))
  = firstn (Z.to_nat (sum cs)) (skipn (Z.to_nat acc) l).
Proof.
  induction cs as [|c t IH]; intros acc Hacc Hcs Hlen; [reflexivity|].
  inversion Hcs as [|? ? Hc Ht]; subst. rewrite sum_cons in *.
  assert (Hs : 0 <= sum t).
  { clear - Ht. induction Ht; [reflexivity|]. rewrite sum_cons. lia. }
  cbn [bounds_from map concat fst snd].
  rewrite IH by (assumption || lia). rewrite slice_inside by lia.
  replace (Z.to_nat (c + sum t)) with (Z.to_nat c + Z.to_nat (sum t))%nat
    by lia.
  rewrite firstn_plus, skipn_skipn. do 3 f_equal; lia.
Qed.

Lemma length_slices {A} (l : list A) cs : forall acc,
  0 <= acc -> Forall (fun c => 0 <= c) cs -> acc + sum cs <= len l ->
  map (fun r => len r)
      (map (fun xy => slice l (fst xy) (snd xy)) (bounds_from acc cs))
  = cs.
Proof.
  induction cs as [|c t IH]; intros acc Hacc Hcs Hlen; [reflexivity|].
  inversion Hcs as [|? ? Hc Ht]; subst. rewrite sum_cons in *.
  assert (Hs : 0 <= sum t).
  { clear - Ht. induction Ht; [reflexivity|]. rewrite sum_cons. lia. }
  cbn [bounds_from map fst snd]. rewrite IH by (assumption || lia). f_equal.
  rewrite slice_inside by lia. unfold len in *.
  rewrite length_firstn, length_skipn. lia.
Qed.

Lemma fold_max_le (a : list Z) hi : forall d,
  d <= hi -> Forall (fun v => v <= hi) a -> fold_left Z.max a d <= hi.
Proof.
  induction a as [|x t IH]; intros d Hd Ha; simpl; [exact Hd|].
  inversion Ha; subst. apply IH; [lia|assumption].
Qed.

Lemma fold_min_ge (a : list Z) lo : forall d,
  lo <= d -> Forall (fun v => lo <= v) a -> lo <= fold_left Z.min a d.
Proof.
  induction a as [|x t IH]; intros d Hd Ha; simpl; [exact Hd|].
  inversion Ha; subst. apply IH; [lia|assumption].
Qed.

End PyFacts.

(** *** What [mpi_distribute] computes *)

Section Distribute.
Import Py PyFacts.

(** The counts array in closed form: [avail_cores - rem] cores with
    [min_each] tasks, followed by [rem] cores with one more. *)
Definition counts_of (num_tasks avail_cores : Z) : list Z :=
  repeat (num_tasks / avail_cores)
         (Z.to_nat (avail_cores - num_tasks mod avail_cores))
  ++ repeat (num_tasks / avail_cores + 1)
            (Z.to_nat (num_tasks mod avail_cores)).

Lemma mpi_distribute_closed_form n m :
  1 <= m <= n ->
  mpi_distribute n m
  = inr (counts_of n m,
         map (fun xy => slice (range n) (fst xy) (snd xy))
             (bounds_from 0 (counts_of n m))).
Proof.
  intros H. unfold mpi_distribute.
  destruct (Z.leb_spec m n) as [_|]; [|lia]. cbn [negb].
  destruct (Z.eqb_spec m 0) as [|_]; [lia|].
  pose proof (Z.mod_pos_bound n m ltac:(lia)) as Hr.
  assert (Hcounts :
    (if 0 <? n mod m then iadd_from (replicate (n / m) m) (- (n mod m)) 1
     else replicate (n / m) m) = counts_of n m).
  { unfold counts_of, replicate. destruct (Z.ltb_spec 0 (n mod m)) as [Hp|Hz].
    - replace (- (n mod m)) with (- Z.of_nat (Z.to_nat (n mod m))) by lia.
      rewrite iadd_from_repeat by lia.
      replace (Z.to_nat m - Z.to_nat (n mod m))%nat
        with (Z.to_nat (m - n mod m)) by lia.
      reflexivity.
    - replace (n mod m) with 0 by lia. rewrite Z.sub_0_r. simpl.
      now rewrite app_nil_r. }
  rewrite Hcounts. unfold cumsum.
  rewrite slice_to_last, combine_cumsum. reflexivity.
Qed.

Lemma counts_of_sum n m : 1 <= m -> sum (counts_of n m) = n.
Proof.
  intros H. unfold counts_of. rewrite sum_app, !sum_repeat.
  pose proof (Z.mod_pos_bound n m ltac:(lia)).
  pose proof (Z.div_mod n m ltac:(lia)).
  rewrite !Z2Nat.id by lia. nia.
Qed.

Lemma counts_of_length n m :
  1 <= m -> len (counts_of n m) = m.
Proof.
  intros H. unfold counts_of, len.
  rewrite length_app, !repeat_length.
  pose proof (Z.mod_pos_bound n m ltac:(lia)). lia.
Qed.

Lemma counts_of_values n m v :
  In v (counts_of n m) -> v = n / m \/ v = n / m + 1.
Proof.
  unfold counts_of. rewrite in_app_iff.
  intros [Hv|Hv]; apply repeat_spec in Hv; auto.
Qed.

Lemma counts_of_nonneg n m :
  1 <= m -> 0 <= n -> Forall (fun c => 0 <= c) (counts_of n m).
Proof.
  intros Hm Hn. apply Forall_forall. intros v Hv.
  pose proof (Z.div_pos n m Hn ltac:(lia)).
  destruct (counts_of_values _ _ _ Hv); lia.
Qed.

Lemma counts_of_nth n m i :
  1 <= m -> 0 <= i < m ->
  nth (Z.to_nat i) (counts_of n m) 0
  = if i <? m - n mod m then n / m else n / m + 1.
Proof.
  intros Hm Hi. unfold counts_of.
  pose proof (Z.mod_pos_bound n m ltac:(lia)) as Hr.
  destruct (Z.ltb_spec i (m - n mod m)).
  - rewrite app_nth1 by (rewrite repeat_length; lia).
    apply nth_repeat_lt. lia.
  - rewrite app_nth2 by (rewrite repeat_length; lia).
    apply nth_repeat_lt. rewrite repeat_length. lia.
Qed.

Lemma cumsum_from_bounds cs : forall acc v,
  Forall (fun c => 0 <= c) cs -> In v (cumsum_from acc cs) ->
  acc <= v <= acc + sum cs.
Proof.
  induction cs as [|c t IH]; intros acc v Hcs Hv; [destruct Hv|].
  inversion Hcs as [|? ? Hc Ht]; subst. rewrite sum_cons.
  assert (Hs : 0 <= sum t).
  { clear - Ht. induction Ht; [reflexivity|]. rewrite sum_cons. lia. }
  destruct Hv as [<-|Hv]; [lia|]. specialize (IH _ _ Ht Hv). lia.
Qed.

(** Every count and every cumulative end index lies in [[0, num_tasks]]:
    the [int64] arithmetic of numpy never overflows here. *)
Lemma mpi_distribute_bounds n m :
  1 <= m <= n ->
  Forall (fun c => 0 <= c <= n) (counts_of n m)
  /\ Forall (fun e => 0 <= e <= n) (cumsum (counts_of n m)).
Proof.
  intros H.
  pose proof (counts_of_nonneg n m ltac:(lia) ltac:(lia)) as Hpos.
  pose proof (counts_of_sum n m ltac:(lia)) as Hsum.
  split; apply Forall_forall; intros v Hv.
  - split; [exact (proj1 (Forall_forall _ _) Hpos v Hv)|].
    apply in_split in Hv. destruct Hv as [l1 [l2 Heq]].
    rewrite Heq in Hsum, Hpos. rewrite sum_app, sum_cons in Hsum.
    apply Forall_app in Hpos. destruct Hpos as [H1 H2].
    inversion H2 as [|? ? _ H3]; subst.
    assert (Hnn : forall l, Forall (fun c => 0 <= c) l -> 0 <= sum l).
    { intros l Hl. induction Hl; [reflexivity|]. rewrite sum_cons. lia. }
    pose proof (Hnn _ H1). pose proof (Hnn _ H3). lia.
  - pose proof (cumsum_from_bounds _ 0 v Hpos Hv). lia.
Qed.

End Distribute.

(** C1. For [num_tasks >= avail_cores >= 1], [mpi_distribute] returns one
    count and one range per core; the counts sum to [num_tasks], the largest
    and the smallest count differ by at most one, each range has as many
    indices as its count, and the ranges concatenated in core order are
    exactly [0, 1, ..., num_tasks-1], every index occurring once. *)
Theorem mpi_distribute_partition (num_tasks avail_cores : Z) :
  1 <= avail_cores <= num_tasks ->
  exists num_each task_dist,
    mpi_distribute num_tasks avail_cores = inr (num_each, task_dist)
    /\ Py.len num_each = avail_cores
    /\ Py.len task_dist = avail_cores
    /\ Py.sum num_each = num_tasks
    /\ Py.maximum num_each - Py.minimum num_each <= 1
    /\ (forall a b, In a num_each -> In b num_each -> a - b <= 1)
    /\ map (fun r => Py.len r) task_dist = num_each
    /\ concat task_dist = Py.range num_tasks
    /\ (forall i, 0 <= i < num_tasks ->
          count_occ Z.eq_dec (concat task_dist) i = 1%nat).
Proof.
  intros H. rewrite mpi_distribute_closed_form by exact H.
  eexists _, _. split; [reflexivity|].
  pose proof (counts_of_nonneg num_tasks avail_cores ltac:(lia) ltac:(lia))
    as Hpos.
  pose proof (counts_of_sum num_tasks avail_cores ltac:(lia)) as Hsum.
  pose proof (counts_of_length num_tasks avail_cores ltac:(lia)) as Hlen.
  assert (Hlens :
    map (fun r => Py.len r)
      (map (fun xy => Py.slice (Py.range num_tasks) (fst xy) (snd xy))
         (PyFacts.bounds_from 0 (counts_of num_tasks avail_cores)))
    = counts_of num_tasks avail_cores).
  { apply PyFacts.length_slices; [lia|assumption|].
    rewrite PyFacts.len_range by lia. lia. }
  assert (Hcat :
    concat
      (map (fun xy => Py.slice (Py.range num_tasks) (fst xy) (snd xy))
         (PyFacts.bounds_from 0 (counts_of num_tasks avail_cores)))
    = Py.range num_tasks).
  { rewrite PyFacts.concat_slices;
      [|lia|assumption|rewrite PyFacts.len_range by lia; lia].
    rewrite Hsum. simpl skipn. apply firstn_all2.
    pose proof (PyFacts.len_range num_tasks ltac:(lia)) as Hr.
    unfold Py.len in Hr. lia. }
  assert (Hvals : forall v, In v (counts_of num_tasks avail_cores) ->
            num_tasks / avail_cores <= v <= num_tasks / avail_cores + 1).
  { intros v Hv. destruct (counts_of_values _ _ _ Hv); lia. }
  repeat split.
  - exact Hlen.
  - rewrite <- Hlen at 2. rewrite <- Hlens at 2. unfold Py.len.
    now rewrite !length_map.
  - exact Hsum.
  - assert (Hne : counts_of num_tasks avail_cores <> []).
    { intros E. rewrite E in Hlen. unfold Py.len in Hlen. simpl in Hlen. lia. }
    destruct (counts_of num_tasks avail_cores) as [|c0 cs] eqn:E;
      [congruence|].
    unfold Py.maximum, Py.minimum. cbn [hd].
    assert (Hc0 := Hvals c0 (or_introl eq_refl)).
    assert (Hmax : fold_left Z.max (c0 :: cs) c0
                   <= num_tasks / avail_cores + 1).
    { apply PyFacts.fold_max_le; [lia|].
      apply Forall_forall. intros v Hv. apply Hvals in Hv. lia. }
    assert (Hmin : num_tasks / avail_cores
                   <= fold_left Z.min (c0 :: cs) c0).
    { apply PyFacts.fold_min_ge; [lia|].
      apply Forall_forall. intros v Hv. apply Hvals in Hv. lia. }
    lia.
  - intros a b Ha Hb. apply Hvals in Ha, Hb. lia.
  - exact Hlens.
  - exact Hcat.
  - intros i Hi. rewrite Hcat.
    apply NoDup_count_occ'; [apply PyFacts.NoDup_range|].
    apply PyFacts.In_range. exact Hi.
Qed.

Lemma mpi_distribute_partition_witness :
  exists num_each task_dist,
    mpi_distribute 7 3 = inr (num_each, task_dist)
    /\ Py.len num_each = 3
    /\ Py.len task_dist = 3
    /\ Py.sum num_each = 7
    /\ Py.maximum num_each - Py.minimum num_each <= 1
    /\ (forall a b, In a num_each -> In b num_each -> a - b <= 1)
    /\ map (fun r => Py.len r) task_dist = num_each
    /\ concat task_dist = Py.range 7
    /\ (forall i, 0 <= i < 7 ->
          count_occ Z.eq_dec (concat task_dist) i = 1%nat).
Proof. apply (mpi_distribute_partition 7 3). lia. Defined.

(** C2. The [num_tasks mod avail_cores] extra tasks go to the last cores,
    one each: core [i] has [min_each] tasks when
    [i < avail_cores - rem] and [min_each + 1] otherwise, so core 0 never
    has an extra task.  [mpi_distribute(10, 4)] gives the counts
    [[2,2,3,3]] and [mpi_distribute(7, 3)] the ranges
    [[[0,1],[2,3],[4,5,6]]]. *)
Theorem mpi_distribute_remainder_last :
  (forall num_tasks avail_cores,
     1 <= avail_cores <= num_tasks ->
     exists num_each task_dist,
       mpi_distribute num_tasks avail_cores = inr (num_each, task_dist)
       /\ (forall i, 0 <= i < avail_cores ->
             nth (Z.to_nat i) num_each 0
             = if i <? avail_cores - num_tasks mod avail_cores
               then num_tasks / avail_cores
               else num_tasks / avail_cores + 1)
       /\ nth 0 num_each 0 = num_tasks / avail_cores)
  /\ (exists task_dist, mpi_distribute 10 4 = inr ([2; 2; 3; 3], task_dist))
  /\ (exists num_each,
        mpi_distribute 7 3 = inr (num_each, [[0; 1]; [2; 3]; [4; 5; 6]])).
Proof.
  split; [|split; eexists; reflexivity].
  intros n m H. rewrite mpi_distribute_closed_form by exact H.
  eexists _, _. split; [reflexivity|]. split.
  - intros i Hi. apply counts_of_nth; lia.
  - change 0%nat with (Z.to_nat 0). rewrite counts_of_nth by lia.
    pose proof (Z.mod_pos_bound n m ltac:(lia)).
    destruct (Z.ltb_spec 0 (m - n mod m)); [reflexivity|lia].
Qed.

(** *** The tasks of one core, and core counts that cannot be served *)

Section CoreTasks.
Import Py PyFacts.

Lemma map_seq_from (a len : nat) :
  map Z.of_nat (seq a len)
  = map (fun k => Z.of_nat a + k) (map Z.of_nat (seq 0 len)).
Proof.
  revert a. induction len as [|len IH]; intros a; [reflexivity|].
  cbn [seq map]. f_equal; [lia|].
  rewrite (IH (S a)), (IH 1%nat), !map_map. apply map_ext. intros k. lia.
Qed.

Lemma firstn_seq_min (k : nat) : forall a len,
  firstn k (seq a len) = seq a (Nat.min k len).
Proof.
  induction k as [|k IH]; intros a len; [reflexivity|].
  destruct len as [|len]; [reflexivity|].
  cbn [seq firstn Nat.min]. f_equal. apply IH.
Qed.

(** A slice of [range(n)] is a run of consecutive integers. *)
Lemma slice_range n x y :
  0 <= x <= y -> y <= n ->
  slice (range n) x y = map (fun k => x + k) (range (y - x)).
Proof.
  intros Hx Hy. rewrite slice_inside by (rewrite ?len_range; lia).
  unfold range. rewrite skipn_map, firstn_map, skipn_seq, firstn_seq_min.
  replace (Nat.min (Z.to_nat (y - x)) (Z.to_nat n - Z.to_nat x))
    with (Z.to_nat (y - x)) by lia.
  rewrite map_seq_from. cbn [Nat.add]. apply map_ext. intros k. lia.
Qed.

Lemma nth_bounds_from cs : forall acc i,
  (i < length cs)%nat ->
  nth i (bounds_from acc cs) (0, 0)
  = (acc + sum (firstn i cs), acc + sum (firstn (S i) cs)).
Proof.
  induction cs as [|c t IH]; intros acc i Hi; [cbn in Hi; lia|].
  destruct i as [|i].
  - cbn [bounds_from nth firstn]. rewrite sum_cons. cbn. f_equal; lia.
  - cbn [bounds_from nth]. rewrite IH by (cbn in Hi; lia).
    change (firstn (S i) (c :: t)) with (c :: firstn i t).
    change (firstn (S (S i)) (c :: t)) with (c :: firstn (S i) t).
    rewrite !sum_cons. f_equal; lia.
Qed.

Lemma sum_firstn_succ (l : list Z) : forall i,
  (i < length l)%nat ->
  sum (firstn (S i) l) = sum (firstn i l) + nth i l 0.
Proof.
  induction l as [|c t IH]; intros i Hi; [cbn in Hi; lia|].
  destruct i as [|i].
  - cbn [firstn nth]. rewrite sum_cons. unfold sum. cbn. lia.
  - change (firstn (S (S i)) (c :: t)) with (c :: firstn (S i) t).
    change (firstn (S i) (c :: t)) with (c :: firstn i t).
    cbn [nth]. rewrite !sum_cons, IH by (cbn in Hi; lia). lia.
Qed.

(** The tasks of the cores before core [i]: [min_each] each, and one more
    for every core from the first one that has an extra task. *)
Lemma sum_firstn_counts n m i :
  1 <= m -> 0 <= i <= m ->
  sum (firstn (Z.to_nat i) (counts_of n m))
  = i * (n / m) + Z.max 0 (i - (m - n mod m)).
Proof.
  intros Hm Hi. pose proof (Z.mod_pos_bound n m ltac:(lia)) as Hr.
  unfold counts_of. rewrite firstn_app, repeat_length, sum_app.
  destruct (Z.le_gt_cases i (m - n mod m)) as [Hle|Hgt].
  - rewrite firstn_repeat by lia.
    replace (Z.to_nat i - Z.to_nat (m - n mod m))%nat with 0%nat by lia.
    cbn [firstn]. rewrite sum_repeat, Z2Nat.id by lia.
    unfold sum. cbn [fold_left]. lia.
  - rewrite firstn_all2 by (rewrite repeat_length; lia).
    rewrite firstn_repeat by lia. rewrite !sum_repeat.
    rewrite Nat2Z.inj_sub, !Z2Nat.id by lia. lia.
Qed.

End CoreTasks.

(** Core [i] gets at least one task, and its tasks are consecutive: they
    start after the tasks of the cores before it, which have [min_each]
    tasks each and one more from the first core with an extra task on. *)
Theorem mpi_distribute_core_tasks (num_tasks avail_cores i : Z) :
  1 <= avail_cores <= num_tasks ->
  0 <= i < avail_cores ->
  exists num_each task_dist,
    mpi_distribute num_tasks avail_cores = inr (num_each, task_dist)
    /\ 1 <= nth (Z.to_nat i) num_each 0
    /\ nth (Z.to_nat i) task_dist []
       = map (fun k =>
                i * (num_tasks / avail_cores)
                + Z.max 0 (i - (avail_cores - num_tasks mod avail_cores))
                + k)
             (Py.range (nth (Z.to_nat i) num_each 0)).
Proof.
  intros H Hi. rewrite mpi_distribute_closed_form by exact H.
  eexists _, _. split; [reflexivity|].
  pose proof (Z.mod_pos_bound num_tasks avail_cores ltac:(lia)) as Hr.
  pose proof (counts_of_length num_tasks avail_cores ltac:(lia)) as Hlen.
  unfold Py.len in Hlen.
  assert (Hq : 1 <= num_tasks / avail_cores).
  { apply Z.div_le_lower_bound; lia. }
  assert (Hcount : 1 <= nth (Z.to_nat i) (counts_of num_tasks avail_cores) 0).
  { rewrite counts_of_nth by lia.
    destruct (i <? avail_cores - num_tasks mod avail_cores); lia. }
  split; [exact Hcount|].
  assert (Hnext : Py.sum (firstn (S (Z.to_nat i))
                            (counts_of num_tasks avail_cores))
                  = Py.sum (firstn (Z.to_nat i)
                              (counts_of num_tasks avail_cores))
                    + nth (Z.to_nat i) (counts_of num_tasks avail_cores) 0).
  { apply sum_firstn_succ. lia. }
  pose proof (sum_firstn_counts num_tasks avail_cores i ltac:(lia) ltac:(lia))
    as Hstart.
  pose proof (sum_firstn_counts num_tasks avail_cores (i + 1)
                ltac:(lia) ltac:(lia)) as Hend.
  replace (Z.to_nat (i + 1)) with (S (Z.to_nat i)) in Hend by lia.
  pose proof (counts_of_sum num_tasks avail_cores ltac:(lia)) as Hsum.
  (* the end of the range does not pass [num_tasks] *)
  assert (Hbound :
    Py.sum (firstn (S (Z.to_nat i)) (counts_of num_tasks avail_cores))
    <= num_tasks).
  { rewrite Hend.
    pose proof (Z.div_mod num_tasks avail_cores ltac:(lia)). nia. }
  erewrite nth_indep, map_nth
    by (rewrite length_map;
        assert (Hb : length (PyFacts.bounds_from 0
                               (counts_of num_tasks avail_cores))
                     = length (counts_of num_tasks avail_cores));
        [clear; generalize 0;
         induction (counts_of num_tasks avail_cores) as [|c t IH];
         intros acc; cbn; [reflexivity|now rewrite IH]
        |rewrite Hb; lia]).
  rewrite nth_bounds_from by lia. cbn [fst snd].
  rewrite slice_range by lia.
  rewrite Hnext, Hstart.
  match goal with
  | |- map _ (Py.range ?a) = map _ (Py.range ?b) =>
      replace a with b by lia
  end.
  apply map_ext. intros k. lia.
Qed.

Lemma mpi_distribute_core_tasks_witness :
  exists num_each task_dist,
    mpi_distribute 10 4 = inr (num_each, task_dist)
    /\ 1 <= nth (Z.to_nat 3) num_each 0
    /\ nth (Z.to_nat 3) task_dist []
       = map (fun k => 3 * (10 / 4) + Z.max 0 (3 - (4 - 10 mod 4)) + k)
             (Py.range (nth (Z.to_nat 3) num_each 0)).
Proof. apply (mpi_distribute_core_tasks 10 4 3); lia. Defined.

(** With no core the division [divmod(num_tasks, 0)] fails; with a negative
    number of cores nothing fails and nobody gets a task: the counts and
    the ranges are empty, whatever [num_tasks] is. *)
Theorem mpi_distribute_without_cores (num_tasks avail_cores : Z) :
  avail_cores <= 0 -> avail_cores <= num_tasks ->
  mpi_distribute num_tasks avail_cores
  = if avail_cores =? 0 then inl ZeroDivisionError else inr ([], []).
Proof.
  intros Hm Hn. unfold mpi_distribute.
  destruct (Z.leb_spec avail_cores num_tasks); [|lia]. cbn [negb].
  destruct (Z.eqb_spec avail_cores 0); [reflexivity|].
  pose proof (Z.mod_neg_bound num_tasks avail_cores ltac:(lia)) as Hr.
  destruct (Z.ltb_spec 0 (num_tasks mod avail_cores)); [lia|].
  unfold Py.replicate. replace (Z.to_nat avail_cores) with 0%nat by lia.
  reflexivity.
Qed.

Lemma mpi_distribute_without_cores_witness :
  mpi_distribute 5 (-2) = if -2 =? 0 then inl ZeroDivisionError
                          else inr ([], []).
Proof. apply (mpi_distribute_without_cores 5 (-2)); lia. Defined.

(** ** [Pipeline]

    A communicator is seen through [Get_rank] and [Get_size]. *)

Record comm : Type := { Get_rank : Z; Get_size : Z }.

(** [MPI_Comm_split]: every process of the communicator calls it with a
    color and a key; the callers of one color form the new communicator, and
    are ranked in it by key, equal keys by their old rank.  [calls r] is the
    [(color, key)] that old rank [r] passes. *)
Definition precedes (calls : Z -> Z * Z) (r me : Z) : bool :=
  (snd (calls r) <? snd (calls me))
  || ((snd (calls r) =? snd (calls me)) && (r <? me)).

Definition Split (c : comm) (calls : Z -> Z * Z) : comm :=
  let me := Get_rank c in
  let same := filter (fun r => fst (calls r) =? fst (calls me))
                     (Py.range (Get_size c)) in
  {| Get_rank := Py.len (filter (fun r => precedes calls r me) same);
     Get_size := Py.len same |}.

(** [a[i]] on a one-dimensional array. *)
Definition getitem (a : list Z) (i : Z) : result Z :=
  if (0 <=? i) && (i <? Py.len a) then inr (nth (Z.to_nat i) a 0)
  else if (- Py.len a <=? i) && (i <? 0)
       then inr (nth (Z.to_nat (Py.len a + i)) a 0)
       else inl IndexError.

(** [x in l] *)
Definition contains (l : list Z) (x : Z) : bool := existsb (Z.eqb x) l.

(** What a process leaves behind when [__init__] ends: the [Pipeline]
    object, or the exception that ended it ([sys.exit(1)] raises
    [SystemExit]). *)
Record Pipeline : Type := {
  wsize : Z;
  num_each : list Z;
  mcomm : comm;
  mrank : Z;
  msize : Z;
  num_mine : Z
}.

Inductive ended : Type :=
| Raised (e : exn)
| SystemExit (code : Z).

(** The communicator operations a process performs, in order. *)
Inductive comm_op : Type :=
| OpSplit (color key : Z).

(** The [(color, key)] that world rank [wrank] passes to [Split] in
    [__init__]; every process runs the same [__init__] with the same
    [num_tasks] and [stride]. *)
Definition split_call (wsize stride wrank : Z) : Z * Z :=
  if contains (Py.range3 0 wsize stride) wrank then (55, wrank)
  else (75, - wrank).

Definition Pipeline_init (MPI_Comm_World : comm) (num_tasks : Z)
  (stride : option Z) : list comm_op * (ended + Pipeline) :=
  let wcomm := MPI_Comm_World in
  let wrank := Get_rank wcomm in
  let wsize := Get_size wcomm in
  let checked : result Z :=
    match stride with
    | Some s =>
        if s =? 0 then inl ZeroDivisionError
        else if wsize mod s =? 0 then inr s else inl AssertionError
    | None => inr 1
    end in
  match checked with
  | inl e => ([], inl (Raised e))
  | inr stride =>
      let avail_cores := wsize / stride in
      let participants := Py.range3 0 wsize stride in
      match mpi_distribute num_tasks avail_cores with
      | inl e => ([], inl (Raised e))
      | inr (num_each, task_dist) =>
          if negb (Py.sum num_each =? num_tasks)
          then ([], inl (Raised AssertionError))
          else if contains participants wrank then
            let mcomm := Split wcomm (split_call wsize stride) in
            let mrank := Get_rank mcomm in
            let msize := Get_size mcomm in
            match getitem num_each mrank with
            | inl e => ([OpSplit 55 wrank], inl (Raised e))
            | inr num_mine =>
                ([OpSplit 55 wrank],
                 inr {| wsize := wsize; num_each := num_each;
                        mcomm := mcomm; mrank := mrank; msize := msize;
                        num_mine := num_mine |})
            end
          else ([OpSplit 75 (- wrank)], inl (SystemExit 1))
      end
  end.

Example Pipeline_init_8_2_rank4 :
  Pipeline_init {| Get_rank := 4; Get_size := 8 |} 10 (Some 2)
  = ([OpSplit 55 4],
     inr {| wsize := 8; num_each := [2; 2; 3; 3];
            mcomm := {| Get_rank := 2; Get_size := 4 |};
            mrank := 2; msize := 4; num_mine := 3 |}).
Proof. reflexivity. Qed.

Example Pipeline_init_8_2_rank5 :
  Pipeline_init {| Get_rank := 5; Get_size := 8 |} 10 (Some 2)
  = ([OpSplit 75 (-5)], inl (SystemExit 1)).
Proof. reflexivity. Qed.

Example Pipeline_init_8_3 :
  Pipeline_init {| Get_rank := 0; Get_size := 8 |} 10 (Some 3)
  = ([], inl (Raised AssertionError)).
Proof. reflexivity. Qed.

Example Pipeline_init_stride_0 :
  Pipeline_init {| Get_rank := 0; Get_size := 8 |} 10 (Some 0)
  = ([], inl (Raised ZeroDivisionError)).
Proof. reflexivity. Qed.

(** *** Striding and the communicator split *)

Section Striding.
Import Py PyFacts.

Lemma range_succ (k : nat) :
  range (Z.of_nat (S k)) = range (Z.of_nat k) ++ [Z.of_nat k].
Proof.
  unfold range. rewrite !Nat2Z.id, seq_S, map_app. reflexivity.
Qed.

Lemma contains_true l x : contains l x = true <-> In x l.
Proof.
  unfold contains. rewrite existsb_exists. split.
  - intros [y [Hy Hxy]]. apply Z.eqb_eq in Hxy. now subst.
  - intros Hx. exists x. split; [assumption|apply Z.eqb_refl].
Qed.

(** [wrank in range(0, wsize, stride)] holds exactly for the multiples of
    [stride] below [wsize]. *)
Lemma participants_spec w s r :
  0 < s -> 0 <= w ->
  contains (range3 0 w s) r = true <-> (0 <= r < w /\ r mod s = 0).
Proof.
  intros Hs Hw. rewrite contains_true. unfold range3.
  destruct (Z.ltb_spec 0 s) as [_|]; [|lia].
  rewrite in_map_iff. split.
  - intros [k [<- Hk]]. apply in_seq in Hk.
    assert (Hk' : Z.of_nat k < (w - 0 + s - 1) / s) by lia.
    pose proof (Z.mul_div_le (w - 0 + s - 1) s Hs).
    split; [nia|]. rewrite Z.add_0_l. apply Z_mod_mult.
  - intros [Hr Hm]. exists (Z.to_nat (r / s)).
    pose proof (Z.div_pos r s ltac:(lia) Hs).
    apply Z.div_exact in Hm; [|lia].
    split; [rewrite Z2Nat.id by lia; lia|].
    apply in_seq. split; [lia|].
    assert (r / s + 1 <= (w - 0 + s - 1) / s); [|lia].
    replace (r / s + 1) with ((r + 1 * s) / s)
      by (rewrite Z.div_add by lia; reflexivity).
    apply Z.div_le_mono; lia.
Qed.

Lemma ceil_div_succ k s :
  0 < s -> 0 <= k ->
  (k + 1 + s - 1) / s
  = (k + s - 1) / s + (if k mod s =? 0 then 1 else 0).
Proof.
  intros Hs Hk.
  pose proof (Z.div_mod k s ltac:(lia)) as Hd.
  pose proof (Z.mod_pos_bound k s Hs) as Hr.
  destruct (Z.eqb_spec (k mod s) 0) as [E|E].
  - replace (k + 1 + s - 1) with (s + k) by lia.
    replace (k + s - 1) with ((s - 1) + (k / s) * s) by lia.
    rewrite Z.div_add by lia.
    replace (s + k) with (0 + (k / s + 1) * s) by lia.
    rewrite Z.div_add by lia.
    rewrite (Z.div_small (s - 1) s) by lia. rewrite Z.div_0_l by lia. lia.
  - replace (k + 1 + s - 1) with (k mod s + (k / s + 1) * s) by lia.
    replace (k + s - 1) with ((k mod s - 1) + (k / s + 1) * s) by lia.
    rewrite !Z.div_add by lia.
    rewrite (Z.div_small (k mod s) s), (Z.div_small (k mod s - 1) s) by lia.
    lia.
Qed.

(** There are [ceil(k / s)] multiples of [s] in [range(k)]. *)
Lemma count_multiples s (k : nat) :
  0 < s ->
  len (filter (fun x => x mod s =? 0) (range (Z.of_nat k)))
  = (Z.of_nat k + s - 1) / s.
Proof.
  intros Hs. induction k as [|k IH].
  - simpl. unfold len. simpl. rewrite Z.div_small; lia.
  - rewrite range_succ, filter_app. unfold len in *.
    rewrite length_app, Nat2Z.inj_add, IH.
    replace (Z.of_nat (S k) + s - 1) with (Z.of_nat k + 1 + s - 1) by lia.
    rewrite ceil_div_succ by lia. f_equal. cbn [filter].
    destruct (Z.of_nat k mod s =? 0); reflexivity.
Qed.

Lemma filter_filter_swap {A} (f g : A -> bool) l :
  filter f (filter g l) = filter g (filter f l).
Proof.
  induction l as [|x t IH]; [reflexivity|]. simpl.
  destruct (f x) eqn:Ef, (g x) eqn:Eg; simpl; rewrite ?Ef, ?Eg, ?IH;
    reflexivity.
Qed.

Lemma filter_below_range (w : nat) r :
  0 <= r <= Z.of_nat w ->
  filter (fun x => x <? r) (range (Z.of_nat w)) = range r.
Proof.
  induction w as [|w IH]; intros Hr.
  - replace r with 0 by lia. reflexivity.
  - rewrite range_succ, filter_app. cbn [filter].
    destruct (Z.ltb_spec (Z.of_nat w) r).
    + replace r with (Z.of_nat (S w)) by lia.
      rewrite range_succ. f_equal.
      apply forallb_filter_id, forallb_forall. intros x Hx.
      apply In_range in Hx. apply Z.ltb_lt. lia.
    + rewrite app_nil_r. apply IH. lia.
Qed.

Lemma split_call_active w s r :
  0 < s -> 0 <= w -> 0 <= r < w -> r mod s = 0 ->
  split_call w s r = (55, r).
Proof.
  intros Hs Hw Hr Hm. unfold split_call.
  destruct (contains (range3 0 w s) r) eqn:E; [reflexivity|].
  assert (contains (range3 0 w s) r = true) by (apply participants_spec; auto).
  congruence.
Qed.

Lemma split_call_idle w s r :
  0 < s -> 0 <= w -> r mod s <> 0 -> split_call w s r = (75, - r).
Proof.
  intros Hs Hw Hm. unfold split_call.
  destruct (contains (range3 0 w s) r) eqn:E; [|reflexivity].
  apply participants_spec in E; auto. tauto.
Qed.

(** The communicator that an active process gets from
    [Split(color=55, key=wrank)]: rank [wrank / stride] among
    [wsize / stride] processes. *)
Lemma Split_active w s r :
  0 < s -> 0 <= r < w -> w mod s = 0 -> r mod s = 0 ->
  Split {| Get_rank := r; Get_size := w |} (split_call w s)
  = {| Get_rank := r / s; Get_size := w / s |}.
Proof.
  intros Hs Hr Hw Hm. unfold Split. cbn [Get_rank Get_size].
  rewrite (split_call_active w s r) by lia. cbn [fst snd].
  assert (Hsame :
    filter (fun r0 => fst (split_call w s r0) =? 55) (range w)
    = filter (fun x => x mod s =? 0) (range w)).
  { apply filter_ext_in. intros x Hx. apply In_range in Hx.
    destruct (Z.eqb_spec (x mod s) 0) as [E|E].
    - now rewrite split_call_active by lia.
    - now rewrite split_call_idle by lia. }
  rewrite Hsame. f_equal.
  - assert (Hprec :
      filter (fun r0 => precedes (split_call w s) r0 r)
             (filter (fun x => x mod s =? 0) (range w))
      = filter (fun x => x <? r) (filter (fun x => x mod s =? 0) (range w))).
    { apply filter_ext_in. intros x Hx. apply filter_In in Hx.
      destruct Hx as [Hx Hxm]. apply In_range in Hx. apply Z.eqb_eq in Hxm.
      unfold precedes. rewrite (split_call_active w s r) by lia.
      rewrite (split_call_active w s x) by lia. cbn [snd].
      destruct (Z.ltb_spec x r); [reflexivity|].
      now rewrite andb_false_r. }
    rewrite Hprec, filter_filter_swap.
    replace w with (Z.of_nat (Z.to_nat w)) at 1 by lia.
    rewrite filter_below_range by lia.
    replace r with (Z.of_nat (Z.to_nat r)) at 1 by lia.
    rewrite count_multiples by lia. rewrite Z2Nat.id by lia.
    apply Z.div_exact in Hm; [|lia].
    replace (r + s - 1) with ((s - 1) + (r / s) * s) by lia.
    rewrite Z.div_add by lia. rewrite Z.div_small by lia. lia.
  - replace w with (Z.of_nat (Z.to_nat w)) at 1 by lia.
    rewrite count_multiples by lia. rewrite Z2Nat.id by lia.
    apply Z.div_exact in Hw; [|lia].
    replace (w + s - 1) with ((s - 1) + (w / s) * s) by lia.
    rewrite Z.div_add by lia. rewrite Z.div_small by lia. lia.
Qed.

End Striding.

Lemma Pipeline_init_distributes wrank wsize num_tasks s :
  0 < s -> 0 <= wrank < wsize -> wsize mod s = 0 ->
  wsize / s <= num_tasks ->
  1 <= wsize / s
  /\ mpi_distribute num_tasks (wsize / s)
     = inr (counts_of num_tasks (wsize / s),
            map (fun xy => Py.slice (Py.range num_tasks) (fst xy) (snd xy))
                (PyFacts.bounds_from 0 (counts_of num_tasks (wsize / s))))
  /\ (Py.sum (counts_of num_tasks (wsize / s)) =? num_tasks) = true.
Proof.
  intros Hs Hr Hw Hn.
  assert (Hm : 1 <= wsize / s).
  { apply Z.div_exact in Hw; [|lia].
    pose proof (Z.div_pos wsize s ltac:(lia) Hs). nia. }
  split; [exact Hm|]. split.
  - apply mpi_distribute_closed_form. lia.
  - apply Z.eqb_eq. apply counts_of_sum. exact Hm.
Qed.

(** C5. With more cores than tasks [mpi_distribute] fails its assertion;
    inside [Pipeline.__init__] that happens (or the stride assertion fails
    first) before the process has called any communicator operation. *)
Theorem oversubscription_rejected :
  (forall num_tasks avail_cores,
     num_tasks < avail_cores ->
     mpi_distribute num_tasks avail_cores = inl AssertionError)
  /\ (forall world num_tasks stride,
        let s := match stride with Some s => s | None => 1 end in
        s <> 0 ->
        num_tasks < Get_size world / s ->
        Pipeline_init world num_tasks stride
        = ([], inl (Raised AssertionError))).
Proof.
  assert (H1 : forall n m, n < m -> mpi_distribute n m = inl AssertionError).
  { intros n m H. unfold mpi_distribute.
    destruct (Z.leb_spec m n); [lia|reflexivity]. }
  split; [exact H1|].
  intros world n stride s Hs Hn. unfold Pipeline_init.
  destruct stride as [s'|]; cbn in s; subst s.
  - destruct (Z.eqb_spec s' 0); [contradiction|].
    destruct (Get_size world mod s' =? 0); [|reflexivity].
    now rewrite H1.
  - now rewrite H1.
Qed.

(** C6. With an explicit [stride]: when [wsize mod stride] is not zero,
    [__init__] fails its assertion before any communicator operation; when
    [stride] divides [wsize], there are [wsize / stride] slots, a process is
    a participant exactly when its world rank is a multiple of [stride], and
    the participant of world rank [wrank] has rank [wrank / stride] in the
    new communicator of size [wsize / stride], so participants are ranked
    in ascending world-rank order; every other process splits with the
    idle color and exits. *)
Theorem Pipeline_init_striding (wrank wsize num_tasks stride : Z) :
  0 <= wrank < wsize ->
  stride <> 0 ->
  let world := {| Get_rank := wrank; Get_size := wsize |} in
  (wsize mod stride <> 0 ->
     Pipeline_init world num_tasks (Some stride)
     = ([], inl (Raised AssertionError)))
  /\ (0 < stride -> wsize mod stride = 0 ->
      wsize / stride <= num_tasks ->
      (contains (Py.range3 0 wsize stride) wrank = true
       <-> wrank mod stride = 0)
      /\ (wrank mod stride = 0 ->
          exists p,
            Pipeline_init world num_tasks (Some stride)
            = ([OpSplit 55 wrank], inr p)
            /\ Py.len (num_each p) = wsize / stride
            /\ msize p = wsize / stride
            /\ mrank p = wrank / stride
            /\ getitem (num_each p) (wrank / stride) = inr (num_mine p))
      /\ (wrank mod stride <> 0 ->
          Pipeline_init world num_tasks (Some stride)
          = ([OpSplit 75 (- wrank)], inl (SystemExit 1)))).
Proof.
  intros Hr Hs world. subst world. split.
  - intros Hm. unfold Pipeline_init. cbn [Get_size].
    destruct (Z.eqb_spec stride 0); [contradiction|].
    destruct (Z.eqb_spec (wsize mod stride) 0); [contradiction|reflexivity].
  - intros Hpos Hw Hn.
    destruct (Pipeline_init_distributes wrank wsize num_tasks stride
                Hpos Hr Hw Hn) as [Hm [Hdist Hsum]].
    assert (Hpart : contains (Py.range3 0 wsize stride) wrank = true
                    <-> wrank mod stride = 0).
    { rewrite participants_spec by lia. tauto. }
    split; [exact Hpart|]. split.
    + intros Hmod. unfold Pipeline_init. cbn [Get_size Get_rank].
      destruct (Z.eqb_spec stride 0); [contradiction|].
      rewrite Hw, Z.eqb_refl, Hdist, Hsum. cbn [negb].
      rewrite (proj2 Hpart Hmod).
      rewrite Split_active by assumption. cbn [Get_rank Get_size].
      assert (Hidx : 0 <= wrank / stride < wsize / stride).
      { split; [apply Z.div_pos; lia|].
        apply Z.div_lt_upper_bound; [lia|].
        apply Z.div_exact in Hw; [|lia]. lia. }
      assert (Hget : getitem (counts_of num_tasks (wsize / stride))
                       (wrank / stride)
                     = inr (nth (Z.to_nat (wrank / stride))
                              (counts_of num_tasks (wsize / stride)) 0)).
      { unfold getitem. rewrite counts_of_length by exact Hm.
        destruct (Z.leb_spec 0 (wrank / stride)); [|lia].
        destruct (Z.ltb_spec (wrank / stride) (wsize / stride)); [|lia].
        reflexivity. }
      rewrite Hget. eexists. split; [reflexivity|]. cbn.
      repeat split; auto using counts_of_length.
    + intros Hmod. unfold Pipeline_init. cbn [Get_size Get_rank].
      destruct (Z.eqb_spec stride 0); [contradiction|].
      rewrite Hw, Z.eqb_refl, Hdist, Hsum. cbn [negb].
      destruct (contains (Py.range3 0 wsize stride) wrank) eqn:E;
        [|reflexivity].
      exfalso. apply Hmod, Hpart. reflexivity.
Qed.

Lemma Pipeline_init_striding_witness :
  let world := {| Get_rank := 4; Get_size := 8 |} in
  (8 mod 2 <> 0 ->
     Pipeline_init world 10 (Some 2) = ([], inl (Raised AssertionError)))
  /\ (0 < 2 -> 8 mod 2 = 0 -> 8 / 2 <= 10 ->
      (contains (Py.range3 0 8 2) 4 = true <-> 4 mod 2 = 0)
      /\ (4 mod 2 = 0 ->
          exists p,
            Pipeline_init world 10 (Some 2) = ([OpSplit 55 4], inr p)
            /\ Py.len (num_each p) = 8 / 2
            /\ msize p = 8 / 2
            /\ mrank p = 4 / 2
            /\ getitem (num_each p) (4 / 2) = inr (num_mine p))
      /\ (4 mod 2 <> 0 ->
          Pipeline_init world 10 (Some 2)
          = ([OpSplit 75 (- 4)], inl (SystemExit 1)))).
Proof. apply (Pipeline_init_striding 4 8 10 2); lia. Defined.

(** *** More on [Pipeline.__init__] *)

(** The object a participant ends with. *)
Lemma Pipeline_init_participant wrank wsize num_tasks s :
  0 < s -> 0 <= wrank < wsize -> wsize mod s = 0 -> wrank mod s = 0 ->
  wsize / s <= num_tasks ->
  Pipeline_init {| Get_rank := wrank; Get_size := wsize |} num_tasks (Some s)
  = ([OpSplit 55 wrank],
     inr {| wsize := wsize;
            num_each := counts_of num_tasks (wsize / s);
            mcomm := {| Get_rank := wrank / s; Get_size := wsize / s |};
            mrank := wrank / s;
            msize := wsize / s;
            num_mine := nth (Z.to_nat (wrank / s))
                            (counts_of num_tasks (wsize / s)) 0 |}).
Proof.
  intros Hs Hr Hw Hmod Hn.
  destruct (Pipeline_init_distributes wrank wsize num_tasks s Hs Hr Hw Hn)
    as [Hm [Hdist Hsum]].
  unfold Pipeline_init. cbn [Get_size Get_rank].
  destruct (Z.eqb_spec s 0); [lia|].
  rewrite Hw, Z.eqb_refl, Hdist, Hsum. cbn [negb].
  assert (Hpart : contains (Py.range3 0 wsize s) wrank = true)
    by (apply participants_spec; lia).
  rewrite Hpart. rewrite Split_active by assumption.
  cbn [Get_rank Get_size].
  assert (Hidx : 0 <= wrank / s < wsize / s).
  { split; [apply Z.div_pos; lia|].
    apply Z.div_lt_upper_bound; [lia|].
    apply Z.div_exact in Hw; [|lia]. lia. }
  unfold getitem. rewrite counts_of_length by exact Hm.
  destruct (Z.leb_spec 0 (wrank / s)); [|lia].
  destruct (Z.ltb_spec (wrank / s) (wsize / s)); [|lia].
  reflexivity.
Qed.

Lemma map_nth_range (l : list Z) :
  map (fun k => nth (Z.to_nat k) l 0) (Py.range (Py.len l)) = l.
Proof.
  unfold Py.range, Py.len. rewrite Nat2Z.id, map_map.
  induction l as [|x t IH]; [reflexivity|].
  cbn [length seq map]. f_equal.
  rewrite <- seq_shift, map_map.
  etransitivity; [|exact IH].
  apply map_ext. intros k. now rewrite !Nat2Z.id.
Qed.

(** Without a stride every process of the world takes part, with its world
    rank as its rank, and has at least one task: [num_tasks / wsize] of
    them, or one more on the last [num_tasks mod wsize] ranks. *)
Theorem Pipeline_init_no_stride (wrank wsize num_tasks : Z) :
  0 <= wrank < wsize -> wsize <= num_tasks ->
  exists p,
    Pipeline_init {| Get_rank := wrank; Get_size := wsize |} num_tasks None
    = ([OpSplit 55 wrank], inr p)
    /\ mrank p = wrank
    /\ msize p = wsize
    /\ Py.len (num_each p) = wsize
    /\ num_mine p = (if wrank <? wsize - num_tasks mod wsize
                     then num_tasks / wsize else num_tasks / wsize + 1)
    /\ 1 <= num_mine p.
Proof.
  intros Hr Hn.
  assert (Hsome :
    Pipeline_init {| Get_rank := wrank; Get_size := wsize |} num_tasks None
    = Pipeline_init {| Get_rank := wrank; Get_size := wsize |} num_tasks
        (Some 1)).
  { unfold Pipeline_init. cbn [Get_size Get_rank Z.eqb].
    now rewrite Z.mod_1_r. }
  rewrite Hsome, Pipeline_init_participant;
    try rewrite Z.div_1_r; try apply Z.mod_1_r; try lia.
  eexists. split; [reflexivity|]. cbn [mrank msize num_each num_mine].
  rewrite !Z.div_1_r. rewrite counts_of_length, counts_of_nth by lia.
  repeat split.
  assert (1 <= num_tasks / wsize) by (apply Z.div_le_lower_bound; lia).
  destruct (wrank <? wsize - num_tasks mod wsize); lia.
Qed.

Lemma Pipeline_init_no_stride_witness :
  exists p,
    Pipeline_init {| Get_rank := 2; Get_size := 3 |} 7 None
    = ([OpSplit 55 2], inr p)
    /\ mrank p = 2
    /\ msize p = 3
    /\ Py.len (num_each p) = 3
    /\ num_mine p = (if 2 <? 3 - 7 mod 3 then 7 / 3 else 7 / 3 + 1)
    /\ 1 <= num_mine p.
Proof. apply (Pipeline_init_no_stride 2 3 7); lia. Defined.

Lemma Pipeline_init_negative (world : comm) (num_tasks stride : Z) :
  stride < 0 -> 1 <= Get_size world ->
  Pipeline_init world num_tasks (Some stride)
  = if (Get_size world mod stride =? 0) && (num_tasks =? 0)
    then ([OpSplit 75 (- Get_rank world)], inl (SystemExit 1))
    else ([], inl (Raised AssertionError)).
Proof.
  intros Hs Hw. unfold Pipeline_init.
  destruct (Z.eqb_spec stride 0); [lia|].
  destruct (Z.eqb_spec (Get_size world mod stride) 0) as [Hmod|Hmod];
    [|reflexivity].
  cbn [andb].
  assert (Havail : Get_size world / stride < 0).
  { apply Z.div_exact in Hmod; [|lia]. nia. }
  unfold mpi_distribute at 1.
  destruct (Z.leb_spec (Get_size world / stride) num_tasks) as [Hle|Hgt];
    cbn [negb].
  - destruct (Z.eqb_spec (Get_size world / stride) 0); [lia|].
    pose proof (Z.mod_neg_bound num_tasks (Get_size world / stride) Havail).
    destruct (Z.ltb_spec 0 (num_tasks mod (Get_size world / stride)));
      [lia|].
    unfold Py.replicate.
    replace (Z.to_nat (Get_size world / stride)) with 0%nat by lia.
    cbn [repeat Py.cumsum Py.cumsum_from combine map Py.sum fold_left].
    destruct (Z.eqb_spec 0 num_tasks) as [<-|Hne]; cbn [negb].
    + unfold Py.range3. destruct (Z.ltb_spec 0 stride); [lia|].
      reflexivity.
    + destruct (Z.eqb_spec num_tasks 0); [lia|reflexivity].
  - destruct (Z.eqb_spec num_tasks 0); [lia|reflexivity].
Qed.

(** A negative stride never gives a [Pipeline]: [range(0, wsize, stride)]
    is empty and [mpi_distribute] hands out nothing, so the process fails an
    assertion before any communicator operation, or, with no task at all
    and a stride that divides [wsize], splits as idle and exits. *)
Theorem Pipeline_init_negative_stride (world : comm) (num_tasks stride : Z) :
  stride < 0 -> 1 <= Get_size world ->
  Pipeline_init world num_tasks (Some stride)
  = if (Get_size world mod stride =? 0) && (num_tasks =? 0)
    then ([OpSplit 75 (- Get_rank world)], inl (SystemExit 1))
    else ([], inl (Raised AssertionError)).
Proof. exact (Pipeline_init_negative world num_tasks stride). Qed.

Lemma Pipeline_init_negative_stride_witness :
  Pipeline_init {| Get_rank := 1; Get_size := 4 |} 6 (Some (-2))
  = if (Get_size {| Get_rank := 1; Get_size := 4 |} mod (-2) =? 0)
       && (6 =? 0)
    then ([OpSplit 75 (- Get_rank {| Get_rank := 1; Get_size := 4 |})],
          inl (SystemExit 1))
    else ([], inl (Raised AssertionError)).
Proof.
  apply (Pipeline_init_negative_stride {| Get_rank := 1; Get_size := 4 |}
           6 (-2)); cbn; lia.
Defined.

(** [__init__] ends before [Split] only through the checks on [wsize],
    [stride] and [num_tasks], which are the same on every process of the
    world: either every process raises the same exception without having
    called [Split], or every process calls [Split] exactly once. *)
Theorem Pipeline_init_collective (world1 world2 : comm)
  (num_tasks : Z) (stride : option Z) :
  Get_size world1 = Get_size world2 ->
  (fst (Pipeline_init world1 num_tasks stride) = []
   /\ Pipeline_init world2 num_tasks stride
      = Pipeline_init world1 num_tasks stride
   /\ exists e, snd (Pipeline_init world1 num_tasks stride)
                = inl (Raised e))
  \/ (exists color1 key1 color2 key2,
        fst (Pipeline_init world1 num_tasks stride) = [OpSplit color1 key1]
        /\ fst (Pipeline_init world2 num_tasks stride)
           = [OpSplit color2 key2]).
Proof.
  intros Hsize. unfold Pipeline_init. rewrite <- Hsize.
  match goal with
  | |- context [match ?c with inl _ => _ | inr _ => _ end] =>
      destruct c as [e|s]
  end; [left; split; [reflexivity|split; [reflexivity|eexists; reflexivity]]|].
  destruct (mpi_distribute num_tasks (Get_size world1 / s))
    as [e|[counts task_dist]]; [left; split; [reflexivity|split; [reflexivity|eexists; reflexivity]]|].
  destruct (negb (Py.sum counts =? num_tasks)); [left; split; [reflexivity|split; [reflexivity|eexists; reflexivity]]|].
  right.
  destruct (contains (Py.range3 0 (Get_size world1) s) (Get_rank world1)),
           (contains (Py.range3 0 (Get_size world1) s) (Get_rank world2));
    repeat match goal with
           | |- context [match getitem ?a ?i with _ => _ end] =>
               destruct (getitem a i)
           end; cbn [fst]; eauto 10.
Qed.

Lemma Pipeline_init_collective_witness :
  (fst (Pipeline_init {| Get_rank := 0; Get_size := 8 |} 10 (Some 2)) = []
   /\ Pipeline_init {| Get_rank := 5; Get_size := 8 |} 10 (Some 2)
      = Pipeline_init {| Get_rank := 0; Get_size := 8 |} 10 (Some 2)
   /\ exists e, snd (Pipeline_init {| Get_rank := 0; Get_size := 8 |} 10
                       (Some 2))
                = inl (Raised e))
  \/ (exists color1 key1 color2 key2,
        fst (Pipeline_init {| Get_rank := 0; Get_size := 8 |} 10 (Some 2))
        = [OpSplit color1 key1]
        /\ fst (Pipeline_init {| Get_rank := 5; Get_size := 8 |} 10 (Some 2))
           = [OpSplit color2 key2]).
Proof.
  apply (Pipeline_init_collective {| Get_rank := 0; Get_size := 8 |}
           {| Get_rank := 5; Get_size := 8 |} 10 (Some 2)).
  reflexivity.
Defined.

(** The participants are the world ranks [0, stride, 2*stride, ...]; their
    numbers of tasks add up to [num_tasks], so the group as a whole has
    exactly the tasks that were asked for. *)
Theorem Pipeline_init_covers_tasks (wsize num_tasks stride : Z) :
  0 < stride -> 0 < wsize -> wsize mod stride = 0 ->
  wsize / stride <= num_tasks ->
  Py.sum
    (map (fun k =>
            match snd (Pipeline_init
                         {| Get_rank := k * stride; Get_size := wsize |}
                         num_tasks (Some stride)) with
            | inr p => num_mine p
            | inl _ => 0
            end)
         (Py.range (wsize / stride)))
  = num_tasks.
Proof.
  intros Hs Hw Hmod Hn.
  assert (Hm : 1 <= wsize / stride).
  { apply Z.div_exact in Hmod; [|lia].
    pose proof (Z.div_pos wsize stride ltac:(lia) Hs). nia. }
  transitivity (Py.sum (counts_of num_tasks (wsize / stride)));
    [|apply counts_of_sum; exact Hm].
  f_equal.
  etransitivity;
    [|apply (map_nth_range (counts_of num_tasks (wsize / stride)))].
  rewrite counts_of_length by exact Hm.
  apply map_ext_in. intros k Hk. apply PyFacts.In_range in Hk.
  rewrite Pipeline_init_participant; try assumption.
  - cbn [snd num_mine]. now rewrite Z.div_mul by lia.
  - apply Z.div_exact in Hmod; [|lia]. nia.
  - apply Z_mod_mult.
Qed.

Lemma Pipeline_init_covers_tasks_witness :
  Py.sum
    (map (fun k =>
            match snd (Pipeline_init
                         {| Get_rank := k * 2; Get_size := 8 |}
                         10 (Some 2)) with
            | inr p => num_mine p
            | inl _ => 0
            end)
         (Py.range (8 / 2)))
  = 10.
Proof. apply (Pipeline_init_covers_tasks 8 10 2); cbn; lia. Defined.

Lemma mpi_distribute_too_many_cores n m :
  n < m -> mpi_distribute n m = inl AssertionError.
Proof.
  intros H. unfold mpi_distribute.
  destruct (Z.leb_spec m n); [lia|reflexivity].
Qed.

(** With a positive stride [__init__] returns an object only where the
    checks pass and the process is a participant. *)
Lemma Pipeline_init_positive_stride wrank wsize num_tasks s ops p :
  0 < s -> 0 <= wrank < wsize ->
  Pipeline_init {| Get_rank := wrank; Get_size := wsize |} num_tasks (Some s)
  = (ops, inr p) ->
  wsize mod s = 0 /\ wrank mod s = 0 /\ wsize / s <= num_tasks.
Proof.
  intros Hs Hr H.
  destruct (Z.eq_dec (wsize mod s) 0) as [Hw|Hw].
  2:{ unfold Pipeline_init in H. cbn [Get_size Get_rank] in H.
      destruct (Z.eqb_spec s 0); [lia|].
      destruct (Z.eqb_spec (wsize mod s) 0); [contradiction|discriminate]. }
  destruct (Z_le_gt_dec (wsize / s) num_tasks) as [Hn|Hn].
  2:{ unfold Pipeline_init in H. cbn [Get_size Get_rank] in H.
      destruct (Z.eqb_spec s 0); [lia|].
      rewrite Hw, Z.eqb_refl, mpi_distribute_too_many_cores in H by lia.
      discriminate. }
  destruct (Z.eq_dec (wrank mod s) 0) as [Hm|Hm]; [auto|].
  destruct (Pipeline_init_distributes wrank wsize num_tasks s Hs Hr Hw Hn)
    as [_ [Hdist Hsum]].
  unfold Pipeline_init in H. cbn [Get_size Get_rank] in H.
  destruct (Z.eqb_spec s 0); [lia|].
  rewrite Hw, Z.eqb_refl, Hdist, Hsum in H. cbn [negb] in H.
  destruct (contains (Py.range3 0 wsize s) wrank) eqn:E; [|discriminate].
  apply participants_spec in E; [tauto|lia|lia].
Qed.

Lemma Pipeline_init_returns (world : comm) (num_tasks : Z)
  (stride : option Z) (ops : list comm_op) (p : Pipeline) :
  0 <= Get_rank world < Get_size world ->
  Pipeline_init world num_tasks stride = (ops, inr p) ->
  1 <= num_mine p
  /\ getitem (num_each p) (mrank p) = inr (num_mine p)
  /\ Py.sum (num_each p) = num_tasks
  /\ 0 <= mrank p < msize p
  /\ Py.len (num_each p) = msize p.
Proof.
  destruct world as [wrank wsize]. cbn [Get_rank Get_size].
  intros Hr H.
  assert (Hsome : exists s,
    0 < s
    /\ Pipeline_init {| Get_rank := wrank; Get_size := wsize |} num_tasks
         (Some s) = (ops, inr p)).
  { destruct stride as [s|].
    - destruct (Z.lt_trichotomy s 0) as [Hneg|[Hz|Hpos]].
      + rewrite Pipeline_init_negative in H by (cbn; lia).
        destruct ((Get_size {| Get_rank := wrank; Get_size := wsize |}
                   mod s =? 0) && (num_tasks =? 0)); discriminate.
      + subst s. discriminate H.
      + eauto.
    - exists 1. split; [lia|]. rewrite <- H.
      unfold Pipeline_init. cbn [Get_size Get_rank Z.eqb].
      now rewrite Z.mod_1_r. }
  destruct Hsome as [s [Hs Hinit]].
  destruct (Pipeline_init_positive_stride _ _ _ _ _ _ Hs Hr Hinit)
    as [Hw [Hm Hn]].
  rewrite Pipeline_init_participant in Hinit by assumption.
  inversion Hinit; subst. cbn [num_mine num_each mrank msize].
  assert (Havail : 1 <= wsize / s).
  { apply Z.div_exact in Hw; [|lia].
    pose proof (Z.div_pos wsize s ltac:(lia) Hs). nia. }
  assert (Hidx : 0 <= wrank / s < wsize / s).
  { split; [apply Z.div_pos; lia|].
    apply Z.div_lt_upper_bound; [lia|].
    apply Z.div_exact in Hw; [|lia]. lia. }
  assert (Hq : 1 <= num_tasks / (wsize / s))
    by (apply Z.div_le_lower_bound; lia).
  split; [|split; [|split; [|split]]].
  - rewrite counts_of_nth by lia.
    destruct (wrank / s <? wsize / s - num_tasks mod (wsize / s)); lia.
  - unfold getitem. rewrite counts_of_length by exact Havail.
    destruct (Z.leb_spec 0 (wrank / s)); [|lia].
    destruct (Z.ltb_spec (wrank / s) (wsize / s)); [|lia].
    reflexivity.
  - apply counts_of_sum. exact Havail.
  - exact Hidx.
  - apply counts_of_length. exact Havail.
Qed.

(** Whatever the stride, an object that [__init__] returns has at least
    one task, the one count of [num_each] at its rank; the counts are one
    per member of the group and add up to [num_tasks].  So the assertion on
    the sum and the indexing [num_each[self.mrank]] never fail. *)
Theorem Pipeline_init_num_mine (world : comm) (num_tasks : Z)
  (stride : option Z) (ops : list comm_op) (p : Pipeline) :
  0 <= Get_rank world < Get_size world ->
  Pipeline_init world num_tasks stride = (ops, inr p) ->
  1 <= num_mine p
  /\ getitem (num_each p) (mrank p) = inr (num_mine p)
  /\ Py.sum (num_each p) = num_tasks
  /\ 0 <= mrank p < msize p
  /\ Py.len (num_each p) = msize p.
Proof. exact (Pipeline_init_returns world num_tasks stride ops p). Qed.

Lemma Pipeline_init_num_mine_witness :
  1 <= num_mine {| wsize := 8; num_each := [2; 2; 3; 3];
                   mcomm := {| Get_rank := 2; Get_size := 4 |};
                   mrank := 2; msize := 4; num_mine := 3 |}
  /\ getitem [2; 2; 3; 3] 2 = inr 3
  /\ Py.sum [2; 2; 3; 3] = 10
  /\ 0 <= 2 < 4
  /\ Py.len [2; 2; 3; 3] = 4.
Proof.
  apply (Pipeline_init_num_mine {| Get_rank := 4; Get_size := 8 |} 10
           (Some 2) [OpSplit 55 4]
           {| wsize := 8; num_each := [2; 2; 3; 3];
              mcomm := {| Get_rank := 2; Get_size := 4 |};
              mrank := 2; msize := 4; num_mine := 3 |}).
  - cbn. lia.
  - reflexivity.
Defined.

(** ** [Pipeline.loop]

    [loop] calls the methods [_initialize], [task] and [_finish] of the
    object's class, which a subclass overrides.  A method takes the object
    and returns it, or raises; [task] is called with a list of positional
    arguments.  [TypeError] is what a call with the wrong number of
    arguments raises. *)

Inductive raised : Type :=
| Builtin (e : exn)
| TypeError.

Section Loop.
Context {E Obj : Type}.

Record methods : Type := {
  task : list Z -> Obj -> E + Obj;
  _initialize : Obj -> E + Obj;
  _finish : Obj -> E + Obj
}.

(** [for i in range(...): self.task(i)] *)
Fixpoint run_tasks (cls : methods) (indices : list Z) (self : Obj) : E + Obj :=
  match indices with
  | [] => inr self
  | i :: rest =>
      match task cls [i] self with
      | inl e => inl e
      | inr self => run_tasks cls rest self
      end
  end.

(** [loop()]; [get_num_mine] reads [self.num_mine], which is evaluated
    after [_initialize] has run. *)
Definition loop (cls : methods) (get_num_mine : Obj -> Z) (self : Obj) : E + Obj :=
  match _initialize cls self with
  | inl e => inl e
  | inr self =>
      match run_tasks cls (Py.range (get_num_mine self)) self with
      | inl e => inl e
      | inr self => _finish cls self
      end
  end.

End Loop.

Arguments methods : clear implicits.

(** The calls a run of [loop] makes, in order. *)
Inductive call : Type :=
| Call_initialize
| Call_task (args : list Z)
| Call_finish.

(** A method that records its call before it runs; the record of the calls
    survives an exception. *)
Definition recording {E Obj} (name : call) (m : Obj -> E + Obj)
  (sl : Obj * list call) : (E * list call) + (Obj * list call) :=
  match m (fst sl) with
  | inl e => inl (e, snd sl ++ [name])
  | inr s => inr (s, snd sl ++ [name])
  end.

Definition traced {E Obj} (cls : methods E Obj)
  : methods (E * list call) (Obj * list call) :=
  {| task := fun args => recording (Call_task args) (task cls args);
     _initialize := recording Call_initialize (_initialize cls);
     _finish := recording Call_finish (_finish cls) |}.

(** The methods of the base class: [task(self)], [_initialize(self)] and
    [_finish(self)] all do nothing, and [task] takes no argument. *)
Definition Pipeline_methods : methods raised Pipeline :=
  {| task := fun args self =>
               match args with
               | [] => inr self
               | _ :: _ => inl TypeError
               end;
     _initialize := fun self => inr self;
     _finish := fun self => inr self |}.

Lemma run_tasks_traced {E Obj} (cls : methods E Obj) (indices : list Z) :
  forall self log,
    match run_tasks (traced cls) indices (self, log) with
    | inr (s, log') =>
        run_tasks cls indices self = inr s
        /\ log' = log ++ map (fun i => Call_task [i]) indices
    | inl (e, log') =>
        run_tasks cls indices self = inl e
        /\ exists k, (1 <= k <= length indices)%nat
                     /\ log' = log ++ map (fun i => Call_task [i])
                                          (firstn k indices)
    end.
Proof.
  induction indices as [|i rest IH]; intros self log.
  - cbn. now rewrite app_nil_r.
  - cbn [run_tasks traced task]. unfold recording at 1. cbn [fst snd].
    destruct (task cls [i] self) as [e|s1] eqn:Et.
    + split; [reflexivity|]. exists 1%nat. cbn. split; [lia|reflexivity].
    + specialize (IH s1 (log ++ [Call_task [i]])).
      destruct (run_tasks (traced cls) rest (s1, log ++ [Call_task [i]]))
        as [[e log']|[s log']].
      * destruct IH as [Hrun [k [Hk Hlog]]]. split; [exact Hrun|].
        exists (S k). cbn [length firstn map]. split; [lia|].
        now rewrite Hlog, <- app_assoc.
      * destruct IH as [Hrun Hlog]. split; [exact Hrun|].
        cbn [map]. now rewrite Hlog, <- app_assoc.
Qed.

Lemma firstn_range (k : nat) (n : Z) :
  (k <= length (Py.range n))%nat ->
  firstn k (Py.range n) = Py.range (Z.of_nat k).
Proof.
  unfold Py.range. rewrite length_map, length_seq. intros Hk.
  rewrite firstn_map, firstn_seq_min, Nat2Z.id.
  now replace (Nat.min k (Z.to_nat n)) with k by lia.
Qed.

(** [loop] calls [_initialize], then [task(i)] for [i = 0, 1, ...,
    num_mine - 1] in this order, then [_finish], each once, and stops at
    the first call that raises: when a task raises, the later tasks and
    [_finish] are not called. *)
Theorem loop_calls {E Obj : Type} (cls : methods E Obj) (get_num_mine : Obj -> Z)
  (self : Obj) :
  match loop (traced cls) (fun sl => get_num_mine (fst sl)) (self, []) with
  | inr (self', log) =>
      loop cls get_num_mine self = inr self'
      /\ exists s1,
           _initialize cls self = inr s1
           /\ log = Call_initialize
                    :: map (fun i => Call_task [i])
                           (Py.range (get_num_mine s1))
                    ++ [Call_finish]
  | inl (e, log) =>
      loop cls get_num_mine self = inl e
      /\ (log = [Call_initialize]
          \/ exists s1,
               _initialize cls self = inr s1
               /\ ((exists n,
                      1 <= n <= get_num_mine s1
                      /\ log = Call_initialize
                               :: map (fun i => Call_task [i]) (Py.range n))
                   \/ log = Call_initialize
                            :: map (fun i => Call_task [i])
                                   (Py.range (get_num_mine s1))
                            ++ [Call_finish]))
  end.
Proof.
  unfold loop. cbn [traced _initialize _finish]. unfold recording at 1.
  cbn [fst snd app].
  destruct (_initialize cls self) as [e|s1] eqn:Ei.
  - split; [reflexivity|now left].
  - cbn [fst].
    pose proof (run_tasks_traced cls (Py.range (get_num_mine s1)) s1
                  [Call_initialize]) as Hrun.
    destruct (run_tasks (traced cls) (Py.range (get_num_mine s1))
                (s1, [Call_initialize])) as [[e log]|[s2 log]].
    + destruct Hrun as [Hrun [k [Hk Hlog]]]. rewrite Hrun.
      split; [reflexivity|]. right. exists s1. split; [reflexivity|].
      left. exists (Z.of_nat k). rewrite firstn_range in Hlog by lia.
      split; [|exact Hlog].
      unfold Py.range in Hk. rewrite length_map, length_seq in Hk. lia.
    + destruct Hrun as [Hrun Hlog]. rewrite Hrun.
      unfold recording. cbn [fst snd].
      destruct (_finish cls s2) as [e|s3].
      * split; [reflexivity|]. right. exists s1. split; [reflexivity|].
        right. rewrite Hlog. cbn [app]. reflexivity.
      * split; [reflexivity|]. exists s1. split; [reflexivity|].
        rewrite Hlog. reflexivity.
Qed.

(** On an object of the base class that [__init__] returned, [loop] raises
    [TypeError]: there is at least one task, and [self.task(0)] passes an
    argument to [task(self)], which takes none.  [_initialize] has been
    called, [_finish] never is. *)
Theorem Pipeline_loop_raises (world : comm) (num_tasks : Z)
  (stride : option Z) (ops : list comm_op) (p : Pipeline) :
  0 <= Get_rank world < Get_size world ->
  Pipeline_init world num_tasks stride = (ops, inr p) ->
  loop Pipeline_methods num_mine p = inl TypeError
  /\ loop (traced Pipeline_methods) (fun sl => num_mine (fst sl)) (p, [])
     = inl (TypeError, [Call_initialize; Call_task [0]]).
Proof.
  intros Hr Hinit.
  destruct (Pipeline_init_returns world num_tasks stride ops p Hr Hinit)
    as [Hmine _].
  unfold loop, traced, recording.
  cbn [Pipeline_methods task _initialize _finish fst snd app].
  unfold Py.range.
  replace (Z.to_nat (num_mine p)) with (S (Z.to_nat (num_mine p - 1)))
    by lia.
  cbn [seq map run_tasks]. split; reflexivity.
Qed.

Lemma Pipeline_loop_raises_witness :
  loop Pipeline_methods num_mine
    {| wsize := 8; num_each := [2; 2; 3; 3];
       mcomm := {| Get_rank := 2; Get_size := 4 |};
       mrank := 2; msize := 4; num_mine := 3 |}
  = inl TypeError
  /\ loop (traced Pipeline_methods) (fun sl => num_mine (fst sl))
       ({| wsize := 8; num_each := [2; 2; 3; 3];
           mcomm := {| Get_rank := 2; Get_size := 4 |};
           mrank := 2; msize := 4; num_mine := 3 |}, [])
     = inl (TypeError, [Call_initialize; Call_task [0]]).
Proof.
  apply (Pipeline_loop_raises {| Get_rank := 4; Get_size := 8 |} 10
           (Some 2) [OpSplit 55 4]).
  - cbn. lia.
  - reflexivity.
Defined.

(** ** [count_not_nones] and [is_only_one_not_none]

    The elements of the list are Python objects or [None]. *)

Definition count_not_nones {A} (a : list (option A)) : Z :=
  Py.sum (map (fun x => match x with Some _ => 1 | None => 0 end) a).

Definition is_only_one_not_none {A} (a : list (option A)) : bool :=
  if count_not_nones a =? 1 then true else false.

Example is_only_one_not_none_doc :
  is_only_one_not_none [@None Z; None; None] = false
  /\ is_only_one_not_none [None; Some 1; Some 1; Some 4] = false
  /\ is_only_one_not_none [Some 1; None; None; None] = true
  /\ is_only_one_not_none [None; None; Some 6; None] = true.
Proof. repeat split. Qed.

Lemma count_not_nones_cons {A} (x : option A) (t : list (option A)) :
  count_not_nones (x :: t)
  = (match x with Some _ => 1 | None => 0 end) + count_not_nones t.
Proof. unfold count_not_nones. cbn [map]. apply PyFacts.sum_cons. Qed.

Lemma count_not_nones_app {A} (a b : list (option A)) :
  count_not_nones (a ++ b) = count_not_nones a + count_not_nones b.
Proof. unfold count_not_nones. now rewrite map_app, PyFacts.sum_app. Qed.

Lemma count_not_nones_bounds {A} (a : list (option A)) :
  0 <= count_not_nones a <= Py.len a.
Proof.
  induction a as [|x t IH]; [cbn; lia|].
  rewrite count_not_nones_cons. unfold Py.len in *. cbn [length].
  destruct x; lia.
Qed.

Lemma count_not_nones_zero {A} (a : list (option A)) :
  count_not_nones a = 0 <-> Forall (fun x => x = None) a.
Proof.
  induction a as [|x t IH]; [split; [constructor|reflexivity]|].
  rewrite count_not_nones_cons.
  pose proof (count_not_nones_bounds t) as Hb. split.
  - intros H. destruct x; [lia|]. constructor; [reflexivity|].
    apply IH. lia.
  - intros H. inversion H as [|? ? Hx Ht]; subst.
    apply IH in Ht. lia.
Qed.

(** [count_not_nones] counts: it lies between 0 and the length, adds up
    over concatenation, does not depend on the order of the elements, is 0
    exactly when every element is [None] and the length exactly when none
    is. *)
Theorem count_not_nones_counts {A : Type} :
  (forall a : list (option A), 0 <= count_not_nones a <= Py.len a)
  /\ (forall a b : list (option A),
        count_not_nones (a ++ b) = count_not_nones a + count_not_nones b)
  /\ (forall a b : list (option A),
        Permutation a b -> count_not_nones a = count_not_nones b)
  /\ (forall a : list (option A),
        count_not_nones a = 0 <-> Forall (fun x => x = None) a)
  /\ (forall a : list (option A),
        count_not_nones a = Py.len a <-> Forall (fun x => x <> None) a).
Proof.
  split; [exact count_not_nones_bounds|].
  split; [exact count_not_nones_app|].
  split; [|split; [exact count_not_nones_zero|]].
  - intros a b Hp. induction Hp as [|x l l' _ IH|x y l|l l' l'' _ IH1 _ IH2].
    + reflexivity.
    + rewrite !count_not_nones_cons. lia.
    + rewrite !count_not_nones_cons. lia.
    + congruence.
  - intros a. induction a as [|x t IH]; [split; [constructor|reflexivity]|].
    rewrite count_not_nones_cons.
    pose proof (count_not_nones_bounds t) as Hb.
    unfold Py.len in *. cbn [length]. split.
    + intros H. destruct x as [v|]; [|lia].
      constructor; [discriminate|]. apply IH. lia.
    + intros H. inversion H as [|? ? Hx Ht]; subst.
      apply IH in Ht. destruct x; [lia|congruence].
Qed.

(** [is_only_one_not_none(a)] is [True] exactly when one element of [a] is
    not [None] and all the elements before and after it are; so it is
    [False] for the empty list and for a list of [None]s. *)
Theorem is_only_one_not_none_spec {A : Type} (a : list (option A)) :
  is_only_one_not_none a = true
  <-> exists before x after,
        a = before ++ Some x :: after
        /\ Forall (fun y => y = None) before
        /\ Forall (fun y => y = None) after.
Proof.
  unfold is_only_one_not_none. split.
  - destruct (Z.eqb_spec (count_not_nones a) 1) as [H|]; [|discriminate].
    intros _. induction a as [|x t IH]; [discriminate H|].
    rewrite count_not_nones_cons in H. destruct x as [v|].
    + exists [], v, t. split; [reflexivity|]. split; [constructor|].
      apply count_not_nones_zero. lia.
    + destruct IH as [before [x [after [-> [Hb Ha]]]]]; [lia|].
      exists (None :: before), x, after. split; [reflexivity|].
      split; [constructor; auto|exact Ha].
  - intros [before [x [after [-> [Hb Ha]]]]].
    rewrite count_not_nones_app, count_not_nones_cons.
    apply count_not_nones_zero in Hb, Ha. rewrite Hb, Ha. reflexivity.
Qed.

(** ** MPI point-to-point messaging

    A process is a program that returns, raises, sends or receives.  [comm.send]
    carries a pickled Python object (here always an integer),
    [comm.Send] a buffer of float64 values.  A standard-mode send is
    buffered: the message joins the messages in flight.  A receive names its
    source and tag and takes the earliest message in flight from that source
    to the receiver with that tag (messages between two processes do not
    overtake each other); it blocks while there is none. *)

Section MPI.
Context {R : Type}.

Inductive payload : Type :=
| PyObj (v : Z)
| Buffer (data : list R).

Record message : Type := {
  msg_src : Z;
  msg_dst : Z;
  msg_tag : Z;
  msg_body : payload
}.

Inductive prog (A : Type) : Type :=
| Ret (a : A)
| Raise (e : exn)
| Send (dest tag : Z) (b : payload) (k : prog A)
| Recv (source tag : Z) (k : payload -> prog A).

Arguments Ret {A} a.
Arguments Raise {A} e.
Arguments Send {A} dest tag b k.
Arguments Recv {A} source tag k.

Fixpoint bind {A B} (p : prog A) (f : A -> prog B) : prog B :=
  match p with
  | Ret a => f a
  | Raise e => Raise e
  | Send dest tag b k => Send dest tag b (bind k f)
  | Recv source tag k => Recv source tag (fun x => bind (k x) f)
  end.

(** [for x in xs: s = body(x, s)] *)
Fixpoint for_each {X S} (xs : list X) (body : X -> S -> prog S) (s : S)
  : prog S :=
  match xs with
  | [] => Ret s
  | x :: t => bind (body x s) (for_each t body)
  end.

(** Lifting a computation that may raise. *)
Definition lift {A} (r : result A) : prog A :=
  match r with inl e => Raise e | inr a => Ret a end.

(** The earliest message in flight from [source] to [me] with [tag]. *)
Fixpoint take (source me tag : Z) (net : list message)
  : option (payload * list message) :=
  match net with
  | [] => None
  | m :: rest =>
      if (msg_src m =? source) && (msg_dst m =? me) && (msg_tag m =? tag)
      then Some (msg_body m, rest)
      else match take source me tag rest with
           | Some (b, rest') => Some (b, m :: rest')
           | None => None
           end
  end.

Fixpoint update {X} (i : nat) (x : X) (l : list X) : list X :=
  match l, i with
  | [], _ => []
  | _ :: t, O => x :: t
  | y :: t, S j => y :: update j x t
  end.

(** The processes of a communicator, by rank, and the messages in flight,
    oldest first. *)
Record config (A : Type) : Type := {
  procs : list (prog A);
  net : list message
}.

Arguments procs {A} c.
Arguments net {A} c.

Inductive step {A} : config A -> config A -> Prop :=
| step_send i ps nt dest tag b k :
    nth_error ps i = Some (Send dest tag b k) ->
    step {| procs := ps; net := nt |}
         {| procs := update i k ps;
            net := nt ++ [{| msg_src := Z.of_nat i; msg_dst := dest;
                             msg_tag := tag; msg_body := b |}] |}
| step_recv i ps nt source tag k b nt' :
    nth_error ps i = Some (Recv source tag k) ->
    take source (Z.of_nat i) tag nt = Some (b, nt') ->
    step {| procs := ps; net := nt |}
         {| procs := update i (k b) ps; net := nt' |}.

Inductive steps {A} : config A -> config A -> Prop :=
| steps_refl c : steps c c
| steps_step c1 c2 c3 : step c1 c2 -> steps c2 c3 -> steps c1 c3.

(** *** Processes that only send *)

(** The messages [(dest, tag, body)] a program sends and how it ends, when
    it never receives. *)
Fixpoint trace_of {A} (p : prog A)
  : option (list (Z * Z * payload) * result A) :=
  match p with
  | Ret a => Some ([], inr a)
  | Raise e => Some ([], inl e)
  | Send dest tag b k =>
      match trace_of k with
      | Some (ms, r) => Some ((dest, tag, b) :: ms, r)
      | None => None
      end
  | Recv _ _ _ => None
  end.

(** *** The gathering process

    Rank 0 only receives.  Its run against one queue of [(tag, body)] per
    source, where every receive must find its message at the head of the
    source's queue. *)

Definition queue : Type := list (Z * payload).

Definition pop (q : Z -> queue) (s : Z) (rest : queue) : Z -> queue :=
  fun s' => if s' =? s then rest else q s'.

Fixpoint run_gather {A} (p : prog A) (q : Z -> queue)
  : option (result A * (Z -> queue)) :=
  match p with
  | Ret a => Some (inr a, q)
  | Raise e => Some (inl e, q)
  | Send _ _ _ _ => None
  | Recv s t k =>
      match q s with
      | (t', b) :: rest =>
          if t' =? t then run_gather (k b) (pop q s rest) else None
      | [] => None
      end
  end.

(** What source [s] has in flight to rank 0, and what it will still send
    there. *)
Definition inflight (s : Z) (nt : list message) : queue :=
  map (fun m => (msg_tag m, msg_body m))
      (filter (fun m => (msg_src m =? s) && (msg_dst m =? 0)) nt).

Definition to_root (ms : list (Z * Z * payload)) : queue :=
  map (fun m => (snd (fst m), snd m))
      (filter (fun m => fst (fst m) =? 0) ms).

Definition pending {A} (p : prog A) : queue :=
  match trace_of p with
  | Some (ms, _) => to_root ms
  | None => []
  end.

Definition outbox {A} (ps : list (prog A)) (nt : list message) (s : Z)
  : queue :=
  inflight s nt
  ++ (if s <=? 0 then []
      else match nth_error ps (Z.to_nat s) with
           | Some p => pending p
           | None => []
           end).

(** *** Facts about the model *)

Lemma bind_Ret_l {A B} (a : A) (f : A -> prog B) : bind (Ret a) f = f a.
Proof. reflexivity. Qed.

Lemma bind_lift_inr {A B} (a : A) (f : A -> prog B) :
  bind (lift (inr a)) f = f a.
Proof. reflexivity. Qed.

Lemma run_gather_bind {A B} (p : prog A) (f : A -> prog B) : forall q,
  run_gather (bind p f) q
  = match run_gather p q with
    | Some (inr a, q') => run_gather (f a) q'
    | Some (inl e, q') => Some (inl e, q')
    | None => None
    end.
Proof.
  induction p as [a|e|dest tag b k IH|source tag k IH]; intros q;
    cbn [bind run_gather]; try reflexivity.
  destruct (q source) as [|[t' b] rest]; [reflexivity|].
  destruct (t' =? tag); [apply IH|reflexivity].
Qed.

(** The run depends on the queues pointwise. *)
Lemma run_gather_ext {A} (p : prog A) : forall q1 q2 r q1',
  (forall s, q1 s = q2 s) ->
  run_gather p q1 = Some (r, q1') ->
  exists q2', run_gather p q2 = Some (r, q2') /\ forall s, q1' s = q2' s.
Proof.
  induction p as [a|e|dest tag b k IH|source tag k IH];
    intros q1 q2 r q1' Hq Hrun; cbn [run_gather] in *.
  - inversion Hrun; subst. eauto.
  - inversion Hrun; subst. eauto.
  - discriminate.
  - rewrite <- Hq. destruct (q1 source) as [|[t' b] rest]; [discriminate|].
    destruct (t' =? tag); [|discriminate].
    eapply IH; [|exact Hrun]. intros s. unfold pop.
    destruct (s =? source); [reflexivity|apply Hq].
Qed.

Lemma inflight_app s nt1 nt2 :
  inflight s (nt1 ++ nt2) = inflight s nt1 ++ inflight s nt2.
Proof. unfold inflight. now rewrite filter_app, map_app. Qed.

(** A message at the head of a source's queue is the one a receive with its
    tag takes. *)
Lemma take_inflight_head s t b qs : forall nt,
  inflight s nt = (t, b) :: qs ->
  exists nt',
    take s 0 t nt = Some (b, nt')
    /\ inflight s nt' = qs
    /\ forall s', s' <> s -> inflight s' nt' = inflight s' nt.
Proof.
  induction nt as [|m rest IH]; intros Hq; [discriminate|].
  unfold inflight in Hq. cbn [filter] in Hq. cbn [take].
  destruct ((msg_src m =? s) && (msg_dst m =? 0)) eqn:E.
  - cbn [map] in Hq. inversion Hq; subst. rewrite Z.eqb_refl. cbn [andb].
    eexists. split; [reflexivity|]. split; [reflexivity|].
    intros s' Hs'. unfold inflight. cbn [filter].
    apply andb_true_iff in E. destruct E as [E1 _]. apply Z.eqb_eq in E1.
    destruct (Z.eqb_spec (msg_src m) s'); [congruence|reflexivity].
  - cbn [andb]. destruct (IH Hq) as [nt' [Ht [Hi Ho]]].
    rewrite Ht. eexists. split; [reflexivity|]. split.
    + unfold inflight. cbn [filter]. rewrite E. exact Hi.
    + intros s' Hs'. unfold inflight in *. cbn [filter].
      destruct ((msg_src m =? s') && (msg_dst m =? 0)); cbn [map];
        rewrite (Ho s' Hs'); reflexivity.
Qed.

Lemma take_some_inflight s t : forall nt b nt',
  take s 0 t nt = Some (b, nt') -> inflight s nt <> [].
Proof.
  induction nt as [|m rest IH]; intros b nt' Ht; [discriminate|].
  cbn [take] in Ht. unfold inflight. cbn [filter].
  destruct ((msg_src m =? s) && (msg_dst m =? 0)) eqn:E; [discriminate|].
  cbn [andb] in Ht.
  destruct (take s 0 t rest) as [[b' rest']|] eqn:Et; [|discriminate].
  apply (IH _ _ eq_refl).
Qed.

Lemma nth_error_update_eq {X} (x : X) : forall l i y,
  nth_error l i = Some y -> nth_error (update i x l) i = Some x.
Proof.
  induction l as [|z t IH]; intros [|i] y H; try discriminate;
    [reflexivity|]. simpl in *. eapply IH; eauto.
Qed.

Lemma nth_error_update_neq {X} (x : X) : forall l i j,
  i <> j -> nth_error (update i x l) j = nth_error l j.
Proof.
  induction l as [|z t IH]; intros [|i] [|j] H; try reflexivity;
    [congruence|]. simpl. apply IH. congruence.
Qed.

Lemma update_update {X} (x y : X) : forall l i,
  update i x (update i y l) = update i x l.
Proof.
  induction l as [|z t IH]; intros [|i]; try reflexivity.
  simpl. now rewrite IH.
Qed.

Lemma update_app_head {X} (x y : X) : forall l1 l2,
  update (length l1) x (l1 ++ y :: l2) = l1 ++ x :: l2.
Proof.
  induction l1 as [|z t IH]; intros l2; [reflexivity|].
  simpl. now rewrite IH.
Qed.

Lemma steps_trans {A} (c1 c2 c3 : config A) :
  steps c1 c2 -> steps c2 c3 -> steps c1 c3.
Proof.
  induction 1 as [|a b c Hab Hbc IH]; intros H; [exact H|].
  eapply steps_step; [exact Hab|]. apply IH, H.
Qed.

(** *** Every schedule gives the gatherer the same result *)

Definition followers_send {A} (ps : list (prog A)) : Prop :=
  forall i p, (0 < i)%nat -> nth_error ps i = Some p -> trace_of p <> None.

(** The invariant of a gather: ranks above 0 only send, and rank 0, run
    against what each source has in flight followed by what it will still
    send, ends with [r]. *)
Definition gather_inv {A} (r : result A) (c : config A) : Prop :=
  followers_send (procs c)
  /\ exists p0 qf,
       nth_error (procs c) 0 = Some p0
       /\ run_gather p0 (outbox (procs c) (net c)) = Some (r, qf).

Lemma pending_Send {A} dest tag b (k : prog A) :
  trace_of k <> None ->
  pending (Send dest tag b k)
  = (if dest =? 0 then [(tag, b)] else []) ++ pending k.
Proof.
  intros Hk. unfold pending. cbn [trace_of].
  destruct (trace_of k) as [[ms r]|]; [|congruence].
  unfold to_root. cbn [filter fst snd].
  destruct (dest =? 0); reflexivity.
Qed.

Lemma step_gather_inv {A} (r : result A) c c' :
  gather_inv r c -> step c c' -> gather_inv r c'.
Proof.
  intros [Hf [p0 [qf [Hp0 Hrun]]]] Hstep.
  destruct Hstep as [i ps nt dest tag b k Hi|i ps nt source tag k b nt' Hi Ht];
    unfold gather_inv; cbn [procs net] in *.
  - (* a send *)
    destruct i as [|i].
    { rewrite Hp0 in Hi. inversion Hi; subst. discriminate Hrun. }
    assert (Hk : trace_of k <> None).
    { pose proof (Hf (S i) _ ltac:(lia) Hi) as H. cbn [trace_of] in H.
      destruct (trace_of k); congruence. }
    split.
    + intros j p Hj Hp. destruct (Nat.eq_dec (S i) j) as [<-|Hne].
      * rewrite (nth_error_update_eq _ _ _ _ Hi) in Hp. congruence.
      * rewrite nth_error_update_neq in Hp by assumption. eapply Hf; eauto.
    + assert (Hext : forall s,
        outbox ps nt s
        = outbox (update (S i) k ps)
            (nt ++ [{| msg_src := Z.of_nat (S i); msg_dst := dest;
                       msg_tag := tag; msg_body := b |}]) s).
      { intros s. unfold outbox. rewrite inflight_app, <- app_assoc. f_equal.
        unfold inflight at 1. cbn [filter msg_src msg_dst].
        destruct (Z.eqb_spec (Z.of_nat (S i)) s) as [<-|Hs].
        - destruct (Z.leb_spec (Z.of_nat (S i)) 0); [lia|].
          rewrite Nat2Z.id, Hi, (nth_error_update_eq _ _ _ _ Hi).
          rewrite pending_Send by exact Hk. cbn [andb].
          destruct (dest =? 0); reflexivity.
        - cbn [andb map app]. destruct (s <=? 0) eqn:Es; [reflexivity|].
          rewrite nth_error_update_neq by lia. reflexivity. }
      destruct (run_gather_ext p0 _ _ _ _ Hext Hrun) as [q2 [Hq2 _]].
      exists p0, q2. split; [|exact Hq2].
      rewrite nth_error_update_neq by lia. exact Hp0.
  - (* a receive *)
    destruct i as [|i].
    2:{ exfalso. apply (Hf (S i) _ ltac:(lia) Hi). reflexivity. }
    rewrite Hp0 in Hi. inversion Hi; subst p0. clear Hi.
    split.
    { intros j p Hj Hp. rewrite nth_error_update_neq in Hp by lia.
      eapply Hf; eauto. }
    cbn [run_gather] in Hrun. change (Z.of_nat 0) with 0 in Ht.
    pose proof (take_some_inflight _ _ _ _ _ Ht) as Hne.
    destruct (inflight source nt) as [|[t1 b1] qs] eqn:Eq; [congruence|].
    destruct (take_inflight_head _ _ _ _ _ Eq) as [nt1 [Ht1 [Hq1 Ho1]]].
    unfold outbox at 1 in Hrun. rewrite Eq in Hrun.
    cbn [app] in Hrun. destruct (Z.eqb_spec t1 tag) as [->|]; [|discriminate].
    rewrite Ht in Ht1. inversion Ht1; subst b1 nt1. clear Ht1.
    assert (Hext : forall s,
      pop (outbox ps nt) source
          (qs ++ (if source <=? 0 then []
                  else match nth_error ps (Z.to_nat source) with
                       | Some p => pending p
                       | None => []
                       end)) s
      = outbox (update 0 (k b) ps) nt' s).
    { intros s. unfold pop, outbox.
      destruct (Z.eqb_spec s source) as [->|Hs].
      - rewrite Hq1. f_equal. destruct (source <=? 0) eqn:Es; [reflexivity|].
        rewrite nth_error_update_neq by (apply Z.leb_gt in Es; lia).
        reflexivity.
      - rewrite (Ho1 s Hs). f_equal.
        destruct (s <=? 0) eqn:Es; [reflexivity|].
        rewrite nth_error_update_neq by (apply Z.leb_gt in Es; lia).
        reflexivity. }
    destruct (run_gather_ext (k b) _ _ _ _ Hext Hrun) as [q2 [Hq2 _]].
    exists (k b), q2. split; [|exact Hq2].
    destruct ps; [discriminate|reflexivity].
Qed.

Lemma steps_gather_inv {A} (r : result A) c c' :
  gather_inv r c -> steps c c' -> gather_inv r c'.
Proof.
  intros Hinv Hsteps. induction Hsteps as [|c1 c2 c3 H12 _ IH];
    [exact Hinv|]. apply IH. eapply step_gather_inv; eauto.
Qed.

(** How a process that only sends ends. *)
Definition finish {A} (p : prog A) : prog A :=
  match trace_of p with
  | Some (_, r) => lift r
  | None => p
  end.

Lemma update_same {X} : forall (l : list X) i x,
  nth_error l i = Some x -> update i x l = l.
Proof.
  induction l as [|z t IH]; intros [|i] x H; try discriminate.
  - simpl in *. congruence.
  - simpl in *. f_equal. now apply IH.
Qed.

Lemma flush {A} (p : prog A) : forall ps nt i,
  trace_of p <> None -> nth_error ps i = Some p ->
  exists nt', steps {| procs := ps; net := nt |}
                    {| procs := update i (finish p) ps; net := nt' |}.
Proof.
  induction p as [a|e|dest tag b k IH|source tag k IH];
    intros ps nt i Hp Hi.
  - exists nt. unfold finish. cbn. rewrite update_same by exact Hi.
    apply steps_refl.
  - exists nt. unfold finish. cbn. rewrite update_same by exact Hi.
    apply steps_refl.
  - assert (Hk : trace_of k <> None).
    { cbn [trace_of] in Hp. destruct (trace_of k); congruence. }
    destruct (IH (update i k ps)
                 (nt ++ [{| msg_src := Z.of_nat i; msg_dst := dest;
                            msg_tag := tag; msg_body := b |}]) i Hk
                 (nth_error_update_eq _ _ _ _ Hi)) as [nt' Hsteps].
    exists nt'. eapply steps_step; [apply step_send; exact Hi|].
    rewrite update_update in Hsteps.
    replace (finish (Send dest tag b k)) with (finish k); [exact Hsteps|].
    unfold finish. cbn [trace_of].
    destruct (trace_of k) as [[ms r]|]; [reflexivity|congruence].
  - cbn in Hp. congruence.
Qed.

Lemma flush_all {A} (p0 : prog A) : forall todo done nt,
  (forall p, In p todo -> trace_of p <> None) ->
  exists nt', steps {| procs := p0 :: done ++ todo; net := nt |}
                    {| procs := p0 :: done ++ map finish todo; net := nt' |}.
Proof.
  induction todo as [|p t IH]; intros done nt Hall.
  - exists nt. apply steps_refl.
  - destruct (flush p (p0 :: done ++ p :: t) nt (S (length done))
                (Hall p (or_introl eq_refl))) as [nt1 H1].
    { cbn [nth_error]. rewrite nth_error_app2 by lia.
      now rewrite Nat.sub_diag. }
    cbn [update] in H1. rewrite update_app_head in H1.
    destruct (IH (done ++ [finish p]) nt1
                (fun q Hq => Hall q (or_intror Hq))) as [nt2 H2].
    rewrite <- !app_assoc in H2. cbn [app] in H2.
    exists nt2. cbn [map]. eapply steps_trans; eauto.
Qed.

Lemma gatherer_runs {A} (p0 : prog A) : forall fs nt q r qf,
  (forall s, q s = inflight s nt) ->
  run_gather p0 q = Some (r, qf) ->
  exists nt', steps {| procs := p0 :: fs; net := nt |}
                    {| procs := lift r :: fs; net := nt' |}.
Proof.
  induction p0 as [a|e|dest tag b k IH|source tag k IH];
    intros fs nt q r qf Hq Hrun; cbn [run_gather] in Hrun.
  - inversion Hrun; subst. exists nt. apply steps_refl.
  - inversion Hrun; subst. exists nt. apply steps_refl.
  - discriminate.
  - destruct (q source) as [|[t' b] rest] eqn:Eq; [discriminate|].
    destruct (Z.eqb_spec t' tag) as [->|]; [|discriminate].
    rewrite Hq in Eq.
    destruct (take_inflight_head _ _ _ _ _ Eq) as [nt1 [Ht1 [Hq1 Ho1]]].
    assert (Hext : forall s, pop q source rest s = inflight s nt1).
    { intros s. unfold pop. destruct (Z.eqb_spec s source) as [->|Hs];
        [now rewrite Hq1|]. rewrite Hq. symmetry. now apply Ho1. }
    destruct (IH b fs nt1 _ r qf Hext Hrun) as [nt' Hsteps].
    exists nt'. eapply steps_step; [|exact Hsteps].
    apply (step_recv 0 (Recv source tag k :: fs) nt source tag k b nt1);
      [reflexivity|exact Ht1].
Qed.

Lemma finish_done {A} (p : prog A) :
  trace_of p <> None -> pending (finish p) = [].
Proof.
  intros Hp. unfold finish. destruct (trace_of p) as [[ms [e|a]]|];
    [reflexivity|reflexivity|congruence].
Qed.

(** A gather, started with no message in flight: some schedule lets every
    process end, and in every schedule rank 0 can only end the way its run
    against the senders' queues ends. *)
Theorem gather_schedules {A} (p0 : prog A) (fs : list (prog A)) r qf :
  (forall p, In p fs -> trace_of p <> None) ->
  run_gather p0 (outbox (p0 :: fs) []) = Some (r, qf) ->
  (exists nt, steps {| procs := p0 :: fs; net := [] |}
                    {| procs := lift r :: map finish fs; net := nt |})
  /\ (forall c, steps {| procs := p0 :: fs; net := [] |} c ->
        exists p, nth_error (procs c) 0 = Some p
                  /\ (forall a, p = Ret a -> r = inr a)
                  /\ (forall e, p = Raise e -> r = inl e)).
Proof.
  intros Hfs Hrun.
  assert (Hinv : gather_inv r {| procs := p0 :: fs; net := [] |}).
  { split.
    - intros [|i] p Hi Hp; [lia|]. cbn in Hp. apply Hfs.
      eapply nth_error_In; eauto.
    - exists p0, qf. split; [reflexivity|exact Hrun]. }
  split.
  - destruct (flush_all p0 fs [] [] Hfs) as [nt1 H1]. cbn [app] in H1.
    pose proof (steps_gather_inv _ _ _ Hinv H1) as [_ [p [q1 [Hp Hr1]]]].
    cbn [procs net nth_error] in Hp, Hr1. inversion Hp; subst p. clear Hp.
    assert (Hext : forall s,
      outbox (p0 :: map finish fs) nt1 s = inflight s nt1).
    { intros s. unfold outbox. destruct (s <=? 0); [apply app_nil_r|].
      destruct (Z.to_nat s) as [|j] eqn:Ej.
      - cbn [nth_error]. unfold pending.
        destruct p0; cbn in Hrun |- *; try discriminate; apply app_nil_r.
      - cbn [nth_error]. rewrite nth_error_map.
        destruct (nth_error fs j) as [p|] eqn:Ep; cbn [option_map];
          [|apply app_nil_r].
        rewrite finish_done; [apply app_nil_r|].
        apply Hfs. eapply nth_error_In; eauto. }
    destruct (run_gather_ext p0 _ _ _ _ Hext Hr1) as [q2 [Hq2 _]].
    destruct (gatherer_runs p0 (map finish fs) nt1 _ r q2
                (fun s => eq_refl) Hq2) as [nt2 H2].
    exists nt2. eapply steps_trans; eauto.
  - intros c Hsteps.
    pose proof (steps_gather_inv _ _ _ Hinv Hsteps) as [_ [p [q1 [Hp Hr1]]]].
    exists p. split; [exact Hp|]. split.
    + intros a ->. cbn in Hr1. congruence.
    + intros e ->. cbn in Hr1. congruence.
Qed.

(** ** Arrays and dictionaries

    The numbers in arrays are float64 values; the model is generic in them:
    [radd] and [rdiv] are float64 addition and division, [of_int] the
    conversion of an integer, [uninit] what a cell of [np.empty] holds before
    it is written (no result below depends on it). *)

Class Number (R : Type) : Type := {
  radd : R -> R -> R;
  rdiv : R -> R -> R;
  of_int : Z -> R;
  uninit : R
}.

Context {num : Number R}.

(** An array in row-major order. *)
Record ndarray : Type := { shape : list Z; data : list R }.

Definition size_of (shp : list Z) : Z := fold_right Z.mul 1 shp.

(** [len(data) == prod(shape)] *)
Definition wf_array (a : ndarray) : Prop :=
  Py.len (data a) = size_of (shape a).

Definition shape_eqb (s1 s2 : list Z) : bool :=
  if list_eq_dec Z.eq_dec s1 s2 then true else false.

Fixpoint map2 {X Y W} (f : X -> Y -> W) (l1 : list X) (l2 : list Y)
  : list W :=
  match l1, l2 with
  | x :: t1, y :: t2 => f x y :: map2 f t1 t2
  | _, _ => []
  end.

(** Elementwise sum of two arrays of one shape. *)
Definition arr_add (a b : ndarray) : ndarray :=
  {| shape := shape a; data := map2 radd (data a) (data b) |}.

(** [a += b].  numpy broadcasts [b] when the shapes differ and are
    compatible, and raises otherwise; the model covers equal shapes and
    raises for the rest. *)
Definition iadd (a b : ndarray) : result ndarray :=
  if shape_eqb (shape a) (shape b) then inr (arr_add a b)
  else inl ValueError.

(** [x + a] for a Python float [x]. *)
Definition float_add (x : R) (a : ndarray) : ndarray :=
  {| shape := shape a; data := map (radd x) (data a) |}.

(** [a /= n] for a Python integer [n]. *)
Definition idiv_int (a : ndarray) (n : Z) : ndarray :=
  {| shape := shape a; data := map (fun x => rdiv x (of_int n)) (data a) |}.

(** [np.empty(shape, dtype=np.float64)] *)
Definition np_empty (shp : list Z) : ndarray :=
  {| shape := shp; data := repeat uninit (Z.to_nat (size_of shp)) |}.

(** [comm.Recv(vessel, ...)] copies the buffer of the message into the
    vessel from its start; a message longer than the vessel is an MPI
    truncation error, and so is a pickled object where a buffer is
    expected. *)
Definition Recv_into (vessel : ndarray) (b : payload) : result ndarray :=
  match b with
  | Buffer d =>
      if (length d <=? length (data vessel))%nat
      then inr {| shape := shape vessel;
                  data := d ++ skipn (length d) (data vessel) |}
      else inl MPIError
  | PyObj _ => inl MPIError
  end.

(** [comm.recv(...)] unpickles the object of the message. *)
Definition recv_obj (b : payload) : result Z :=
  match b with
  | PyObj v => inr v
  | Buffer _ => inl MPIError
  end.

(** A Python dictionary with string keys.  Its keys are enumerated in one
    fixed order, here the order of first insertion; assigning to a key that
    is present keeps its place. *)
Definition dict (V : Type) : Type := list (String.string * V).

Definition dict_keys {V} (d : dict V) : list String.string := map fst d.

Fixpoint dict_get {V} (d : dict V) (k : String.string) : option V :=
  match d with
  | [] => None
  | (k', v) :: t => if String.eqb k' k then Some v else dict_get t k
  end.

Fixpoint dict_set {V} (d : dict V) (k : String.string) (v : V) : dict V :=
  match d with
  | [] => [(k, v)]
  | (k', v') :: t =>
      if String.eqb k' k then (k', v) :: t else (k', v') :: dict_set t k v
  end.

(** [k in d.keys()] *)
Definition dict_mem {V} (d : dict V) (k : String.string) : bool :=
  match dict_get d k with Some _ => true | None => false end.

(** [d[k]] *)
Definition dict_getitem {V} (d : dict V) (k : String.string) : result V :=
  match dict_get d k with Some v => inr v | None => inl KeyError end.

(** [enumerate(l)] *)
Definition enumerate {X} (l : list X) : list (Z * X) :=
  combine (Py.range (Py.len l)) l.

(** [t[i]] on a shape tuple. *)
Definition shape_getitem (shp : list Z) (i : nat) : result Z :=
  match nth_error shp i with Some n => inr n | None => inl IndexError end.

(** [np.array(rows)] for a list of one-dimensional vectors: the rows
    stacked into a matrix.  Rows of unequal length make an object array in
    numpy, which fails as soon as it is converted or its second dimension is
    read; the model raises at once. *)
Definition np_array (rows : list (list R)) : result ndarray :=
  match rows with
  | [] => inr {| shape := [0]; data := [] |}
  | r :: _ =>
      if forallb (fun r' => (length r' =? length r)%nat) rows
      then inr {| shape := [Py.len rows; Py.len r]; data := concat rows |}
      else inl ValueError
  end.

(** [np.append(a, b, axis=0)] *)
Definition np_append (a b : ndarray) : result ndarray :=
  match shape a, shape b with
  | n1 :: r1, n2 :: r2 =>
      if shape_eqb r1 r2
      then inr {| shape := (n1 + n2) :: r1; data := data a ++ data b |}
      else inl ValueError
  | _, _ => inl ValueError
  end.

(** ** [MPIStats] *)

(** What [self.vectors[label]] holds: the Python list of the vectors added
    so far, or, on rank 0 after [get_stats], a matrix. *)
Inductive samples : Type :=
| PyList (rows : list (list R))
| NdArray (a : ndarray).

(** [np.array(v)] *)
Definition as_array (v : samples) : result ndarray :=
  match v with
  | PyList rows => np_array rows
  | NdArray a => inr a
  end.

(** Using [v] as an array ([v.shape], passing it to numpy): a Python list
    has no such attribute. *)
Definition the_array (v : samples) : result ndarray :=
  match v with
  | PyList _ => inl AttributeError
  | NdArray a => inr a
  end.

(** [stats.getStats] is defined in [orphics.tools.stats], outside this
    module; it is a parameter here. *)
Context {Stats : Type} (getStats : ndarray -> Stats).

(** The attributes of an [MPIStats] object.  [stacks], [stack_count],
    [stats] and [numobj] do not exist ([None]) until rank 0 creates them in
    [get_stacks] and [get_stats]. *)
Record MPIStats : Type := {
  stats_num_each : list Z;
  rank : Z;
  numcores : Z;
  vectors : dict samples;
  little_stack : dict ndarray;
  little_stack_count : dict Z;
  tag_start : Z;
  stacks : option (dict ndarray);
  stack_count : option (dict Z);
  stats : option (dict Stats);
  numobj : option (dict (list Z))
}.

(** [MPIStats(comm, num_each, tag_start)] *)
Definition MPIStats_init (c : comm) (num_each : list Z) (tag_start : Z)
  : MPIStats :=
  {| stats_num_each := num_each;
     rank := Get_rank c;
     numcores := Get_size c;
     vectors := [];
     little_stack := [];
     little_stack_count := [];
     tag_start := tag_start;
     stacks := None;
     stack_count := None;
     stats := None;
     numobj := None |}.

Definition set_vectors (self : MPIStats) (v : dict samples) : MPIStats :=
  {| stats_num_each := stats_num_each self; rank := rank self;
     numcores := numcores self; vectors := v;
     little_stack := little_stack self;
     little_stack_count := little_stack_count self;
     tag_start := tag_start self; stacks := stacks self;
     stack_count := stack_count self; stats := stats self;
     numobj := numobj self |}.

Definition set_little_stack (self : MPIStats) (v : dict ndarray) : MPIStats :=
  {| stats_num_each := stats_num_each self; rank := rank self;
     numcores := numcores self; vectors := vectors self;
     little_stack := v;
     little_stack_count := little_stack_count self;
     tag_start := tag_start self; stacks := stacks self;
     stack_count := stack_count self; stats := stats self;
     numobj := numobj self |}.

Definition set_little_stack_count (self : MPIStats) (v : dict Z) : MPIStats :=
  {| stats_num_each := stats_num_each self; rank := rank self;
     numcores := numcores self; vectors := vectors self;
     little_stack := little_stack self;
     little_stack_count := v;
     tag_start := tag_start self; stacks := stacks self;
     stack_count := stack_count self; stats := stats self;
     numobj := numobj self |}.

Definition set_stacks (self : MPIStats) (v : option (dict ndarray))
  : MPIStats :=
  {| stats_num_each := stats_num_each self; rank := rank self;
     numcores := numcores self; vectors := vectors self;
     little_stack := little_stack self;
     little_stack_count := little_stack_count self;
     tag_start := tag_start self; stacks := v;
     stack_count := stack_count self; stats := stats self;
     numobj := numobj self |}.

Definition set_stack_count (self : MPIStats) (v : option (dict Z))
  : MPIStats :=
  {| stats_num_each := stats_num_each self; rank := rank self;
     numcores := numcores self; vectors := vectors self;
     little_stack := little_stack self;
     little_stack_count := little_stack_count self;
     tag_start := tag_start self; stacks := stacks self;
     stack_count := v; stats := stats self;
     numobj := numobj self |}.

Definition set_stats (self : MPIStats) (v : option (dict Stats)) : MPIStats :=
  {| stats_num_each := stats_num_each self; rank := rank self;
     numcores := numcores self; vectors := vectors self;
     little_stack := little_stack self;
     little_stack_count := little_stack_count self;
     tag_start := tag_start self; stacks := stacks self;
     stack_count := stack_count self; stats := v;
     numobj := numobj self |}.

Definition set_numobj (self : MPIStats) (v : option (dict (list Z)))
  : MPIStats :=
  {| stats_num_each := stats_num_each self; rank := rank self;
     numcores := numcores self; vectors := vectors self;
     little_stack := little_stack self;
     little_stack_count := little_stack_count self;
     tag_start := tag_start self; stacks := stacks self;
     stack_count := stack_count self; stats := stats self;
     numobj := v |}.

(** [self.attr[label]] and [self.attr[label] = v] on an attribute that may
    not exist yet. *)
Definition attr_getitem {V} (attr : option (dict V)) (label : String.string)
  : result V :=
  match attr with
  | None => inl AttributeError
  | Some d => dict_getitem d label
  end.

Definition attr_setitem {V} (attr : option (dict V)) (label : String.string)
  (v : V) : result (option (dict V)) :=
  match attr with
  | None => inl AttributeError
  | Some d => inr (Some (dict_set d label v))
  end.

(** [add_to_stats(label, vector)] *)
Definition add_to_stats (self : MPIStats) (label : String.string)
  (vector : list R) : result MPIStats :=
  let vectors1 :=
    if negb (dict_mem (vectors self) label)
    then dict_set (vectors self) label (PyList [])
    else vectors self in
  match dict_getitem vectors1 label with
  | inl e => inl e
  | inr (PyList rows) =>
      inr (set_vectors self
             (dict_set vectors1 label (PyList (rows ++ [vector]))))
  | inr (NdArray _) => inl AttributeError
  end.

(** [add_to_stack(label, arr)].  For a new label the float [0.] is stored
    and at once replaced by [0. + arr], a new array; for a known label the
    stored array is added to in place. *)
Definition add_to_stack (self : MPIStats) (label : String.string)
  (arr : ndarray) : result MPIStats :=
  let fresh := negb (dict_mem (little_stack self) label) in
  let counts1 :=
    if fresh then dict_set (little_stack_count self) label 0
    else little_stack_count self in
  let summed : result ndarray :=
    if fresh then inr (float_add (of_int 0) arr)
    else match dict_getitem (little_stack self) label with
         | inl e => inl e
         | inr a => iadd a arr
         end in
  match summed with
  | inl e => inl e
  | inr a =>
      match dict_getitem counts1 label with
      | inl e => inl e
      | inr c =>
          inr (set_little_stack_count
                 (set_little_stack self (dict_set (little_stack self) label a))
                 (dict_set counts1 label (c + 1)))
      end
  end.

(** [range(1, n)] *)
Definition cores_from_1 (n : Z) : list Z := map (Z.add 1) (Py.range (n - 1)).

(** An in-place operation on [self.stacks[label]].  Line 83 stored in
    [self.stacks[label]] the very array object of
    [self.little_stack[label]], so what [+=] and [/=] write is seen under
    both names. *)
Definition stacks_inplace (self : MPIStats) (label : String.string)
  (f : ndarray -> result ndarray) : result MPIStats :=
  match attr_getitem (stacks self) label with
  | inl e => inl e
  | inr a =>
      match f a with
      | inl e => inl e
      | inr a' =>
          match attr_setitem (stacks self) label a' with
          | inl e => inl e
          | inr stacks' =>
              inr (set_little_stack (set_stacks self stacks')
                     (dict_set (little_stack self) label a'))
          end
      end
  end.

(** [get_stacks()], loop by loop ([verbose] only prints).

    Lines 64-65: a process of rank other than 0 sends its counts. *)
Definition send_counts (self : MPIStats) : prog MPIStats :=
  for_each (enumerate (dict_keys (little_stack self)))
    (fun kl self =>
       bind (lift (dict_getitem (little_stack_count self) (snd kl)))
         (fun c =>
            Send 0 (tag_start self * 300 + fst kl) (PyObj c) (Ret self)))
    self.

(** Lines 67-69: then its stacks. *)
Definition send_stacks (self : MPIStats) : prog MPIStats :=
  for_each (enumerate (dict_keys (little_stack self)))
    (fun kl self =>
       bind (lift (dict_getitem (little_stack self) (snd kl)))
         (fun a =>
            let send_dat := data a in
            Send 0 (tag_start self * 10 + fst kl) (Buffer send_dat)
                 (Ret self)))
    self.

(** Lines 75-79: rank 0 adds up the counts, label by label. *)
Definition recv_counts (self : MPIStats) : prog MPIStats :=
  for_each (enumerate (dict_keys (little_stack self)))
    (fun kl self =>
       bind (lift (dict_getitem (little_stack_count self) (snd kl)))
         (fun c =>
       bind (lift (attr_setitem (stack_count self) (snd kl) c))
         (fun sc =>
       for_each (cores_from_1 (numcores self))
         (fun core self =>
            Recv core (tag_start self * 300 + fst kl)
              (fun b =>
                 bind (lift (recv_obj b)) (fun dat =>
                 bind (lift (attr_getitem (stack_count self) (snd kl)))
                   (fun c =>
                 bind (lift (attr_setitem (stack_count self) (snd kl)
                               (c + dat)))
                   (fun sc => Ret (set_stack_count self sc))))))
         (set_stack_count self sc))))
    self.

(** Lines 82-83: [self.stacks[label] = self.little_stack[label]]. *)
Definition alias_stacks (self : MPIStats) : prog MPIStats :=
  for_each (enumerate (dict_keys (little_stack self)))
    (fun kl self =>
       bind (lift (dict_getitem (little_stack self) (snd kl)))
         (fun a =>
       bind (lift (attr_setitem (stacks self) (snd kl) a))
         (fun s => Ret (set_stacks self s))))
    self.

(** Lines 84-90: rank 0 adds the stacks it receives, core by core. *)
Definition recv_stacks (self : MPIStats) : prog MPIStats :=
  for_each (cores_from_1 (numcores self))
    (fun core self =>
       for_each (enumerate (dict_keys (little_stack self)))
         (fun kl self =>
            bind (lift (dict_getitem (little_stack self) (snd kl)))
              (fun a =>
                 let expected_shape := shape a in
                 let data_vessel := np_empty expected_shape in
                 Recv core (tag_start self * 10 + fst kl)
                   (fun b =>
                      bind (lift (Recv_into data_vessel b))
                        (fun data_vessel =>
                           lift (stacks_inplace self (snd kl)
                                   (fun s => iadd s data_vessel))))))
         self)
    self.

(** Lines 93-94: [self.stacks[label] /= self.stack_count[label]]. *)
Definition divide_stacks (self : MPIStats) : prog MPIStats :=
  for_each (enumerate (dict_keys (little_stack self)))
    (fun kl self =>
       bind (lift (attr_getitem (stack_count self) (snd kl)))
         (fun c =>
            lift (stacks_inplace self (snd kl)
                    (fun s => inr (idiv_int s c)))))
    self.

Definition get_stacks (self : MPIStats) : prog MPIStats :=
  if negb (rank self =? 0) then
    bind (send_counts self) send_stacks
  else
    let self := set_stack_count (set_stacks self (Some [])) (Some []) in
    bind (recv_counts self) (fun self =>
    bind (alias_stacks self) (fun self =>
    bind (recv_stacks self) divide_stacks)).

(** [get_stats()], loop by loop.

    Lines 104-105: a process of rank other than 0 sends its numbers of
    samples. *)
Definition send_numobj (self : MPIStats) : prog MPIStats :=
  for_each (enumerate (dict_keys (vectors self)))
    (fun kl self =>
       bind (lift (dict_getitem (vectors self) (snd kl))) (fun v =>
       bind (lift (as_array v)) (fun a =>
       bind (lift (shape_getitem (shape a) 0)) (fun n =>
       Send 0 (tag_start self * 200 + fst kl) (PyObj n) (Ret self)))))
    self.

(** Lines 107-109: then its sample matrices. *)
Definition send_vectors (self : MPIStats) : prog MPIStats :=
  for_each (enumerate (dict_keys (vectors self)))
    (fun kl self =>
       bind (lift (dict_getitem (vectors self) (snd kl))) (fun v =>
       bind (lift (as_array v)) (fun a =>
       let send_dat := data a in
       Send 0 (tag_start self + fst kl) (Buffer send_dat) (Ret self))))
    self.

(** Lines 114-119: rank 0 lists the numbers of samples, label by label. *)
Definition recv_numobj (self : MPIStats) : prog MPIStats :=
  for_each (enumerate (dict_keys (vectors self)))
    (fun kl self =>
       bind (lift (dict_getitem (vectors self) (snd kl))) (fun v =>
       bind (lift (as_array v)) (fun a =>
       bind (lift (shape_getitem (shape a) 0)) (fun n =>
       bind (lift (attr_setitem (numobj self) (snd kl) [n])) (fun no =>
       for_each (cores_from_1 (numcores self))
         (fun core self =>
            Recv core (tag_start self * 200 + fst kl)
              (fun b =>
                 bind (lift (recv_obj b)) (fun dat =>
                 bind (lift (attr_getitem (numobj self) (snd kl)))
                   (fun l =>
                 bind (lift (attr_setitem (numobj self) (snd kl)
                               (l ++ [dat])))
                   (fun no => Ret (set_numobj self no))))))
         (set_numobj self no))))))
    self.

(** Lines 122-123: [self.vectors[label] = np.array(self.vectors[label])]. *)
Definition stack_vectors (self : MPIStats) : prog MPIStats :=
  for_each (enumerate (dict_keys (vectors self)))
    (fun kl self =>
       bind (lift (dict_getitem (vectors self) (snd kl))) (fun v =>
       bind (lift (as_array v)) (fun a =>
       Ret (set_vectors self
              (dict_set (vectors self) (snd kl) (NdArray a))))))
    self.

(** Lines 124-130: rank 0 appends the matrices it receives, core by
    core. *)
Definition recv_vectors (self : MPIStats) : prog MPIStats :=
  for_each (cores_from_1 (numcores self))
    (fun core self =>
       for_each (enumerate (dict_keys (vectors self)))
         (fun kl self =>
            bind (lift (attr_getitem (numobj self) (snd kl))) (fun l =>
            bind (lift (getitem l core)) (fun n =>
            bind (lift (dict_getitem (vectors self) (snd kl))) (fun v =>
            bind (lift (the_array v)) (fun a =>
            bind (lift (shape_getitem (shape a) 1)) (fun d =>
            let expected_shape := [n; d] in
            let data_vessel := np_empty expected_shape in
            Recv core (tag_start self + fst kl)
              (fun b =>
                 bind (lift (Recv_into data_vessel b))
                   (fun data_vessel =>
                 bind (lift (np_append a data_vessel)) (fun a' =>
                 Ret (set_vectors self
                        (dict_set (vectors self) (snd kl)
                           (NdArray a'))))))))))))
         self)
    self.

(** Lines 132-133: [self.stats[label] = stats.getStats(...)]. *)
Definition compute_stats (self : MPIStats) : prog MPIStats :=
  for_each (enumerate (dict_keys (vectors self)))
    (fun kl self =>
       bind (lift (dict_getitem (vectors self) (snd kl))) (fun v =>
       bind (lift (the_array v)) (fun a =>
       bind (lift (attr_setitem (stats self) (snd kl) (getStats a)))
         (fun s => Ret (set_stats self s)))))
    self.

Definition get_stats (self : MPIStats) : prog MPIStats :=
  if negb (rank self =? 0) then
    bind (send_numobj self) send_vectors
  else
    let self := set_numobj (set_stats self (Some [])) (Some []) in
    bind (recv_numobj self) (fun self =>
    bind (stack_vectors self) (fun self =>
    bind (recv_vectors self) compute_stats)).

(** *** Dictionaries *)

Lemma dict_get_set_eq {V} (d : dict V) k v :
  dict_get (dict_set d k v) k = Some v.
Proof.
  induction d as [|[k' v'] t IH]; cbn [dict_set dict_get].
  - now rewrite String.eqb_refl.
  - destruct (String.eqb k' k) eqn:E; cbn [dict_get]; rewrite E; auto.
Qed.

Lemma dict_get_set_neq {V} (d : dict V) k k' v :
  k <> k' -> dict_get (dict_set d k v) k' = dict_get d k'.
Proof.
  intros Hne. induction d as [|[k0 v0] t IH]; cbn [dict_set dict_get].
  - apply String.eqb_neq in Hne. now rewrite Hne.
  - destruct (String.eqb_spec k0 k) as [->|Hk]; cbn [dict_get].
    + apply String.eqb_neq in Hne. now rewrite Hne.
    + now rewrite IH.
Qed.

Lemma dict_get_None {V} (d : dict V) k :
  dict_get d k = None <-> ~ In k (dict_keys d).
Proof.
  induction d as [|[k' v'] t IH]; cbn [dict_get dict_keys map fst].
  - split; [intros _ []|reflexivity].
  - destruct (String.eqb_spec k' k) as [->|Hk].
    + split; [discriminate|]. intros H. exfalso. apply H. now left.
    + rewrite IH. split.
      * intros H [E|E]; [congruence|]. now apply H.
      * intros H E. apply H. now right.
Qed.

Lemma dict_keys_set_known {V} (d : dict V) k v :
  In k (dict_keys d) -> dict_keys (dict_set d k v) = dict_keys d.
Proof.
  induction d as [|[k' v'] t IH]; cbn [dict_set dict_keys map fst];
    [intros []|].
  intros Hin. destruct (String.eqb_spec k' k) as [->|Hk]; [reflexivity|].
  cbn [map fst]. f_equal. apply IH. destruct Hin; [congruence|assumption].
Qed.

Lemma dict_keys_set_new {V} (d : dict V) k v :
  ~ In k (dict_keys d) -> dict_keys (dict_set d k v) = dict_keys d ++ [k].
Proof.
  induction d as [|[k' v'] t IH]; cbn [dict_set dict_keys map fst];
    [reflexivity|].
  intros Hin. destruct (String.eqb_spec k' k) as [->|Hk].
  - exfalso. apply Hin. now left.
  - cbn [map fst app]. f_equal. apply IH. intros H. apply Hin. now right.
Qed.

Lemma dict_set_set {V} (d : dict V) k v v' :
  dict_set (dict_set d k v) k v' = dict_set d k v'.
Proof.
  induction d as [|[k0 v0] t IH]; cbn [dict_set].
  - now rewrite String.eqb_refl.
  - destruct (String.eqb k0 k) eqn:E; cbn [dict_set]; rewrite E;
      [reflexivity|]. now rewrite IH.
Qed.

(** *** The accumulator invariant of [add_to_stack] *)

(** A sequence of [add_to_stack] calls. *)
Fixpoint add_all (self : MPIStats) (calls : list (String.string * ndarray))
  : result MPIStats :=
  match calls with
  | [] => inr self
  | (label, arr) :: t =>
      match add_to_stack self label arr with
      | inl e => inl e
      | inr self' => add_all self' t
      end
  end.

(** The arrays passed for [label], in call order. *)
Definition arrays_for (label : String.string)
  (calls : list (String.string * ndarray)) : list ndarray :=
  map snd (filter (fun c => String.eqb (fst c) label) calls).

Definition zeros_like (a : ndarray) : ndarray :=
  {| shape := shape a; data := map (fun _ => of_int 0) (data a) |}.

(** The elementwise sum of the arrays, starting from zero; there is none
    before the first array. *)
Definition running_sum (arrs : list ndarray) : option ndarray :=
  match arrs with
  | [] => None
  | a :: _ => Some (fold_left arr_add arrs (zeros_like a))
  end.

Definition call_count (arrs : list ndarray) : option Z :=
  match arrs with
  | [] => None
  | _ :: _ => Some (Py.len arrs)
  end.

Definition same_shapes (calls : list (String.string * ndarray)) : Prop :=
  forall label a b,
    In (label, a) calls -> In (label, b) calls -> shape a = shape b.

Definition accumulated (calls : list (String.string * ndarray))
  (self : MPIStats) : Prop :=
  forall label,
    dict_get (little_stack_count self) label
    = call_count (arrays_for label calls)
    /\ dict_get (little_stack self) label
       = running_sum (arrays_for label calls).

Lemma arr_add_zeros a : arr_add (zeros_like a) a = float_add (of_int 0) a.
Proof.
  unfold arr_add, float_add, zeros_like. cbn [shape data]. f_equal.
  induction (data a) as [|x t IH]; [reflexivity|]. cbn. now rewrite IH.
Qed.

Lemma shape_fold_add arrs : forall z,
  shape (fold_left arr_add arrs z) = shape z.
Proof.
  induction arrs as [|a t IH]; intros z; [reflexivity|].
  cbn [fold_left]. now rewrite IH.
Qed.

Lemma arrays_for_app label c1 c2 :
  arrays_for label (c1 ++ c2) = arrays_for label c1 ++ arrays_for label c2.
Proof. unfold arrays_for. now rewrite filter_app, map_app. Qed.

Lemma arrays_for_In label a calls :
  In a (arrays_for label calls) -> In (label, a) calls.
Proof.
  unfold arrays_for. rewrite in_map_iff. intros [[l b] [Hb Hin]].
  apply filter_In in Hin. destruct Hin as [Hin Hl]. cbn in *.
  apply String.eqb_eq in Hl. now subst.
Qed.

Lemma add_to_stack_accumulates prev self label arr :
  accumulated prev self ->
  same_shapes (prev ++ [(label, arr)]) ->
  exists self',
    add_to_stack self label arr = inr self'
    /\ accumulated (prev ++ [(label, arr)]) self'.
Proof.
  intros Hacc Hshape. unfold add_to_stack, dict_mem.
  destruct (Hacc label) as [Hc Hs].
  destruct (arrays_for label prev) as [|a0 rest] eqn:Earr.
  - (* a new label *)
    cbn [running_sum call_count] in Hc, Hs. rewrite Hs. cbn [negb].
    unfold dict_getitem. rewrite dict_get_set_eq.
    eexists. split; [reflexivity|]. intros l.
    cbn [little_stack little_stack_count set_little_stack
           set_little_stack_count].
    rewrite arrays_for_app. unfold arrays_for at 2 4. cbn [filter fst].
    destruct (String.eqb_spec label l) as [<-|Hne].
    + rewrite Earr, dict_set_set, !dict_get_set_eq. cbn [map snd app].
      split; [reflexivity|]. cbn [running_sum fold_left].
      now rewrite arr_add_zeros.
    + rewrite dict_set_set, !dict_get_set_neq by assumption.
      cbn [map app]. rewrite app_nil_r. apply Hacc.
  - (* a known label *)
    cbn [running_sum call_count] in Hc, Hs. rewrite Hs. cbn [negb].
    unfold dict_getitem. rewrite Hs, Hc. unfold iadd.
    assert (Hsh : shape (fold_left arr_add (a0 :: rest) (zeros_like a0))
                  = shape arr).
    { rewrite shape_fold_add. cbn [zeros_like shape].
      apply (Hshape label).
      - apply in_or_app. left. apply arrays_for_In. rewrite Earr. now left.
      - apply in_or_app. right. now left. }
    unfold shape_eqb. rewrite Hsh.
    destruct (list_eq_dec Z.eq_dec (shape arr) (shape arr)); [|congruence].
    eexists. split; [reflexivity|]. intros l.
    cbn [little_stack little_stack_count set_little_stack
           set_little_stack_count].
    rewrite arrays_for_app. unfold arrays_for at 2 4. cbn [filter fst].
    destruct (String.eqb_spec label l) as [<-|Hne].
    + rewrite Earr, !dict_get_set_eq. cbn [map snd]. split.
      * cbn [app call_count]. f_equal. unfold Py.len.
        cbn [length]. rewrite length_app. cbn [length]. lia.
      * cbn [app running_sum]. f_equal.
        change (a0 :: rest ++ [arr]) with ((a0 :: rest) ++ [arr]).
        now rewrite fold_left_app.
    + rewrite !dict_get_set_neq by assumption.
      cbn [map app]. rewrite app_nil_r. apply Hacc.
Qed.

Lemma add_all_accumulates calls : forall prev self,
  accumulated prev self ->
  same_shapes (prev ++ calls) ->
  exists self',
    add_all self calls = inr self' /\ accumulated (prev ++ calls) self'.
Proof.
  induction calls as [|[label arr] t IH]; intros prev self Hacc Hshape.
  - exists self. rewrite app_nil_r. split; [reflexivity|exact Hacc].
  - destruct (add_to_stack_accumulates prev self label arr Hacc)
      as [self1 [H1 Hacc1]].
    { intros l a b Ha Hb. apply (Hshape l); rewrite in_app_iff in *.
      - destruct Ha as [Ha|[Ha|[]]]; [now left|right; left; exact Ha].
      - destruct Hb as [Hb|[Hb|[]]]; [now left|right; left; exact Hb]. }
    cbn [add_all]. rewrite H1.
    replace (prev ++ (label, arr) :: t) with ((prev ++ [(label, arr)]) ++ t)
      in * by (now rewrite <- app_assoc).
    apply IH; assumption.
Qed.


(** *** The lists of [add_to_stats] *)

(** A sequence of [add_to_stats] calls. *)
Fixpoint add_all_stats (self : MPIStats)
  (calls : list (String.string * list R)) : result MPIStats :=
  match calls with
  | [] => inr self
  | (label, vector) :: t =>
      match add_to_stats self label vector with
      | inl e => inl e
      | inr self' => add_all_stats self' t
      end
  end.

(** The vectors passed for [label], in call order. *)
Definition vectors_for (label : String.string)
  (calls : list (String.string * list R)) : list (list R) :=
  map snd (filter (fun c => String.eqb (fst c) label) calls).

(** What [self.vectors.get(label)] is after the calls: nothing for a label
    that was never passed, else the Python list of its vectors. *)
Definition collected (rows : list (list R)) : option samples :=
  match rows with
  | [] => None
  | _ :: _ => Some (PyList rows)
  end.

Definition listed (calls : list (String.string * list R))
  (self : MPIStats) : Prop :=
  forall label,
    dict_get (vectors self) label = collected (vectors_for label calls).

Lemma vectors_for_app label c1 c2 :
  vectors_for label (c1 ++ c2) = vectors_for label c1 ++ vectors_for label c2.
Proof. unfold vectors_for. now rewrite filter_app, map_app. Qed.

Lemma add_to_stats_lists prev self label vector :
  listed prev self ->
  exists self',
    add_to_stats self label vector = inr self'
    /\ listed (prev ++ [(label, vector)]) self'
    /\ little_stack self' = little_stack self
    /\ little_stack_count self' = little_stack_count self.
Proof.
  intros Hl. unfold add_to_stats, dict_mem. pose proof (Hl label) as Hlabel.
  assert (Hother : forall l, label <> l ->
            vectors_for l (prev ++ [(label, vector)]) = vectors_for l prev).
  { intros l Hne. rewrite vectors_for_app. unfold vectors_for at 2.
    cbn [filter fst]. apply String.eqb_neq in Hne. rewrite Hne.
    cbn [map]. apply app_nil_r. }
  assert (Hsame : vectors_for label (prev ++ [(label, vector)])
                  = vectors_for label prev ++ [vector]).
  { rewrite vectors_for_app. unfold vectors_for at 2. cbn [filter fst].
    now rewrite String.eqb_refl. }
  destruct (vectors_for label prev) as [|r0 rest] eqn:Erows;
    cbn [collected] in Hlabel; rewrite Hlabel; cbn [negb].
  - unfold dict_getitem. rewrite dict_get_set_eq.
    eexists. split; [reflexivity|]. split; [|split; reflexivity].
    intros l. cbn [vectors set_vectors]. rewrite dict_set_set.
    destruct (String.eqb_spec label l) as [<-|Hne].
    + now rewrite dict_get_set_eq, Hsame.
    + rewrite dict_get_set_neq, Hother by assumption. apply Hl.
  - unfold dict_getitem. rewrite Hlabel.
    eexists. split; [reflexivity|]. split; [|split; reflexivity].
    intros l. cbn [vectors set_vectors].
    destruct (String.eqb_spec label l) as [<-|Hne].
    + now rewrite dict_get_set_eq, Hsame.
    + rewrite dict_get_set_neq, Hother by assumption. apply Hl.
Qed.

Lemma add_all_stats_lists calls : forall prev self,
  listed prev self ->
  exists self',
    add_all_stats self calls = inr self'
    /\ listed (prev ++ calls) self'
    /\ little_stack self' = little_stack self
    /\ little_stack_count self' = little_stack_count self.
Proof.
  induction calls as [|[label vector] t IH]; intros prev self Hl.
  - exists self. rewrite app_nil_r. auto.
  - destruct (add_to_stats_lists prev self label vector Hl)
      as [self1 [H1 [Hl1 [Hs1 Hc1]]]].
    cbn [add_all_stats]. rewrite H1.
    destruct (IH _ _ Hl1) as [self2 [H2 [Hl2 [Hs2 Hc2]]]].
    exists self2. rewrite <- app_assoc in Hl2. cbn [app] in Hl2.
    split; [exact H2|]. split; [exact Hl2|]. split; congruence.
Qed.

(** [add_to_stats] never fails on an object that has not gathered yet:
    after any sequence of calls on a new object, every label that was
    passed holds the Python list of the vectors passed for it, in call
    order and of whatever lengths; a label that was never passed is not in
    the dictionary; the stacks are untouched. *)
Theorem add_to_stats_invariant (c : comm) (num_each : list Z) (tag_start : Z)
  (calls : list (String.string * list R)) :
  exists self,
    add_all_stats (MPIStats_init c num_each tag_start) calls = inr self
    /\ (forall label,
          dict_get (vectors self) label
          = match vectors_for label calls with
            | [] => None
            | r :: rows => Some (PyList (r :: rows))
            end)
    /\ little_stack self = []
    /\ little_stack_count self = [].
Proof.
  destruct (add_all_stats_lists calls [] (MPIStats_init c num_each tag_start))
    as [self [H [Hl [Hs Hc]]]].
  - intros label. reflexivity.
  - exists self. split; [exact H|]. split; [|split; assumption].
    intros label. rewrite (Hl label). cbn [app].
    destruct (vectors_for label calls); reflexivity.
Qed.

(** *** Reasoning about the run of the gatherer

    [runs p q r q']: against the queues [q], [p] ends with [r] and leaves
    the queues [q'] (compared pointwise). *)

Definition runs {A} (p : prog A) (q : Z -> queue) (r : result A)
  (q' : Z -> queue) : Prop :=
  exists qf, run_gather p q = Some (r, qf) /\ forall s, qf s = q' s.

Lemma runs_ext {A} (p : prog A) q1 q2 r q1' q2' :
  (forall s, q1 s = q2 s) -> (forall s, q1' s = q2' s) ->
  runs p q1 r q1' -> runs p q2 r q2'.
Proof.
  intros H12 H12' [qf [Hrun Hqf]].
  destruct (run_gather_ext p q1 q2 r qf H12 Hrun) as [qf2 [Hrun2 Hqf2]].
  exists qf2. split; [exact Hrun2|]. intros s.
  now rewrite <- Hqf2, Hqf, H12'.
Qed.

Lemma runs_conseq {A} (p : prog A) q1 q2 a1 a2 q1' q2' :
  runs p q1 (inr a1) q1' ->
  a1 = a2 -> (forall s, q2 s = q1 s) -> (forall s, q1' s = q2' s) ->
  runs p q2 (inr a2) q2'.
Proof.
  intros H <- H12 H12'. eapply runs_ext; [| |exact H]; auto.
Qed.

Lemma runs_Ret {A} (a : A) q : runs (Ret a) q (inr a) q.
Proof. exists q. split; reflexivity. Qed.

Lemma runs_Ret_ext {A} (a a' : A) q q' :
  a = a' -> (forall c, q c = q' c) -> runs (Ret a) q (inr a') q'.
Proof. intros <- Hq. exists q. split; [reflexivity|exact Hq]. Qed.

Lemma runs_Raise {A} (e : exn) q : runs (@Raise A e) q (inl e) q.
Proof. exists q. split; reflexivity. Qed.

Lemma runs_bind {A B} (p : prog A) (f : A -> prog B) q a q1 r q2 :
  runs p q (inr a) q1 -> runs (f a) q1 r q2 -> runs (bind p f) q r q2.
Proof.
  intros [qa [Hp Hqa]] Hf. unfold runs. rewrite run_gather_bind, Hp.
  destruct (runs_ext (f a) q1 qa r q2 q2) as [qf [Hrun Hqf]]; auto.
  exists qf. split; assumption.
Qed.

Lemma runs_Recv {A} s t (k : payload -> prog A) q b rest r q' :
  q s = (t, b) :: rest ->
  runs (k b) (pop q s rest) r q' ->
  runs (Recv s t k) q r q'.
Proof.
  intros Hq [qf [Hrun Hqf]]. exists qf. split; [|exact Hqf].
  cbn [run_gather]. now rewrite Hq, Z.eqb_refl.
Qed.

(** The loop rule: [P done s] holds of the state once the items [done] are
    processed, and [Q rem] are the queues while the items [rem] remain. *)
Lemma runs_for_each {X S} (P : list X -> S -> Prop)
  (Q : list X -> Z -> queue) (body : X -> S -> prog S) (xs : list X) :
  (forall done x rem s q,
     xs = done ++ x :: rem -> P done s ->
     (forall c, q c = Q (x :: rem) c) ->
     exists s1, runs (body x s) q (inr s1) (Q rem) /\ P (done ++ [x]) s1) ->
  forall s0 q,
    P [] s0 -> (forall c, q c = Q xs c) ->
    exists sf, runs (for_each xs body s0) q (inr sf) (Q []) /\ P xs sf.
Proof.
  intros Hbody.
  assert (H : forall rem done s q,
             xs = done ++ rem -> P done s -> (forall c, q c = Q rem c) ->
             exists sf, runs (for_each rem body s) q (inr sf) (Q [])
                        /\ P xs sf).
  { induction rem as [|x rem IH]; intros done s q Hxs HP HQ.
    - exists s. rewrite app_nil_r in Hxs. subst done. split; [|exact HP].
      cbn [for_each]. apply (runs_ext (Ret s) q q (inr s) q);
        auto using runs_Ret.
    - destruct (Hbody done x rem s q Hxs HP HQ) as [s1 [Hrun HP1]].
      destruct (IH (done ++ [x]) s1 (Q rem)) as [sf [Hrest HPf]];
        [now rewrite <- app_assoc|exact HP1|reflexivity|].
      exists sf. split; [|exact HPf]. cbn [for_each].
      eapply runs_bind; eauto. }
  intros s0 q HP HQ. apply (H xs [] s0 q); auto.
Qed.

(** The same rule when the state after the items [done] is [F done]. *)
Lemma runs_loop {X S} (F : list X -> S) (Q : list X -> Z -> queue)
  (body : X -> S -> prog S) (xs : list X) :
  (forall done x rem q,
     xs = done ++ x :: rem ->
     (forall c, q c = Q (x :: rem) c) ->
     runs (body x (F done)) q (inr (F (done ++ [x]))) (Q rem)) ->
  forall q,
    (forall c, q c = Q xs c) ->
    runs (for_each xs body (F [])) q (inr (F xs)) (Q []).
Proof.
  intros Hbody q Hq.
  destruct (runs_for_each (fun done s => s = F done) Q body xs)
    with (s0 := F []) (q := q) as [sf [Hrun ->]]; auto.
  intros done x rem s q1 Hxs -> Hq1. eauto.
Qed.

Lemma pop_pop q s r1 r2 c : pop (pop q s r1) s r2 c = pop q s r2 c.
Proof. unfold pop. destruct (c =? s); reflexivity. Qed.

(** *** Processes that only send and keep their state *)

Definition only_sends {A} (p : prog A) (s : A) : Prop :=
  exists ms r,
    trace_of p = Some (ms, r)
    /\ Forall (fun m => fst (fst m) = 0) ms
    /\ forall s', r = inr s' -> s' = s.

Lemma trace_of_bind {A B} (p : prog A) (f : A -> prog B) ms a :
  trace_of p = Some (ms, inr a) ->
  trace_of (bind p f)
  = match trace_of (f a) with
    | Some (ms', r) => Some (ms ++ ms', r)
    | None => None
    end.
Proof.
  revert ms. induction p as [a'|e|dest tag b k IH|source tag k IH];
    intros ms Hp; cbn [trace_of bind] in *.
  - inversion Hp; subst. destruct (trace_of (f a)) as [[ms' r]|]; reflexivity.
  - discriminate.
  - destruct (trace_of k) as [[ms1 r1]|]; [|discriminate].
    inversion Hp; subst. rewrite (IH ms1 eq_refl).
    destruct (trace_of (f a)) as [[ms' r]|]; reflexivity.
  - discriminate.
Qed.

Lemma trace_of_bind_raise {A B} (p : prog A) (f : A -> prog B) ms e :
  trace_of p = Some (ms, inl e) ->
  trace_of (bind p f) = Some (ms, inl e).
Proof.
  revert ms. induction p as [a'|e'|dest tag b k IH|source tag k IH];
    intros ms Hp; cbn [trace_of bind] in *; try discriminate.
  - inversion Hp; subst. reflexivity.
  - destruct (trace_of k) as [[ms1 r1]|]; [|discriminate].
    inversion Hp; subst. now rewrite (IH ms1 eq_refl).
Qed.

Lemma only_sends_bind {A} (p : prog A) (f : A -> prog A) s :
  only_sends p s -> only_sends (f s) s -> only_sends (bind p f) s.
Proof.
  intros [ms [r [Hp [Hd Hr]]]] [ms' [r' [Hf [Hd' Hr']]]].
  destruct r as [e|a].
  - exists ms, (inl e). rewrite (trace_of_bind_raise _ _ _ _ Hp).
    split; [reflexivity|]. split; [exact Hd|]. intros s' H. discriminate H.
  - rewrite (Hr a eq_refl) in Hp. exists (ms ++ ms'), r'.
    rewrite (trace_of_bind _ _ _ _ Hp), Hf.
    split; [reflexivity|]. split; [|exact Hr'].
    apply Forall_app. now split.
Qed.

Lemma only_sends_for_each {X A} (body : X -> A -> prog A) (xs : list X) s :
  (forall x, In x xs -> only_sends (body x s) s) ->
  only_sends (for_each xs body s) s.
Proof.
  induction xs as [|x t IH]; intros Hbody; cbn [for_each].
  - exists [], (inr s). split; [reflexivity|]. split; [constructor|].
    intros s' H. congruence.
  - apply only_sends_bind; [apply Hbody; now left|].
    apply IH. intros y Hy. apply Hbody. now right.
Qed.

Lemma only_sends_lookup_send {A V} (r : result V) (tag : Z)
  (pl : V -> payload) (s : A) :
  only_sends (bind (lift r) (fun v => Send 0 tag (pl v) (Ret s))) s.
Proof.
  destruct r as [e|v]; cbn.
  - exists [], (inl e). split; [reflexivity|]. split; [constructor|].
    intros s' H. discriminate H.
  - exists [(0, tag, pl v)], (inr s). split; [reflexivity|].
    split; [repeat constructor|]. intros s' H. congruence.
Qed.

(** *** More on dictionaries and enumeration *)

(** The dictionary with the keys of [d], in their order, and the values
    [f key]. *)
Definition dmap {V W} (f : String.string -> V) (d : dict W) : dict V :=
  map (fun kv => (fst kv, f (fst kv))) d.

Definition mem (label : String.string) (l : list String.string) : bool :=
  existsb (String.eqb label) l.

Lemma mem_true label l : mem label l = true <-> In label l.
Proof.
  unfold mem. rewrite existsb_exists. split.
  - intros [y [Hy E]]. apply String.eqb_eq in E. now subst.
  - intros H. exists label. split; [exact H|apply String.eqb_refl].
Qed.

Lemma mem_false label l : mem label l = false <-> ~ In label l.
Proof.
  rewrite <- mem_true. destruct (mem label l); split; congruence.
Qed.

Lemma mem_app label l1 l2 : mem label (l1 ++ l2) = mem label l1 || mem label l2.
Proof. unfold mem. apply existsb_app. Qed.

Lemma dict_keys_dmap {V W} (f : String.string -> V) (d : dict W) :
  dict_keys (dmap f d) = dict_keys d.
Proof. unfold dict_keys, dmap. rewrite map_map. reflexivity. Qed.

Lemma dict_get_dmap {V W} (f : String.string -> V) (d : dict W) k :
  In k (dict_keys d) -> dict_get (dmap f d) k = Some (f k).
Proof.
  induction d as [|[k' v'] t IH]; cbn [dict_keys map fst]; [intros []|].
  intros Hin. cbn [dmap map fst dict_get].
  destruct (String.eqb_spec k' k) as [->|Hne]; [reflexivity|].
  apply IH. destruct Hin; [congruence|assumption].
Qed.

Lemma dmap_ext {V W} (f g : String.string -> V) (d : dict W) :
  (forall k, In k (dict_keys d) -> f k = g k) -> dmap f d = dmap g d.
Proof.
  intros H. unfold dmap. apply map_ext_in. intros [k v] Hin. cbn [fst].
  f_equal. apply H. unfold dict_keys. apply in_map_iff.
  exists (k, v). split; [reflexivity|exact Hin].
Qed.

Lemma dict_set_dmap {V W} (f : String.string -> V) (d : dict W) k v :
  NoDup (dict_keys d) -> In k (dict_keys d) ->
  dict_set (dmap f d) k v
  = dmap (fun k' => if String.eqb k' k then v else f k') d.
Proof.
  induction d as [|[k' v'] t IH]; cbn [dict_keys map fst]; [intros _ []|].
  intros Hnd Hin. inversion Hnd as [|? ? Hnotin Hnd']; subst.
  cbn [dmap map fst dict_set].
  destruct (String.eqb_spec k' k) as [->|Hne].
  - f_equal. apply map_ext_in. intros [k1 v1] H1. cbn [fst].
    destruct (String.eqb_spec k1 k) as [->|]; [|reflexivity].
    exfalso. apply Hnotin. apply in_map_iff. exists (k, v1). now split.
  - f_equal. apply IH; [assumption|].
    destruct Hin; [congruence|assumption].
Qed.

Lemma dmap_self {V} (dflt : V) (d : dict V) :
  NoDup (dict_keys d) ->
  dmap (fun k => match dict_get d k with Some v => v | None => dflt end) d
  = d.
Proof.
  induction d as [|[k v] t IH]; [reflexivity|].
  cbn [dict_keys map fst]. intros Hnd.
  inversion Hnd as [|? ? Hnotin Hnd']; subst.
  cbn [dmap map fst dict_get]. rewrite String.eqb_refl. f_equal.
  rewrite <- (IH Hnd') at 2. apply map_ext_in. intros [k1 v1] H1. cbn [fst].
  destruct (String.eqb_spec k k1) as [->|]; [|reflexivity].
  exfalso. apply Hnotin. apply in_map_iff. exists (k1, v1). now split.
Qed.

Lemma dict_set_fresh {V} (d : dict V) k v :
  ~ In k (dict_keys d) -> dict_set d k v = d ++ [(k, v)].
Proof.
  induction d as [|[k' v'] t IH]; cbn [dict_keys map fst dict_set];
    [reflexivity|].
  intros Hnotin. destruct (String.eqb_spec k' k) as [->|Hne].
  - exfalso. apply Hnotin. now left.
  - cbn [app]. f_equal. apply IH. intros H. apply Hnotin. now right.
Qed.

Lemma dict_get_app_last {V} (d : dict V) k v :
  ~ In k (dict_keys d) -> dict_get (d ++ [(k, v)]) k = Some v.
Proof.
  intros H. rewrite <- dict_set_fresh by exact H. apply dict_get_set_eq.
Qed.

Lemma dict_set_app_last {V} (d : dict V) k v v' :
  ~ In k (dict_keys d) -> dict_set (d ++ [(k, v)]) k v' = d ++ [(k, v')].
Proof.
  intros H. rewrite <- !dict_set_fresh by exact H. apply dict_set_set.
Qed.

Lemma dict_get_keyed {X V} (key : X -> String.string) (f : String.string -> V)
  (l : list X) k :
  In k (map key l) ->
  dict_get (map (fun x => (key x, f (key x))) l) k = Some (f k).
Proof.
  induction l as [|x t IH]; cbn [map]; [intros []|].
  intros Hin. cbn [dict_get].
  destruct (String.eqb_spec (key x) k) as [->|Hne]; [reflexivity|].
  apply IH. destruct Hin; [congruence|assumption].
Qed.

Lemma dict_keys_keyed {X V} (key : X -> String.string) (f : X -> V)
  (l : list X) :
  dict_keys (map (fun x => (key x, f x)) l) = map key l.
Proof. unfold dict_keys. rewrite map_map. reflexivity. Qed.

Lemma dict_get_Some_In {V} (d : dict V) k v :
  dict_get d k = Some v -> In k (dict_keys d).
Proof.
  intros H. destruct (in_dec String.string_dec k (dict_keys d)) as [|Hn];
    [assumption|]. apply dict_get_None in Hn. congruence.
Qed.

Lemma dict_get_In {V} (d : dict V) k :
  In k (dict_keys d) -> exists v, dict_get d k = Some v.
Proof.
  intros H. destruct (dict_get d k) as [v|] eqn:E; [eauto|].
  apply dict_get_None in E. contradiction.
Qed.

Lemma map_snd_combine {X Y} : forall (a : list X) (b : list Y),
  length a = length b -> map snd (combine a b) = b.
Proof.
  induction a as [|x a IH]; intros [|y b] H; try discriminate;
    [reflexivity|]. cbn. f_equal. apply IH. now inversion H.
Qed.

Lemma map_snd_enumerate {X} (l : list X) : map snd (enumerate l) = l.
Proof.
  unfold enumerate. apply map_snd_combine.
  unfold Py.range, Py.len. now rewrite length_map, length_seq, Nat2Z.id.
Qed.

Lemma in_enumerate {X} (l : list X) kl :
  In kl (enumerate l) -> In (snd kl) l.
Proof.
  intros H. rewrite <- (map_snd_enumerate l). now apply in_map.
Qed.

Lemma NoDup_app_mid {X} (done : list X) x rem :
  NoDup (done ++ x :: rem) -> ~ In x done.
Proof.
  intros H Hin. apply NoDup_remove_2 in H. apply H.
  apply in_or_app. now left.
Qed.

Lemma contains_cons c0 l c :
  contains (c0 :: l) c = (c =? c0) || contains l c.
Proof. reflexivity. Qed.

Lemma contains_false l x : contains l x = false <-> ~ In x l.
Proof.
  rewrite <- contains_true. destruct (contains l x); split; congruence.
Qed.

Lemma NoDup_cores n : NoDup (cores_from_1 n).
Proof.
  unfold cores_from_1. apply Injective_map_NoDup.
  - intros a b H. lia.
  - apply PyFacts.NoDup_range.
Qed.

Lemma In_cores n c : In c (cores_from_1 n) <-> 1 <= c < n.
Proof.
  unfold cores_from_1. rewrite in_map_iff. split.
  - intros [x [<- Hx]]. apply PyFacts.In_range in Hx. lia.
  - intros H. exists (c - 1). split; [lia|]. apply PyFacts.In_range. lia.
Qed.

(** *** What a process of rank other than 0 does *)

(** The count and the stack a process holds for a label. *)
Definition count_at (self : MPIStats) (label : String.string) : Z :=
  match dict_get (little_stack_count self) label with
  | Some c => c
  | None => 0
  end.

Definition stack_at (self : MPIStats) (label : String.string) : ndarray :=
  match dict_get (little_stack self) label with
  | Some a => a
  | None => {| shape := []; data := [] |}
  end.

Lemma trace_of_for_each {X A} (body : X -> A -> prog A) (xs : list X) (s : A)
  (msg : X -> Z * Z * payload) :
  (forall x, In x xs -> trace_of (body x s) = Some ([msg x], inr s)) ->
  trace_of (for_each xs body s) = Some (map msg xs, inr s).
Proof.
  induction xs as [|x t IH]; intros H; [reflexivity|].
  cbn [for_each map].
  rewrite (trace_of_bind _ _ _ _ (H x (or_introl eq_refl))).
  rewrite IH; [reflexivity|]. intros y Hy. apply H. now right.
Qed.

Lemma send_counts_only_sends self : only_sends (send_counts self) self.
Proof.
  apply only_sends_for_each. intros kl _.
  apply (only_sends_lookup_send
           (dict_getitem (little_stack_count self) (snd kl))
           (tag_start self * 300 + fst kl) PyObj).
Qed.

Lemma send_stacks_only_sends self : only_sends (send_stacks self) self.
Proof.
  apply only_sends_for_each. intros kl _.
  apply (only_sends_lookup_send
           (dict_getitem (little_stack self) (snd kl))
           (tag_start self * 10 + fst kl) (fun a => Buffer (data a))).
Qed.

Lemma get_stacks_only_sends self :
  rank self <> 0 -> only_sends (get_stacks self) self.
Proof.
  intros Hr. unfold get_stacks.
  destruct (Z.eqb_spec (rank self) 0); [contradiction|]. cbn [negb].
  apply only_sends_bind;
    [apply send_counts_only_sends|apply send_stacks_only_sends].
Qed.

Lemma send_numobj_only_sends self : only_sends (send_numobj self) self.
Proof.
  apply only_sends_for_each. intros kl _.
  destruct (dict_getitem (vectors self) (snd kl)) as [e|v]; cbn [lift bind].
  { exists [], (inl e). split; [reflexivity|]. split; [constructor|].
    intros s' H. discriminate H. }
  destruct (as_array v) as [e|a]; cbn [lift bind].
  { exists [], (inl e). split; [reflexivity|]. split; [constructor|].
    intros s' H. discriminate H. }
  apply (only_sends_lookup_send (shape_getitem (shape a) 0)
           (tag_start self * 200 + fst kl) PyObj).
Qed.

Lemma send_vectors_only_sends self : only_sends (send_vectors self) self.
Proof.
  apply only_sends_for_each. intros kl _.
  destruct (dict_getitem (vectors self) (snd kl)) as [e|v]; cbn [lift bind].
  { exists [], (inl e). split; [reflexivity|]. split; [constructor|].
    intros s' H. discriminate H. }
  apply (only_sends_lookup_send (as_array v)
           (tag_start self + fst kl) (fun a => Buffer (data a))).
Qed.

Lemma get_stats_only_sends self :
  rank self <> 0 -> only_sends (get_stats self) self.
Proof.
  intros Hr. unfold get_stats.
  destruct (Z.eqb_spec (rank self) 0); [contradiction|]. cbn [negb].
  apply only_sends_bind;
    [apply send_numobj_only_sends|apply send_vectors_only_sends].
Qed.

(** With a count for every label, the messages of [get_stacks] on a process
    of rank other than 0: the counts of all labels, then the stacks of all
    labels. *)
Definition stack_messages (self : MPIStats) : list (Z * Z * payload) :=
  map (fun kl => (0, tag_start self * 300 + fst kl,
                  PyObj (count_at self (snd kl))))
      (enumerate (dict_keys (little_stack self)))
  ++ map (fun kl => (0, tag_start self * 10 + fst kl,
                     Buffer (data (stack_at self (snd kl)))))
         (enumerate (dict_keys (little_stack self))).

Lemma get_stacks_trace self :
  rank self <> 0 ->
  (forall label, In label (dict_keys (little_stack self)) ->
                 In label (dict_keys (little_stack_count self))) ->
  trace_of (get_stacks self) = Some (stack_messages self, inr self).
Proof.
  intros Hr Hkeys. unfold get_stacks.
  destruct (Z.eqb_spec (rank self) 0); [contradiction|]. cbn [negb].
  assert (H1 : trace_of (send_counts self)
    = Some (map (fun kl => (0, tag_start self * 300 + fst kl,
                            PyObj (count_at self (snd kl))))
              (enumerate (dict_keys (little_stack self))), inr self)).
  { apply trace_of_for_each. intros kl Hkl. apply in_enumerate in Hkl.
    destruct (dict_get_In _ _ (Hkeys _ Hkl)) as [c Hc].
    unfold dict_getitem, count_at. rewrite Hc. reflexivity. }
  assert (H2 : trace_of (send_stacks self)
    = Some (map (fun kl => (0, tag_start self * 10 + fst kl,
                            Buffer (data (stack_at self (snd kl)))))
              (enumerate (dict_keys (little_stack self))), inr self)).
  { apply trace_of_for_each. intros kl Hkl. apply in_enumerate in Hkl.
    destruct (dict_get_In _ _ Hkl) as [a Ha].
    unfold dict_getitem, stack_at. rewrite Ha. reflexivity. }
  rewrite (trace_of_bind _ _ _ _ H1), H2. reflexivity.
Qed.

(** *** What rank 0 computes in [get_stacks]

    [cnt c label] and [arr c label] are the count and the stack that core
    [c] sends for [label]. *)

Definition count_message (ts : Z) (cnt : Z -> String.string -> Z) (c : Z)
  (kl : Z * String.string) : Z * payload :=
  (ts * 300 + fst kl, PyObj (cnt c (snd kl))).

Definition stack_message (ts : Z) (arr : Z -> String.string -> ndarray)
  (c : Z) (kl : Z * String.string) : Z * payload :=
  (ts * 10 + fst kl, Buffer (data (arr c (snd kl)))).

(** The count of rank 0 plus the counts of the cores, in core order. *)
Definition gathered_count (self0 : MPIStats) (cnt : Z -> String.string -> Z)
  (cores : list Z) (label : String.string) : Z :=
  fold_left (fun acc c => acc + cnt c label) cores (count_at self0 label).

(** The stack of rank 0 plus the stacks of the cores, in core order. *)
Definition gathered_sum (self0 : MPIStats)
  (arr : Z -> String.string -> ndarray) (cores : list Z)
  (label : String.string) : ndarray :=
  fold_left arr_add (map (fun c => arr c label) cores) (stack_at self0 label).

Definition gathered_counts (self0 : MPIStats) (cnt : Z -> String.string -> Z)
  (done : list (Z * String.string)) : dict Z :=
  map (fun kl => (snd kl,
                  gathered_count self0 cnt (cores_from_1 (numcores self0))
                    (snd kl)))
      done.

(** The object of rank 0 while it gathers: the counts of the labels
    [done], and the array [f label] under [label] in both [stacks] and
    [little_stack]. *)
Definition counting (self0 : MPIStats) (counts : dict Z) : MPIStats :=
  set_stack_count (set_stacks self0 (Some [])) (Some counts).

Definition summing (self0 : MPIStats) (counts : dict Z)
  (f : String.string -> ndarray) : MPIStats :=
  set_little_stack
    (set_stacks (set_stack_count self0 (Some counts))
       (Some (dmap f (little_stack self0))))
    (dmap f (little_stack self0)).

Section StacksLeader.
Variable self0 : MPIStats.
Variable cnt : Z -> String.string -> Z.
Variable arr : Z -> String.string -> ndarray.
Variable q0 : Z -> queue.

Local Abbreviation ts := (tag_start self0).
Local Abbreviation labels := (dict_keys (little_stack self0)).
Local Abbreviation L := (enumerate (dict_keys (little_stack self0))).
Local Abbreviation cores := (cores_from_1 (numcores self0)).
Local Abbreviation cmsg := (count_message (tag_start self0) cnt).
Local Abbreviation dmsg := (stack_message (tag_start self0) arr).

Hypothesis Hnodup : NoDup labels.
Hypothesis Hcount :
  forall label, In label labels ->
                In label (dict_keys (little_stack_count self0)).
Hypothesis Hshape :
  forall c label, In c cores -> In label labels ->
    shape (arr c label) = shape (stack_at self0 label)
    /\ wf_array (arr c label).
Hypothesis Hq0 :
  forall c, In c cores -> q0 c = map (cmsg c) L ++ map (dmsg c) L.

(** The queues while the labels [rem] remain in the first loop. *)
Definition counts_left (rem : list (Z * String.string)) (c : Z) : queue :=
  if contains cores c then map (cmsg c) rem ++ map (dmsg c) L else q0 c.

Lemma label_fresh done x rem :
  L = done ++ x :: rem -> ~ In (snd x) (map snd done).
Proof.
  intros HL. pose proof Hnodup as Hnd.
  rewrite <- (map_snd_enumerate labels), HL, map_app in Hnd.
  cbn [map] in Hnd. now apply NoDup_app_mid in Hnd.
Qed.

Lemma label_known done x rem : L = done ++ x :: rem -> In (snd x) labels.
Proof.
  intros HL. apply in_enumerate. rewrite HL. apply in_or_app.
  right. now left.
Qed.

(** The queues within the first loop, at label [x], while the cores [remc]
    remain. *)
Definition count_left (x : Z * String.string) (rem : list (Z * String.string))
  (remc : list Z) (c : Z) : queue :=
  if contains remc c then cmsg c x :: counts_left rem c
  else counts_left rem c.

Lemma recv_counts_runs :
  runs (recv_counts (counting self0 []))
       q0
       (inr (counting self0 (gathered_counts self0 cnt L)))
       (counts_left []).
Proof.
  unfold recv_counts.
  change (little_stack (counting self0 [])) with (little_stack self0).
  apply (runs_loop
           (fun done => counting self0 (gathered_counts self0 cnt done))
           counts_left).
  2:{ intros c. unfold counts_left.
      destruct (contains cores c) eqn:E; [|reflexivity].
      apply Hq0. now apply contains_true. }
  intros done x rem q HL Hq.
  pose proof (label_fresh _ _ _ HL) as Hfresh.
  pose proof (label_known _ _ _ HL) as Hknown.
  destruct (dict_get_In _ _ (Hcount _ Hknown)) as [c0 Hc0].
  cbn [counting little_stack_count stack_count numcores set_stacks
         set_stack_count].
  unfold dict_getitem. rewrite Hc0. cbn [lift bind attr_setitem].
  rewrite dict_set_fresh
    by (unfold gathered_counts; rewrite dict_keys_keyed; exact Hfresh).
  change (set_stack_count
            (counting self0 (gathered_counts self0 cnt done))
            (Some (gathered_counts self0 cnt done ++ [(snd x, c0)])))
    with ((fun donec =>
             counting self0
               (gathered_counts self0 cnt done
                ++ [(snd x,
                     fold_left (fun acc c => acc + cnt c (snd x)) donec c0)]))
            []).
  eapply runs_conseq;
    [apply (runs_loop
              (fun donec =>
                 counting self0
                   (gathered_counts self0 cnt done
                    ++ [(snd x,
                         fold_left (fun acc c => acc + cnt c (snd x))
                                   donec c0)]))
              (count_left x rem));
     [|intros c; reflexivity]| | |].
  - (* one core *)
    intros donec c1 remc q1 Hcores Hq1.
    pose proof (NoDup_cores (numcores self0)) as Hnd.
    rewrite Hcores in Hnd. apply NoDup_remove_2 in Hnd.
    assert (Hc1 : contains remc c1 = false).
    { apply contains_false. intros H. apply Hnd. apply in_or_app. now right. }
    eapply runs_Recv.
    { rewrite Hq1. unfold count_left. rewrite contains_cons, Z.eqb_refl.
      cbn [orb]. unfold count_message. reflexivity. }
    cbn [recv_obj lift bind counting stack_count set_stack_count
           attr_getitem attr_setitem].
    unfold dict_getitem. rewrite dict_get_app_last
      by (unfold gathered_counts; rewrite dict_keys_keyed; exact Hfresh).
    cbn [lift bind]. rewrite dict_set_app_last
      by (unfold gathered_counts; rewrite dict_keys_keyed; exact Hfresh).
    apply runs_Ret_ext.
    + rewrite fold_left_app. reflexivity.
    + intros c. unfold pop, count_left. rewrite Hq1. unfold count_left.
      rewrite contains_cons.
      destruct (Z.eqb_spec c c1) as [->|]; [now rewrite Hc1|reflexivity].
  - (* the state after the label *)
    cbn beta. unfold gathered_counts. rewrite map_app. cbn [map].
    do 4 f_equal. unfold gathered_count, count_at. now rewrite Hc0.
  - (* the queues before *)
    intros c. rewrite Hq. unfold count_left, counts_left.
    destruct (contains cores c); reflexivity.
  - (* the queues after *)
    intros c. reflexivity.
Qed.

Lemma keyed_enumerate {V} (f : String.string -> V) (d : dict ndarray) :
  map (fun kl : Z * String.string => (snd kl, f (snd kl)))
      (enumerate (dict_keys d))
  = dmap f d.
Proof.
  rewrite <- (map_map snd (fun k => (k, f k))), map_snd_enumerate.
  unfold dmap, dict_keys. now rewrite map_map.
Qed.

Lemma summing_start counts :
  NoDup labels ->
  set_stacks (counting self0 counts) (Some (dmap (stack_at self0) (little_stack self0)))
  = summing self0 counts (stack_at self0).
Proof.
  intros Hnd. unfold summing, counting, set_stacks, set_stack_count,
    set_little_stack. cbn. f_equal.
  unfold stack_at. symmetry. apply dmap_self. exact Hnd.
Qed.

Lemma alias_stacks_runs counts q :
  runs (alias_stacks (counting self0 counts)) q
       (inr (summing self0 counts (stack_at self0))) q.
Proof.
  unfold alias_stacks.
  change (little_stack (counting self0 counts)) with (little_stack self0).
  change (counting self0 counts)
    with ((fun done : list (Z * String.string) =>
             set_stacks (counting self0 counts)
               (Some (map (fun kl => (snd kl, stack_at self0 (snd kl)))
                          done))) []).
  eapply runs_conseq;
    [apply (runs_loop
              (fun done : list (Z * String.string) =>
                 set_stacks (counting self0 counts)
                   (Some (map (fun kl => (snd kl, stack_at self0 (snd kl)))
                              done)))
              (fun _ => q));
     [|intros c; reflexivity]| | |].
  - intros done x rem q1 HL Hq1.
    pose proof (label_fresh _ _ _ HL) as Hfresh.
    pose proof (label_known _ _ _ HL) as Hknown.
    destruct (dict_get_In _ _ Hknown) as [a Ha].
    cbn [counting little_stack stacks set_stacks set_stack_count].
    unfold dict_getitem. rewrite Ha. cbn [lift bind attr_setitem].
    rewrite dict_set_fresh by (rewrite dict_keys_keyed; exact Hfresh).
    apply runs_Ret_ext; [|exact Hq1].
    assert (Hat : stack_at self0 (snd x) = a)
      by (unfold stack_at; now rewrite Ha).
    rewrite map_app. cbn [map]. now rewrite Hat.
  - cbn beta. rewrite keyed_enumerate. apply summing_start. exact Hnodup.
  - intros c. reflexivity.
  - intros c. reflexivity.
Qed.

Lemma summing_ext counts f g :
  (forall k, In k labels -> f k = g k) ->
  summing self0 counts f = summing self0 counts g.
Proof. intros H. unfold summing. now rewrite (dmap_ext f g _ H). Qed.

(** Receiving the buffer of an array into an empty vessel of its shape
    gives the array. *)
Lemma Recv_into_exact a shp :
  wf_array a -> shape a = shp ->
  Recv_into (np_empty shp) (Buffer (data a)) = inr a.
Proof.
  intros Hwf <-. unfold Recv_into, np_empty. cbn [data shape].
  unfold wf_array, Py.len in Hwf. rewrite repeat_length, <- Hwf, Nat2Z.id.
  rewrite Nat.leb_refl.
  rewrite skipn_all2 by (rewrite repeat_length; lia).
  rewrite app_nil_r. destruct a; reflexivity.
Qed.

Lemma stacks_inplace_summing counts f label v g :
  In label labels -> g (f label) = inr v ->
  stacks_inplace (summing self0 counts f) label g
  = inr (summing self0 counts
           (fun k => if String.eqb k label then v else f k)).
Proof.
  intros Hin Hg. unfold stacks_inplace.
  cbn [summing stacks little_stack set_little_stack set_stacks
         set_stack_count attr_getitem attr_setitem].
  unfold dict_getitem. rewrite dict_get_dmap by exact Hin.
  rewrite Hg. rewrite dict_set_dmap by assumption. reflexivity.
Qed.

(** The queues while the cores [remc] remain in the third loop, and within
    it, at core [c1], while the labels [rem] remain. *)
Definition stacks_left (remc : list Z) (c : Z) : queue :=
  if contains remc c then map (dmsg c) L
  else if contains cores c then [] else q0 c.

Definition stack_left (c1 : Z) (remc : list Z)
  (rem : list (Z * String.string)) (c : Z) : queue :=
  if c =? c1 then map (dmsg c1) rem else stacks_left remc c.

Lemma shape_gathered_sum cs label :
  shape (gathered_sum self0 arr cs label) = shape (stack_at self0 label).
Proof. unfold gathered_sum. apply shape_fold_add. Qed.

Lemma recv_stacks_runs counts :
  runs (recv_stacks (summing self0 counts (stack_at self0)))
       (counts_left [])
       (inr (summing self0 counts (gathered_sum self0 arr cores)))
       (stacks_left []).
Proof.
  unfold recv_stacks.
  change (numcores (summing self0 counts (stack_at self0)))
    with (numcores self0).
  change (summing self0 counts (stack_at self0))
    with ((fun donec => summing self0 counts (gathered_sum self0 arr donec))
            []).
  eapply runs_conseq;
    [apply (runs_loop
              (fun donec => summing self0 counts
                              (gathered_sum self0 arr donec))
              stacks_left);
     [|intros c; reflexivity]| | |].
  2:{ reflexivity. }
  2:{ intros c. unfold counts_left, stacks_left.
      destruct (contains cores c); reflexivity. }
  2:{ intros c. reflexivity. }
  (* one core *)
  intros donec c1 remc q1 Hcores Hq1.
  pose proof (NoDup_cores (numcores self0)) as Hnd.
  rewrite Hcores in Hnd. apply NoDup_remove_2 in Hnd.
  assert (Hc1 : contains remc c1 = false).
  { apply contains_false. intros H. apply Hnd. apply in_or_app. now right. }
  assert (Hin1 : In c1 cores).
  { rewrite Hcores. apply in_or_app. right. now left. }
  cbn [summing little_stack set_little_stack].
  rewrite dict_keys_dmap.
  change (set_little_stack
            (set_stacks (set_stack_count self0 (Some counts))
               (Some (dmap (gathered_sum self0 arr donec)
                        (little_stack self0))))
            (dmap (gathered_sum self0 arr donec) (little_stack self0)))
    with ((fun done : list (Z * String.string) =>
             summing self0 counts
               (fun label =>
                  if mem label (map snd done)
                  then gathered_sum self0 arr (donec ++ [c1]) label
                  else gathered_sum self0 arr donec label)) []).
  eapply runs_conseq;
    [apply (runs_loop
              (fun done : list (Z * String.string) =>
                 summing self0 counts
                   (fun label =>
                      if mem label (map snd done)
                      then gathered_sum self0 arr (donec ++ [c1]) label
                      else gathered_sum self0 arr donec label))
              (stack_left c1 remc));
     [|intros c; reflexivity]| | |].
  - (* one label *)
    intros done x rem q2 HL Hq2.
    pose proof (label_fresh _ _ _ HL) as Hfresh.
    pose proof (label_known _ _ _ HL) as Hknown.
    apply mem_false in Hfresh.
    destruct (Hshape c1 (snd x) Hin1 Hknown) as [Hsh Hwf].
    cbn [summing little_stack set_little_stack tag_start set_stacks
           set_stack_count].
    unfold dict_getitem. rewrite dict_get_dmap by exact Hknown.
    rewrite Hfresh. cbn [lift bind].
    eapply runs_Recv.
    { rewrite Hq2. unfold stack_left. rewrite Z.eqb_refl.
      unfold stack_message. cbn [map]. reflexivity. }
    rewrite Recv_into_exact
      by (try exact Hwf; rewrite shape_gathered_sum; exact Hsh).
    cbn [lift bind].
    change (set_little_stack
              (set_stacks (set_stack_count self0 (Some counts))
                 (Some (dmap ?f (little_stack self0))))
              (dmap ?f (little_stack self0)))
      with (summing self0 counts f).
    erewrite stacks_inplace_summing; [|exact Hknown|].
    2:{ cbn beta. rewrite Hfresh. unfold iadd.
        rewrite shape_gathered_sum, <- Hsh. unfold shape_eqb.
        destruct (list_eq_dec Z.eq_dec (shape (arr c1 (snd x)))
                    (shape (arr c1 (snd x)))); [reflexivity|congruence]. }
    cbn [lift]. apply runs_Ret_ext.
    + apply summing_ext. intros k Hk. rewrite map_app, mem_app.
      cbn [map mem existsb]. rewrite orb_false_r.
      destruct (String.eqb_spec k (snd x)) as [->|Hne].
      * rewrite orb_true_r. unfold gathered_sum.
        now rewrite map_app, fold_left_app.
      * now rewrite orb_false_r.
    + intros c. unfold pop, stack_left. rewrite Hq2. unfold stack_left.
      destruct (c =? c1); reflexivity.
  - (* the state after the core *)
    cbn beta. apply summing_ext. intros k Hk.
    rewrite map_snd_enumerate. apply mem_true in Hk. now rewrite Hk.
  - (* the queues before *)
    intros c. rewrite Hq1. unfold stack_left, stacks_left.
    rewrite contains_cons. destruct (Z.eqb_spec c c1) as [->|];
      reflexivity.
  - (* the queues after *)
    intros c. unfold stack_left, stacks_left. cbn [map].
    destruct (Z.eqb_spec c c1) as [->|]; [|reflexivity].
    rewrite Hc1. apply contains_true in Hin1. now rewrite Hin1.
Qed.

(** The averaged stack of a label. *)
Definition gathered_average (label : String.string) : ndarray :=
  idiv_int (gathered_sum self0 arr cores label)
           (gathered_count self0 cnt cores label).

Lemma divide_stacks_runs q :
  runs (divide_stacks
          (summing self0 (gathered_counts self0 cnt L)
             (gathered_sum self0 arr cores)))
       q
       (inr (summing self0 (gathered_counts self0 cnt L) gathered_average))
       q.
Proof.
  unfold divide_stacks.
  cbn [summing little_stack set_little_stack].
  rewrite dict_keys_dmap.
  change (set_little_stack
            (set_stacks
               (set_stack_count self0 (Some (gathered_counts self0 cnt L)))
               (Some (dmap (gathered_sum self0 arr cores)
                        (little_stack self0))))
            (dmap (gathered_sum self0 arr cores) (little_stack self0)))
    with ((fun done : list (Z * String.string) =>
             summing self0 (gathered_counts self0 cnt L)
               (fun label =>
                  if mem label (map snd done) then gathered_average label
                  else gathered_sum self0 arr cores label)) []).
  eapply runs_conseq;
    [apply (runs_loop
              (fun done : list (Z * String.string) =>
                 summing self0 (gathered_counts self0 cnt L)
                   (fun label =>
                      if mem label (map snd done) then gathered_average label
                      else gathered_sum self0 arr cores label))
              (fun _ => q));
     [|intros c; reflexivity]| | |].
  - intros done x rem q1 HL Hq1.
    pose proof (label_fresh _ _ _ HL) as Hfresh.
    pose proof (label_known _ _ _ HL) as Hknown.
    apply mem_false in Hfresh.
    cbn [summing stack_count set_little_stack set_stacks set_stack_count
           attr_getitem].
    unfold dict_getitem, gathered_counts.
    rewrite (dict_get_keyed snd
               (gathered_count self0 cnt (cores_from_1 (numcores self0))))
      by (rewrite map_snd_enumerate; exact Hknown).
    cbn [lift bind].
    change (set_little_stack
              (set_stacks
                 (set_stack_count self0
                    (Some (map (fun kl : Z * String.string =>
                                  (snd kl,
                                   gathered_count self0 cnt
                                     (cores_from_1 (numcores self0))
                                     (snd kl))) L)))
                 (Some (dmap ?f (little_stack self0))))
              (dmap ?f (little_stack self0)))
      with (summing self0 (gathered_counts self0 cnt L) f).
    erewrite stacks_inplace_summing; [|exact Hknown|reflexivity].
    cbn [lift]. apply runs_Ret_ext; [|exact Hq1].
    apply summing_ext. intros k Hk. rewrite map_app, mem_app.
    cbn [map mem existsb]. rewrite orb_false_r, Hfresh.
    destruct (String.eqb_spec k (snd x)) as [->|Hne].
    + rewrite orb_true_r. reflexivity.
    + now rewrite orb_false_r.
  - cbn beta. apply summing_ext. intros k Hk.
    rewrite map_snd_enumerate. apply mem_true in Hk. now rewrite Hk.
  - intros c. reflexivity.
  - intros c. reflexivity.
Qed.

(** The object rank 0 holds when [get_stacks] returns. *)
Definition stacks_gathered : MPIStats :=
  summing self0 (gathered_counts self0 cnt L) gathered_average.

Lemma get_stacks_leader_runs :
  rank self0 = 0 ->
  runs (get_stacks self0) q0 (inr stacks_gathered) (stacks_left []).
Proof.
  intros Hrank. unfold get_stacks. rewrite Hrank. cbn [Z.eqb negb].
  eapply runs_bind; [apply recv_counts_runs|].
  eapply runs_bind; [apply alias_stacks_runs|].
  eapply runs_bind; [apply recv_stacks_runs|].
  apply divide_stacks_runs.
Qed.

End StacksLeader.

(** *** [get_stacks] on a whole communicator *)

(** Rank 0 and the other processes, in rank order, are ready to gather
    their stacks: every process has the same labels in the same order and
    the same [tag_start], has a count for every label, and its arrays have
    the shapes of the arrays of rank 0. *)
Record stacks_agree (leader : MPIStats) (followers : list MPIStats)
  : Prop := {
  agree_rank : rank leader = 0;
  agree_numcores : numcores leader = 1 + Py.len followers;
  agree_nodup : NoDup (dict_keys (little_stack leader));
  agree_leader_counts :
    forall label, In label (dict_keys (little_stack leader)) ->
                  In label (dict_keys (little_stack_count leader));
  agree_ranks : forall f, In f followers -> rank f <> 0;
  agree_tags : forall f, In f followers -> tag_start f = tag_start leader;
  agree_keys :
    forall f, In f followers ->
      dict_keys (little_stack f) = dict_keys (little_stack leader);
  agree_counts :
    forall f label, In f followers ->
      In label (dict_keys (little_stack f)) ->
      In label (dict_keys (little_stack_count f));
  agree_shapes :
    forall f label, In f followers ->
      In label (dict_keys (little_stack leader)) ->
      shape (stack_at f label) = shape (stack_at leader label)
      /\ wf_array (stack_at f label)
}.

(** What core [c] holds, by its position among the followers. *)
Definition core_count (followers : list MPIStats) (c : Z)
  (label : String.string) : Z :=
  match nth_error followers (Z.to_nat (c - 1)) with
  | Some f => count_at f label
  | None => 0
  end.

Definition core_stack (followers : list MPIStats) (c : Z)
  (label : String.string) : ndarray :=
  match nth_error followers (Z.to_nat (c - 1)) with
  | Some f => stack_at f label
  | None => {| shape := []; data := [] |}
  end.

Lemma map_nth_error_seq {X Y} (F : X -> Y) (d : Y) (l : list X) :
  map (fun k => match nth_error l k with Some x => F x | None => d end)
      (seq 0 (length l))
  = map F l.
Proof.
  induction l as [|x t IH]; [reflexivity|].
  cbn [length seq map nth_error]. f_equal.
  rewrite <- seq_shift, map_map. exact IH.
Qed.

Lemma map_over_cores {X Y} (F : X -> Y) (d : Y) (l : list X) :
  map (fun c => match nth_error l (Z.to_nat (c - 1)) with
                | Some x => F x
                | None => d
                end)
      (cores_from_1 (1 + Py.len l))
  = map F l.
Proof.
  unfold cores_from_1, Py.range, Py.len. rewrite !map_map.
  replace (Z.to_nat (1 + Z.of_nat (length l) - 1)) with (length l) by lia.
  rewrite <- (map_nth_error_seq F d l). apply map_ext. intros k.
  now replace (Z.to_nat (1 + Z.of_nat k - 1)) with k by lia.
Qed.

Lemma fold_left_add_map {X} (g : X -> Z) (l : list X) : forall a,
  fold_left (fun acc x => acc + g x) l a = a + Py.sum (map g l).
Proof.
  induction l as [|x t IH]; intros a; cbn [fold_left map].
  - unfold Py.sum. cbn. lia.
  - rewrite IH, PyFacts.sum_cons. lia.
Qed.

Lemma to_root_all {X} (t : X -> Z) (b : X -> payload) (xs : list X) :
  to_root (map (fun x => (0, t x, b x)) xs) = map (fun x => (t x, b x)) xs.
Proof.
  unfold to_root. induction xs as [|x xs IH]; [reflexivity|].
  cbn [map filter fst snd Z.eqb]. now rewrite IH.
Qed.

Lemma outbox_initial {A} (p0 : prog A) (fs : list (prog A)) c :
  1 <= c ->
  outbox (p0 :: fs) [] c
  = match nth_error fs (Z.to_nat (c - 1)) with
    | Some p => pending p
    | None => []
    end.
Proof.
  intros Hc. unfold outbox, inflight. cbn [filter map app].
  destruct (Z.leb_spec c 0); [lia|].
  replace (Z.to_nat c) with (S (Z.to_nat (c - 1))) by lia. reflexivity.
Qed.

Lemma stacks_outbox leader followers c :
  stacks_agree leader followers ->
  In c (cores_from_1 (numcores leader)) ->
  outbox (map get_stacks (leader :: followers)) [] c
  = map (count_message (tag_start leader) (core_count followers) c)
        (enumerate (dict_keys (little_stack leader)))
    ++ map (stack_message (tag_start leader) (core_stack followers) c)
           (enumerate (dict_keys (little_stack leader))).
Proof.
  intros Hag Hc. apply In_cores in Hc. rewrite (agree_numcores _ _ Hag) in Hc.
  cbn [map]. rewrite outbox_initial by lia. rewrite nth_error_map.
  unfold core_count, core_stack, count_message, stack_message.
  destruct (nth_error followers (Z.to_nat (c - 1))) as [f|] eqn:Ef.
  2:{ apply nth_error_None in Ef. unfold Py.len in Hc. lia. }
  pose proof (nth_error_In _ _ Ef) as Hf. cbn [option_map].
  unfold pending.
  rewrite get_stacks_trace
    by (try apply (agree_ranks _ _ Hag f Hf);
        intros label; apply (agree_counts _ _ Hag f label Hf)).
  unfold stack_messages.
  rewrite (agree_tags _ _ Hag f Hf), (agree_keys _ _ Hag f Hf).
  unfold to_root. rewrite filter_app, map_app.
  f_equal.
  - apply (to_root_all (fun kl => tag_start leader * 300 + fst kl)
             (fun kl => PyObj (count_at f (snd kl)))).
  - apply (to_root_all (fun kl => tag_start leader * 10 + fst kl)
             (fun kl => Buffer (data (stack_at f (snd kl))))).
Qed.

(** The elementwise sum of the stacks of all processes for a label, in rank
    order, and the sum of their counts. *)
Definition total_stack (leader : MPIStats) (followers : list MPIStats)
  (label : String.string) : ndarray :=
  fold_left arr_add (map (fun f => stack_at f label) followers)
            (stack_at leader label).

Definition total_count (leader : MPIStats) (followers : list MPIStats)
  (label : String.string) : Z :=
  Py.sum (map (fun p => count_at p label) (leader :: followers)).

Lemma gathered_average_total leader followers label :
  numcores leader = 1 + Py.len followers ->
  gathered_average leader (core_count followers) (core_stack followers) label
  = idiv_int (total_stack leader followers label)
             (total_count leader followers label).
Proof.
  intros Hn. unfold gathered_average, gathered_sum, gathered_count,
    total_stack, total_count. rewrite Hn. f_equal.
  - f_equal. apply (map_over_cores (fun f => stack_at f label)).
  - rewrite fold_left_add_map. cbn [map]. rewrite PyFacts.sum_cons.
    f_equal. f_equal.
    apply (map_over_cores (fun f => count_at f label)).
Qed.

(** Whatever the schedule, [get_stacks] can complete on every process, and
    when it has returned on rank 0 the stack of every label is the
    elementwise sum of the stacks of all processes divided by the sum of
    their counts. *)
Theorem get_stacks_gathers (leader : MPIStats) (followers : list MPIStats) :
  stacks_agree leader followers ->
  (exists nt self',
     steps {| procs := map get_stacks (leader :: followers); net := [] |}
           {| procs := Ret self' :: map Ret followers; net := nt |})
  /\ (forall c self',
        steps {| procs := map get_stacks (leader :: followers); net := [] |}
              c ->
        nth_error (procs c) 0 = Some (Ret self') ->
        forall label, In label (dict_keys (little_stack leader)) ->
          attr_getitem (stacks self') label
          = inr (idiv_int (total_stack leader followers label)
                          (total_count leader followers label))).
Proof.
  intros Hag.
  destruct (get_stacks_leader_runs leader (core_count followers)
              (core_stack followers)
              (outbox (map get_stacks (leader :: followers)) [])
              (agree_nodup _ _ Hag) (agree_leader_counts _ _ Hag))
    as [qf [Hrun _]].
  { intros c label Hc Hl. apply In_cores in Hc.
    rewrite (agree_numcores _ _ Hag) in Hc. unfold core_stack.
    destruct (nth_error followers (Z.to_nat (c - 1))) as [f|] eqn:Ef.
    - apply (agree_shapes _ _ Hag); [eapply nth_error_In; eauto|exact Hl].
    - apply nth_error_None in Ef. unfold Py.len in Hc. lia. }
  { intros c Hc. now apply stacks_outbox. }
  { exact (agree_rank _ _ Hag). }
  assert (Hfs : forall p, In p (map get_stacks followers) ->
                          trace_of p <> None).
  { intros p Hp. apply in_map_iff in Hp. destruct Hp as [f [<- Hf]].
    rewrite get_stacks_trace; [discriminate|apply (agree_ranks _ _ Hag f Hf)|].
    intros label. apply (agree_counts _ _ Hag f label Hf). }
  cbn [map] in Hrun |- *.
  destruct (gather_schedules _ _ _ _ Hfs Hrun) as [[nt Hex] Hall].
  split.
  - exists nt. eexists. cbn [lift] in Hex.
    replace (map Ret followers) with (map finish (map get_stacks followers));
      [exact Hex|].
    rewrite map_map. apply map_ext_in. intros f Hf. unfold finish.
    rewrite get_stacks_trace; [reflexivity|apply (agree_ranks _ _ Hag f Hf)|].
    intros label. apply (agree_counts _ _ Hag f label Hf).
  - intros c self' Hsteps Hret label Hl.
    destruct (Hall c Hsteps) as [p [Hp [Hr _]]].
    rewrite Hret in Hp. inversion Hp; subst p.
    specialize (Hr self' eq_refl). inversion Hr; subst self'.
    unfold stacks_gathered, summing.
    cbn [stacks set_little_stack set_stacks attr_getitem].
    unfold dict_getitem. rewrite dict_get_dmap by exact Hl.
    now rewrite gathered_average_total by exact (agree_numcores _ _ Hag).
Qed.

(** *** [get_stats]: what a process of rank other than 0 sends *)

(** The sample matrix a process holds for a label, and its number of
    rows. *)
Definition matrix_at (self : MPIStats) (label : String.string) : ndarray :=
  match dict_get (vectors self) label with
  | Some v => match as_array v with
              | inr a => a
              | inl _ => {| shape := []; data := [] |}
              end
  | None => {| shape := []; data := [] |}
  end.

Definition nrows_at (self : MPIStats) (label : String.string) : Z :=
  hd 0 (shape (matrix_at self label)).

(** The samples of [label] make a matrix with [d] columns. *)
Definition has_matrix (self : MPIStats) (label : String.string) (d : Z)
  : Prop :=
  exists v,
    dict_get (vectors self) label = Some v
    /\ as_array v = inr (matrix_at self label)
    /\ shape (matrix_at self label) = [nrows_at self label; d]
    /\ wf_array (matrix_at self label).

Definition stats_messages (self : MPIStats) : list (Z * Z * payload) :=
  map (fun kl => (0, tag_start self * 200 + fst kl,
                  PyObj (nrows_at self (snd kl))))
      (enumerate (dict_keys (vectors self)))
  ++ map (fun kl => (0, tag_start self + fst kl,
                     Buffer (data (matrix_at self (snd kl)))))
         (enumerate (dict_keys (vectors self))).

Lemma get_stats_trace self (dim : String.string -> Z) :
  rank self <> 0 ->
  (forall label, In label (dict_keys (vectors self)) ->
                 has_matrix self label (dim label)) ->
  trace_of (get_stats self) = Some (stats_messages self, inr self).
Proof.
  intros Hr Hmat. unfold get_stats.
  destruct (Z.eqb_spec (rank self) 0); [contradiction|]. cbn [negb].
  assert (H1 : trace_of (send_numobj self)
    = Some (map (fun kl => (0, tag_start self * 200 + fst kl,
                            PyObj (nrows_at self (snd kl))))
              (enumerate (dict_keys (vectors self))), inr self)).
  { apply trace_of_for_each. intros kl Hkl. apply in_enumerate in Hkl.
    destruct (Hmat _ Hkl) as [v [Hv [Ha [Hs _]]]].
    unfold dict_getitem. rewrite Hv. cbn [lift bind]. rewrite Ha.
    cbn [lift bind]. unfold shape_getitem. rewrite Hs. reflexivity. }
  assert (H2 : trace_of (send_vectors self)
    = Some (map (fun kl => (0, tag_start self + fst kl,
                            Buffer (data (matrix_at self (snd kl)))))
              (enumerate (dict_keys (vectors self))), inr self)).
  { apply trace_of_for_each. intros kl Hkl. apply in_enumerate in Hkl.
    destruct (Hmat _ Hkl) as [v [Hv [Ha _]]].
    unfold dict_getitem. rewrite Hv. cbn [lift bind]. rewrite Ha.
    reflexivity. }
  rewrite (trace_of_bind _ _ _ _ H1), H2. reflexivity.
Qed.

(** *** What rank 0 computes in [get_stats]

    [nrows c label] and [mat c label] are the number of samples and the
    sample matrix that core [c] sends for [label]. *)

Definition numobj_message (ts : Z) (nrows : Z -> String.string -> Z) (c : Z)
  (kl : Z * String.string) : Z * payload :=
  (ts * 200 + fst kl, PyObj (nrows c (snd kl))).

Definition vectors_message (ts : Z) (mat : Z -> String.string -> ndarray)
  (c : Z) (kl : Z * String.string) : Z * payload :=
  (ts + fst kl, Buffer (data (mat c (snd kl)))).

(** The rows of [b] below the rows of [a]. *)
Definition appended (a b : ndarray) : ndarray :=
  {| shape := (hd 0 (shape a) + hd 0 (shape b)) :: tl (shape a);
     data := data a ++ data b |}.

(** The matrix of rank 0 with the matrices of the cores below it, in core
    order. *)
Definition gathered_matrix (self0 : MPIStats)
  (mat : Z -> String.string -> ndarray) (cores : list Z)
  (label : String.string) : ndarray :=
  fold_left appended (map (fun c => mat c label) cores)
            (matrix_at self0 label).

Definition gathered_numobj (self0 : MPIStats)
  (nrows : Z -> String.string -> Z) (done : list (Z * String.string))
  : dict (list Z) :=
  map (fun kl => (snd kl,
                  nrows_at self0 (snd kl)
                  :: map (fun c => nrows c (snd kl))
                         (cores_from_1 (numcores self0))))
      done.

(** The object of rank 0 while it gathers samples. *)
Definition listing (self0 : MPIStats) (nums : dict (list Z)) : MPIStats :=
  set_numobj (set_stats self0 (Some [])) (Some nums).

Definition merging (self0 : MPIStats) (nums : dict (list Z))
  (f : String.string -> samples) : MPIStats :=
  set_vectors (listing self0 nums) (dmap f (vectors self0)).

Lemma getitem_core n0 (g : Z -> Z) n c :
  In c (cores_from_1 n) ->
  getitem (n0 :: map g (cores_from_1 n)) c = inr (g c).
Proof.
  intros Hc. apply In_cores in Hc. unfold getitem, Py.len.
  cbn [length]. unfold cores_from_1, Py.range.
  rewrite !length_map, length_seq, !map_map.
  destruct (Z.leb_spec 0 c); [|lia].
  destruct (Z.ltb_spec c (Z.of_nat (S (Z.to_nat (n - 1))))); [|lia].
  cbn [andb]. f_equal.
  replace (Z.to_nat c) with (S (Z.to_nat (c - 1))) by lia. cbn [nth].
  rewrite (nth_indep _ 0 ((fun x => g (1 + Z.of_nat x)) 0%nat))
    by (rewrite length_map, length_seq; lia).
  rewrite (map_nth (fun x => g (1 + Z.of_nat x))).
  rewrite seq_nth by lia. f_equal. lia.
Qed.

Lemma np_append_rows a b n1 n2 d :
  shape a = [n1; d] -> shape b = [n2; d] ->
  np_append a b = inr (appended a b).
Proof.
  intros Ha Hb. unfold np_append, appended. rewrite Ha, Hb.
  unfold shape_eqb.
  destruct (list_eq_dec Z.eq_dec [d] [d]); [reflexivity|congruence].
Qed.

Lemma shape_fold_appended d : forall l a n,
  shape a = [n; d] ->
  (forall b, In b l -> exists m, shape b = [m; d]) ->
  exists n', shape (fold_left appended l a) = [n'; d].
Proof.
  induction l as [|b t IH]; intros a n Ha Hl; [eauto|].
  cbn [fold_left]. destruct (Hl b (or_introl eq_refl)) as [m Hb].
  apply (IH (appended a b) (n + m)).
  - unfold appended. cbn [shape]. now rewrite Ha, Hb.
  - intros b' Hb'. apply Hl. now right.
Qed.

Section StatsLeader.
Variable self0 : MPIStats.
Variable nrows : Z -> String.string -> Z.
Variable mat : Z -> String.string -> ndarray.
Variable dim : String.string -> Z.
Variable q0 : Z -> queue.

Local Abbreviation labels := (dict_keys (vectors self0)).
Local Abbreviation L := (enumerate (dict_keys (vectors self0))).
Local Abbreviation cores := (cores_from_1 (numcores self0)).
Local Abbreviation nmsg := (numobj_message (tag_start self0) nrows).
Local Abbreviation vmsg := (vectors_message (tag_start self0) mat).

Hypothesis Hnodup : NoDup labels.
Hypothesis Hmat0 :
  forall label, In label labels -> has_matrix self0 label (dim label).
Hypothesis Hmat :
  forall c label, In c cores -> In label labels ->
    shape (mat c label) = [nrows c label; dim label]
    /\ wf_array (mat c label).
Hypothesis Hq0 :
  forall c, In c cores -> q0 c = map (nmsg c) L ++ map (vmsg c) L.

Definition numobj_left (rem : list (Z * String.string)) (c : Z) : queue :=
  if contains cores c then map (nmsg c) rem ++ map (vmsg c) L else q0 c.

Definition numobj_left_at (x : Z * String.string)
  (rem : list (Z * String.string)) (remc : list Z) (c : Z) : queue :=
  if contains remc c then nmsg c x :: numobj_left rem c
  else numobj_left rem c.

Lemma sample_fresh done x rem :
  L = done ++ x :: rem -> ~ In (snd x) (map snd done).
Proof.
  intros HL. pose proof Hnodup as Hnd.
  rewrite <- (map_snd_enumerate labels), HL, map_app in Hnd.
  cbn [map] in Hnd. now apply NoDup_app_mid in Hnd.
Qed.

Lemma sample_known done x rem : L = done ++ x :: rem -> In (snd x) labels.
Proof.
  intros HL. apply in_enumerate. rewrite HL. apply in_or_app.
  right. now left.
Qed.

Lemma recv_numobj_runs :
  runs (recv_numobj (listing self0 []))
       q0
       (inr (listing self0 (gathered_numobj self0 nrows L)))
       (numobj_left []).
Proof.
  unfold recv_numobj.
  change (vectors (listing self0 [])) with (vectors self0).
  apply (runs_loop
           (fun done => listing self0 (gathered_numobj self0 nrows done))
           numobj_left).
  2:{ intros c. unfold numobj_left.
      destruct (contains cores c) eqn:E; [|reflexivity].
      apply Hq0. now apply contains_true. }
  intros done x rem q HL Hq.
  pose proof (sample_fresh _ _ _ HL) as Hfresh.
  pose proof (sample_known _ _ _ HL) as Hknown.
  destruct (Hmat0 _ Hknown) as [v [Hv [Ha [Hs _]]]].
  cbn [listing vectors numobj numcores set_stats set_numobj].
  unfold dict_getitem. rewrite Hv. cbn [lift bind]. rewrite Ha.
  cbn [lift bind]. unfold shape_getitem. rewrite Hs.
  cbn [nth_error lift bind attr_setitem].
  rewrite dict_set_fresh
    by (unfold gathered_numobj; rewrite dict_keys_keyed; exact Hfresh).
  change (set_numobj
            (listing self0 (gathered_numobj self0 nrows done))
            (Some (gathered_numobj self0 nrows done
                   ++ [(snd x, [nrows_at self0 (snd x)])])))
    with ((fun donec =>
             listing self0
               (gathered_numobj self0 nrows done
                ++ [(snd x,
                     nrows_at self0 (snd x)
                     :: map (fun c => nrows c (snd x)) donec)]))
            []).
  eapply runs_conseq;
    [apply (runs_loop
              (fun donec =>
                 listing self0
                   (gathered_numobj self0 nrows done
                    ++ [(snd x,
                         nrows_at self0 (snd x)
                         :: map (fun c => nrows c (snd x)) donec)]))
              (numobj_left_at x rem));
     [|intros c; reflexivity]| | |].
  - (* one core *)
    intros donec c1 remc q1 Hcores Hq1.
    pose proof (NoDup_cores (numcores self0)) as Hnd.
    rewrite Hcores in Hnd. apply NoDup_remove_2 in Hnd.
    assert (Hc1 : contains remc c1 = false).
    { apply contains_false. intros H. apply Hnd. apply in_or_app. now right. }
    eapply runs_Recv.
    { rewrite Hq1. unfold numobj_left_at. rewrite contains_cons, Z.eqb_refl.
      cbn [orb]. unfold numobj_message. reflexivity. }
    cbn [recv_obj lift bind listing numobj set_numobj set_stats
           attr_getitem attr_setitem].
    unfold dict_getitem. rewrite dict_get_app_last
      by (unfold gathered_numobj; rewrite dict_keys_keyed; exact Hfresh).
    cbn [lift bind]. rewrite dict_set_app_last
      by (unfold gathered_numobj; rewrite dict_keys_keyed; exact Hfresh).
    apply runs_Ret_ext.
    + rewrite map_app. reflexivity.
    + intros c. unfold pop, numobj_left_at. rewrite Hq1.
      unfold numobj_left_at. rewrite contains_cons.
      destruct (Z.eqb_spec c c1) as [->|]; [now rewrite Hc1|reflexivity].
  - cbn beta. unfold gathered_numobj. rewrite map_app. reflexivity.
  - intros c. rewrite Hq. unfold numobj_left_at, numobj_left.
    destruct (contains cores c); reflexivity.
  - intros c. reflexivity.
Qed.

(** What [self.vectors[label]] holds on rank 0 before the call. *)
Definition value_at (label : String.string) : samples :=
  match dict_get (vectors self0) label with
  | Some v => v
  | None => PyList []
  end.

Lemma merging_ext nums f g :
  (forall k, In k labels -> f k = g k) ->
  merging self0 nums f = merging self0 nums g.
Proof. intros H. unfold merging. now rewrite (dmap_ext f g _ H). Qed.

Lemma merging_start nums : merging self0 nums value_at = listing self0 nums.
Proof.
  unfold merging, listing, set_vectors, set_numobj, set_stats. cbn.
  f_equal. unfold value_at. apply dmap_self. exact Hnodup.
Qed.

Lemma set_vectors_merging nums f label v :
  In label labels ->
  set_vectors (merging self0 nums f)
    (dict_set (vectors (merging self0 nums f)) label v)
  = merging self0 nums (fun k => if String.eqb k label then v else f k).
Proof.
  intros Hin. unfold merging at 2. cbn [vectors set_vectors].
  rewrite dict_set_dmap by assumption. reflexivity.
Qed.

Lemma stack_vectors_runs nums q :
  runs (stack_vectors (listing self0 nums)) q
       (inr (merging self0 nums (fun label => NdArray (matrix_at self0 label))))
       q.
Proof.
  unfold stack_vectors.
  change (vectors (listing self0 nums)) with (vectors self0).
  rewrite <- merging_start.
  change (merging self0 nums value_at)
    with ((fun done : list (Z * String.string) =>
             merging self0 nums
               (fun label =>
                  if mem label (map snd done)
                  then NdArray (matrix_at self0 label)
                  else value_at label)) []).
  eapply runs_conseq;
    [apply (runs_loop
              (fun done : list (Z * String.string) =>
                 merging self0 nums
                   (fun label =>
                      if mem label (map snd done)
                      then NdArray (matrix_at self0 label)
                      else value_at label))
              (fun _ => q));
     [|intros c; reflexivity]| | |].
  - intros done x rem q1 HL Hq1.
    pose proof (sample_fresh _ _ _ HL) as Hfresh.
    pose proof (sample_known _ _ _ HL) as Hknown.
    apply mem_false in Hfresh.
    destruct (Hmat0 _ Hknown) as [v [Hv [Ha _]]].
    unfold dict_getitem. unfold merging at 1. cbn [vectors set_vectors].
    rewrite dict_get_dmap by exact Hknown. rewrite Hfresh.
    unfold value_at at 1. rewrite Hv. cbn [lift bind]. rewrite Ha.
    cbn [lift bind]. rewrite set_vectors_merging by exact Hknown.
    apply runs_Ret_ext; [|exact Hq1].
    apply merging_ext. intros k Hk. rewrite map_app, mem_app.
    cbn [map mem existsb]. rewrite orb_false_r.
    destruct (String.eqb_spec k (snd x)) as [->|Hne].
    + now rewrite orb_true_r.
    + now rewrite orb_false_r.
  - cbn beta. apply merging_ext. intros k Hk.
    rewrite map_snd_enumerate. apply mem_true in Hk. now rewrite Hk.
  - intros c. reflexivity.
  - intros c. reflexivity.
Qed.

Definition vectors_left (remc : list Z) (c : Z) : queue :=
  if contains remc c then map (vmsg c) L
  else if contains cores c then [] else q0 c.

Definition vectors_left_at (c1 : Z) (remc : list Z)
  (rem : list (Z * String.string)) (c : Z) : queue :=
  if c =? c1 then map (vmsg c1) rem else vectors_left remc c.

Lemma shape_gathered_matrix cs label :
  (forall c, In c cs -> In c cores) -> In label labels ->
  exists n, shape (gathered_matrix self0 mat cs label) = [n; dim label].
Proof.
  intros Hcs Hl. destruct (Hmat0 _ Hl) as [v [_ [_ [Hs _]]]].
  unfold gathered_matrix. eapply shape_fold_appended; [exact Hs|].
  intros b Hb. apply in_map_iff in Hb. destruct Hb as [c [<- Hc]].
  destruct (Hmat c label (Hcs c Hc) Hl) as [Hsh _]. eauto.
Qed.

Lemma recv_vectors_runs :
  runs (recv_vectors
          (merging self0 (gathered_numobj self0 nrows L)
             (fun label => NdArray (matrix_at self0 label))))
       (numobj_left [])
       (inr (merging self0 (gathered_numobj self0 nrows L)
               (fun label => NdArray (gathered_matrix self0 mat cores label))))
       (vectors_left []).
Proof.
  unfold recv_vectors.
  change (numcores (merging self0 (gathered_numobj self0 nrows L)
                      (fun label => NdArray (matrix_at self0 label))))
    with (numcores self0).
  change (merging self0 (gathered_numobj self0 nrows L)
            (fun label => NdArray (matrix_at self0 label)))
    with ((fun donec =>
             merging self0 (gathered_numobj self0 nrows L)
               (fun label => NdArray (gathered_matrix self0 mat donec label)))
            []).
  eapply runs_conseq;
    [apply (runs_loop
              (fun donec =>
                 merging self0 (gathered_numobj self0 nrows L)
                   (fun label =>
                      NdArray (gathered_matrix self0 mat donec label)))
              vectors_left);
     [|intros c; reflexivity]| | |].
  2:{ reflexivity. }
  2:{ intros c. unfold numobj_left, vectors_left.
      destruct (contains cores c); reflexivity. }
  2:{ intros c. reflexivity. }
  intros donec c1 remc q1 Hcores Hq1.
  pose proof (NoDup_cores (numcores self0)) as Hnd.
  rewrite Hcores in Hnd. apply NoDup_remove_2 in Hnd.
  assert (Hc1 : contains remc c1 = false).
  { apply contains_false. intros H. apply Hnd. apply in_or_app. now right. }
  assert (Hin1 : In c1 cores).
  { rewrite Hcores. apply in_or_app. right. now left. }
  assert (Hdone : forall c, In c donec -> In c cores).
  { intros c Hc. rewrite Hcores. apply in_or_app. now left. }
  unfold merging at 1. cbn [vectors set_vectors]. rewrite dict_keys_dmap.
  change (set_vectors (listing self0 (gathered_numobj self0 nrows L))
            (dmap (fun label =>
                     NdArray (gathered_matrix self0 mat donec label))
                  (vectors self0)))
    with ((fun done : list (Z * String.string) =>
             merging self0 (gathered_numobj self0 nrows L)
               (fun label =>
                  NdArray
                    (if mem label (map snd done)
                     then gathered_matrix self0 mat (donec ++ [c1]) label
                     else gathered_matrix self0 mat donec label))) []).
  eapply runs_conseq;
    [apply (runs_loop
              (fun done : list (Z * String.string) =>
                 merging self0 (gathered_numobj self0 nrows L)
                   (fun label =>
                      NdArray
                        (if mem label (map snd done)
                         then gathered_matrix self0 mat (donec ++ [c1]) label
                         else gathered_matrix self0 mat donec label)))
              (vectors_left_at c1 remc));
     [|intros c; reflexivity]| | |].
  - (* one label *)
    intros done x rem q2 HL Hq2.
    pose proof (sample_fresh _ _ _ HL) as Hfresh.
    pose proof (sample_known _ _ _ HL) as Hknown.
    apply mem_false in Hfresh.
    destruct (Hmat c1 (snd x) Hin1 Hknown) as [Hsh Hwf].
    destruct (shape_gathered_matrix donec (snd x) Hdone Hknown) as [n Hn].
    unfold merging at 1 2 3.
    cbn [listing numobj vectors set_vectors set_numobj set_stats
           attr_getitem tag_start].
    unfold dict_getitem, gathered_numobj at 1.
    rewrite (dict_get_keyed snd
               (fun label => nrows_at self0 label
                             :: map (fun c => nrows c label) cores))
      by (rewrite map_snd_enumerate; exact Hknown).
    cbn [lift bind].
    rewrite (getitem_core _ (fun c => nrows c (snd x))) by exact Hin1.
    cbn [lift bind]. rewrite dict_get_dmap by exact Hknown.
    rewrite Hfresh. cbn [lift bind the_array]. unfold shape_getitem.
    rewrite Hn. cbn [nth_error lift bind].
    eapply runs_Recv.
    { rewrite Hq2. unfold vectors_left_at. rewrite Z.eqb_refl.
      unfold vectors_message. cbn [map]. reflexivity. }
    rewrite Recv_into_exact by assumption. cbn [lift bind].
    rewrite (np_append_rows _ _ _ _ _ Hn Hsh). cbn [lift bind].
    apply runs_Ret_ext.
    + change (set_vectors (listing self0 (gathered_numobj self0 nrows L))
                (dict_set (dmap ?f (vectors self0)) ?l ?v))
        with (set_vectors
                (merging self0 (gathered_numobj self0 nrows L) f)
                (dict_set
                   (vectors (merging self0 (gathered_numobj self0 nrows L) f))
                   l v)).
      rewrite set_vectors_merging by exact Hknown.
      apply merging_ext. intros k Hk. rewrite map_app, mem_app.
      cbn [map mem existsb]. rewrite orb_false_r.
      destruct (String.eqb_spec k (snd x)) as [->|Hne].
      * rewrite orb_true_r. unfold gathered_matrix.
        now rewrite map_app, fold_left_app.
      * now rewrite orb_false_r.
    + intros c. unfold pop, vectors_left_at. rewrite Hq2.
      unfold vectors_left_at. destruct (c =? c1); reflexivity.
  - cbn beta. apply merging_ext. intros k Hk.
    rewrite map_snd_enumerate. apply mem_true in Hk. now rewrite Hk.
  - intros c. rewrite Hq1. unfold vectors_left_at, vectors_left.
    rewrite contains_cons. destruct (Z.eqb_spec c c1) as [->|];
      reflexivity.
  - intros c. unfold vectors_left_at, vectors_left. cbn [map].
    destruct (Z.eqb_spec c c1) as [->|]; [|reflexivity].
    rewrite Hc1. apply contains_true in Hin1. now rewrite Hin1.
Qed.

(** The object rank 0 holds when [get_stats] returns. *)
Definition merged (label : String.string) : samples :=
  NdArray (gathered_matrix self0 mat cores label).

Definition gathered_stats (done : list (Z * String.string)) : dict Stats :=
  map (fun kl => (snd kl,
                  getStats (gathered_matrix self0 mat cores (snd kl))))
      done.

Definition stats_gathered : MPIStats :=
  set_stats (merging self0 (gathered_numobj self0 nrows L) merged)
            (Some (gathered_stats L)).

Lemma compute_stats_runs q :
  runs (compute_stats
          (merging self0 (gathered_numobj self0 nrows L) merged))
       q (inr stats_gathered) q.
Proof.
  unfold compute_stats.
  unfold merging at 1. cbn [vectors set_vectors]. rewrite dict_keys_dmap.
  change (merging self0 (gathered_numobj self0 nrows L) merged)
    with ((fun done : list (Z * String.string) =>
             set_stats (merging self0 (gathered_numobj self0 nrows L) merged)
                       (Some (gathered_stats done))) []).
  apply (runs_loop
           (fun done : list (Z * String.string) =>
              set_stats (merging self0 (gathered_numobj self0 nrows L) merged)
                        (Some (gathered_stats done)))
           (fun _ => q)); [|intros c; reflexivity].
  intros done x rem q1 HL Hq1.
  pose proof (sample_fresh _ _ _ HL) as Hfresh.
  pose proof (sample_known _ _ _ HL) as Hknown.
  unfold merging.
  cbn [listing vectors stats set_vectors set_numobj set_stats attr_setitem].
  unfold dict_getitem. rewrite dict_get_dmap by exact Hknown.
  unfold merged at 1. cbn [lift bind the_array].
  rewrite dict_set_fresh
    by (unfold gathered_stats; rewrite dict_keys_keyed; exact Hfresh).
  apply runs_Ret_ext; [|exact Hq1].
  unfold gathered_stats. rewrite map_app. reflexivity.
Qed.

Lemma get_stats_leader_runs :
  rank self0 = 0 ->
  runs (get_stats self0) q0 (inr stats_gathered) (vectors_left []).
Proof.
  intros Hrank. unfold get_stats. rewrite Hrank. cbn [Z.eqb negb].
  eapply runs_bind; [apply recv_numobj_runs|].
  eapply runs_bind; [apply stack_vectors_runs|].
  eapply runs_bind; [apply recv_vectors_runs|].
  apply compute_stats_runs.
Qed.

End StatsLeader.

(** *** [get_stats] on a whole communicator *)

(** The vectors a process has added for a label. *)
Definition rows_at (self : MPIStats) (label : String.string)
  : list (list R) :=
  match dict_get (vectors self) label with
  | Some (PyList rows) => rows
  | _ => []
  end.

(** The process holds for [label] a Python list of at least one vector,
    all of length [d]. *)
Definition has_rows (self : MPIStats) (label : String.string) (d : nat)
  : Prop :=
  dict_get (vectors self) label = Some (PyList (rows_at self label))
  /\ rows_at self label <> []
  /\ forall r, In r (rows_at self label) -> length r = d.

(** Rank 0 and the other processes, in rank order, are ready to gather
    their samples: the same labels in the same order, the same
    [tag_start], and for every label vectors of one length on all
    processes. *)
Record samples_agree (dim : String.string -> nat) (leader : MPIStats)
  (followers : list MPIStats) : Prop := {
  sagree_rank : rank leader = 0;
  sagree_numcores : numcores leader = 1 + Py.len followers;
  sagree_nodup : NoDup (dict_keys (vectors leader));
  sagree_ranks : forall f, In f followers -> rank f <> 0;
  sagree_tags : forall f, In f followers -> tag_start f = tag_start leader;
  sagree_keys :
    forall f, In f followers ->
      dict_keys (vectors f) = dict_keys (vectors leader);
  sagree_rows :
    forall p label, In p (leader :: followers) ->
      In label (dict_keys (vectors leader)) ->
      has_rows p label (dim label)
}.

Lemma length_concat_rows (rows : list (list R)) d :
  (forall r, In r rows -> length r = d) ->
  length (concat rows) = (length rows * d)%nat.
Proof.
  induction rows as [|r t IH]; intros H; [reflexivity|].
  cbn [concat length]. rewrite length_app, (H r (or_introl eq_refl)).
  rewrite IH; [lia|]. intros r' Hr'. apply H. now right.
Qed.

Lemma np_array_rows (rows : list (list R)) d :
  rows <> [] -> (forall r, In r rows -> length r = d) ->
  np_array rows
  = inr {| shape := [Py.len rows; Z.of_nat d]; data := concat rows |}.
Proof.
  intros Hne Hd. unfold np_array. destruct rows as [|r t]; [congruence|].
  assert (Hall : forallb (fun r' => (length r' =? length r)%nat) (r :: t)
                 = true).
  { apply forallb_forall. intros r' Hr'. apply Nat.eqb_eq.
    rewrite (Hd r' Hr'), (Hd r (or_introl eq_refl)). reflexivity. }
  rewrite Hall. unfold Py.len. now rewrite (Hd r (or_introl eq_refl)).
Qed.

Lemma has_rows_matrix self label d :
  has_rows self label d ->
  matrix_at self label
  = {| shape := [Py.len (rows_at self label); Z.of_nat d];
       data := concat (rows_at self label) |}
  /\ has_matrix self label (Z.of_nat d).
Proof.
  intros [Hv [Hne Hd]].
  assert (Hm : matrix_at self label
               = {| shape := [Py.len (rows_at self label); Z.of_nat d];
                    data := concat (rows_at self label) |}).
  { unfold matrix_at. rewrite Hv. cbn [as_array].
    now rewrite (np_array_rows _ d Hne Hd). }
  split; [exact Hm|]. exists (PyList (rows_at self label)).
  split; [exact Hv|]. split.
  - cbn [as_array]. rewrite Hm. now apply np_array_rows.
  - unfold nrows_at. rewrite Hm. cbn [shape hd data]. split; [reflexivity|].
    unfold wf_array, Py.len, size_of. cbn [data shape fold_right].
    rewrite (length_concat_rows _ d Hd). lia.
Qed.

Definition core_nrows (followers : list MPIStats) (c : Z)
  (label : String.string) : Z :=
  match nth_error followers (Z.to_nat (c - 1)) with
  | Some f => nrows_at f label
  | None => 0
  end.

Definition core_matrix (followers : list MPIStats) (c : Z)
  (label : String.string) : ndarray :=
  match nth_error followers (Z.to_nat (c - 1)) with
  | Some f => matrix_at f label
  | None => {| shape := []; data := [] |}
  end.

Lemma follower_has_matrix dim leader followers f :
  samples_agree dim leader followers -> In f followers ->
  forall label, In label (dict_keys (vectors f)) ->
                has_matrix f label (Z.of_nat (dim label)).
Proof.
  intros Hag Hf label Hl. rewrite (sagree_keys _ _ _ Hag f Hf) in Hl.
  apply has_rows_matrix.
  apply (sagree_rows _ _ _ Hag); [now right|exact Hl].
Qed.

Lemma stats_outbox dim leader followers c :
  samples_agree dim leader followers ->
  In c (cores_from_1 (numcores leader)) ->
  outbox (map get_stats (leader :: followers)) [] c
  = map (numobj_message (tag_start leader) (core_nrows followers) c)
        (enumerate (dict_keys (vectors leader)))
    ++ map (vectors_message (tag_start leader) (core_matrix followers) c)
           (enumerate (dict_keys (vectors leader))).
Proof.
  intros Hag Hc. apply In_cores in Hc.
  rewrite (sagree_numcores _ _ _ Hag) in Hc.
  cbn [map]. rewrite outbox_initial by lia. rewrite nth_error_map.
  unfold core_nrows, core_matrix, numobj_message, vectors_message.
  destruct (nth_error followers (Z.to_nat (c - 1))) as [f|] eqn:Ef.
  2:{ apply nth_error_None in Ef. unfold Py.len in Hc. lia. }
  pose proof (nth_error_In _ _ Ef) as Hf. cbn [option_map].
  unfold pending.
  rewrite (get_stats_trace f (fun label => Z.of_nat (dim label)))
    by (try apply (sagree_ranks _ _ _ Hag f Hf);
        apply (follower_has_matrix dim leader followers f Hag Hf)).
  unfold stats_messages.
  rewrite (sagree_tags _ _ _ Hag f Hf), (sagree_keys _ _ _ Hag f Hf).
  unfold to_root. rewrite filter_app, map_app.
  f_equal.
  - apply (to_root_all (fun kl => tag_start leader * 200 + fst kl)
             (fun kl => PyObj (nrows_at f (snd kl)))).
  - apply (to_root_all (fun kl => tag_start leader + fst kl)
             (fun kl => Buffer (data (matrix_at f (snd kl))))).
Qed.

(** Appending the matrices of the processes, in rank order, gives the
    matrix of all their rows. *)
Lemma fold_appended_rows (label : String.string) (d : nat)
  (fs : list MPIStats) : forall rows0,
  (forall f, In f fs -> has_rows f label d) ->
  fold_left appended (map (fun f => matrix_at f label) fs)
    {| shape := [Py.len rows0; Z.of_nat d]; data := concat rows0 |}
  = {| shape := [Py.len (rows0 ++ concat (map (fun f => rows_at f label) fs));
                 Z.of_nat d];
       data := concat (rows0 ++ concat (map (fun f => rows_at f label) fs)) |}.
Proof.
  induction fs as [|f t IH]; intros rows0 Hfs.
  - cbn [map concat fold_left]. now rewrite app_nil_r.
  - cbn [map concat fold_left].
    destruct (has_rows_matrix f label d (Hfs f (or_introl eq_refl)))
      as [Hm _].
    rewrite Hm. unfold appended at 2. cbn [shape hd tl data].
    replace (Py.len rows0 + Py.len (rows_at f label))
      with (Py.len (rows0 ++ rows_at f label))
      by (unfold Py.len; rewrite length_app; lia).
    rewrite <- concat_app.
    rewrite IH by (intros f' Hf'; apply Hfs; now right).
    now rewrite <- app_assoc.
Qed.

(** Whatever the schedule, [get_stats] can complete on every process, and
    when it has returned on rank 0 the matrix of every label has as its
    rows the vectors of rank 0, then those of rank 1, and so on, each
    process's vectors in the order it added them. *)
Theorem get_stats_gathers (dim : String.string -> nat) (leader : MPIStats)
  (followers : list MPIStats) :
  samples_agree dim leader followers ->
  (exists nt self',
     steps {| procs := map get_stats (leader :: followers); net := [] |}
           {| procs := Ret self' :: map Ret followers; net := nt |})
  /\ (forall c self',
        steps {| procs := map get_stats (leader :: followers); net := [] |}
              c ->
        nth_error (procs c) 0 = Some (Ret self') ->
        forall label, In label (dict_keys (vectors leader)) ->
          exists m,
            dict_get (vectors self') label = Some (NdArray m)
            /\ np_array (concat (map (fun p => rows_at p label)
                                     (leader :: followers)))
               = inr m).
Proof.
  intros Hag.
  destruct (get_stats_leader_runs leader (core_nrows followers)
              (core_matrix followers) (fun label => Z.of_nat (dim label))
              (outbox (map get_stats (leader :: followers)) [])
              (sagree_nodup _ _ _ Hag))
    as [qf [Hrun _]].
  { intros label Hl. apply has_rows_matrix.
    apply (sagree_rows _ _ _ Hag); [now left|exact Hl]. }
  { intros c label Hc Hl. apply In_cores in Hc.
    rewrite (sagree_numcores _ _ _ Hag) in Hc.
    unfold core_matrix, core_nrows.
    destruct (nth_error followers (Z.to_nat (c - 1))) as [f|] eqn:Ef.
    - assert (Hf : In f followers) by (eapply nth_error_In; eauto).
      destruct (has_rows_matrix f label (dim label)) as [_ [v [_ [_ H]]]];
        [apply (sagree_rows _ _ _ Hag); [now right|exact Hl]|exact H].
    - apply nth_error_None in Ef. unfold Py.len in Hc. lia. }
  { intros c Hc. now apply (stats_outbox dim). }
  { exact (sagree_rank _ _ _ Hag). }
  assert (Hfs : forall p, In p (map get_stats followers) ->
                          trace_of p <> None).
  { intros p Hp. apply in_map_iff in Hp. destruct Hp as [f [<- Hf]].
    rewrite (get_stats_trace f (fun label => Z.of_nat (dim label)));
      [discriminate|apply (sagree_ranks _ _ _ Hag f Hf)|].
    apply (follower_has_matrix dim leader followers f Hag Hf). }
  cbn [map] in Hrun |- *.
  destruct (gather_schedules _ _ _ _ Hfs Hrun) as [[nt Hex] Hall].
  split.
  - exists nt. eexists. cbn [lift] in Hex.
    replace (map Ret followers) with (map finish (map get_stats followers));
      [exact Hex|].
    rewrite map_map. apply map_ext_in. intros f Hf. unfold finish.
    rewrite (get_stats_trace f (fun label => Z.of_nat (dim label)));
      [reflexivity|apply (sagree_ranks _ _ _ Hag f Hf)|].
    apply (follower_has_matrix dim leader followers f Hag Hf).
  - intros c self' Hsteps Hret label Hl.
    destruct (Hall c Hsteps) as [p [Hp [Hr _]]].
    rewrite Hret in Hp. inversion Hp; subst p.
    specialize (Hr self' eq_refl). inversion Hr; subst self'.
    eexists. split.
    + unfold stats_gathered, merging. cbn [vectors set_stats set_vectors].
      rewrite dict_get_dmap by exact Hl. reflexivity.
    + unfold gathered_matrix, core_matrix.
      rewrite (sagree_numcores _ _ _ Hag).
      rewrite (map_over_cores (fun f => matrix_at f label)).
      assert (Hlead : has_rows leader label (dim label))
        by (apply (sagree_rows _ _ _ Hag); [now left|exact Hl]).
      destruct (has_rows_matrix _ _ _ Hlead) as [Hm _]. rewrite Hm.
      rewrite (fold_appended_rows label (dim label))
        by (intros f Hf; apply (sagree_rows _ _ _ Hag);
            [now right|exact Hl]).
      cbn [map concat]. destruct Hlead as [_ [Hne Hd]]. apply np_array_rows.
      * destruct (rows_at leader label); [congruence|discriminate].
      * intros r Hr'. apply in_app_or in Hr'. destruct Hr' as [Hr'|Hr'];
          [now apply Hd|].
        apply in_concat in Hr'. destruct Hr' as [rows [Hrows Hin]].
        apply in_map_iff in Hrows. destruct Hrows as [f [<- Hf]].
        destruct (sagree_rows _ _ _ Hag f label (or_intror Hf) Hl)
          as [_ [_ Hd']]. now apply Hd'.
Qed.

(** *** A process that only sends ends the same way in every schedule *)

Lemma finish_Send {A} dest tag b (k : prog A) :
  finish (Send dest tag b k) = finish k \/ trace_of k = None.
Proof.
  unfold finish. cbn [trace_of].
  destruct (trace_of k) as [[ms r]|]; [now left|now right].
Qed.

Lemma step_sender {A} (c c' : config A) i p :
  step c c' ->
  nth_error (procs c) i = Some p -> trace_of p <> None ->
  exists p', nth_error (procs c') i = Some p'
             /\ trace_of p' <> None /\ finish p' = finish p.
Proof.
  intros Hstep Hi Hp.
  destruct Hstep as [j ps nt dest tag b k Hj|j ps nt source tag k b nt' Hj Ht];
    cbn [procs] in *.
  - destruct (Nat.eq_dec j i) as [->|Hne].
    + rewrite Hi in Hj. inversion Hj; subst p.
      exists k. rewrite (nth_error_update_eq _ _ _ _ Hi).
      assert (Hk : trace_of k <> None).
      { cbn [trace_of] in Hp. destruct (trace_of k); congruence. }
      split; [reflexivity|]. split; [exact Hk|].
      destruct (finish_Send dest tag b k) as [H|H]; [now symmetry|].
      contradiction.
    + exists p. rewrite nth_error_update_neq by exact Hne. auto.
  - destruct (Nat.eq_dec j i) as [->|Hne].
    + rewrite Hi in Hj. inversion Hj; subst p. cbn in Hp. congruence.
    + exists p. rewrite nth_error_update_neq by exact Hne. auto.
Qed.

Lemma steps_sender {A} (c c' : config A) :
  steps c c' ->
  forall i p,
    nth_error (procs c) i = Some p -> trace_of p <> None ->
    exists p', nth_error (procs c') i = Some p'
               /\ trace_of p' <> None /\ finish p' = finish p.
Proof.
  induction 1 as [c|c1 c2 c3 H12 _ IH]; intros i p Hi Hp; [eauto|].
  destruct (step_sender _ _ _ _ H12 Hi Hp) as [p2 [Hi2 [Hp2 Hf2]]].
  destruct (IH i p2 Hi2 Hp2) as [p3 [Hi3 [Hp3 Hf3]]].
  exists p3. split; [exact Hi3|]. split; [exact Hp3|]. congruence.
Qed.

Lemma only_sends_returns {A} (ps : list (prog A)) i p s :
  nth_error ps i = Some p -> only_sends p s ->
  forall c, steps {| procs := ps; net := [] |} c ->
    forall s', nth_error (procs c) i = Some (Ret s') -> s' = s.
Proof.
  intros Hi [ms [r [Htr [_ Hr]]]] c Hsteps s' Hret.
  destruct (steps_sender _ _ Hsteps i p Hi) as [p' [Hi' [_ Hf]]];
    [rewrite Htr; discriminate|].
  cbn [procs] in Hi'. rewrite Hret in Hi'. inversion Hi'; subst p'.
  unfold finish in Hf. rewrite Htr in Hf. cbn [trace_of lift] in Hf.
  destruct r as [e|a]; cbn [lift] in Hf; [discriminate|].
  inversion Hf; subst. now apply Hr.
Qed.

(** C9. On a process of rank other than 0, [get_stacks] and [get_stats]
    never receive, send only to rank 0, and can only return the object
    unchanged (its sample lists, running sums and counts, and no
    [stacks], [stats] created); so in every schedule, with any other
    processes, such a process that has returned holds the state it had. *)
Theorem followers_unchanged (self : MPIStats) :
  rank self <> 0 ->
  (exists ms r,
     trace_of (get_stacks self) = Some (ms, r)
     /\ Forall (fun m => fst (fst m) = 0) ms
     /\ forall self', r = inr self' -> self' = self)
  /\ (exists ms r,
        trace_of (get_stats self) = Some (ms, r)
        /\ Forall (fun m => fst (fst m) = 0) ms
        /\ forall self', r = inr self' -> self' = self)
  /\ (forall ps i c self',
        nth_error ps i = Some (get_stacks self)
        \/ nth_error ps i = Some (get_stats self) ->
        steps {| procs := ps; net := [] |} c ->
        nth_error (procs c) i = Some (Ret self') ->
        self' = self).
Proof.
  intros Hr. split; [exact (get_stacks_only_sends self Hr)|].
  split; [exact (get_stats_only_sends self Hr)|].
  intros ps i c self' [Hi|Hi] Hsteps Hret.
  - exact (only_sends_returns ps i _ self Hi
             (get_stacks_only_sends self Hr) c Hsteps self' Hret).
  - exact (only_sends_returns ps i _ self Hi
             (get_stats_only_sends self Hr) c Hsteps self' Hret).
Qed.

(** *** The order of the contributions

    float64 addition is commutative but not associative, so the gathered
    sum depends in general on which process holds which contribution.  It
    does not where the additions are exact on the values that are
    contributed: where every contributed element is the image [rep x] of an
    integer [x], and the sum of two images is the image of the sum for all
    the integers that the partial sums can reach. *)

(** Addition is exact on the images of the integers up to [bound]: the sum
    of the images of [x] and [y] is the image of [x + y]. *)
Definition exact_below (rep : Z -> R) (bound : Z) : Prop :=
  forall x y : Z,
    Z.abs x + Z.abs y <= bound -> radd (rep x) (rep y) = rep (x + y).

(** Every element of the array is the image of an integer of magnitude at
    most [b]. *)
Definition within (rep : Z -> R) (b : Z) (a : ndarray) : Prop :=
  Forall (fun v => exists x : Z, Z.abs x <= b /\ v = rep x) (data a).

Lemma within_of_ints rep b a ints :
  data a = map rep ints -> Forall (fun x => Z.abs x <= b) ints ->
  within rep b a.
Proof.
  unfold within. intros ->. induction 1 as [|x t Hx Ht IH]; cbn [map].
  - constructor.
  - constructor; [now exists x|exact IH].
Qed.

Lemma map2_comm {X Y} (f : X -> X -> Y) :
  (forall x y, f x y = f y x) ->
  forall l1 l2, map2 f l1 l2 = map2 f l2 l1.
Proof.
  intros Hf. induction l1 as [|x t IH]; intros [|y u]; try reflexivity.
  cbn [map2]. now rewrite Hf, IH.
Qed.

Lemma map2_assoc {X} (f : X -> X -> X) :
  (forall x y z, f (f x y) z = f x (f y z)) ->
  forall l1 l2 l3, map2 f (map2 f l1 l2) l3 = map2 f l1 (map2 f l2 l3).
Proof.
  intros Hf. induction l1 as [|x t IH]; intros [|y u] [|z v];
    try reflexivity.
  cbn [map2]. now rewrite Hf, IH.
Qed.

Section Sums.

Context {X : Type} (f : X -> X -> X).
Hypothesis f_comm : forall x y, f x y = f y x.
Hypothesis f_assoc : forall x y z, f (f x y) z = f x (f y z).

(** The sum of a list from its right end, none for the empty list. *)
Fixpoint sum_list (l : list X) : option X :=
  match l with
  | [] => None
  | a :: t => match sum_list t with
              | None => Some a
              | Some s => Some (f a s)
              end
  end.

Lemma sum_list_Permutation l l' :
  Permutation l l' -> sum_list l = sum_list l'.
Proof.
  induction 1 as [|x l l' Hp IH|x y l|l l' l'' H1 IH1 H2 IH2].
  - reflexivity.
  - cbn [sum_list]. now rewrite IH.
  - cbn [sum_list]. destruct (sum_list l) as [s|].
    + now rewrite <- !f_assoc, (f_comm x y).
    + now rewrite (f_comm x y).
  - congruence.
Qed.

Lemma sum_list_fold t : forall a,
  sum_list (a :: t) = Some (fold_left f t a).
Proof.
  induction t as [|x t IH]; intros a; [reflexivity|].
  cbn [fold_left]. rewrite <- (IH (f a x)).
  cbn [sum_list]. destruct (sum_list t) as [s|]; [|reflexivity].
  now rewrite f_assoc.
Qed.

Lemma fold_left_Permutation a t a' t' :
  Permutation (a :: t) (a' :: t') -> fold_left f t a = fold_left f t' a'.
Proof.
  intros Hp. apply sum_list_Permutation in Hp.
  rewrite !sum_list_fold in Hp. now inversion Hp.
Qed.

End Sums.

Lemma fold_arr_add arrs : forall a,
  fold_left arr_add arrs a
  = {| shape := shape a;
       data := fold_left (map2 radd) (map data arrs) (data a) |}.
Proof.
  induction arrs as [|x t IH]; intros a; cbn [fold_left map].
  - now destruct a.
  - now rewrite IH.
Qed.

Lemma fold_map2_nil {X} (f : X -> X -> X) l :
  fold_left (map2 f) l [] = [].
Proof. induction l as [|x t IH]; [reflexivity|exact IH]. Qed.

Lemma ints_of rep b (l : list R) :
  Forall (fun v => exists x : Z, Z.abs x <= b /\ v = rep x) l ->
  exists ints,
    l = map rep ints /\ Forall (fun x => Z.abs x <= b) ints.
Proof.
  induction 1 as [|v l [x [Hx ->]] Hl [ints [-> Hints]]].
  - now exists [].
  - exists (x :: ints). split; [reflexivity|now constructor].
Qed.

Lemma all_ints rep b (arrs : list ndarray) :
  Forall (within rep b) arrs ->
  exists ilist,
    map data arrs = map (map rep) ilist
    /\ Forall (Forall (fun x => Z.abs x <= b)) ilist.
Proof.
  induction 1 as [|a t Ha Ht [ilist [E Hall]]].
  - now exists [].
  - destruct (ints_of rep b _ Ha) as [ints [Ea Hints]].
    exists (ints :: ilist). cbn [map]. rewrite Ea, E.
    split; [reflexivity|now constructor].
Qed.

Lemma within_negative rep b a : b < 0 -> within rep b a -> data a = [].
Proof.
  unfold within. intros Hb H. destruct (data a) as [|v t]; [reflexivity|].
  inversion H as [|? ? [x [Hx _]] _]. lia.
Qed.

(** One elementwise addition of images, within the bound. *)
Lemma map2_exact rep bound j k :
  exact_below rep bound -> j + k <= bound ->
  forall xs ys,
    Forall (fun x => Z.abs x <= j) xs ->
    Forall (fun y => Z.abs y <= k) ys ->
    map2 radd (map rep xs) (map rep ys) = map rep (map2 Z.add xs ys)
    /\ Forall (fun z => Z.abs z <= j + k) (map2 Z.add xs ys).
Proof.
  intros Hex Hb. induction xs as [|x xs IH]; intros [|y ys] Hx Hy;
    try (split; [reflexivity|constructor]).
  inversion Hx as [|? ? Hx1 Hx2]; subst.
  inversion Hy as [|? ? Hy1 Hy2]; subst.
  destruct (IH ys Hx2 Hy2) as [IH1 IH2].
  cbn [map map2]. split.
  - rewrite Hex by lia. now rewrite IH1.
  - constructor; [lia|exact IH2].
Qed.

(** The running sum of images of integers is the image of the running sum
    of the integers, as long as the magnitudes add up to at most the
    bound. *)
Lemma fold_exact rep bound b :
  exact_below rep bound -> 0 <= b ->
  forall ints i0 k,
    0 <= k ->
    Forall (Forall (fun x => Z.abs x <= b)) ints ->
    Forall (fun x => Z.abs x <= k * b) i0 ->
    (k + Py.len ints) * b <= bound ->
    fold_left (map2 radd) (map (map rep) ints) (map rep i0)
    = map rep (fold_left (map2 Z.add) ints i0).
Proof.
  intros Hex Hb. induction ints as [|x t IH]; intros i0 k Hk Hall Hi0 Hlen;
    [reflexivity|].
  inversion Hall as [|? ? Hx Ht]; subst.
  unfold Py.len in Hlen. cbn [length] in Hlen.
  assert (Hkb : k * b + b <= bound) by nia.
  destruct (map2_exact rep bound (k * b) b Hex Hkb i0 x Hi0 Hx) as [E1 E2].
  cbn [map fold_left]. rewrite E1. apply (IH _ (k + 1)).
  - lia.
  - exact Ht.
  - eapply Forall_impl; [|exact E2]. cbn beta. intros z Hz. nia.
  - unfold Py.len. nia.
Qed.

Lemma sum_Permutation l l' : Permutation l l' -> Py.sum l = Py.sum l'.
Proof.
  induction 1 as [|x l l' Hp IH|x y l|l l' l'' H1 IH1 H2 IH2].
  - reflexivity.
  - now rewrite !PyFacts.sum_cons, IH.
  - rewrite !PyFacts.sum_cons. lia.
  - congruence.
Qed.

(** What a process contributes for a label. *)
Definition contribution (label : String.string) (p : MPIStats)
  : Z * ndarray :=
  (count_at p label, stack_at p label).

Lemma total_stack_Permutation rep bound b l1 f1 l2 f2 label :
  exact_below rep bound ->
  (forall p, In p (l1 :: f1) -> within rep b (stack_at p label)) ->
  (1 + Py.len f1) * b <= bound ->
  stacks_agree l1 f1 ->
  In label (dict_keys (little_stack l1)) ->
  Permutation (map (contribution label) (l1 :: f1))
              (map (contribution label) (l2 :: f2)) ->
  total_stack l1 f1 label = total_stack l2 f2 label
  /\ total_count l1 f1 label = total_count l2 f2 label.
Proof.
  intros Hex Hval Hn Hag Hl Hperm. split.
  2:{ unfold total_count. apply sum_Permutation.
      apply (Permutation_map fst) in Hperm.
      now rewrite !map_map in Hperm. }
  assert (Hp : Permutation (map (fun p => stack_at p label) (l1 :: f1))
                           (map (fun p => stack_at p label) (l2 :: f2))).
  { apply (Permutation_map snd) in Hperm. now rewrite !map_map in Hperm. }
  assert (Hin2 : In (stack_at l2 label)
                    (map (fun p => stack_at p label) (l1 :: f1))).
  { eapply Permutation_in; [symmetry; exact Hp|]. now left. }
  apply in_map_iff in Hin2. destruct Hin2 as [p2 [Ep2 Hp2]].
  assert (Hshape : shape (stack_at l2 label) = shape (stack_at l1 label)).
  { rewrite <- Ep2. destruct Hp2 as [<-|Hp2]; [reflexivity|].
    now apply (agree_shapes _ _ Hag). }
  unfold total_stack. rewrite !fold_arr_add, Hshape. f_equal.
  destruct (Z_lt_le_dec b 0) as [Hneg|Hb].
  - (* no array has an element *)
    rewrite (within_negative rep b _ Hneg (Hval l1 (or_introl eq_refl))).
    rewrite <- Ep2, (within_negative rep b _ Hneg (Hval p2 Hp2)).
    now rewrite !fold_map2_nil.
  - assert (Hall : Forall (within rep b)
                          (map (fun p => stack_at p label) (l1 :: f1))).
    { apply Forall_forall. intros a Ha. apply in_map_iff in Ha.
      destruct Ha as [p [<- Hin]]. now apply Hval. }
    destruct (all_ints rep b _ Hall) as [ilist1 [E1 Hb1]].
    apply (Permutation_map data) in Hp. rewrite E1 in Hp.
    destruct (Permutation_map_inv _ _ (Permutation_sym Hp))
      as [ilist2 [E2 Hp12]].
    destruct ilist1 as [|i1 t1]; [discriminate|].
    destruct ilist2 as [|i2 t2]; [discriminate|].
    cbn [map] in E1, E2. inversion E1 as [[Ei1 Et1]].
    inversion E2 as [[Ei2 Et2]].
    rewrite Ei1, Et1, Ei2, Et2.
    pose proof (Permutation_Forall Hp12 Hb1) as Hb2.
    inversion Hb1 as [|? ? Hi1 Ht1]; subst.
    inversion Hb2 as [|? ? Hi2 Ht2]; subst.
    assert (Hlen1 : Py.len t1 = Py.len f1).
    { unfold Py.len. f_equal.
      apply (f_equal (@length _)) in Et1. now rewrite !length_map in Et1. }
    assert (Hlen2 : Py.len t2 = Py.len t1).
    { unfold Py.len. f_equal.
      apply Permutation_length in Hp12. cbn [length] in Hp12. lia. }
    rewrite (fold_exact rep bound b Hex Hb t1 i1 1),
      (fold_exact rep bound b Hex Hb t2 i2 1); try lia; try assumption.
    + f_equal.
      apply (fold_left_Permutation (map2 Z.add)
               (map2_comm Z.add Z.add_comm) (map2_assoc Z.add (fun x y z => eq_sym (Z.add_assoc x y z)))).
      exact Hp12.
    + eapply Forall_impl; [|exact Hi2]. cbn beta. intros; lia.
    + eapply Forall_impl; [|exact Hi1]. cbn beta. intros; lia.
Qed.

(** Where addition is exact on the contributed values: two communicators
    whose contributions for a label are the same up to their order over
    the processes end, in every schedule, with the same average for the
    label on rank 0. *)
Theorem get_stacks_order_exact (rep : Z -> R) (bound b : Z)
  (l1 : MPIStats) (f1 : list MPIStats)
  (l2 : MPIStats) (f2 : list MPIStats) (label : String.string) :
  exact_below rep bound ->
  (forall p, In p (l1 :: f1) -> within rep b (stack_at p label)) ->
  (1 + Py.len f1) * b <= bound ->
  stacks_agree l1 f1 -> stacks_agree l2 f2 ->
  In label (dict_keys (little_stack l1)) ->
  In label (dict_keys (little_stack l2)) ->
  Permutation (map (contribution label) (l1 :: f1))
              (map (contribution label) (l2 :: f2)) ->
  forall c1 s1 c2 s2,
    steps {| procs := map get_stacks (l1 :: f1); net := [] |} c1 ->
    nth_error (procs c1) 0 = Some (Ret s1) ->
    steps {| procs := map get_stacks (l2 :: f2); net := [] |} c2 ->
    nth_error (procs c2) 0 = Some (Ret s2) ->
    attr_getitem (stacks s1) label = attr_getitem (stacks s2) label.
Proof.
  intros Hex Hval Hn Hag1 Hag2 Hl1 Hl2 Hperm c1 s1 c2 s2 Hs1 Hr1 Hs2 Hr2.
  destruct (get_stacks_gathers l1 f1 Hag1) as [_ H1].
  destruct (get_stacks_gathers l2 f2 Hag2) as [_ H2].
  rewrite (H1 c1 s1 Hs1 Hr1 label Hl1), (H2 c2 s2 Hs2 Hr2 label Hl2).
  destruct (total_stack_Permutation rep bound b l1 f1 l2 f2 label
              Hex Hval Hn Hag1 Hl1 Hperm) as [-> ->].
  reflexivity.
Qed.

(** *** Objects built by [add_to_stack] *)

Lemma add_to_stack_keys self label arr self' :
  add_to_stack self label arr = inr self' ->
  dict_keys (little_stack_count self) = dict_keys (little_stack self) ->
  NoDup (dict_keys (little_stack self)) ->
  dict_keys (little_stack_count self') = dict_keys (little_stack self')
  /\ NoDup (dict_keys (little_stack self')).
Proof.
  unfold add_to_stack, dict_mem. intros Hadd Hk Hnd.
  destruct (dict_get (little_stack self) label) as [a|] eqn:Eg;
    cbn [negb] in Hadd.
  - (* a known label *)
    pose proof (dict_get_Some_In _ _ _ Eg) as Hin.
    unfold dict_getitem in Hadd. rewrite Eg in Hadd.
    destruct (iadd a arr) as [e|s]; [discriminate|].
    destruct (dict_get (little_stack_count self) label) as [c|];
      [|discriminate].
    inversion Hadd; subst self'.
    cbn [little_stack little_stack_count set_little_stack
           set_little_stack_count].
    rewrite !dict_keys_set_known by congruence. auto.
  - (* a new label *)
    apply dict_get_None in Eg.
    unfold dict_getitem in Hadd. rewrite dict_get_set_eq in Hadd.
    inversion Hadd; subst self'.
    cbn [little_stack little_stack_count set_little_stack
           set_little_stack_count].
    rewrite dict_set_set, !dict_keys_set_new by congruence.
    split; [congruence|].
    apply NoDup_app; [exact Hnd|repeat constructor; intros []|].
    intros x Hx [<-|[]]. contradiction.
Qed.

Lemma add_all_keys calls : forall self self',
  add_all self calls = inr self' ->
  dict_keys (little_stack_count self) = dict_keys (little_stack self) ->
  NoDup (dict_keys (little_stack self)) ->
  dict_keys (little_stack_count self') = dict_keys (little_stack self')
  /\ NoDup (dict_keys (little_stack self')).
Proof.
  induction calls as [|[label arr] t IH]; intros self self' Hadd Hk Hnd.
  - inversion Hadd; subst. auto.
  - cbn [add_all] in Hadd.
    destruct (add_to_stack self label arr) as [e|s1] eqn:E1; [discriminate|].
    destruct (add_to_stack_keys _ _ _ _ E1 Hk Hnd) as [Hk1 Hnd1].
    eapply IH; eauto.
Qed.

(** ** [Pipeline.distribute] *)

Definition distribute (self : Pipeline) (array : ndarray) (tag : Z)
  : prog ndarray :=
  if mrank self =? 0 then
    for_each (Py.range (msize self))
      (fun i array => Send i tag (Buffer (data array)) (Ret array))
      array
  else
    Recv 0 tag (fun b => lift (Recv_into array b)).

Lemma distribute_leader_trace self array tag :
  mrank self = 0 ->
  trace_of (distribute self array tag)
  = Some (map (fun i => (i, tag, Buffer (data array)))
              (Py.range (msize self)),
          inr array).
Proof.
  intros Hr. unfold distribute. rewrite Hr. cbn [Z.eqb].
  induction (Py.range (msize self)) as [|i t IH]; [reflexivity|].
  cbn [for_each map bind trace_of]. rewrite IH. reflexivity.
Qed.

(** For every group size the group leader's first send in [distribute] is
    addressed to rank 0, the leader itself. *)
Lemma distribute_leader_sends_to_itself self array tag :
  mrank self = 0 -> 1 <= msize self ->
  exists ms,
    trace_of (distribute self array tag)
    = Some ((0, tag, Buffer (data array)) :: ms, inr array).
Proof.
  intros Hr Hm. rewrite distribute_leader_trace by exact Hr.
  unfold Py.range.
  replace (Z.to_nat (msize self)) with (S (Z.to_nat (msize self - 1)))
    by lia.
  cbn [seq map]. eauto.
Qed.

(** A process of rank other than 0 receives once from rank 0 with the tag,
    into its buffer. *)
Lemma distribute_follower self array tag :
  mrank self <> 0 ->
  distribute self array tag
  = Recv 0 tag (fun b => lift (Recv_into array b)).
Proof.
  intros Hr. unfold distribute.
  destruct (Z.eqb_spec (mrank self) 0); [contradiction|reflexivity].
Qed.

(** *** What else rank 0 holds after the gathers *)

Lemma get_stacks_leader_object (leader : MPIStats)
  (followers : list MPIStats) :
  stacks_agree leader followers ->
  forall c self',
    steps {| procs := map get_stacks (leader :: followers); net := [] |} c ->
    nth_error (procs c) 0 = Some (Ret self') ->
    self' = stacks_gathered leader (core_count followers)
              (core_stack followers).
Proof.
  intros Hag.
  destruct (get_stacks_leader_runs leader (core_count followers)
              (core_stack followers)
              (outbox (map get_stacks (leader :: followers)) [])
              (agree_nodup _ _ Hag) (agree_leader_counts _ _ Hag))
    as [qf [Hrun _]].
  { intros c label Hc Hl. apply In_cores in Hc.
    rewrite (agree_numcores _ _ Hag) in Hc. unfold core_stack.
    destruct (nth_error followers (Z.to_nat (c - 1))) as [f|] eqn:Ef.
    - apply (agree_shapes _ _ Hag); [eapply nth_error_In; eauto|exact Hl].
    - apply nth_error_None in Ef. unfold Py.len in Hc. lia. }
  { intros c Hc. now apply stacks_outbox. }
  { exact (agree_rank _ _ Hag). }
  assert (Hfs : forall p, In p (map get_stacks followers) ->
                          trace_of p <> None).
  { intros p Hp. apply in_map_iff in Hp. destruct Hp as [f [<- Hf]].
    rewrite get_stacks_trace; [discriminate|apply (agree_ranks _ _ Hag f Hf)|].
    intros label. apply (agree_counts _ _ Hag f label Hf). }
  cbn [map] in Hrun |- *.
  destruct (gather_schedules _ _ _ _ Hfs Hrun) as [_ Hall].
  intros c self' Hsteps Hret.
  destruct (Hall c Hsteps) as [p [Hp [Hr _]]].
  rewrite Hret in Hp. inversion Hp; subst p.
  specialize (Hr self' eq_refl). now inversion Hr.
Qed.

Lemma gathered_count_total leader followers label :
  numcores leader = 1 + Py.len followers ->
  gathered_count leader (core_count followers)
    (cores_from_1 (numcores leader)) label
  = total_count leader followers label.
Proof.
  intros Hn. unfold gathered_count, total_count. rewrite Hn.
  rewrite fold_left_add_map. cbn [map]. rewrite PyFacts.sum_cons.
  f_equal. f_equal. apply (map_over_cores (fun f => count_at f label)).
Qed.

(** Once [get_stacks] has returned on rank 0, [stack_count[label]] is the
    sum of the counts of all processes, rank 0 included. *)
Theorem get_stacks_total_count (leader : MPIStats)
  (followers : list MPIStats) :
  stacks_agree leader followers ->
  (exists nt self',
     steps {| procs := map get_stacks (leader :: followers); net := [] |}
           {| procs := Ret self' :: map Ret followers; net := nt |})
  /\ (forall c self',
        steps {| procs := map get_stacks (leader :: followers); net := [] |}
              c ->
        nth_error (procs c) 0 = Some (Ret self') ->
        forall label, In label (dict_keys (little_stack leader)) ->
          attr_getitem (stack_count self') label
          = inr (Py.sum (map (fun p => count_at p label)
                             (leader :: followers)))).
Proof.
  intros Hag. split; [exact (proj1 (get_stacks_gathers _ _ Hag))|].
  intros c self' Hsteps Hret label Hl.
  rewrite (get_stacks_leader_object _ _ Hag c self' Hsteps Hret).
  unfold stacks_gathered, summing.
  cbn [stack_count set_little_stack set_stacks set_stack_count attr_getitem].
  unfold dict_getitem, gathered_counts.
  rewrite (dict_get_keyed snd
             (fun l => gathered_count leader (core_count followers)
                         (cores_from_1 (numcores leader)) l))
    by (now rewrite map_snd_enumerate).
  now rewrite gathered_count_total by exact (agree_numcores _ _ Hag).
Qed.


Lemma get_stats_leader_object (dim : String.string -> nat)
  (leader : MPIStats) (followers : list MPIStats) :
  samples_agree dim leader followers ->
  forall c self',
    steps {| procs := map get_stats (leader :: followers); net := [] |} c ->
    nth_error (procs c) 0 = Some (Ret self') ->
    self' = stats_gathered leader (core_nrows followers)
              (core_matrix followers).
Proof.
  intros Hag.
  destruct (get_stats_leader_runs leader (core_nrows followers)
              (core_matrix followers) (fun label => Z.of_nat (dim label))
              (outbox (map get_stats (leader :: followers)) [])
              (sagree_nodup _ _ _ Hag))
    as [qf [Hrun _]].
  { intros label Hl. apply has_rows_matrix.
    apply (sagree_rows _ _ _ Hag); [now left|exact Hl]. }
  { intros c label Hc Hl. apply In_cores in Hc.
    rewrite (sagree_numcores _ _ _ Hag) in Hc.
    unfold core_matrix, core_nrows.
    destruct (nth_error followers (Z.to_nat (c - 1))) as [f|] eqn:Ef.
    - assert (Hf : In f followers) by (eapply nth_error_In; eauto).
      destruct (has_rows_matrix f label (dim label)) as [_ [v [_ [_ H]]]];
        [apply (sagree_rows _ _ _ Hag); [now right|exact Hl]|exact H].
    - apply nth_error_None in Ef. unfold Py.len in Hc. lia. }
  { intros c Hc. now apply (stats_outbox dim). }
  { exact (sagree_rank _ _ _ Hag). }
  assert (Hfs : forall p, In p (map get_stats followers) ->
                          trace_of p <> None).
  { intros p Hp. apply in_map_iff in Hp. destruct Hp as [f [<- Hf]].
    rewrite (get_stats_trace f (fun label => Z.of_nat (dim label)));
      [discriminate|apply (sagree_ranks _ _ _ Hag f Hf)|].
    apply (follower_has_matrix dim leader followers f Hag Hf). }
  cbn [map] in Hrun |- *.
  destruct (gather_schedules _ _ _ _ Hfs Hrun) as [_ Hall].
  intros c self' Hsteps Hret.
  destruct (Hall c Hsteps) as [p [Hp [Hr _]]].
  rewrite Hret in Hp. inversion Hp; subst p.
  specialize (Hr self' eq_refl). now inversion Hr.
Qed.

Lemma nrows_at_rows self label d :
  has_rows self label d -> nrows_at self label = Py.len (rows_at self label).
Proof.
  intros H. destruct (has_rows_matrix _ _ _ H) as [Hm _].
  unfold nrows_at. now rewrite Hm.
Qed.

(** Once [get_stats] has returned on rank 0, [numobj[label]] lists the
    numbers of vectors of the processes, in rank order, rank 0 first. *)
Theorem get_stats_numobj (dim : String.string -> nat) (leader : MPIStats)
  (followers : list MPIStats) :
  samples_agree dim leader followers ->
  (exists nt self',
     steps {| procs := map get_stats (leader :: followers); net := [] |}
           {| procs := Ret self' :: map Ret followers; net := nt |})
  /\ (forall c self',
        steps {| procs := map get_stats (leader :: followers); net := [] |}
              c ->
        nth_error (procs c) 0 = Some (Ret self') ->
        forall label, In label (dict_keys (vectors leader)) ->
          attr_getitem (numobj self') label
          = inr (map (fun p => Py.len (rows_at p label))
                     (leader :: followers))).
Proof.
  intros Hag. split; [exact (proj1 (get_stats_gathers dim _ _ Hag))|].
  intros c self' Hsteps Hret label Hl.
  rewrite (get_stats_leader_object dim _ _ Hag c self' Hsteps Hret).
  unfold stats_gathered, merging, listing.
  cbn [numobj set_stats set_vectors set_numobj attr_getitem].
  unfold dict_getitem, gathered_numobj.
  rewrite (dict_get_keyed snd
             (fun l => nrows_at leader l
                       :: map (fun c0 => core_nrows followers c0 l)
                              (cores_from_1 (numcores leader))))
    by (now rewrite map_snd_enumerate).
  cbn [map]. f_equal. f_equal.
  - apply (nrows_at_rows _ _ (dim label)).
    apply (sagree_rows _ _ _ Hag); [now left|exact Hl].
  - rewrite (sagree_numcores _ _ _ Hag). unfold core_nrows.
    rewrite (map_over_cores (fun f => nrows_at f label)).
    apply map_ext_in. intros f Hf. apply (nrows_at_rows _ _ (dim label)).
    apply (sagree_rows _ _ _ Hag); [now right|exact Hl].
Qed.

Lemma gathered_matrix_rows (dim : String.string -> nat) leader followers
  label :
  samples_agree dim leader followers ->
  In label (dict_keys (vectors leader)) ->
  np_array (concat (map (fun p => rows_at p label) (leader :: followers)))
  = inr (gathered_matrix leader (core_matrix followers)
           (cores_from_1 (numcores leader)) label).
Proof.
  intros Hag Hl. unfold gathered_matrix, core_matrix.
  rewrite (sagree_numcores _ _ _ Hag).
  rewrite (map_over_cores (fun f => matrix_at f label)).
  assert (Hlead : has_rows leader label (dim label))
    by (apply (sagree_rows _ _ _ Hag); [now left|exact Hl]).
  destruct (has_rows_matrix _ _ _ Hlead) as [Hm _]. rewrite Hm.
  rewrite (fold_appended_rows label (dim label))
    by (intros f Hf; apply (sagree_rows _ _ _ Hag); [now right|exact Hl]).
  cbn [map concat]. destruct Hlead as [_ [Hne Hd]]. apply np_array_rows.
  - destruct (rows_at leader label); [congruence|discriminate].
  - intros r Hr'. apply in_app_or in Hr'. destruct Hr' as [Hr'|Hr'];
      [now apply Hd|].
    apply in_concat in Hr'. destruct Hr' as [rows [Hrows Hin]].
    apply in_map_iff in Hrows. destruct Hrows as [f [<- Hf]].
    destruct (sagree_rows _ _ _ Hag f label (or_intror Hf) Hl)
      as [_ [_ Hd']]. now apply Hd'.
Qed.

(** Once [get_stats] has returned on rank 0, [stats[label]] is what
    [stats.getStats] returns on the matrix of all the vectors of the label,
    the one that [vectors[label]] then holds. *)
Theorem get_stats_summary (dim : String.string -> nat) (leader : MPIStats)
  (followers : list MPIStats) :
  samples_agree dim leader followers ->
  (exists nt self',
     steps {| procs := map get_stats (leader :: followers); net := [] |}
           {| procs := Ret self' :: map Ret followers; net := nt |})
  /\ (forall c self',
        steps {| procs := map get_stats (leader :: followers); net := [] |}
              c ->
        nth_error (procs c) 0 = Some (Ret self') ->
        forall label, In label (dict_keys (vectors leader)) ->
          exists m,
            np_array (concat (map (fun p => rows_at p label)
                                  (leader :: followers)))
            = inr m
            /\ dict_get (vectors self') label = Some (NdArray m)
            /\ attr_getitem (stats self') label = inr (getStats m)).
Proof.
  intros Hag. split; [exact (proj1 (get_stats_gathers dim _ _ Hag))|].
  intros c self' Hsteps Hret label Hl.
  rewrite (get_stats_leader_object dim _ _ Hag c self' Hsteps Hret).
  eexists. split; [apply (gathered_matrix_rows dim); assumption|].
  unfold stats_gathered, merging, listing.
  cbn [stats vectors set_stats set_vectors set_numobj attr_getitem].
  split.
  - rewrite dict_get_dmap by exact Hl. reflexivity.
  - unfold dict_getitem, gathered_stats.
    rewrite (dict_get_keyed snd
               (fun l => getStats
                           (gathered_matrix leader (core_matrix followers)
                              (cores_from_1 (numcores leader)) l)))
      by (now rewrite map_snd_enumerate).
    reflexivity.
Qed.

(** After [get_stats], rank 0 can no longer add to a statistic it has
    gathered: [vectors[label]] is a numpy array now, which has no
    [append], so [add_to_stats] raises [AttributeError]. *)
Theorem add_to_stats_after_get_stats (dim : String.string -> nat)
  (leader : MPIStats) (followers : list MPIStats) :
  samples_agree dim leader followers ->
  (exists nt self',
     steps {| procs := map get_stats (leader :: followers); net := [] |}
           {| procs := Ret self' :: map Ret followers; net := nt |})
  /\ (forall c self',
        steps {| procs := map get_stats (leader :: followers); net := [] |}
              c ->
        nth_error (procs c) 0 = Some (Ret self') ->
        forall label vector, In label (dict_keys (vectors leader)) ->
          add_to_stats self' label vector = inl AttributeError).
Proof.
  intros Hag. split; [exact (proj1 (get_stats_gathers dim _ _ Hag))|].
  intros c self' Hsteps Hret label vector Hl.
  destruct (proj2 (get_stats_gathers dim _ _ Hag) c self' Hsteps Hret
              label Hl) as [m [Hm _]].
  unfold add_to_stats, dict_mem, dict_getitem. rewrite Hm. cbn [negb].
  now rewrite Hm.
Qed.

(** *** What a process of rank other than 0 puts on the wire *)

(** [get_stacks] on a process of rank other than 0 is a sequence of sends
    to rank 0 and nothing else: for the [k]-th label the pickled count
    with tag [tag_start*300 + k], then, after all the counts, for the
    [k]-th label the buffer of the stack with tag [tag_start*10 + k]; the
    object is returned as it was. *)
Theorem get_stacks_follower_messages (self : MPIStats) :
  rank self <> 0 ->
  (forall label, In label (dict_keys (little_stack self)) ->
                 In label (dict_keys (little_stack_count self))) ->
  trace_of (get_stacks self)
  = Some (map (fun kl => (0, tag_start self * 300 + fst kl,
                          PyObj (count_at self (snd kl))))
              (enumerate (dict_keys (little_stack self)))
          ++ map (fun kl => (0, tag_start self * 10 + fst kl,
                             Buffer (data (stack_at self (snd kl)))))
                 (enumerate (dict_keys (little_stack self))),
          inr self).
Proof. intros Hr Hc. exact (get_stacks_trace self Hr Hc). Qed.

(** [get_stats] on a process of rank other than 0 whose vectors have one
    length per label: for the [k]-th label the pickled number of vectors
    with tag [tag_start*200 + k], then for the [k]-th label the buffer of
    the matrix of the vectors, row after row, with tag [tag_start + k]. *)
Theorem get_stats_follower_messages (self : MPIStats)
  (dim : String.string -> nat) :
  rank self <> 0 ->
  (forall label, In label (dict_keys (vectors self)) ->
                 has_rows self label (dim label)) ->
  trace_of (get_stats self)
  = Some (map (fun kl => (0, tag_start self * 200 + fst kl,
                          PyObj (Py.len (rows_at self (snd kl)))))
              (enumerate (dict_keys (vectors self)))
          ++ map (fun kl => (0, tag_start self + fst kl,
                             Buffer (concat (rows_at self (snd kl)))))
                 (enumerate (dict_keys (vectors self))),
          inr self).
Proof.
  intros Hr Hrows.
  rewrite (get_stats_trace self (fun label => Z.of_nat (dim label)) Hr)
    by (intros label Hl; apply has_rows_matrix, Hrows, Hl).
  unfold stats_messages. f_equal. f_equal. f_equal.
  - apply map_ext_in. intros kl Hkl. apply in_enumerate in Hkl.
    now rewrite (nrows_at_rows _ _ _ (Hrows _ Hkl)).
  - apply map_ext_in. intros kl Hkl. apply in_enumerate in Hkl.
    destruct (has_rows_matrix _ _ _ (Hrows _ Hkl)) as [Hm _].
    now rewrite Hm.
Qed.

(** *** Rendezvous

    A send that does not buffer completes together with the receive that
    matches it: the sender is at a send to the receiver, the receiver at a
    receive from the sender with the same tag.  Such an exchange is a send
    followed at once by its receive, so what holds in every schedule holds
    in every rendezvous schedule. *)

Inductive sync_step {A} : list (prog A) -> list (prog A) -> Prop :=
| sync_exchange i j ps tag b k kk :
    nth_error ps i = Some (Send (Z.of_nat j) tag b k) ->
    nth_error ps j = Some (Recv (Z.of_nat i) tag kk) ->
    sync_step ps (update j (kk b) (update i k ps)).

Inductive sync_steps {A} : list (prog A) -> list (prog A) -> Prop :=
| sync_refl ps : sync_steps ps ps
| sync_more ps1 ps2 ps3 :
    sync_step ps1 ps2 -> sync_steps ps2 ps3 -> sync_steps ps1 ps3.

Lemma sync_step_steps {A} (ps ps' : list (prog A)) :
  sync_step ps ps' ->
  steps {| procs := ps; net := [] |} {| procs := ps'; net := [] |}.
Proof.
  intros [i j ps0 tag b k kk Hi Hj].
  assert (Hij : i <> j) by (intros ->; rewrite Hi in Hj; discriminate).
  eapply steps_step; [apply (step_send i ps0 [] _ tag b k Hi)|].
  eapply steps_step; [|apply steps_refl].
  apply (step_recv j (update i k ps0) _ (Z.of_nat i) tag kk b []).
  - rewrite nth_error_update_neq by exact Hij. exact Hj.
  - cbn [app take msg_src msg_dst msg_tag msg_body].
    now rewrite !Z.eqb_refl.
Qed.

Lemma sync_steps_steps {A} (ps ps' : list (prog A)) :
  sync_steps ps ps' ->
  steps {| procs := ps; net := [] |} {| procs := ps'; net := [] |}.
Proof.
  induction 1 as [ps|ps1 ps2 ps3 H12 _ IH]; [apply steps_refl|].
  eapply steps_trans; [apply sync_step_steps; exact H12|exact IH].
Qed.

(** A process that only sends, and only to rank 0. *)
Definition sends_to_root {A} (p : prog A) : Prop :=
  exists ms r,
    trace_of p = Some (ms, r) /\ Forall (fun m => fst (fst m) = 0) ms.

Lemma sends_to_root_next {A} (p : prog A) t b rest :
  sends_to_root p -> pending p = (t, b) :: rest ->
  exists k, p = Send 0 t b k /\ sends_to_root k /\ pending k = rest
            /\ finish k = finish p.
Proof.
  intros [ms [r [Htr Hall]]] Hp.
  destruct p as [a|e|dest tag b0 k|source tag k]; cbn in Hp;
    try discriminate.
  unfold pending in Hp. cbn [trace_of] in Htr, Hp.
  destruct (trace_of k) as [[ms' r']|] eqn:Ek; [|discriminate].
  inversion Htr; subst ms r. inversion Hall as [|? ? Hd Hall']; subst.
  cbn [fst] in Hd. subst dest.
  unfold to_root in Hp. cbn [filter fst snd Z.eqb map] in Hp.
  inversion Hp; subst. exists k. split; [reflexivity|].
  split; [exists ms', r'; auto|].
  split; [unfold pending; now rewrite Ek|].
  unfold finish. cbn [trace_of]. now rewrite Ek.
Qed.

Lemma sends_to_root_done {A} (p : prog A) :
  sends_to_root p -> pending p = [] -> finish p = p.
Proof.
  intros [ms [r [Htr Hall]]] Hp.
  destruct p as [a|e|dest tag b0 k|source tag k]; try reflexivity.
  unfold pending in Hp. cbn [trace_of] in Htr, Hp.
  destruct (trace_of k) as [[ms' r']|]; [|discriminate].
  inversion Htr; subst ms r. inversion Hall as [|? ? Hd Hall']; subst.
  cbn [fst] in Hd. subst dest. discriminate Hp.
Qed.

Lemma In_update {X} (x : X) : forall l i y,
  In y (update i x l) -> y = x \/ In y l.
Proof.
  induction l as [|z t IH]; intros [|i] y H; cbn [update] in H;
    try (now right).
  - destruct H as [<-|H]; [now left|right; now right].
  - destruct H as [<-|H]; [right; now left|].
    destruct (IH _ _ H); [now left|right; now right].
Qed.

Lemma map_update_same {X Y} (g : X -> Y) (x : X) : forall l i y,
  nth_error l i = Some y -> g x = g y -> map g (update i x l) = map g l.
Proof.
  induction l as [|z t IH]; intros [|i] y H Hg; try discriminate.
  - cbn in *. inversion H; subst. now rewrite Hg.
  - cbn in *. f_equal. eapply IH; eauto.
Qed.

Lemma outbox_followers {A} (p0 : prog A) (fs : list (prog A)) s :
  outbox (p0 :: fs) [] s
  = if s <=? 0 then []
    else match nth_error fs (Z.to_nat s - 1) with
         | Some p => pending p
         | None => []
         end.
Proof.
  unfold outbox, inflight. cbn [filter map app].
  destruct (Z.leb_spec s 0); [reflexivity|].
  replace (Z.to_nat s) with (S (Z.to_nat s - 1)) at 1 by lia. reflexivity.
Qed.

(** The gatherer's run is a rendezvous schedule: each of its receives finds
    the source at the matching send. *)
Lemma gather_rendezvous {A} (p0 : prog A) : forall fs q r qf,
  (forall f, In f fs -> sends_to_root f) ->
  (forall s, q s = outbox (p0 :: fs) [] s) ->
  run_gather p0 q = Some (r, qf) ->
  exists fs',
    sync_steps (p0 :: fs) (lift r :: fs')
    /\ (forall f, In f fs' -> sends_to_root f)
    /\ (forall s, qf s = outbox (lift r :: fs') [] s)
    /\ map finish fs' = map finish fs.
Proof.
  induction p0 as [a|e|dest tag b k IH|source tag k IH];
    intros fs q r qf Hfs Hq Hrun; cbn [run_gather] in Hrun.
  - inversion Hrun; subst. exists fs. split; [apply sync_refl|].
    split; [exact Hfs|]. split; [exact Hq|reflexivity].
  - inversion Hrun; subst. exists fs. split; [apply sync_refl|].
    split; [exact Hfs|]. split; [|reflexivity].
    intros s. rewrite Hq, !outbox_followers. reflexivity.
  - discriminate.
  - destruct (q source) as [|[t' b] rest] eqn:Eq; [discriminate|].
    destruct (Z.eqb_spec t' tag) as [->|]; [|discriminate].
    rewrite Hq, outbox_followers in Eq.
    destruct (Z.leb_spec source 0) as [|Hpos]; [discriminate|].
    destruct (nth_error fs (Z.to_nat source - 1)) as [f|] eqn:Ef;
      [|discriminate].
    destruct (sends_to_root_next f tag b rest
                (Hfs f (nth_error_In _ _ Ef)) Eq)
      as [k' [-> [Hk' [Hpend Hfin]]]].
    set (n := (Z.to_nat source - 1)%nat) in *.
    assert (Hsrc : source = Z.of_nat (S n)) by (unfold n; lia).
    destruct (IH b (update n k' fs) (pop q source rest) r qf)
      as [fs' [Hsync [Hfs' [Hqf Hmap]]]].
    + intros f Hf. apply In_update in Hf. destruct Hf as [->|Hf]; auto.
    + intros s. unfold pop. rewrite outbox_followers.
      destruct (Z.eqb_spec s source) as [->|Hs].
      * destruct (Z.leb_spec source 0); [lia|]. fold n.
        now rewrite (nth_error_update_eq _ _ _ _ Ef).
      * rewrite Hq, outbox_followers.
        destruct (Z.leb_spec s 0); [reflexivity|].
        rewrite nth_error_update_neq by (unfold n; lia). reflexivity.
    + exact Hrun.
    + exists fs'. split; [|split; [exact Hfs'|split; [exact Hqf|]]].
      * eapply sync_more; [|exact Hsync].
        change (k b :: update n k' fs)
          with (update 0 (k b) (update (S n) k' (Recv source tag k :: fs))).
        apply (sync_exchange (S n) 0%nat _ tag b k' k).
        -- cbn [nth_error Z.of_nat]. exact Ef.
        -- cbn [nth_error]. now rewrite Hsrc.
      * rewrite Hmap. eapply map_update_same; eauto.
Qed.

(** When the gatherer leaves no message behind, the rendezvous schedule
    ends with every process done. *)
Lemma gather_rendezvous_done {A} (p0 : prog A) fs r qf :
  (forall f, In f fs -> sends_to_root f) ->
  run_gather p0 (outbox (p0 :: fs) []) = Some (r, qf) ->
  (forall s, qf s = []) ->
  sync_steps (p0 :: fs) (lift r :: map finish fs).
Proof.
  intros Hfs Hrun Hqf.
  destruct (gather_rendezvous p0 fs _ r qf Hfs (fun s => eq_refl) Hrun)
    as [fs' [Hsync [Hfs' [Hq' Hmap]]]].
  replace (map finish fs) with fs'; [exact Hsync|].
  rewrite <- Hmap. clear Hmap Hsync.
  assert (Hdone : forall i f, nth_error fs' i = Some f -> finish f = f).
  { intros i f Hi. apply sends_to_root_done;
      [apply Hfs'; eapply nth_error_In; eauto|].
    specialize (Hq' (Z.of_nat (S i))). rewrite Hqf, outbox_followers in Hq'.
    destruct (Z.leb_spec (Z.of_nat (S i)) 0); [lia|].
    replace (Z.to_nat (Z.of_nat (S i)) - 1)%nat with i in Hq' by lia.
    now rewrite Hi in Hq'. }
  clear Hfs' Hq'. induction fs' as [|f t IH]; [reflexivity|].
  cbn [map]. rewrite (Hdone 0%nat f eq_refl). f_equal.
  apply IH. intros i f' Hi. apply (Hdone (S i)). exact Hi.
Qed.

Lemma only_sends_to_root {A} (p : prog A) (s : A) :
  only_sends p s -> sends_to_root p.
Proof. intros [ms [r [Htr [Hall _]]]]. exists ms, r. auto. Qed.

Lemma outbox_outside {A} (p0 : prog A) (fs : list (prog A)) n s :
  n = 1 + Py.len fs -> contains (cores_from_1 n) s = false ->
  outbox (p0 :: fs) [] s = [].
Proof.
  intros Hn Hs. apply contains_false in Hs. rewrite In_cores in Hs.
  rewrite outbox_followers. destruct (Z.leb_spec s 0); [reflexivity|].
  destruct (nth_error fs (Z.to_nat s - 1)) as [f|] eqn:Ef; [|reflexivity].
  assert (Hlt : (Z.to_nat s - 1 < length fs)%nat)
    by (apply nth_error_Some; congruence).
  unfold Py.len in Hn. lia.
Qed.

(** [get_stacks] also completes when no send is buffered: rank 0 receives
    from the processes one at a time while each of them is at the matching
    send. *)
Lemma get_stacks_rendezvous (leader : MPIStats) (followers : list MPIStats) :
  stacks_agree leader followers ->
  exists self',
    sync_steps (map get_stacks (leader :: followers))
               (Ret self' :: map Ret followers).
Proof.
  intros Hag.
  destruct (get_stacks_leader_runs leader (core_count followers)
              (core_stack followers)
              (outbox (map get_stacks (leader :: followers)) [])
              (agree_nodup _ _ Hag) (agree_leader_counts _ _ Hag))
    as [qf [Hrun Hqf]].
  { intros c label Hc Hl. apply In_cores in Hc.
    rewrite (agree_numcores _ _ Hag) in Hc. unfold core_stack.
    destruct (nth_error followers (Z.to_nat (c - 1))) as [f|] eqn:Ef.
    - apply (agree_shapes _ _ Hag); [eapply nth_error_In; eauto|exact Hl].
    - apply nth_error_None in Ef. unfold Py.len in Hc. lia. }
  { intros c Hc. now apply stacks_outbox. }
  { exact (agree_rank _ _ Hag). }
  cbn [map] in Hrun, Hqf |- *. eexists.
  replace (map Ret followers) with (map finish (map get_stacks followers)).
  - apply (gather_rendezvous_done _ _ _ _) with (2 := Hrun).
    + intros p Hp. apply in_map_iff in Hp. destruct Hp as [f [<- Hf]].
      apply (only_sends_to_root _ f), get_stacks_only_sends.
      apply (agree_ranks _ _ Hag f Hf).
    + intros s. rewrite Hqf. unfold stacks_left. cbn [contains existsb].
      destruct (contains (cores_from_1 (numcores leader)) s) eqn:Es;
        [reflexivity|].
      apply (outbox_outside _ _ (numcores leader)); [|exact Es].
      rewrite (agree_numcores _ _ Hag). unfold Py.len.
      now rewrite length_map.
  - rewrite map_map. apply map_ext_in. intros f Hf. unfold finish.
    rewrite get_stacks_trace; [reflexivity|apply (agree_ranks _ _ Hag f Hf)|].
    intros label. apply (agree_counts _ _ Hag f label Hf).
Qed.

Lemma get_stats_rendezvous (dim : String.string -> nat) (leader : MPIStats)
  (followers : list MPIStats) :
  samples_agree dim leader followers ->
  exists self',
    sync_steps (map get_stats (leader :: followers))
               (Ret self' :: map Ret followers).
Proof.
  intros Hag.
  destruct (get_stats_leader_runs leader (core_nrows followers)
              (core_matrix followers) (fun label => Z.of_nat (dim label))
              (outbox (map get_stats (leader :: followers)) [])
              (sagree_nodup _ _ _ Hag))
    as [qf [Hrun Hqf]].
  { intros label Hl. apply has_rows_matrix.
    apply (sagree_rows _ _ _ Hag); [now left|exact Hl]. }
  { intros c label Hc Hl. apply In_cores in Hc.
    rewrite (sagree_numcores _ _ _ Hag) in Hc.
    unfold core_matrix, core_nrows.
    destruct (nth_error followers (Z.to_nat (c - 1))) as [f|] eqn:Ef.
    - assert (Hf : In f followers) by (eapply nth_error_In; eauto).
      destruct (has_rows_matrix f label (dim label)) as [_ [v [_ [_ H]]]];
        [apply (sagree_rows _ _ _ Hag); [now right|exact Hl]|exact H].
    - apply nth_error_None in Ef. unfold Py.len in Hc. lia. }
  { intros c Hc. now apply (stats_outbox dim). }
  { exact (sagree_rank _ _ _ Hag). }
  cbn [map] in Hrun, Hqf |- *. eexists.
  replace (map Ret followers) with (map finish (map get_stats followers)).
  - apply (gather_rendezvous_done _ _ _ _) with (2 := Hrun).
    + intros p Hp. apply in_map_iff in Hp. destruct Hp as [f [<- Hf]].
      apply (only_sends_to_root _ f), get_stats_only_sends.
      apply (sagree_ranks _ _ _ Hag f Hf).
    + intros s. rewrite Hqf. unfold vectors_left. cbn [contains existsb].
      destruct (contains (cores_from_1 (numcores leader)) s) eqn:Es;
        [reflexivity|].
      apply (outbox_outside _ _ (numcores leader)); [|exact Es].
      rewrite (sagree_numcores _ _ _ Hag). unfold Py.len.
      now rewrite length_map.
  - rewrite map_map. apply map_ext_in. intros f Hf. unfold finish.
    rewrite (get_stats_trace f (fun label => Z.of_nat (dim label)));
      [reflexivity|apply (sagree_ranks _ _ _ Hag f Hf)|].
    apply (follower_has_matrix dim leader followers f Hag Hf).
Qed.

(** Under rendezvous the group leader's [distribute] does not get past its
    first send: it is addressed to the leader itself, which is at that send
    and not at a receive, while the other members wait for the leader. *)
Lemma distribute_rendezvous_stuck (self : Pipeline) (array : ndarray)
  (tag : Z) (others : list (Pipeline * ndarray)) ps' :
  mrank self = 0 -> 1 <= msize self ->
  (forall f, In f others -> mrank (fst f) <> 0) ->
  ~ sync_step (distribute self array tag
               :: map (fun f => distribute (fst f) (snd f) tag) others) ps'.
Proof.
  intros Hr Hm Hothers Hstep.
  inversion Hstep as [i j ps tg b k kk Hi Hj]; subst.
  destruct i as [|i].
  - cbn [nth_error] in Hi. unfold distribute in Hi. rewrite Hr in Hi.
    cbn [Z.eqb] in Hi. unfold Py.range in Hi.
    replace (Z.to_nat (msize self)) with (S (Z.to_nat (msize self - 1)))
      in Hi by lia.
    cbn [seq map for_each bind] in Hi. inversion Hi as [[Hd Ht Hb Hk]].
    destruct j as [|j]; [|lia].
    cbn [nth_error] in Hj. unfold distribute in Hj. rewrite Hr in Hj.
    cbn [Z.eqb] in Hj. unfold Py.range in Hj.
    replace (Z.to_nat (msize self)) with (S (Z.to_nat (msize self - 1)))
      in Hj by lia.
    cbn [seq map for_each bind] in Hj. discriminate Hj.
  - cbn [nth_error] in Hi. rewrite nth_error_map in Hi.
    destruct (nth_error others i) as [f|] eqn:Ef; [|discriminate].
    cbn [option_map] in Hi.
    rewrite distribute_follower in Hi
      by (apply Hothers; eapply nth_error_In; eauto).
    discriminate Hi.
Qed.

(** *** A message to rank 0 that rank 0 never receives

    While rank 0 only sends, no message addressed to it leaves the
    network. *)

Definition root_backlog {A} (c : config A) : queue :=
  inflight 0 (net c)
  ++ match nth_error (procs c) 0 with
     | Some p => pending p
     | None => []
     end.

Lemma take_keeps_root s me t : forall nt b nt',
  me <> 0 -> take s me t nt = Some (b, nt') ->
  inflight 0 nt' = inflight 0 nt.
Proof.
  induction nt as [|m rest IH]; intros b nt' Hme Ht; [discriminate|].
  cbn [take] in Ht.
  destruct ((msg_src m =? s) && (msg_dst m =? me) && (msg_tag m =? t))
    eqn:E.
  - inversion Ht; subst. unfold inflight. cbn [filter].
    apply andb_true_iff in E. destruct E as [E _].
    apply andb_true_iff in E. destruct E as [_ E]. apply Z.eqb_eq in E.
    destruct (Z.eqb_spec (msg_dst m) 0); [congruence|].
    now rewrite andb_false_r.
  - destruct (take s me t rest) as [[b1 rest1]|] eqn:Et; [|discriminate].
    inversion Ht; subst. unfold inflight in *. cbn [filter].
    destruct ((msg_src m =? 0) && (msg_dst m =? 0)); cbn [map];
      now rewrite (IH _ _ Hme eq_refl).
Qed.

Lemma step_root_backlog {A} (c c' : config A) p :
  step c c' ->
  nth_error (procs c) 0 = Some p -> trace_of p <> None ->
  (exists p', nth_error (procs c') 0 = Some p' /\ trace_of p' <> None)
  /\ root_backlog c' = root_backlog c.
Proof.
  intros Hstep Hp Htr.
  destruct (step_sender _ _ _ _ Hstep Hp Htr) as [p' [Hp' [Htr' _]]].
  split; [eauto|]. unfold root_backlog.
  destruct Hstep as [i ps nt dest tag b k Hi|i ps nt source tag k b nt' Hi Ht];
    cbn [procs net] in *.
  - rewrite inflight_app, <- app_assoc. f_equal.
    unfold inflight at 1. cbn [filter msg_src msg_dst].
    destruct i as [|i].
    + rewrite Hp in Hi. inversion Hi; subst p.
      rewrite Hp, (nth_error_update_eq _ _ _ _ Hp).
      assert (Hk : trace_of k <> None).
      { cbn [trace_of] in Htr. destruct (trace_of k); congruence. }
      rewrite pending_Send by exact Hk. cbn [Z.of_nat Z.eqb andb].
      destruct (dest =? 0); reflexivity.
    + rewrite nth_error_update_neq by lia.
      destruct (Z.eqb_spec (Z.of_nat (S i)) 0); [lia|reflexivity].
  - destruct i as [|i].
    + rewrite Hp in Hi. inversion Hi; subst p. cbn in Htr. congruence.
    + rewrite nth_error_update_neq by lia.
      assert (Hme : Z.of_nat (S i) <> 0) by lia.
      now rewrite (take_keeps_root _ _ _ _ _ _ Hme Ht).
Qed.

Lemma steps_root_backlog {A} (c c' : config A) :
  steps c c' ->
  forall p, nth_error (procs c) 0 = Some p -> trace_of p <> None ->
            root_backlog c' = root_backlog c.
Proof.
  induction 1 as [c|c1 c2 c3 H12 _ IH]; intros p Hp Htr; [reflexivity|].
  destruct (step_root_backlog _ _ _ H12 Hp Htr) as [[p2 [Hp2 Htr2]] H].
  rewrite (IH p2 Hp2 Htr2). exact H.
Qed.

(** When the leader of [distribute] has returned, whatever the schedule
    and whatever the other processes do, its message to rank 0 is still in
    flight. *)
Lemma distribute_self_message (self : Pipeline) (array : ndarray) (tag : Z)
  (others : list (prog ndarray)) :
  mrank self = 0 -> 1 <= msize self ->
  forall c a,
    steps {| procs := distribute self array tag :: others; net := [] |} c ->
    nth_error (procs c) 0 = Some (Ret a) ->
    inflight 0 (net c) = [(tag, Buffer (data array))].
Proof.
  intros Hr Hm c a Hsteps Hret.
  pose proof (steps_root_backlog _ _ Hsteps (distribute self array tag)
                eq_refl) as H.
  rewrite distribute_leader_trace in H by exact Hr.
  specialize (H ltac:(discriminate)).
  unfold root_backlog in H. rewrite Hret in H.
  cbn [procs net nth_error] in H. unfold pending in H.
  rewrite distribute_leader_trace in H by exact Hr.
  cbn [trace_of inflight filter map app] in H. rewrite app_nil_r in H.
  rewrite H. unfold Py.range, to_root.
  replace (Z.to_nat (msize self)) with (S (Z.to_nat (msize self - 1)))
    by lia.
  cbn [seq map filter fst snd Z.of_nat Z.eqb]. f_equal.
  rewrite <- seq_shift, !map_map.
  induction (seq 0 (Z.to_nat (msize self - 1))) as [|x t IH];
    [reflexivity|].
  cbn [map filter fst snd].
  destruct (Z.eqb_spec (Z.of_nat (S x)) 0); [lia|exact IH].
Qed.

(** *** [distribute] on a whole group, with buffered sends *)

Lemma length_update {X} (x : X) : forall l i,
  length (update i x l) = length l.
Proof.
  induction l as [|z t IH]; intros [|i]; cbn; auto.
Qed.

Lemma take_from s me t : forall nt b nt',
  take s me t nt = Some (b, nt') ->
  (exists m, In m nt /\ msg_body m = b)
  /\ (forall m, In m nt' -> In m nt).
Proof.
  induction nt as [|m rest IH]; intros b nt' Ht; [discriminate|].
  cbn [take] in Ht.
  destruct ((msg_src m =? s) && (msg_dst m =? me) && (msg_tag m =? t)).
  - inversion Ht; subst. split; [exists m; split; [now left|reflexivity]|].
    intros m' Hm'. now right.
  - destruct (take s me t rest) as [[b1 rest1]|] eqn:Et; [|discriminate].
    inversion Ht; subst.
    destruct (IH _ _ eq_refl) as [[m0 [Hin Hb]] Hsub].
    split; [exists m0; split; [now right|exact Hb]|].
    intros m' [<-|Hm']; [now left|right; now apply Hsub].
Qed.

(** A process that only sends can run to its end at once; its messages
    join the messages in flight in the order it sends them. *)
Lemma flush_messages {A} (p : prog A) : forall ps nt i ms r,
  trace_of p = Some (ms, r) -> nth_error ps i = Some p ->
  steps {| procs := ps; net := nt |}
        {| procs := update i (lift r) ps;
           net := nt ++ map (fun m => {| msg_src := Z.of_nat i;
                                         msg_dst := fst (fst m);
                                         msg_tag := snd (fst m);
                                         msg_body := snd m |}) ms |}.
Proof.
  induction p as [a|e|dest tag b k IH|source tag k IH];
    intros ps nt i ms r Htr Hi; cbn [trace_of] in Htr.
  - inversion Htr; subst. cbn [map lift].
    rewrite app_nil_r, update_same by exact Hi. apply steps_refl.
  - inversion Htr; subst. cbn [map lift].
    rewrite app_nil_r, update_same by exact Hi. apply steps_refl.
  - destruct (trace_of k) as [[ms' r']|] eqn:Ek; [|discriminate].
    inversion Htr; subst.
    eapply steps_step; [apply (step_send i ps nt dest tag b k Hi)|].
    specialize (IH (update i k ps)
                   (nt ++ [{| msg_src := Z.of_nat i; msg_dst := dest;
                              msg_tag := tag; msg_body := b |}])
                   i ms' r eq_refl (nth_error_update_eq _ _ _ _ Hi)).
    rewrite update_update, <- app_assoc in IH. exact IH.
  - discriminate.
Qed.

(** A member of the group other than the leader, with its buffer: what it
    runs, and what it has become once it has received the leader's
    buffer. *)
Definition member_start (tag : Z) (f : Pipeline * ndarray) : prog ndarray :=
  distribute (fst f) (snd f) tag.

Definition member_end (array : ndarray) (f : Pipeline * ndarray)
  : prog ndarray :=
  lift (Recv_into (snd f) (Buffer (data array))).

Definition message_to (array : ndarray) (tag : Z) (dest : Z) : message :=
  {| msg_src := 0; msg_dst := dest; msg_tag := tag;
     msg_body := Buffer (data array) |}.

Section Broadcast.
Variable leader : Pipeline.
Variable array : ndarray.
Variable tag : Z.
Variable members : list (Pipeline * ndarray).
Hypothesis Hleader : mrank leader = 0.
Hypothesis Hmembers : forall f, In f members -> mrank (fst f) <> 0.

Lemma member_start_Recv f :
  In f members ->
  member_start tag f = Recv 0 tag (fun b => lift (Recv_into (snd f) b)).
Proof. intros Hf. apply distribute_follower, Hmembers, Hf. Qed.

(** In every configuration the group reaches: the leader only has sends of
    its buffer left, every message in flight carries that buffer, and a
    member is at its receive or has received that buffer. *)
Definition broadcast_inv (c : config ndarray) : Prop :=
  length (procs c) = S (length members)
  /\ (exists p ms,
        nth_error (procs c) 0 = Some p
        /\ trace_of p = Some (ms, inr array)
        /\ Forall (fun m => snd m = Buffer (data array)) ms)
  /\ (forall m, In m (net c) -> msg_body m = Buffer (data array))
  /\ (forall i f, nth_error members i = Some f ->
        nth_error (procs c) (S i) = Some (member_start tag f)
        \/ nth_error (procs c) (S i) = Some (member_end array f)).

Lemma member_not_Send i f ps dest tg b k :
  nth_error members i = Some f ->
  (nth_error ps (S i) = Some (member_start tag f)
   \/ nth_error ps (S i) = Some (member_end array f)) ->
  nth_error ps (S i) <> Some (Send dest tg b k).
Proof.
  intros Hf [H|H] E; rewrite H in E.
  - rewrite member_start_Recv in E by (eapply nth_error_In; eauto).
    discriminate.
  - unfold member_end in E.
    destruct (Recv_into (snd f) (Buffer (data array))); discriminate.
Qed.

Lemma step_broadcast_inv c c' :
  step c c' -> broadcast_inv c -> broadcast_inv c'.
Proof.
  intros Hstep [Hlen [[p [ms [Hp [Htr Hms]]]] [Hnet Hmem]]].
  unfold broadcast_inv.
  destruct Hstep as [i ps nt dest tg b k Hi|i ps nt source tg k b nt' Hi Ht];
    cbn [procs net] in *.
  - (* a send: only the leader can be at one *)
    destruct i as [|i].
    + rewrite Hp in Hi. inversion Hi; subst p. cbn [trace_of] in Htr.
      destruct (trace_of k) as [[ms' r']|] eqn:Ek; [|discriminate].
      inversion Htr; subst. inversion Hms as [|? ? Hb Hms']; subst.
      cbn [snd] in Hb. subst b.
      split; [now rewrite length_update|]. split; [|split].
      * exists k, ms'. split; [|split; assumption].
        eapply nth_error_update_eq; eauto.
      * intros m Hm. apply in_app_or in Hm.
        destruct Hm as [Hm|[<-|[]]]; [now apply Hnet|reflexivity].
      * intros j f Hf. rewrite nth_error_update_neq by lia. now apply Hmem.
    + exfalso.
      assert (Hlt : (i < length members)%nat).
      { assert (S i < length ps)%nat by (apply nth_error_Some; congruence).
        lia. }
      destruct (nth_error members i) as [f|] eqn:Ef;
        [|apply nth_error_None in Ef; lia].
      exact (member_not_Send i f ps dest tg b k Ef (Hmem i f Ef) Hi).
  - (* a receive: only a member that has not received yet *)
    destruct i as [|i].
    + rewrite Hp in Hi. inversion Hi; subst p. discriminate Htr.
    + assert (Hlt : (i < length members)%nat).
      { assert (S i < length ps)%nat by (apply nth_error_Some; congruence).
        lia. }
      destruct (nth_error members i) as [f|] eqn:Ef;
        [|apply nth_error_None in Ef; lia].
      destruct (take_from _ _ _ _ _ _ Ht) as [[m [Hm Hb]] Hsub].
      assert (Hbody : b = Buffer (data array))
        by (rewrite <- Hb; now apply Hnet).
      destruct (Hmem i f Ef) as [Hs|He].
      2:{ rewrite He in Hi. unfold member_end in Hi.
          destruct (Recv_into (snd f) (Buffer (data array)));
            discriminate. }
      rewrite Hs in Hi.
      rewrite member_start_Recv in Hi by (eapply nth_error_In; eauto).
      inversion Hi; subst source tg k.
      split; [now rewrite length_update|]. split; [|split].
      * exists p, ms. rewrite nth_error_update_neq by lia. auto.
      * intros m' Hm'. apply Hnet, Hsub, Hm'.
      * intros j g Hg. destruct (Nat.eq_dec j i) as [->|Hne].
        -- right. rewrite Ef in Hg. inversion Hg; subst g.
           rewrite (nth_error_update_eq _ _ _ _ Hs), Hbody. reflexivity.
        -- rewrite nth_error_update_neq by lia. now apply Hmem.
Qed.

Lemma steps_broadcast_inv c c' :
  steps c c' -> broadcast_inv c -> broadcast_inv c'.
Proof.
  induction 1 as [c|c1 c2 c3 H12 _ IH]; intros Hinv; [exact Hinv|].
  apply IH. eapply step_broadcast_inv; eauto.
Qed.

Definition group_start : config ndarray :=
  {| procs := distribute leader array tag :: map (member_start tag) members;
     net := [] |}.

Lemma group_start_inv : broadcast_inv group_start.
Proof.
  unfold group_start. split; [cbn; now rewrite length_map|].
  split; [|split].
  - eexists _, _. split; [reflexivity|].
    split; [apply distribute_leader_trace; exact Hleader|].
    apply Forall_forall. intros m Hm. apply in_map_iff in Hm.
    destruct Hm as [i [<- _]]. reflexivity.
  - intros m [].
  - intros i f Hf. left. cbn [procs nth_error].
    now rewrite nth_error_map, Hf.
Qed.

(** The members receive one after the other, in rank order. *)
Lemma deliver (p0 : prog ndarray) : forall rest done,
  (forall f, In f rest -> In f members) ->
  steps {| procs := p0 :: done ++ map (member_start tag) rest;
           net := message_to array tag 0
                  :: map (fun k => message_to array tag (Z.of_nat k))
                         (seq (S (length done)) (length rest)) |}
        {| procs := p0 :: done ++ map (member_end array) rest;
           net := [message_to array tag 0] |}.
Proof.
  induction rest as [|f rest IH]; intros done Hin; [apply steps_refl|].
  cbn [map length seq].
  eapply steps_step.
  - apply (step_recv (S (length done)) _ _ 0 tag
             (fun b => lift (Recv_into (snd f) b))
             (Buffer (data array))
             (message_to array tag 0
              :: map (fun k => message_to array tag (Z.of_nat k))
                     (seq (S (S (length done))) (length rest)))).
    + cbn [nth_error]. rewrite nth_error_app2 by lia.
      rewrite Nat.sub_diag. cbn [nth_error].
      now rewrite member_start_Recv by (apply Hin; now left).
    + cbn [take message_to msg_src msg_dst msg_tag msg_body].
      rewrite !Z.eqb_refl.
      destruct (Z.eqb_spec 0 (Z.of_nat (S (length done)))); [lia|].
      cbn [andb]. reflexivity.
  - cbn [update]. rewrite update_app_head.
    specialize (IH (done ++ [member_end array f])
                   (fun g Hg => Hin g (or_intror Hg))).
    rewrite length_app, <- app_assoc in IH. cbn [length app] in IH.
    replace (length done + 1)%nat with (S (length done)) in IH by lia.
    rewrite <- app_assoc in IH. exact IH.
Qed.

Lemma group_completes :
  msize leader = 1 + Py.len members ->
  steps group_start
        {| procs := Ret array :: map (member_end array) members;
           net := [message_to array tag 0] |}.
Proof.
  intros Hsize. unfold group_start.
  eapply steps_trans.
  - apply (flush_messages (distribute leader array tag)
             (distribute leader array tag
              :: map (member_start tag) members) [] 0%nat _ _
             (distribute_leader_trace leader array tag Hleader) eq_refl).
  - cbn [update lift app]. rewrite map_map. cbn [fst snd Z.of_nat].
    rewrite Hsize. unfold Py.range, Py.len.
    replace (Z.to_nat (1 + Z.of_nat (length members)))
      with (S (length members)) by lia.
    cbn [seq map]. rewrite map_map.
    apply (deliver (Ret array) members []). auto.
Qed.

End Broadcast.

(** With buffered sends [distribute] works on a group of any size whose
    members pass buffers with as many elements as the leader's array: some
    schedule lets every process return; in every schedule no process
    raises, and a member that has returned holds in its buffer, with the
    buffer's own shape, the elements of the leader's array. *)
Theorem distribute_broadcast (leader : Pipeline) (array : ndarray) (tag : Z)
  (members : list (Pipeline * ndarray)) :
  mrank leader = 0 ->
  msize leader = 1 + Py.len members ->
  (forall f, In f members -> mrank (fst f) <> 0) ->
  (forall f, In f members ->
             length (data (snd f)) = length (data array)) ->
  (exists nt,
     steps {| procs := distribute leader array tag
                       :: map (fun f => distribute (fst f) (snd f) tag)
                              members;
              net := [] |}
           {| procs := Ret array
                       :: map (fun f => Ret {| shape := shape (snd f);
                                               data := data array |})
                              members;
              net := nt |})
  /\ (forall c,
        steps {| procs := distribute leader array tag
                          :: map (fun f => distribute (fst f) (snd f) tag)
                                 members;
                 net := [] |} c ->
        (forall a, nth_error (procs c) 0 = Some (Ret a) -> a = array)
        /\ (forall i f a,
              nth_error members i = Some f ->
              nth_error (procs c) (S i) = Some (Ret a) ->
              a = {| shape := shape (snd f); data := data array |})
        /\ (forall i e, nth_error (procs c) i <> Some (Raise e))).
Proof.
  intros Hleader Hsize Hmembers Hfit.
  assert (Hend : forall f, In f members ->
            member_end array f
            = Ret {| shape := shape (snd f); data := data array |}).
  { intros f Hf. unfold member_end, Recv_into.
    rewrite (Hfit f Hf), Nat.leb_refl. cbn [lift].
    rewrite <- (Hfit f Hf), skipn_all, app_nil_r. reflexivity. }
  split.
  - exists [message_to array tag 0].
    replace (map (fun f => Ret {| shape := shape (snd f);
                                  data := data array |}) members)
      with (map (member_end array) members)
      by (apply map_ext_in; exact Hend).
    apply (group_completes leader array tag members Hleader Hmembers Hsize).
  - intros c Hsteps.
    destruct (steps_broadcast_inv array tag members Hmembers _ _ Hsteps
                (group_start_inv leader array tag members Hleader))
      as [Hlen [[p [ms [Hp [Htr Hms]]]] [Hnet Hmem]]].
    split; [|split].
    + intros a Ha. rewrite Hp in Ha. inversion Ha; subst p.
      cbn in Htr. now inversion Htr.
    + intros i f a Hf Ha.
      assert (Hin : In f members) by (eapply nth_error_In; eauto).
      destruct (Hmem i f Hf) as [H|H]; rewrite H in Ha.
      * rewrite (member_start_Recv tag members Hmembers f Hin) in Ha.
        discriminate.
      * rewrite (Hend f Hin) in Ha. now inversion Ha.
    + intros [|i] e He.
      * rewrite Hp in He. inversion He; subst p. cbn in Htr.
        discriminate.
      * assert (Hlt : (i < length members)%nat).
        { assert (S i < length (procs c))%nat
            by (apply nth_error_Some; congruence). lia. }
        destruct (nth_error members i) as [f|] eqn:Ef;
          [|apply nth_error_None in Ef; lia].
        assert (Hin : In f members) by (eapply nth_error_In; eauto).
        destruct (Hmem i f Ef) as [H|H]; rewrite H in He.
        -- rewrite (member_start_Recv tag members Hmembers f Hin) in He.
           discriminate.
        -- rewrite (Hend f Hin) in He. discriminate.
Qed.

(** Whatever the size of the group and whatever the other processes do,
    the leader of [distribute] can return, and whenever it has returned
    its first message, addressed to rank 0, itself, is still in flight:
    nothing ever receives it. *)
Theorem distribute_leaves_message (self : Pipeline) (array : ndarray)
  (tag : Z) (others : list (prog ndarray)) :
  mrank self = 0 -> 1 <= msize self ->
  (exists nt,
     steps {| procs := distribute self array tag :: others; net := [] |}
           {| procs := Ret array :: others; net := nt |})
  /\ (forall c a,
        steps {| procs := distribute self array tag :: others; net := [] |}
              c ->
        nth_error (procs c) 0 = Some (Ret a) ->
        inflight 0 (net c) = [(tag, Buffer (data array))]).
Proof.
  intros Hr Hm. split.
  - eexists.
    apply (flush_messages (distribute self array tag)
             (distribute self array tag :: others) [] 0%nat _ _
             (distribute_leader_trace self array tag Hr) eq_refl).
  - exact (distribute_self_message self array tag others Hr Hm).
Qed.

(** With sends that complete only at the matching receive, a group of any
    size is stuck from the start: the leader's first send is to itself,
    and the other members wait for the leader. *)
Theorem distribute_rendezvous_deadlock (self : Pipeline) (array : ndarray)
  (tag : Z) (others : list (Pipeline * ndarray)) :
  mrank self = 0 -> 1 <= msize self ->
  (forall f, In f others -> mrank (fst f) <> 0) ->
  forall ps,
    sync_steps (distribute self array tag
                :: map (fun f => distribute (fst f) (snd f) tag) others) ps ->
    ps = distribute self array tag
         :: map (fun f => distribute (fst f) (snd f) tag) others
    /\ forall a, nth_error ps 0 <> Some (Ret a).
Proof.
  intros Hr Hm Hothers ps Hsteps.
  assert (Hps : ps = distribute self array tag
                     :: map (fun f => distribute (fst f) (snd f) tag) others).
  { inversion Hsteps as [|ps1 ps2 ps3 H12 _]; subst; [reflexivity|].
    exfalso.
    exact (distribute_rendezvous_stuck self array tag others _ Hr Hm
             Hothers H12). }
  split; [exact Hps|]. subst ps. intros a Ha. cbn [nth_error] in Ha.
  destruct (distribute_leader_sends_to_itself self array tag Hr Hm)
    as [ms Htr].
  inversion Ha as [Hd]. rewrite Hd in Htr. discriminate Htr.
Qed.

(** *** The tags of the two gathers *)

Lemma map_fst_combine {X Y} : forall (a : list X) (b : list Y),
  length a = length b -> map fst (combine a b) = a.
Proof.
  induction a as [|x a IH]; intros [|y b] H; try discriminate;
    [reflexivity|]. cbn. f_equal. apply IH. now inversion H.
Qed.

Lemma map_fst_enumerate {X} (l : list X) :
  map fst (enumerate l) = Py.range (Py.len l).
Proof.
  unfold enumerate. apply map_fst_combine.
  unfold Py.range, Py.len. now rewrite length_map, length_seq, Nat2Z.id.
Qed.

(** The tags a process of rank other than 0 uses in [get_stacks] and in
    [get_stats], in the order it sends. *)
Definition gather_tags (self : MPIStats) : list Z :=
  map (fun m => snd (fst m)) (stack_messages self ++ stats_messages self).

Lemma gather_tags_families self :
  gather_tags self
  = map (fun k => tag_start self * 300 + k)
        (Py.range (Py.len (dict_keys (little_stack self))))
    ++ map (fun k => tag_start self * 10 + k)
           (Py.range (Py.len (dict_keys (little_stack self))))
    ++ map (fun k => tag_start self * 200 + k)
           (Py.range (Py.len (dict_keys (vectors self))))
    ++ map (fun k => tag_start self + k)
           (Py.range (Py.len (dict_keys (vectors self)))).
Proof.
  unfold gather_tags, stack_messages, stats_messages.
  rewrite !map_app, !map_map, <- app_assoc. cbn [fst snd].
  rewrite <- !map_fst_enumerate, !map_map. reflexivity.
Qed.

Lemma NoDup_shifted (c n : Z) : NoDup (map (fun k => c + k) (Py.range n)).
Proof.
  apply Injective_map_NoDup; [|apply PyFacts.NoDup_range].
  intros a b H. lia.
Qed.

Lemma In_shifted (c n x : Z) :
  In x (map (fun k => c + k) (Py.range n)) <-> c <= x < c + n.
Proof.
  rewrite in_map_iff. split.
  - intros [k [<- Hk]]. apply PyFacts.In_range in Hk. lia.
  - intros H. exists (x - c). split; [lia|]. apply PyFacts.In_range. lia.
Qed.

Lemma NoDup_app_disjoint {X} (l1 l2 : list X) x :
  NoDup (l1 ++ l2) -> In x l1 -> In x l2 -> False.
Proof.
  induction l1 as [|y t IH]; intros Hnd H1 H2; [destruct H1|].
  inversion Hnd as [|? ? Hy Ht]; subst. destruct H1 as [->|H1].
  - apply Hy, in_or_app. now right.
  - now apply IH.
Qed.

(** A process with at least one stack and one statistic uses a different
    tag for each of its messages of [get_stacks] and [get_stats] exactly
    when it has at most [9 * tag_start] statistics and at most
    [190 * tag_start] stacks; beyond that, the tag of a statistic or of a
    stack is also the tag of another message. *)
Theorem gather_tags_distinct (self : MPIStats) :
  0 <= tag_start self ->
  dict_keys (little_stack self) <> [] ->
  dict_keys (vectors self) <> [] ->
  NoDup (gather_tags self)
  <-> Py.len (dict_keys (vectors self)) <= 9 * tag_start self
      /\ Py.len (dict_keys (little_stack self)) <= 190 * tag_start self.
Proof.
  intros Hts Hs Hv. rewrite gather_tags_families.
  set (ts := tag_start self) in *.
  set (ks := Py.len (dict_keys (little_stack self))).
  set (kv := Py.len (dict_keys (vectors self))).
  assert (Hks : 1 <= ks).
  { subst ks. unfold Py.len. destruct (dict_keys (little_stack self));
      [congruence|cbn [length]; lia]. }
  assert (Hkv : 1 <= kv).
  { subst kv. unfold Py.len. destruct (dict_keys (vectors self));
      [congruence|cbn [length]; lia]. }
  split.
  - intros Hnd. apply NoDup_app_remove_l in Hnd.
    destruct (Z.le_gt_cases kv (9 * ts)) as [H9|H9].
    + split; [exact H9|].
      destruct (Z.le_gt_cases ks (190 * ts)) as [H190|H190];
        [exact H190|].
      exfalso. apply (NoDup_app_disjoint _ _ (ts * 200) Hnd).
      * apply In_shifted. lia.
      * apply in_or_app. left. apply In_shifted. lia.
    + exfalso. apply (NoDup_app_disjoint _ _ (ts * 10) Hnd).
      * apply In_shifted. lia.
      * apply in_or_app. right.
        apply (In_shifted ts kv (ts * 10)). lia.
  - intros [H9 H190].
    repeat apply NoDup_app; try apply NoDup_shifted;
      intros x Hx Hy; apply In_shifted in Hx;
      repeat (apply in_app_or in Hy; destruct Hy as [Hy|Hy]);
      try (apply In_shifted in Hy; lia);
      try (apply (In_shifted ts kv x) in Hy; lia).
Qed.

(** *** From the calls of [add_to_stats] to the gathered matrix *)

(** The labels in the order of their first use, after the labels [seen]. *)
Definition first_uses_from (seen labels : list String.string)
  : list String.string :=
  fold_left (fun seen l => if mem l seen then seen else seen ++ [l])
            labels seen.

Definition first_uses (labels : list String.string) : list String.string :=
  first_uses_from [] labels.

Lemma In_first_uses_from labels : forall seen x,
  In x (first_uses_from seen labels) <-> In x seen \/ In x labels.
Proof.
  unfold first_uses_from.
  induction labels as [|l t IH]; intros seen x; cbn [fold_left].
  - cbn. tauto.
  - rewrite IH. destruct (mem l seen) eqn:E.
    + apply mem_true in E. cbn [In]. split; [tauto|].
      intros [H|[<-|H]]; auto.
    + rewrite in_app_iff. cbn [In]. tauto.
Qed.

Lemma NoDup_first_uses_from labels : forall seen,
  NoDup seen -> NoDup (first_uses_from seen labels).
Proof.
  unfold first_uses_from.
  induction labels as [|l t IH]; intros seen Hnd; cbn [fold_left];
    [exact Hnd|].
  apply IH. destruct (mem l seen) eqn:E; [exact Hnd|].
  apply mem_false in E. apply NoDup_app; [exact Hnd|repeat constructor; intros []|].
  intros x Hx [<-|[]]. contradiction.
Qed.

Lemma dict_mem_keys {V} (d : dict V) k :
  dict_mem d k = mem k (dict_keys d).
Proof.
  unfold dict_mem. destruct (dict_get d k) as [v|] eqn:E.
  - symmetry. apply mem_true. eapply dict_get_Some_In; eauto.
  - symmetry. apply mem_false. now apply dict_get_None.
Qed.

Lemma add_to_stats_attrs self label vector self' :
  add_to_stats self label vector = inr self' ->
  rank self' = rank self
  /\ numcores self' = numcores self
  /\ tag_start self' = tag_start self
  /\ dict_keys (vectors self')
     = first_uses_from (dict_keys (vectors self)) [label].
Proof.
  unfold add_to_stats, first_uses_from. cbn [fold_left].
  rewrite dict_mem_keys.
  destruct (mem label (dict_keys (vectors self))) eqn:E; cbn [negb].
  - apply mem_true in E.
    destruct (dict_getitem (vectors self) label) as [e|[rows|a]];
      try discriminate.
    intros H. inversion H; subst self'. cbn [rank numcores tag_start vectors
                                              set_vectors].
    now rewrite dict_keys_set_known.
  - apply mem_false in E. unfold dict_getitem. rewrite dict_get_set_eq.
    intros H. inversion H; subst self'. cbn [rank numcores tag_start vectors
                                              set_vectors].
    now rewrite dict_set_set, dict_keys_set_new.
Qed.

Lemma add_all_stats_attrs calls : forall self self',
  add_all_stats self calls = inr self' ->
  rank self' = rank self
  /\ numcores self' = numcores self
  /\ tag_start self' = tag_start self
  /\ dict_keys (vectors self')
     = first_uses_from (dict_keys (vectors self)) (map fst calls).
Proof.
  induction calls as [|[label vector] t IH]; intros self self' H.
  - inversion H; subst. auto.
  - cbn [add_all_stats] in H.
    destruct (add_to_stats self label vector) as [e|s1] eqn:E1;
      [discriminate|].
    destruct (add_to_stats_attrs _ _ _ _ E1) as [Hr [Hn [Ht Hk]]].
    destruct (IH _ _ H) as [Hr' [Hn' [Ht' Hk']]].
    rewrite Hr', Hn', Ht', Hk', Hr, Hn, Ht, Hk. auto.
Qed.

(** The object of rank [r] in a communicator of [size] processes after the
    calls [calls] of [add_to_stats] on a new object. *)
Definition sampler (size : Z) (num_each : list Z) (tag0 : Z) (r : Z)
  (calls : list (String.string * list R)) : result MPIStats :=
  add_all_stats
    (MPIStats_init {| Get_rank := r; Get_size := size |} num_each tag0)
    calls.

Definition sampler_object (size : Z) (num_each : list Z) (tag0 : Z)
  (rc : Z * list (String.string * list R)) : MPIStats :=
  match sampler size num_each tag0 (fst rc) (snd rc) with
  | inr s => s
  | inl _ =>
      MPIStats_init {| Get_rank := fst rc; Get_size := size |}
        num_each tag0
  end.

Lemma sampler_spec size num_each tag0 r calls :
  sampler size num_each tag0 r calls
  = inr (sampler_object size num_each tag0 (r, calls))
  /\ rank (sampler_object size num_each tag0 (r, calls)) = r
  /\ numcores (sampler_object size num_each tag0 (r, calls)) = size
  /\ tag_start (sampler_object size num_each tag0 (r, calls)) = tag0
  /\ dict_keys (vectors (sampler_object size num_each tag0 (r, calls)))
     = first_uses (map fst calls)
  /\ (forall label,
        rows_at (sampler_object size num_each tag0 (r, calls)) label
        = vectors_for label calls)
  /\ (forall label,
        vectors_for label calls <> [] ->
        dict_get (vectors (sampler_object size num_each tag0
                             (r, calls))) label
        = Some (PyList (vectors_for label calls))).
Proof.
  unfold sampler_object, sampler. cbn [fst snd].
  destruct (add_all_stats_lists calls []
              (MPIStats_init {| Get_rank := r; Get_size := size |}
                 num_each tag0))
    as [s [Hs [Hl _]]]; [intros label; reflexivity|].
  rewrite Hs. destruct (add_all_stats_attrs _ _ _ Hs) as [Hr [Hn [Ht Hk]]].
  cbn [app] in Hl.
  split; [reflexivity|]. repeat split; try assumption.
  - intros label. unfold rows_at. rewrite (Hl label).
    destruct (vectors_for label calls); reflexivity.
  - intros label Hne. rewrite (Hl label).
    destruct (vectors_for label calls); [congruence|reflexivity].
Qed.

Lemma vectors_for_In label v calls :
  In v (vectors_for label calls) -> In (label, v) calls.
Proof.
  unfold vectors_for. rewrite in_map_iff. intros [[l b] [Hb Hin]].
  apply filter_In in Hin. destruct Hin as [Hin Hl]. cbn in *.
  apply String.eqb_eq in Hl. now subst.
Qed.

Lemma vectors_for_nonempty label calls :
  In label (map fst calls) -> vectors_for label calls <> [].
Proof.
  intros Hin. apply in_map_iff in Hin. destruct Hin as [[l v] [Hl Hin]].
  cbn in Hl. subst l. intros E.
  assert (Hv : In v (vectors_for label calls)).
  { unfold vectors_for. apply in_map_iff. exists (label, v).
    split; [reflexivity|]. apply filter_In. split; [exact Hin|].
    apply String.eqb_refl. }
  rewrite E in Hv. destruct Hv.
Qed.

Lemma length_cores_from_1 n : 0 <= n - 1 ->
  length (cores_from_1 n) = Z.to_nat (n - 1).
Proof.
  intros _. unfold cores_from_1, Py.range.
  now rewrite !length_map, length_seq.
Qed.

Lemma map_snd_combine_cores {X Y} (g : X -> Y) (l : list X) :
  map (fun rc => g (snd rc)) (combine (cores_from_1 (1 + Py.len l)) l)
  = map g l.
Proof.
  rewrite <- (map_map snd g). f_equal. apply map_snd_combine.
  rewrite length_cores_from_1 by (unfold Py.len; lia). unfold Py.len. lia.
Qed.

(** Every process makes its calls of [add_to_stats] on a new object, then
    all call [get_stats].  When the processes first use the labels in the
    same order and the vectors of one label have one length on all
    processes: in every schedule, once [get_stats] has returned on rank 0,
    the matrix of a label has as its rows all the vectors that were passed
    for it: those of rank 0 in call order, then those of rank 1, and so on;
    and [get_stats] can return on every process. *)
Theorem get_stats_of_added_vectors (num_each : list Z) (tag0 : Z)
  (dim : String.string -> nat)
  (calls0 : list (String.string * list R))
  (others : list (list (String.string * list R))) :
  (forall cs, In cs others ->
              first_uses (map fst cs) = first_uses (map fst calls0)) ->
  (forall cs label v, In cs (calls0 :: others) -> In (label, v) cs ->
                      length v = dim label) ->
  exists leader followers,
    sampler (1 + Py.len others) num_each tag0 0 calls0 = inr leader
    /\ map (fun rc => sampler (1 + Py.len others) num_each tag0
                        (fst rc) (snd rc))
           (combine (cores_from_1 (1 + Py.len others)) others)
       = map inr followers
    /\ (exists nt self',
          steps {| procs := map get_stats (leader :: followers);
                   net := [] |}
                {| procs := Ret self' :: map Ret followers; net := nt |})
    /\ (forall c self',
          steps {| procs := map get_stats (leader :: followers);
                   net := [] |} c ->
          nth_error (procs c) 0 = Some (Ret self') ->
          forall label, In label (map fst calls0) ->
            exists m,
              dict_get (vectors self') label = Some (NdArray m)
              /\ np_array (concat (map (vectors_for label)
                                       (calls0 :: others)))
                 = inr m).
Proof.
  intros Horder Hdim.
  set (size := 1 + Py.len others).
  set (obj := sampler_object size num_each tag0).
  set (leader := obj (0, calls0)).
  set (followers := map obj (combine (cores_from_1 size) others)).
  assert (Hfollower : forall f, In f followers ->
            exists r cs, f = obj (r, cs) /\ 1 <= r /\ In cs others).
  { intros f Hf. apply in_map_iff in Hf. destruct Hf as [[r cs] [<- Hin]].
    exists r, cs. split; [reflexivity|].
    pose proof (in_combine_l _ _ _ _ Hin) as Hr. apply In_cores in Hr.
    split; [lia|]. eapply in_combine_r; eauto. }
  assert (Hlen : Py.len followers = Py.len others).
  { unfold followers, Py.len. rewrite length_map, length_combine.
    rewrite length_cores_from_1 by (unfold size, Py.len; lia).
    unfold size, Py.len. lia. }
  assert (Hrows : forall r cs label,
            In cs (calls0 :: others) ->
            In label (first_uses (map fst calls0)) ->
            first_uses (map fst cs) = first_uses (map fst calls0) ->
            has_rows (obj (r, cs)) label (dim label)).
  { intros r cs label Hcs Hl Hsame.
    destruct (sampler_spec size num_each tag0 r cs)
      as [_ [_ [_ [_ [_ [Hrows Hget]]]]]].
    fold obj in Hrows, Hget.
    assert (Hne : vectors_for label cs <> []).
    { apply vectors_for_nonempty. rewrite <- Hsame in Hl.
      apply In_first_uses_from in Hl. destruct Hl as [[]|Hl]. exact Hl. }
    unfold has_rows. rewrite Hrows. split; [now apply Hget|].
    split; [exact Hne|].
    intros v Hv. apply (Hdim cs label v Hcs). now apply vectors_for_In. }
  assert (Hag : samples_agree dim leader followers).
  { destruct (sampler_spec size num_each tag0 0 calls0)
      as [_ [Hr0 [Hn0 [Ht0 [Hk0 _]]]]].
    fold obj in Hr0, Hn0, Ht0, Hk0. fold leader in Hr0, Hn0, Ht0, Hk0.
    constructor.
    - exact Hr0.
    - rewrite Hn0, Hlen. reflexivity.
    - rewrite Hk0. apply NoDup_first_uses_from. constructor.
    - intros f Hf. destruct (Hfollower f Hf) as [r [cs [-> [Hr _]]]].
      destruct (sampler_spec size num_each tag0 r cs)
        as [_ [Hrk _]]. fold obj in Hrk. lia.
    - intros f Hf. destruct (Hfollower f Hf) as [r [cs [-> _]]].
      destruct (sampler_spec size num_each tag0 r cs)
        as [_ [_ [_ [Ht _]]]]. fold obj in Ht. congruence.
    - intros f Hf. destruct (Hfollower f Hf) as [r [cs [-> [_ Hcs]]]].
      destruct (sampler_spec size num_each tag0 r cs)
        as [_ [_ [_ [_ [Hk _]]]]]. fold obj in Hk.
      rewrite Hk, Hk0. now apply Horder.
    - intros p label Hp Hl. rewrite Hk0 in Hl. destruct Hp as [<-|Hp].
      + apply Hrows; [now left|exact Hl|reflexivity].
      + destruct (Hfollower p Hp) as [r [cs [-> [_ Hcs]]]].
        apply Hrows; [now right|exact Hl|now apply Horder]. }
  exists leader, followers.
  split; [apply sampler_spec|]. split.
  { unfold followers. rewrite map_map. apply map_ext. intros [r cs].
    apply sampler_spec. }
  destruct (get_stats_gathers dim leader followers Hag) as [Hex Hall].
  split; [exact Hex|].
  intros c self' Hsteps Hret label Hl.
  assert (Hkey : In label (dict_keys (vectors leader))).
  { destruct (sampler_spec size num_each tag0 0 calls0)
      as [_ [_ [_ [_ [Hk0 _]]]]]. fold obj in Hk0. fold leader in Hk0.
    rewrite Hk0. apply In_first_uses_from. now right. }
  destruct (Hall c self' Hsteps Hret label Hkey) as [m [Hm Harr]].
  exists m. split; [exact Hm|]. rewrite <- Harr. do 2 f_equal.
  cbn [map]. f_equal.
  - symmetry. apply sampler_spec.
  - unfold followers. rewrite map_map.
    rewrite <- (map_snd_combine_cores (vectors_for label) others).
    fold size. apply map_ext. intros [r cs]. symmetry. apply sampler_spec.
Qed.

(** *** From the calls of [add_to_stack] to the gathered average *)

Lemma add_to_stack_attrs self label arr self' :
  add_to_stack self label arr = inr self' ->
  rank self' = rank self
  /\ numcores self' = numcores self
  /\ tag_start self' = tag_start self
  /\ dict_keys (little_stack self')
     = first_uses_from (dict_keys (little_stack self)) [label].
Proof.
  unfold add_to_stack, dict_mem, first_uses_from. cbn [fold_left].
  intros Hadd.
  destruct (dict_get (little_stack self) label) as [a|] eqn:Eg;
    cbn [negb] in Hadd.
  - pose proof (dict_get_Some_In _ _ _ Eg) as Hin.
    rewrite (proj2 (mem_true _ _) Hin).
    unfold dict_getitem in Hadd. rewrite Eg in Hadd.
    destruct (iadd a arr) as [e|s]; [discriminate|].
    destruct (dict_get (little_stack_count self) label) as [c|];
      [|discriminate].
    inversion Hadd; subst self'.
    cbn [rank numcores tag_start little_stack set_little_stack
           set_little_stack_count].
    now rewrite dict_keys_set_known.
  - apply dict_get_None in Eg.
    rewrite (proj2 (mem_false _ _) Eg).
    unfold dict_getitem in Hadd. rewrite dict_get_set_eq in Hadd.
    inversion Hadd; subst self'.
    cbn [rank numcores tag_start little_stack set_little_stack
           set_little_stack_count].
    now rewrite dict_keys_set_new.
Qed.

Lemma add_all_attrs calls : forall self self',
  add_all self calls = inr self' ->
  rank self' = rank self
  /\ numcores self' = numcores self
  /\ tag_start self' = tag_start self
  /\ dict_keys (little_stack self')
     = first_uses_from (dict_keys (little_stack self)) (map fst calls).
Proof.
  induction calls as [|[label arr] t IH]; intros self self' H.
  - inversion H; subst. auto.
  - cbn [add_all] in H.
    destruct (add_to_stack self label arr) as [e|s1] eqn:E1;
      [discriminate|].
    destruct (add_to_stack_attrs _ _ _ _ E1) as [Hr [Hn [Ht Hk]]].
    destruct (IH _ _ H) as [Hr' [Hn' [Ht' Hk']]].
    rewrite Hr', Hn', Ht', Hk', Hr, Hn, Ht, Hk. auto.
Qed.

(** The running sum a process holds for a label after its calls, and the
    number of its calls for the label. *)
Definition local_sum (label : String.string)
  (calls : list (String.string * ndarray)) : ndarray :=
  match running_sum (arrays_for label calls) with
  | Some a => a
  | None => {| shape := []; data := [] |}
  end.

Definition local_count (label : String.string)
  (calls : list (String.string * ndarray)) : Z :=
  Py.len (arrays_for label calls).

Lemma length_map2 {X Y W} (f : X -> Y -> W) : forall l1 l2,
  length (map2 f l1 l2) = Nat.min (length l1) (length l2).
Proof.
  induction l1 as [|x t IH]; intros [|y l2]; cbn; auto.
Qed.

Lemma wf_fold_add arrs : forall z,
  (forall a, In a arrs -> shape a = shape z /\ wf_array a) ->
  wf_array z -> wf_array (fold_left arr_add arrs z).
Proof.
  induction arrs as [|a t IH]; intros z Hall Hz; [exact Hz|].
  cbn [fold_left]. apply IH.
  - intros b Hb. cbn [arr_add shape]. apply Hall. now right.
  - destruct (Hall a (or_introl eq_refl)) as [Hs Hw].
    unfold wf_array, Py.len in *. cbn [arr_add data shape].
    rewrite length_map2. rewrite Hs in Hw. lia.
Qed.

(** The object of rank [r] in a communicator of [size] processes after the
    calls [calls] of [add_to_stack] on a new object. *)
Definition stacker (size : Z) (num_each : list Z) (tag0 : Z) (r : Z)
  (calls : list (String.string * ndarray)) : result MPIStats :=
  add_all
    (MPIStats_init {| Get_rank := r; Get_size := size |} num_each tag0)
    calls.

Definition stacker_object (size : Z) (num_each : list Z) (tag0 : Z)
  (rc : Z * list (String.string * ndarray)) : MPIStats :=
  match stacker size num_each tag0 (fst rc) (snd rc) with
  | inr s => s
  | inl _ =>
      MPIStats_init {| Get_rank := fst rc; Get_size := size |} num_each tag0
  end.

Lemma stacker_spec size num_each tag0 r calls :
  same_shapes calls ->
  stacker size num_each tag0 r calls
  = inr (stacker_object size num_each tag0 (r, calls))
  /\ rank (stacker_object size num_each tag0 (r, calls)) = r
  /\ numcores (stacker_object size num_each tag0 (r, calls)) = size
  /\ tag_start (stacker_object size num_each tag0 (r, calls)) = tag0
  /\ dict_keys (little_stack (stacker_object size num_each tag0 (r, calls)))
     = first_uses (map fst calls)
  /\ dict_keys (little_stack_count
                  (stacker_object size num_each tag0 (r, calls)))
     = first_uses (map fst calls)
  /\ (forall label,
        stack_at (stacker_object size num_each tag0 (r, calls)) label
        = local_sum label calls)
  /\ (forall label,
        count_at (stacker_object size num_each tag0 (r, calls)) label
        = local_count label calls).
Proof.
  intros Hshape. unfold stacker_object, stacker. cbn [fst snd].
  destruct (add_all_accumulates calls []
              (MPIStats_init {| Get_rank := r; Get_size := size |}
                 num_each tag0))
    as [s [Hs Hacc]];
    [intros label; split; reflexivity|exact Hshape|].
  rewrite Hs. destruct (add_all_attrs _ _ _ Hs) as [Hr [Hn [Ht Hk]]].
  destruct (add_all_keys _ _ _ Hs eq_refl (NoDup_nil _)) as [Hkc _].
  cbn [app] in Hacc.
  split; [reflexivity|]. repeat split; try assumption.
  - rewrite Hkc. exact Hk.
  - intros label. unfold stack_at, local_sum.
    now rewrite (proj2 (Hacc label)).
  - intros label. unfold count_at, local_count.
    rewrite (proj1 (Hacc label)).
    destruct (arrays_for label calls); reflexivity.
Qed.

Lemma arrays_for_nonempty label calls :
  In label (map fst calls) -> arrays_for label calls <> [].
Proof.
  intros Hin. apply in_map_iff in Hin. destruct Hin as [[l v] [Hl Hin]].
  cbn in Hl. subst l. intros E.
  assert (Hv : In v (arrays_for label calls)).
  { unfold arrays_for. apply in_map_iff. exists (label, v).
    split; [reflexivity|]. apply filter_In. split; [exact Hin|].
    apply String.eqb_refl. }
  rewrite E in Hv. destruct Hv.
Qed.

(** The running sum of arrays of one shape has that shape and as many
    elements as the shape says. *)
Lemma local_sum_shape label calls a :
  (forall b, In (label, b) calls -> shape b = shape a /\ wf_array b) ->
  In label (map fst calls) ->
  shape (local_sum label calls) = shape a
  /\ wf_array (local_sum label calls).
Proof.
  intros Hall Hin. unfold local_sum.
  pose proof (arrays_for_nonempty label calls Hin) as Hne.
  destruct (arrays_for label calls) as [|a0 rest] eqn:E; [congruence|].
  cbn [running_sum].
  assert (H0 : shape a0 = shape a /\ wf_array a0).
  { apply Hall, arrays_for_In. rewrite E. now left. }
  split.
  - rewrite shape_fold_add. cbn [zeros_like shape]. exact (proj1 H0).
  - apply wf_fold_add.
    + intros b Hb. cbn [zeros_like shape].
      assert (Hb' : shape b = shape a /\ wf_array b).
      { apply Hall, arrays_for_In. rewrite E. exact Hb. }
      split; [|exact (proj2 Hb')].
      rewrite (proj1 H0). exact (proj1 Hb').
    + destruct H0 as [_ Hw]. unfold wf_array, Py.len in *.
      cbn [zeros_like data shape]. now rewrite length_map.
Qed.

(** Every process makes its calls of [add_to_stack] on a new object, then
    all call [get_stacks].  When the processes first use the labels in the
    same order and the arrays of one label have one shape on all processes
    (and as many elements as the shape says): in every schedule, once
    [get_stacks] has returned on rank 0, the stack of a label is the sum,
    in rank order, of the running sums of the processes, divided by the
    number of all the calls made for the label; and [get_stacks] can
    return on every process. *)
Theorem get_stacks_of_added_arrays (num_each : list Z) (tag0 : Z)
  (calls0 : list (String.string * ndarray))
  (others : list (list (String.string * ndarray))) :
  (forall cs, In cs others ->
              first_uses (map fst cs) = first_uses (map fst calls0)) ->
  (forall cs cs' label a b,
     In cs (calls0 :: others) -> In cs' (calls0 :: others) ->
     In (label, a) cs -> In (label, b) cs' -> shape a = shape b) ->
  (forall cs label a, In cs (calls0 :: others) -> In (label, a) cs ->
                      wf_array a) ->
  exists leader followers,
    stacker (1 + Py.len others) num_each tag0 0 calls0 = inr leader
    /\ map (fun rc => stacker (1 + Py.len others) num_each tag0
                        (fst rc) (snd rc))
           (combine (cores_from_1 (1 + Py.len others)) others)
       = map inr followers
    /\ (exists nt self',
          steps {| procs := map get_stacks (leader :: followers);
                   net := [] |}
                {| procs := Ret self' :: map Ret followers; net := nt |})
    /\ (forall c self',
          steps {| procs := map get_stacks (leader :: followers);
                   net := [] |} c ->
          nth_error (procs c) 0 = Some (Ret self') ->
          forall label, In label (map fst calls0) ->
            attr_getitem (stacks self') label
            = inr (idiv_int
                     (fold_left arr_add (map (local_sum label) others)
                                (local_sum label calls0))
                     (Py.sum (map (local_count label)
                                  (calls0 :: others))))).
Proof.
  intros Horder Hshape Hwf.
  set (size := 1 + Py.len others).
  set (obj := stacker_object size num_each tag0).
  set (leader := obj (0, calls0)).
  set (followers := map obj (combine (cores_from_1 size) others)).
  assert (Hsame : forall cs, In cs (calls0 :: others) -> same_shapes cs).
  { intros cs Hcs label a b Ha Hb. exact (Hshape cs cs label a b Hcs Hcs Ha Hb). }
  assert (Hfollower : forall f, In f followers ->
            exists r cs, f = obj (r, cs) /\ 1 <= r /\ In cs others).
  { intros f Hf. apply in_map_iff in Hf. destruct Hf as [[r cs] [<- Hin]].
    exists r, cs. split; [reflexivity|].
    pose proof (in_combine_l _ _ _ _ Hin) as Hr. apply In_cores in Hr.
    split; [lia|]. eapply in_combine_r; eauto. }
  assert (Hlen : Py.len followers = Py.len others).
  { unfold followers, Py.len. rewrite length_map, length_combine.
    rewrite length_cores_from_1 by (unfold size, Py.len; lia).
    unfold size, Py.len. lia. }
  destruct (stacker_spec size num_each tag0 0 calls0
              (Hsame calls0 (or_introl eq_refl)))
    as [Hrun0 [Hr0 [Hn0 [Ht0 [Hk0 [Hkc0 [Hst0 Hct0]]]]]]].
  fold obj in Hrun0, Hr0, Hn0, Ht0, Hk0, Hkc0, Hst0, Hct0.
  fold leader in Hrun0, Hr0, Hn0, Ht0, Hk0, Hkc0, Hst0, Hct0.
  assert (Hlabel : forall cs label,
            In cs (calls0 :: others) ->
            first_uses (map fst cs) = first_uses (map fst calls0) ->
            In label (first_uses (map fst calls0)) ->
            In label (map fst cs)).
  { intros cs label _ Hsm Hl. rewrite <- Hsm in Hl.
    apply In_first_uses_from in Hl. destruct Hl as [[]|Hl]. exact Hl. }
  assert (Hag : stacks_agree leader followers).
  { constructor.
    - exact Hr0.
    - rewrite Hn0, Hlen. reflexivity.
    - rewrite Hk0. apply NoDup_first_uses_from. constructor.
    - intros label Hl. now rewrite Hkc0, <- Hk0.
    - intros f Hf. destruct (Hfollower f Hf) as [r [cs [-> [Hr Hcs]]]].
      destruct (stacker_spec size num_each tag0 r cs
                  (Hsame cs (or_intror Hcs))) as [_ [Hrk _]].
      fold obj in Hrk. lia.
    - intros f Hf. destruct (Hfollower f Hf) as [r [cs [-> [_ Hcs]]]].
      destruct (stacker_spec size num_each tag0 r cs
                  (Hsame cs (or_intror Hcs))) as [_ [_ [_ [Ht _]]]].
      fold obj in Ht. congruence.
    - intros f Hf. destruct (Hfollower f Hf) as [r [cs [-> [_ Hcs]]]].
      destruct (stacker_spec size num_each tag0 r cs
                  (Hsame cs (or_intror Hcs))) as [_ [_ [_ [_ [Hk _]]]]].
      fold obj in Hk. rewrite Hk, Hk0. now apply Horder.
    - intros f label Hf Hl. destruct (Hfollower f Hf) as [r [cs [-> [_ Hcs]]]].
      destruct (stacker_spec size num_each tag0 r cs
                  (Hsame cs (or_intror Hcs)))
        as [_ [_ [_ [_ [Hk [Hkc _]]]]]].
      fold obj in Hk, Hkc. now rewrite Hkc, <- Hk.
    - intros f label Hf Hl. destruct (Hfollower f Hf) as [r [cs [-> [_ Hcs]]]].
      destruct (stacker_spec size num_each tag0 r cs
                  (Hsame cs (or_intror Hcs)))
        as [_ [_ [_ [_ [_ [_ [Hst _]]]]]]].
      fold obj in Hst. rewrite Hst, Hst0. rewrite Hk0 in Hl.
      pose proof (Hlabel calls0 label (or_introl eq_refl) eq_refl Hl)
        as Hl0.
      pose proof (Hlabel cs label (or_intror Hcs) (Horder cs Hcs) Hl)
        as Hlc.
      destruct (arrays_for label calls0) as [|a0 rest0] eqn:E0;
        [exfalso; revert E0; now apply arrays_for_nonempty|].
      assert (Ha0 : In (label, a0) calls0)
        by (apply arrays_for_In; rewrite E0; now left).
      destruct (local_sum_shape label cs a0) as [Hs1 Hw1];
        [|exact Hlc|].
      { intros b Hb. split.
        - exact (Hshape cs calls0 label b a0 (or_intror Hcs)
                   (or_introl eq_refl) Hb Ha0).
        - exact (Hwf cs label b (or_intror Hcs) Hb). }
      destruct (local_sum_shape label calls0 a0) as [Hs2 _];
        [|exact Hl0|].
      { intros b Hb. split.
        - exact (Hshape calls0 calls0 label b a0 (or_introl eq_refl)
                   (or_introl eq_refl) Hb Ha0).
        - exact (Hwf calls0 label b (or_introl eq_refl) Hb). }
      split; [congruence|exact Hw1]. }
  exists leader, followers.
  split; [exact Hrun0|]. split.
  { unfold followers. rewrite map_map. apply map_ext_in. intros [r cs] Hin.
    apply stacker_spec, Hsame. right. eapply in_combine_r; eauto. }
  destruct (get_stacks_gathers leader followers Hag) as [Hex Hall].
  split; [exact Hex|].
  intros c self' Hsteps Hret label Hl.
  assert (Hkey : In label (dict_keys (little_stack leader))).
  { rewrite Hk0. apply In_first_uses_from. now right. }
  rewrite (Hall c self' Hsteps Hret label Hkey). do 2 f_equal.
  - unfold total_stack. rewrite Hst0. f_equal.
    unfold followers. rewrite map_map.
    rewrite <- (map_snd_combine_cores (local_sum label) others).
    fold size. apply map_ext_in. intros [r cs] Hin.
    apply stacker_spec, Hsame. right. eapply in_combine_r; eauto.
  - unfold total_count. f_equal. cbn [map]. f_equal; [apply Hct0|].
    unfold followers. rewrite map_map.
    rewrite <- (map_snd_combine_cores (local_count label) others).
    fold size. apply map_ext_in. intros [r cs] Hin.
    apply stacker_spec, Hsame. right. eapply in_combine_r; eauto.
Qed.

(** *** A gather that a process does not feed *)

(** Every run of the program ends by raising, or comes to a receive from
    [c] with tag [t], or returns a value that satisfies [I]. *)
Inductive passes {A} (c t : Z) (I : A -> Prop) : prog A -> Prop :=
| passes_ret a : I a -> passes c t I (Ret a)
| passes_raise e : passes c t I (Raise e)
| passes_here k : passes c t I (Recv c t k)
| passes_recv s t' k :
    (forall b, passes c t I (k b)) -> passes c t I (Recv s t' k)
| passes_send d t' b k :
    passes c t I k -> passes c t I (Send d t' b k).

(** The program cannot return without a message from [c] with tag [t]. *)
Definition needs {A} (c t : Z) (p : prog A) : Prop :=
  passes c t (fun _ => False) p.

Lemma passes_bind {A B} c t (I : A -> Prop) (J : B -> Prop)
  (p : prog A) (f : A -> prog B) :
  passes c t I p -> (forall a, I a -> passes c t J (f a)) ->
  passes c t J (bind p f).
Proof.
  intros Hp Hf. induction Hp as [a Ha|e|k|s t' k _ IH|d t' b k _ IH];
    cbn [bind].
  - now apply Hf.
  - apply passes_raise.
  - apply passes_here.
  - apply passes_recv. exact IH.
  - apply passes_send. exact IH.
Qed.

Lemma passes_lift {A} c t (I : A -> Prop) (r : result A) :
  (forall a, r = inr a -> I a) -> passes c t I (lift r).
Proof.
  intros H. destruct r as [e|a]; cbn [lift];
    [apply passes_raise|apply passes_ret; now apply H].
Qed.

(** [bind (lift r) f] passes when every [f a] does. *)
Lemma passes_bind_lift {A B} c t (J : B -> Prop) (r : result A)
  (f : A -> prog B) :
  (forall a, passes c t J (f a)) -> passes c t J (bind (lift r) f).
Proof.
  intros H. destruct r as [e|a]; cbn [lift bind];
    [apply passes_raise|apply H].
Qed.

Lemma passes_for_each {X A} c t (I : A -> Prop) (body : X -> A -> prog A)
  (xs : list X) :
  (forall x s, In x xs -> I s -> passes c t I (body x s)) ->
  forall s, I s -> passes c t I (for_each xs body s).
Proof.
  induction xs as [|x rest IH]; intros Hbody s Hs; cbn [for_each].
  - now apply passes_ret.
  - apply (passes_bind c t I I); [apply Hbody; [now left|exact Hs]|].
    intros a Ha. apply IH; [|exact Ha].
    intros x' s' Hx'. apply Hbody. now right.
Qed.

Lemma needs_for_each {X A} c t (I : A -> Prop) (body : X -> A -> prog A)
  (xs : list X) (x0 : X) :
  In x0 xs ->
  (forall x s, In x xs -> I s -> passes c t I (body x s)) ->
  (forall s, I s -> needs c t (body x0 s)) ->
  forall s, I s -> needs c t (for_each xs body s).
Proof.
  unfold needs. induction xs as [|x rest IH]; intros Hin Hbody Hhit s Hs;
    [destruct Hin|]. cbn [for_each].
  destruct Hin as [->|Hin].
  - apply (passes_bind c t (fun _ => False) _); [now apply Hhit|].
    intros a [].
  - apply (passes_bind c t I _); [apply Hbody; [now left|exact Hs]|].
    intros a Ha. apply IH; auto.
    intros x' s' Hx'. apply Hbody. now right.
Qed.

Lemma take_matches s me t : forall nt b nt',
  take s me t nt = Some (b, nt') ->
  exists m, In m nt /\ msg_src m = s /\ msg_dst m = me /\ msg_tag m = t.
Proof.
  induction nt as [|m rest IH]; intros b nt' Ht; [discriminate|].
  cbn [take] in Ht.
  destruct ((msg_src m =? s) && (msg_dst m =? me) && (msg_tag m =? t))
    eqn:E.
  - exists m. split; [now left|].
    apply andb_true_iff in E. destruct E as [E E3].
    apply andb_true_iff in E. destruct E as [E1 E2].
    apply Z.eqb_eq in E1, E2, E3. auto.
  - destruct (take s me t rest) as [[b1 rest1]|] eqn:Et; [|discriminate].
    destruct (IH _ _ eq_refl) as [m0 [Hin H]]. exists m0.
    split; [now right|exact H].
Qed.

Section Starved.
Context {A : Type}.
Variable i : nat.
Variable t : Z.

(** Rank 0 needs a message with tag [t] from the process at position
    [S i], which only sends, and sends rank 0 no message with tag [t]. *)
Definition starved (cfg : config A) : Prop :=
  (exists p, nth_error (procs cfg) 0 = Some p
             /\ needs (Z.of_nat (S i)) t p)
  /\ (exists pf ms r,
        nth_error (procs cfg) (S i) = Some pf
        /\ trace_of pf = Some (ms, r)
        /\ forall m, In m ms -> ~ (fst (fst m) = 0 /\ snd (fst m) = t))
  /\ (forall m, In m (net cfg) ->
        ~ (msg_src m = Z.of_nat (S i) /\ msg_dst m = 0 /\ msg_tag m = t)).

Lemma step_starved cfg cfg' : step cfg cfg' -> starved cfg -> starved cfg'.
Proof.
  intros Hstep [[p [Hp Hneeds]] [[pf [ms [r [Hpf [Htr Hms]]]]] Hnet]].
  unfold starved.
  destruct Hstep as [j ps nt dest tg b k Hj|j ps nt source tg k b nt' Hj Ht];
    cbn [procs net] in *.
  - (* a send *)
    assert (Hnet' : forall m,
              In m (nt ++ [{| msg_src := Z.of_nat j; msg_dst := dest;
                              msg_tag := tg; msg_body := b |}]) ->
              (j = S i -> ~ (dest = 0 /\ tg = t)) ->
              ~ (msg_src m = Z.of_nat (S i) /\ msg_dst m = 0
                 /\ msg_tag m = t)).
    { intros m Hm Hj' [H1 [H2 H3]]. apply in_app_or in Hm.
      destruct Hm as [Hm|[<-|[]]]; [exact (Hnet m Hm (conj H1 (conj H2 H3)))|].
      cbn in H1, H2, H3. apply Hj'; [lia|auto]. }
    destruct (Nat.eq_dec j 0) as [->|Hj0].
    + rewrite Hp in Hj. inversion Hj; subst p.
      inversion Hneeds as [| | | |d t' b' k' Hk]; subst.
      split; [exists k; split; [eapply nth_error_update_eq; eauto|exact Hk]|].
      split.
      * exists pf, ms, r. rewrite nth_error_update_neq by lia. auto.
      * intros m Hm. apply (Hnet' m Hm). lia.
    + destruct (Nat.eq_dec j (S i)) as [->|Hji].
      * rewrite Hpf in Hj. inversion Hj; subst pf. cbn [trace_of] in Htr.
        destruct (trace_of k) as [[ms' r']|] eqn:Ek; [|discriminate].
        inversion Htr; subst.
        split; [exists p; rewrite nth_error_update_neq by lia; auto|].
        split.
        -- exists k, ms', r. split; [eapply nth_error_update_eq; eauto|].
           split; [exact Ek|]. intros m Hm. apply Hms. now right.
        -- intros m Hm. apply (Hnet' m Hm). intros _.
           exact (Hms (dest, tg, b) (or_introl eq_refl)).
      * split; [exists p; rewrite nth_error_update_neq by lia; auto|].
        split.
        -- exists pf, ms, r. rewrite nth_error_update_neq by lia. auto.
        -- intros m Hm. apply (Hnet' m Hm). intros E. contradiction.
  - (* a receive *)
    destruct (take_from _ _ _ _ _ _ Ht) as [_ Hsub].
    assert (Hnet' : forall m, In m nt' ->
              ~ (msg_src m = Z.of_nat (S i) /\ msg_dst m = 0
                 /\ msg_tag m = t))
      by (intros m Hm; apply Hnet, Hsub, Hm).
    destruct (Nat.eq_dec j 0) as [->|Hj0].
    + rewrite Hp in Hj. inversion Hj; subst p.
      assert (Hk : needs (Z.of_nat (S i)) t (k b)).
      { inversion Hneeds as [| |k'|s t' k' Hk|]; subst.
        - exfalso. destruct (take_matches _ _ _ _ _ _ Ht)
            as [m [Hm [H1 [H2 H3]]]].
          exact (Hnet m Hm (conj H1 (conj H2 H3))).
        - apply Hk. }
      split; [exists (k b); split; [eapply nth_error_update_eq; eauto|exact Hk]|].
      split; [|exact Hnet'].
      exists pf, ms, r. rewrite nth_error_update_neq by lia. auto.
    + destruct (Nat.eq_dec j (S i)) as [->|Hji].
      * rewrite Hpf in Hj. inversion Hj; subst pf. discriminate Htr.
      * split; [exists p; rewrite nth_error_update_neq by lia; auto|].
        split; [|exact Hnet'].
        exists pf, ms, r. rewrite nth_error_update_neq by lia. auto.
Qed.

Lemma steps_starved cfg cfg' :
  steps cfg cfg' -> starved cfg -> starved cfg'.
Proof.
  induction 1 as [c|c1 c2 c3 H12 _ IH]; intros H; [exact H|].
  apply IH. eapply step_starved; eauto.
Qed.

Lemma starved_never_returns cfg a :
  starved cfg -> nth_error (procs cfg) 0 <> Some (Ret a).
Proof.
  intros [[p [Hp Hneeds]] _] E. rewrite Hp in E. inversion E; subst p.
  inversion Hneeds as [a' []| | | |].
Qed.

End Starved.

Lemma In_enumerate_index {X} (l : list X) j :
  0 <= j < Py.len l -> exists x, In (j, x) (enumerate l).
Proof.
  intros Hj. unfold enumerate, Py.range, Py.len in *. rewrite Nat2Z.id.
  assert (Hgen : forall (l0 : list X) start k,
            (k < length l0)%nat ->
            exists x, In (Z.of_nat (start + k), x)
                         (combine (map Z.of_nat (seq start (length l0))) l0)).
  { induction l0 as [|x l0 IH]; intros start k Hk; [cbn in Hk; lia|].
    cbn [length seq map combine]. destruct k as [|k].
    - exists x. left. f_equal. f_equal. lia.
    - destruct (IH (S start) k) as [y Hy]; [cbn in Hk; lia|].
      exists y. right.
      replace (start + S k)%nat with (S start + k)%nat by lia. exact Hy. }
  destruct (Hgen l 0%nat (Z.to_nat j)) as [x Hx]; [lia|].
  exists x. cbn [Nat.add] in Hx. now rewrite Z2Nat.id in Hx by lia.
Qed.

Lemma In_enumerate_range {X} (l : list X) kl :
  In kl (enumerate l) -> 0 <= fst kl < Py.len l.
Proof.
  intros H. apply (in_map fst) in H. rewrite map_fst_enumerate in H.
  now apply PyFacts.In_range in H.
Qed.

(** What the loops of rank 0 keep: the tags' base and the number of
    cores. *)
Definition gathering (ts n : Z) (self : MPIStats) : Prop :=
  tag_start self = ts /\ numcores self = n.

Lemma get_stacks_needs (leader : MPIStats) (c j : Z) :
  rank leader = 0 ->
  In c (cores_from_1 (numcores leader)) ->
  0 <= j < Py.len (dict_keys (little_stack leader)) ->
  needs c (tag_start leader * 300 + j) (get_stacks leader).
Proof.
  intros Hr Hc Hj. unfold get_stacks. rewrite Hr. cbn [Z.eqb negb].
  set (I := gathering (tag_start leader) (numcores leader)).
  apply (passes_bind _ _ (fun _ => False) _); [|intros a []].
  destruct (In_enumerate_index _ j Hj) as [label Hin].
  unfold recv_counts.
  cbn [little_stack set_stack_count set_stacks].
  assert (Hinner : forall (kl : Z * String.string) core s', I s' ->
              passes c (tag_start leader * 300 + j) I
                (Recv core (tag_start s' * 300 + fst kl)
                   (fun b =>
                      bind (lift (recv_obj b)) (fun dat =>
                      bind (lift (attr_getitem (stack_count s') (snd kl)))
                        (fun c0 =>
                      bind (lift (attr_setitem (stack_count s') (snd kl)
                                    (c0 + dat)))
                        (fun sc0 => Ret (set_stack_count s' sc0))))))).
  { intros kl core s' Hs'. apply passes_recv. intros b.
    apply passes_bind_lift. intros dat.
    apply passes_bind_lift. intros c0.
    apply passes_bind_lift. intros sc0.
    apply passes_ret. exact Hs'. }
  apply (needs_for_each c _ I _ _ (j, label) Hin).
  - intros kl s _ Hs.
    apply passes_bind_lift. intros c0.
    apply passes_bind_lift. intros sc.
    apply passes_for_each; [|exact Hs].
    intros core s' _ Hs'. exact (Hinner kl core s' Hs').
  - intros s Hs. cbn [fst snd].
    apply passes_bind_lift. intros c0.
    apply passes_bind_lift. intros sc.
    destruct Hs as [Hts Hn].
    cbn [numcores set_stack_count]. rewrite Hn.
    apply (needs_for_each c _ I _ _ c Hc).
    + intros core s' _ Hs'. exact (Hinner (j, label) core s' Hs').
    + intros s' [Hts' _]. rewrite Hts'. apply passes_here.
    + split; [exact Hts|exact Hn].
  - split; reflexivity.
Qed.

(** When a process has registered fewer stacks than rank 0, rank 0 never
    returns from [get_stacks], whatever the schedule and whatever the
    processes at the other ranks do: it waits for the count of a label
    that the process does not send. *)
Theorem get_stacks_starves (leader f : MPIStats)
  (others : list (prog MPIStats)) (i : nat) :
  rank leader = 0 ->
  nth_error others i = Some (get_stacks f) ->
  Z.of_nat (S i) < numcores leader ->
  rank f <> 0 ->
  (forall label, In label (dict_keys (little_stack f)) ->
                 In label (dict_keys (little_stack_count f))) ->
  tag_start f = tag_start leader ->
  0 <= tag_start leader ->
  Py.len (dict_keys (little_stack f))
  < Py.len (dict_keys (little_stack leader)) ->
  forall c a,
    steps {| procs := get_stacks leader :: others; net := [] |} c ->
    nth_error (procs c) 0 <> Some (Ret a).
Proof.
  intros Hr Hf Hi Hrf Hcounts Htag Hts Hlen c a Hsteps.
  apply (starved_never_returns i
           (tag_start leader * 300 + Py.len (dict_keys (little_stack f)))).
  eapply steps_starved; [exact Hsteps|].
  split; [|split].
  - eexists. split; [reflexivity|]. apply get_stacks_needs.
    + exact Hr.
    + apply In_cores. lia.
    + pose proof (PyFacts.len_nonneg (dict_keys (little_stack f))). lia.
  - exists (get_stacks f), (stack_messages f), (inr f).
    split; [exact Hf|]. split; [now apply get_stacks_trace|].
    intros m Hm [_ Ht]. unfold stack_messages in Hm.
    apply in_app_or in Hm.
    destruct Hm as [Hm|Hm]; apply in_map_iff in Hm;
      destruct Hm as [kl [<- Hkl]]; apply In_enumerate_range in Hkl;
      cbn [fst snd] in Ht; lia.
  - intros m [].
Qed.

Lemma get_stats_needs (leader : MPIStats) (c j : Z) :
  rank leader = 0 ->
  In c (cores_from_1 (numcores leader)) ->
  0 <= j < Py.len (dict_keys (vectors leader)) ->
  needs c (tag_start leader * 200 + j) (get_stats leader).
Proof.
  intros Hr Hc Hj. unfold get_stats. rewrite Hr. cbn [Z.eqb negb].
  set (I := gathering (tag_start leader) (numcores leader)).
  apply (passes_bind _ _ (fun _ => False) _); [|intros a []].
  destruct (In_enumerate_index _ j Hj) as [label Hin].
  unfold recv_numobj.
  cbn [vectors set_numobj set_stats].
  assert (Hinner : forall (kl : Z * String.string) core s', I s' ->
              passes c (tag_start leader * 200 + j) I
                (Recv core (tag_start s' * 200 + fst kl)
                   (fun b =>
                      bind (lift (recv_obj b)) (fun dat =>
                      bind (lift (attr_getitem (numobj s') (snd kl)))
                        (fun l =>
                      bind (lift (attr_setitem (numobj s') (snd kl)
                                    (l ++ [dat])))
                        (fun no => Ret (set_numobj s' no))))))).
  { intros kl core s' Hs'. apply passes_recv. intros b.
    apply passes_bind_lift. intros dat.
    apply passes_bind_lift. intros l.
    apply passes_bind_lift. intros no.
    apply passes_ret. exact Hs'. }
  apply (needs_for_each c _ I _ _ (j, label) Hin).
  - intros kl s _ Hs.
    apply passes_bind_lift. intros v.
    apply passes_bind_lift. intros a.
    apply passes_bind_lift. intros n.
    apply passes_bind_lift. intros no.
    apply passes_for_each; [|exact Hs].
    intros core s' _ Hs'. exact (Hinner kl core s' Hs').
  - intros s Hs. cbn [fst snd].
    apply passes_bind_lift. intros v.
    apply passes_bind_lift. intros a.
    apply passes_bind_lift. intros n.
    apply passes_bind_lift. intros no.
    destruct Hs as [Hts Hn].
    cbn [numcores set_numobj]. rewrite Hn.
    apply (needs_for_each c _ I _ _ c Hc).
    + intros core s' _ Hs'. exact (Hinner (j, label) core s' Hs').
    + intros s' [Hts' _]. rewrite Hts'. apply passes_here.
    + split; [exact Hts|exact Hn].
  - split; reflexivity.
Qed.

(** When a process has registered fewer statistics than rank 0, rank 0
    never returns from [get_stats], whatever the schedule and whatever the
    processes at the other ranks do. *)
Theorem get_stats_starves (dim : String.string -> nat)
  (leader f : MPIStats) (others : list (prog MPIStats)) (i : nat) :
  rank leader = 0 ->
  nth_error others i = Some (get_stats f) ->
  Z.of_nat (S i) < numcores leader ->
  rank f <> 0 ->
  (forall label, In label (dict_keys (vectors f)) ->
                 has_rows f label (dim label)) ->
  tag_start f = tag_start leader ->
  0 <= tag_start leader ->
  Py.len (dict_keys (vectors f)) < Py.len (dict_keys (vectors leader)) ->
  forall c a,
    steps {| procs := get_stats leader :: others; net := [] |} c ->
    nth_error (procs c) 0 <> Some (Ret a).
Proof.
  intros Hr Hf Hi Hrf Hrows Htag Hts Hlen c a Hsteps.
  apply (starved_never_returns i
           (tag_start leader * 200 + Py.len (dict_keys (vectors f)))).
  eapply steps_starved; [exact Hsteps|].
  split; [|split].
  - eexists. split; [reflexivity|]. apply get_stats_needs.
    + exact Hr.
    + apply In_cores. lia.
    + pose proof (PyFacts.len_nonneg (dict_keys (vectors f))). lia.
  - exists (get_stats f), (stats_messages f), (inr f).
    split; [exact Hf|]. split.
    { apply (get_stats_trace f (fun label => Z.of_nat (dim label)) Hrf).
      intros label Hl. apply has_rows_matrix, Hrows, Hl. }
    intros m Hm [_ Ht]. unfold stats_messages in Hm.
    apply in_app_or in Hm.
    destruct Hm as [Hm|Hm]; apply in_map_iff in Hm;
      destruct Hm as [kl [<- Hkl]]; apply In_enumerate_range in Hkl;
      cbn [fst snd] in Ht; lia.
  - intros m [].
Qed.

End MPI.

Arguments Ret {R A} a.
Arguments Raise {R A} e.
Arguments Send {R A} dest tag b k.
Arguments Recv {R A} source tag k.
Arguments procs {R A} c.
Arguments net {R A} c.

(** ** float64 numbers

    IEEE 754 binary64, as numpy's [float64]: the kernel's primitive
    floats. *)

Definition float_of_Z (z : Z) : float :=
  if z <? 0 then PrimFloat.opp (PrimFloat.of_uint63 (Uint63.of_Z (- z)))
  else PrimFloat.of_uint63 (Uint63.of_Z z).

#[export] Instance float64 : Number float := {|
  radd := PrimFloat.add;
  rdiv := PrimFloat.div;
  of_int := float_of_Z;
  uninit := PrimFloat.nan
|}.

(** ** The scenario of three processes

    7 tasks on 3 cores; every process adds one 2x2 array of ones to the
    stack ["stack"] and the vector [[rank]] to the statistic ["vec"]. *)

Definition ones22 : @ndarray float :=
  {| shape := [2; 2]; data := [1; 1; 1; 1]%float |}.

Definition scenario_init (r : Z) : @MPIStats float unit :=
  MPIStats_init {| Get_rank := r; Get_size := 3 |} [2; 2; 3] 333.

Definition scenario (r : Z) : @MPIStats float unit :=
  match add_to_stack (scenario_init r) "stack"%string ones22 with
  | inl _ => scenario_init r
  | inr s =>
      match add_to_stats s "vec"%string [float_of_Z r] with
      | inl _ => s
      | inr s' => s'
      end
  end.

Example scenario_1 :
  scenario 1
  = {| stats_num_each := [2; 2; 3]; rank := 1; numcores := 3;
       vectors := [("vec"%string, PyList [[1%float]])];
       little_stack := [("stack"%string, ones22)];
       little_stack_count := [("stack"%string, 1)];
       tag_start := 333;
       stacks := None; stack_count := None; stats := None;
       numobj := None |}.
Proof. vm_compute. reflexivity. Qed.

Lemma scenario_stacks_agree :
  stacks_agree (scenario 0) [scenario 1; scenario 2].
Proof.
  constructor.
  - reflexivity.
  - reflexivity.
  - vm_compute. repeat constructor. intros [].
  - intros label H. vm_compute in H |- *. exact H.
  - intros f [<-|[<-|[]]]; vm_compute; discriminate.
  - intros f [<-|[<-|[]]]; reflexivity.
  - intros f [<-|[<-|[]]]; reflexivity.
  - intros f label [<-|[<-|[]]] H; vm_compute in H |- *; exact H.
  - intros f label [<-|[<-|[]]] H; vm_compute in H;
      destruct H as [<-|[]]; split; vm_compute; reflexivity.
Qed.

Lemma scenario_samples_agree :
  samples_agree (fun _ => 1%nat) (scenario 0) [scenario 1; scenario 2].
Proof.
  constructor.
  - reflexivity.
  - reflexivity.
  - vm_compute. repeat constructor. intros [].
  - intros f [<-|[<-|[]]]; vm_compute; discriminate.
  - intros f [<-|[<-|[]]]; reflexivity.
  - intros f [<-|[<-|[]]]; reflexivity.
  - intros p label [<-|[<-|[<-|[]]]] H; vm_compute in H;
      destruct H as [<-|[]];
      (split; [vm_compute; reflexivity|]);
      (split; [vm_compute; discriminate|]);
      intros r Hr; vm_compute in Hr; destruct Hr as [<-|[]]; reflexivity.
Qed.

(** C3. For processes that registered the same labels in the same order
    (and hold arrays of one shape per label): in every schedule, once
    [get_stacks] has returned on rank 0, [stacks[label]] is the elementwise
    sum of the running sums of all processes, rank 0 included, divided by
    the sum of all their counts; and [get_stacks] can return on every
    process, with sends that complete only at the matching receive as well
    as with buffered sends.  In the scenario of three processes that each
    added one 2x2 array of ones, rank 0 ends with the 2x2 array of ones. *)
Theorem get_stacks_average :
  (forall (R : Type) (num : Number R) (Stats : Type)
          (leader : @MPIStats R Stats) (followers : list MPIStats),
     stacks_agree leader followers ->
     (exists self',
        sync_steps (map get_stacks (leader :: followers))
                   (Ret self' :: map Ret followers))
     /\ (exists nt self',
        steps {| procs := map get_stacks (leader :: followers); net := [] |}
              {| procs := Ret self' :: map Ret followers; net := nt |})
     /\ (forall c self',
           steps {| procs := map get_stacks (leader :: followers);
                    net := [] |} c ->
           nth_error (procs c) 0 = Some (Ret self') ->
           forall label, In label (dict_keys (little_stack leader)) ->
             attr_getitem (stacks self') label
             = inr (idiv_int (total_stack leader followers label)
                             (total_count leader followers label))))
  /\ (forall c self',
        steps {| procs := map get_stacks [scenario 0; scenario 1; scenario 2];
                 net := [] |} c ->
        nth_error (procs c) 0 = Some (Ret self') ->
        attr_getitem (stacks self') "stack"%string = inr ones22).
Proof.
  split.
  - intros R num Stats leader followers Hag.
    split; [exact (get_stacks_rendezvous leader followers Hag)|].
    exact (get_stacks_gathers leader followers Hag).
  - intros c self' Hsteps Hret.
    destruct (get_stacks_gathers _ _ scenario_stacks_agree) as [_ H].
    rewrite (H c self' Hsteps Hret "stack"%string);
      [vm_compute; reflexivity|vm_compute; auto].
Qed.

Lemma get_stacks_average_witness :
  stacks_agree (scenario 0) [scenario 1; scenario 2]
  /\ ((exists self',
         sync_steps (map get_stacks [scenario 0; scenario 1; scenario 2])
                    (Ret self' :: map Ret [scenario 1; scenario 2]))
      /\ (exists nt self',
         steps {| procs := map get_stacks
                             [scenario 0; scenario 1; scenario 2];
                  net := [] |}
               {| procs := Ret self' :: map Ret [scenario 1; scenario 2];
                  net := nt |})
      /\ (forall c self',
            steps {| procs := map get_stacks
                                [scenario 0; scenario 1; scenario 2];
                     net := [] |} c ->
            nth_error (procs c) 0 = Some (Ret self') ->
            forall label, In label (dict_keys (little_stack (scenario 0))) ->
              attr_getitem (stacks self') label
              = inr (idiv_int
                       (total_stack (scenario 0) [scenario 1; scenario 2]
                          label)
                       (total_count (scenario 0) [scenario 1; scenario 2]
                          label)))).
Proof.
  split; [exact scenario_stacks_agree|].
  exact (proj1 get_stacks_average _ _ _ _ _ scenario_stacks_agree).
Defined.

(** C4. For processes that registered the same labels in the same order
    (vectors of one length per label): in every schedule, whenever the
    messages arrive, once [get_stats] has returned on rank 0 the matrix of
    every label has as rows the vectors of rank 0, then those of rank 1,
    rank 2, ..., each process's vectors in the order it added them; and
    [get_stats] can return on every process, with sends that complete only
    at the matching receive as well as with buffered sends.  In the
    scenario of three processes that each added the vector [[rank]], rank 0
    ends with [[[0],[1],[2]]]. *)
Theorem get_stats_rank_order :
  (forall (R : Type) (num : Number R) (Stats : Type)
          (getStats : ndarray -> Stats) (dim : String.string -> nat)
          (leader : @MPIStats R Stats) (followers : list MPIStats),
     samples_agree dim leader followers ->
     (exists self',
        sync_steps (map (get_stats getStats) (leader :: followers))
                   (Ret self' :: map Ret followers))
     /\ (exists nt self',
        steps {| procs := map (get_stats getStats) (leader :: followers);
                 net := [] |}
              {| procs := Ret self' :: map Ret followers; net := nt |})
     /\ (forall c self',
           steps {| procs := map (get_stats getStats) (leader :: followers);
                    net := [] |} c ->
           nth_error (procs c) 0 = Some (Ret self') ->
           forall label, In label (dict_keys (vectors leader)) ->
             exists m,
               dict_get (vectors self') label = Some (NdArray m)
               /\ np_array (concat (map (fun p => rows_at p label)
                                        (leader :: followers)))
                  = inr m))
  /\ (forall c self',
        steps {| procs := map (get_stats (fun _ => tt))
                              [scenario 0; scenario 1; scenario 2];
                 net := [] |} c ->
        nth_error (procs c) 0 = Some (Ret self') ->
        dict_get (vectors self') "vec"%string
        = Some (NdArray {| shape := [3; 1];
                           data := [0; 1; 2]%float |})).
Proof.
  split.
  - intros R num Stats getStats dim leader followers Hag.
    split; [exact (get_stats_rendezvous getStats dim leader followers Hag)|].
    exact (get_stats_gathers getStats dim leader followers Hag).
  - intros c self' Hsteps Hret.
    destruct (get_stats_gathers (fun _ => tt) _ _ _ scenario_samples_agree)
      as [_ H].
    destruct (H c self' Hsteps Hret "vec"%string) as [m [Hm Harr]];
      [vm_compute; auto|].
    rewrite Hm. vm_compute in Harr. inversion Harr. reflexivity.
Qed.

Lemma get_stats_rank_order_witness :
  samples_agree (fun _ => 1%nat) (scenario 0) [scenario 1; scenario 2]
  /\ ((exists self',
         sync_steps (map (get_stats (fun _ => tt))
                         [scenario 0; scenario 1; scenario 2])
                    (Ret self' :: map Ret [scenario 1; scenario 2]))
      /\ (exists nt self',
         steps {| procs := map (get_stats (fun _ => tt))
                             [scenario 0; scenario 1; scenario 2];
                  net := [] |}
               {| procs := Ret self' :: map Ret [scenario 1; scenario 2];
                  net := nt |})
      /\ (forall c self',
            steps {| procs := map (get_stats (fun _ => tt))
                                [scenario 0; scenario 1; scenario 2];
                     net := [] |} c ->
            nth_error (procs c) 0 = Some (Ret self') ->
            forall label, In label (dict_keys (vectors (scenario 0))) ->
              exists m,
                dict_get (vectors self') label = Some (NdArray m)
                /\ np_array (concat (map (fun p => rows_at p label)
                                         [scenario 0; scenario 1;
                                          scenario 2]))
                   = inr m)).
Proof.
  split; [exact scenario_samples_agree|].
  exact (proj1 get_stats_rank_order _ _ _ _ _ _ _ scenario_samples_agree).
Defined.

(** The group of three processes of [Pipeline(comm, 7)] on a world of
    three, each calling [distribute] with tag 7: the leader with the 2x2
    array of ones, the others with an empty 2x2 buffer. *)
Definition group_member (r : Z) : Pipeline :=
  match snd (Pipeline_init {| Get_rank := r; Get_size := 3 |} 7 None) with
  | inr p => p
  | inl _ =>
      {| wsize := 3; num_each := []; mcomm := {| Get_rank := r;
                                                 Get_size := 3 |};
         mrank := r; msize := 3; num_mine := 0 |}
  end.

Definition group_distribute : list (@prog float (@ndarray float)) :=
  [distribute (group_member 0) ones22 7;
   distribute (group_member 1) (np_empty [2; 2]) 7;
   distribute (group_member 2) (np_empty [2; 2]) 7].

(** C7. [Pipeline.distribute] on the group leader of a group of three:
    [for i in range(self.msize)] starts at 0, so besides rank 1 and rank 2
    the leader sends the buffer to rank 0, itself, where no receive is
    ever posted.  With buffered sends every process can return, rank 1 and
    rank 2 with the leader's array, and in every schedule the message of
    the leader to itself is still in flight when the leader has returned.
    With sends that complete only at the matching receive no process can
    take a step. *)
Theorem distribute_leader_sends_to_rank_0 :
  Pipeline_init {| Get_rank := 0; Get_size := 3 |} 7 None
  = ([OpSplit 55 0], inr (group_member 0))
  /\ mrank (group_member 0) = 0
  /\ msize (group_member 0) = 3
  /\ trace_of (distribute (group_member 0) ones22 7)
     = Some ([(0, 7, Buffer (data ones22));
              (1, 7, Buffer (data ones22));
              (2, 7, Buffer (data ones22))],
             inr ones22)
  /\ steps {| procs := group_distribute; net := [] |}
           {| procs := [Ret ones22; Ret ones22; Ret ones22];
              net := [{| msg_src := 0; msg_dst := 0; msg_tag := 7;
                         msg_body := Buffer (data ones22) |}] |}
  /\ (forall c a,
        steps {| procs := group_distribute; net := [] |} c ->
        nth_error (procs c) 0 = Some (Ret a) ->
        inflight 0 (net c) = [(7, Buffer (data ones22))])
  /\ (forall ps', ~ sync_step group_distribute ps').
Proof.
  split; [reflexivity|]. split; [reflexivity|]. split; [reflexivity|].
  split; [reflexivity|]. split; [|split].
  - eapply steps_step;
      [apply (step_send 0%nat group_distribute []); reflexivity|].
    eapply steps_step; [eapply (step_send 0%nat); reflexivity|].
    eapply steps_step; [eapply (step_send 0%nat); reflexivity|].
    eapply steps_step;
      [eapply (step_recv 1%nat); [reflexivity|vm_compute; reflexivity]|].
    eapply steps_step;
      [eapply (step_recv 2%nat); [reflexivity|vm_compute; reflexivity]|].
    vm_compute. apply steps_refl.
  - intros c a Hsteps Hret.
    apply (distribute_self_message (group_member 0) ones22 7
             [distribute (group_member 1) (np_empty [2; 2]) 7;
              distribute (group_member 2) (np_empty [2; 2]) 7]
             eq_refl ltac:(vm_compute; discriminate) c a Hsteps Hret).
  - intros ps'.
    apply (distribute_rendezvous_stuck (group_member 0) ones22 7
             [(group_member 1, np_empty [2; 2]);
              (group_member 2, np_empty [2; 2])]).
    + reflexivity.
    + vm_compute. discriminate.
    + intros f [<-|[<-|[]]]; vm_compute; discriminate.
Qed.

(** The other members of the group receive once from rank 0, and what the
    leader sent them fills their buffer. *)
Example distribute_follower_receives :
  exists follower,
    Pipeline_init {| Get_rank := 2; Get_size := 3 |} 7 None
    = ([OpSplit 55 2], inr follower)
    /\ distribute follower (np_empty [2; 2]) 7
       = Recv 0 7 (fun b => lift (Recv_into (np_empty [2; 2]) b))
    /\ Recv_into (np_empty [2; 2]) (Buffer (data ones22)) = inr ones22.
Proof.
  eexists. split; [reflexivity|]. split; reflexivity.
Qed.

(** ** The order of float64 contributions *)

Definition contributor (r : Z) (x : float) : @MPIStats float unit :=
  match add_to_stack (scenario_init r) "x"%string
          {| shape := [1]; data := [x] |} with
  | inl _ => scenario_init r
  | inr s => s
  end.

Definition order_a : list (@MPIStats float unit) :=
  [contributor 0 1e16%float; contributor 1 1%float;
   contributor 2 (-1e16)%float].

Definition order_b : list (@MPIStats float unit) :=
  [contributor 0 1e16%float; contributor 1 (-1e16)%float;
   contributor 2 1%float].

Lemma order_a_agree : stacks_agree (hd (scenario_init 0) order_a) (tl order_a).
Proof.
  constructor.
  - reflexivity.
  - reflexivity.
  - vm_compute. repeat constructor. intros [].
  - intros label H. vm_compute in H |- *. exact H.
  - intros f [<-|[<-|[]]]; vm_compute; discriminate.
  - intros f [<-|[<-|[]]]; reflexivity.
  - intros f [<-|[<-|[]]]; reflexivity.
  - intros f label [<-|[<-|[]]] H; vm_compute in H |- *; exact H.
  - intros f label [<-|[<-|[]]] H; vm_compute in H;
      destruct H as [<-|[]]; split; vm_compute; reflexivity.
Qed.

Lemma order_b_agree : stacks_agree (hd (scenario_init 0) order_b) (tl order_b).
Proof.
  constructor.
  - reflexivity.
  - reflexivity.
  - vm_compute. repeat constructor. intros [].
  - intros label H. vm_compute in H |- *. exact H.
  - intros f [<-|[<-|[]]]; vm_compute; discriminate.
  - intros f [<-|[<-|[]]]; reflexivity.
  - intros f [<-|[<-|[]]]; reflexivity.
  - intros f label [<-|[<-|[]]] H; vm_compute in H |- *; exact H.
  - intros f label [<-|[<-|[]]] H; vm_compute in H;
      destruct H as [<-|[]]; split; vm_compute; reflexivity.
Qed.

(** Three float64 contributions, [1e16], [1] and [-1e16], each with count
    1: with rank 1 holding [1] and rank 2 holding [-1e16] rank 0 ends with
    the average [0], with the two exchanged it ends with [1/3]. *)
Lemma get_stacks_order_counterexample :
  Permutation (map (contribution "x"%string) order_a)
              (map (contribution "x"%string) order_b)
  /\ exists c1 s1 c2 s2,
       steps {| procs := map get_stacks order_a; net := [] |} c1
       /\ nth_error (procs c1) 0 = Some (Ret s1)
       /\ steps {| procs := map get_stacks order_b; net := [] |} c2
       /\ nth_error (procs c2) 0 = Some (Ret s2)
       /\ attr_getitem (stacks s1) "x"%string
          = inr {| shape := [1]; data := [0%float] |}
       /\ attr_getitem (stacks s2) "x"%string
          = inr {| shape := [1];
                   data := [PrimFloat.div 1%float 3%float] |}
       /\ attr_getitem (stacks s1) "x"%string
          <> attr_getitem (stacks s2) "x"%string.
Proof.
  split.
  - vm_compute. apply perm_skip, perm_swap.
  - destruct (get_stacks_gathers _ _ order_a_agree) as [[nt1 [s1 Hs1]] H1].
    destruct (get_stacks_gathers _ _ order_b_agree) as [[nt2 [s2 Hs2]] H2].
    cbn [hd tl order_a order_b] in Hs1, Hs2, H1, H2.
    eexists _, s1, _, s2.
    split; [exact Hs1|]. split; [reflexivity|].
    split; [exact Hs2|]. split; [reflexivity|].
    specialize (H1 _ s1 Hs1 eq_refl "x"%string ltac:(vm_compute; auto)).
    specialize (H2 _ s2 Hs2 eq_refl "x"%string ltac:(vm_compute; auto)).
    rewrite H1, H2. split; [vm_compute; reflexivity|].
    split; [vm_compute; reflexivity|].
    vm_compute. intros H. inversion H.
Qed.

(** float64 addition of small integers is exact: the sum of the
    conversions of two integers of magnitude at most 256 is the conversion
    of their sum, by evaluation of all the pairs. *)

Definition small_integers (b : Z) : list Z :=
  map (fun k => Z.of_nat k - b) (seq 0 (Z.to_nat (2 * b + 1))).

Definition exact_pairs (b : Z) : bool :=
  forallb (fun x =>
    forallb (fun y =>
      PrimFloat.Leibniz.eqb (PrimFloat.add (float_of_Z x) (float_of_Z y))
                            (float_of_Z (x + y)))
      (small_integers b))
    (small_integers b).

Lemma In_small_integers b x : Z.abs x <= b -> In x (small_integers b).
Proof.
  intros Hx. unfold small_integers. apply in_map_iff.
  exists (Z.to_nat (x + b)). split; [lia|]. apply in_seq. lia.
Qed.

Lemma exact_pairs_spec b :
  exact_pairs b = true ->
  forall x y, Z.abs x <= b -> Z.abs y <= b ->
    PrimFloat.add (float_of_Z x) (float_of_Z y) = float_of_Z (x + y).
Proof.
  unfold exact_pairs. intros Hall x y Hx Hy.
  rewrite forallb_forall in Hall.
  specialize (Hall x (In_small_integers b x Hx)). cbn beta in Hall.
  rewrite forallb_forall in Hall.
  specialize (Hall y (In_small_integers b y Hy)). cbn beta in Hall.
  now apply FloatAxioms.Leibniz.eqb_spec in Hall.
Qed.

Lemma exact_pairs_256 : exact_pairs 256 = true.
Proof. vm_compute. reflexivity. Qed.

Lemma float64_exact_below : @exact_below float float64 float_of_Z 256.
Proof.
  intros x y Hxy. apply (exact_pairs_spec 256 exact_pairs_256); lia.
Qed.

(** C8, as it holds: where addition is exact on the contributed values,
    every element of every array contributed for the label being the image
    of an integer of magnitude at most [b], under a map [rep] for which
    the sum of the images of two integers is the image of their sum as
    long as their magnitudes add up to at most [bound], with the number of
    processes times [b] at most [bound], then for processes that
    registered the same labels with arrays of one shape, exchanging which
    process holds which (count, running sum) contribution for a label
    leaves the average that rank 0 ends with unchanged, in every
    schedule. *)
Theorem get_stacks_any_order (R : Type) (num : Number R) (Stats : Type)
  (rep : Z -> R) (bound b : Z)
  (l1 : @MPIStats R Stats) (f1 : list MPIStats)
  (l2 : @MPIStats R Stats) (f2 : list MPIStats) (label : String.string) :
  exact_below rep bound ->
  (forall p, In p (l1 :: f1) -> within rep b (stack_at p label)) ->
  (1 + Py.len f1) * b <= bound ->
  stacks_agree l1 f1 -> stacks_agree l2 f2 ->
  In label (dict_keys (little_stack l1)) ->
  In label (dict_keys (little_stack l2)) ->
  Permutation (map (contribution label) (l1 :: f1))
              (map (contribution label) (l2 :: f2)) ->
  forall c1 s1 c2 s2,
    steps {| procs := map get_stacks (l1 :: f1); net := [] |} c1 ->
    nth_error (procs c1) 0 = Some (Ret s1) ->
    steps {| procs := map get_stacks (l2 :: f2); net := [] |} c2 ->
    nth_error (procs c2) 0 = Some (Ret s2) ->
    attr_getitem (stacks s1) label = attr_getitem (stacks s2) label.
Proof.
  exact (@get_stacks_order_exact R num Stats rep bound b l1 f1 l2 f2 label).
Qed.

(** Three float64 contributions of shape [(2,)], held by the ranks in two
    orders. *)
Definition holder (r : Z) (a : @ndarray float) : @MPIStats float unit :=
  match add_to_stack (scenario_init r) "x"%string a with
  | inl _ => scenario_init r
  | inr s => s
  end.

Definition pair_of (x y : Z) : @ndarray float :=
  {| shape := [2]; data := [float_of_Z x; float_of_Z y] |}.

Definition exact_a : list (@MPIStats float unit) :=
  [holder 0 (pair_of 1 2); holder 1 (pair_of (-3) 4);
   holder 2 (pair_of 5 6)].

Definition exact_b : list (@MPIStats float unit) :=
  [holder 0 (pair_of 5 6); holder 1 (pair_of 1 2);
   holder 2 (pair_of (-3) 4)].

Lemma exact_a_agree :
  stacks_agree (hd (scenario_init 0) exact_a) (tl exact_a).
Proof.
  constructor.
  - reflexivity.
  - reflexivity.
  - vm_compute. repeat constructor. intros [].
  - intros label H. vm_compute in H |- *. exact H.
  - intros f [<-|[<-|[]]]; vm_compute; discriminate.
  - intros f [<-|[<-|[]]]; reflexivity.
  - intros f [<-|[<-|[]]]; reflexivity.
  - intros f label [<-|[<-|[]]] H; vm_compute in H |- *; exact H.
  - intros f label [<-|[<-|[]]] H; vm_compute in H;
      destruct H as [<-|[]]; split; vm_compute; reflexivity.
Qed.

Lemma exact_b_agree :
  stacks_agree (hd (scenario_init 0) exact_b) (tl exact_b).
Proof.
  constructor.
  - reflexivity.
  - reflexivity.
  - vm_compute. repeat constructor. intros [].
  - intros label H. vm_compute in H |- *. exact H.
  - intros f [<-|[<-|[]]]; vm_compute; discriminate.
  - intros f [<-|[<-|[]]]; reflexivity.
  - intros f [<-|[<-|[]]]; reflexivity.
  - intros f label [<-|[<-|[]]] H; vm_compute in H |- *; exact H.
  - intros f label [<-|[<-|[]]] H; vm_compute in H;
      destruct H as [<-|[]]; split; vm_compute; reflexivity.
Qed.

Lemma exact_permutation :
  Permutation (map (contribution "x"%string) exact_a)
              (map (contribution "x"%string) exact_b).
Proof.
  vm_compute.
  eapply perm_trans; [apply perm_skip, perm_swap|]. apply perm_swap.
Qed.

Lemma exact_a_within p :
  In p exact_a -> within float_of_Z 6 (stack_at p "x"%string).
Proof.
  intros [<-|[<-|[<-|[]]]].
  - apply (within_of_ints _ _ _ [1; 2]); [vm_compute; reflexivity|].
    repeat constructor; cbn; lia.
  - apply (within_of_ints _ _ _ [-3; 4]); [vm_compute; reflexivity|].
    repeat constructor; cbn; lia.
  - apply (within_of_ints _ _ _ [5; 6]); [vm_compute; reflexivity|].
    repeat constructor; cbn; lia.
Qed.

Lemma get_stacks_any_order_witness :
  @exact_below float float64 float_of_Z 256
  /\ (forall p, In p exact_a ->
        within float_of_Z 6 (stack_at p "x"%string))
  /\ Permutation (map (contribution "x"%string) exact_a)
                 (map (contribution "x"%string) exact_b)
  /\ forall c1 s1 c2 s2,
       steps {| procs := map get_stacks exact_a; net := [] |} c1 ->
       nth_error (procs c1) 0 = Some (Ret s1) ->
       steps {| procs := map get_stacks exact_b; net := [] |} c2 ->
       nth_error (procs c2) 0 = Some (Ret s2) ->
       attr_getitem (stacks s1) "x"%string
       = attr_getitem (stacks s2) "x"%string.
Proof.
  split; [exact float64_exact_below|]. split; [exact exact_a_within|].
  split; [exact exact_permutation|].
  apply (get_stacks_any_order float float64 unit float_of_Z 256 6
           (hd (scenario_init 0) exact_a) (tl exact_a)
           (hd (scenario_init 0) exact_b) (tl exact_b) "x"%string
           float64_exact_below exact_a_within).
  - vm_compute. discriminate.
  - exact exact_a_agree.
  - exact exact_b_agree.
  - vm_compute. auto.
  - vm_compute. auto.
  - exact exact_permutation.
Defined.

Lemma followers_unchanged_witness :
  rank (scenario 1) <> 0
  /\ ((exists ms r,
         trace_of (get_stacks (scenario 1)) = Some (ms, r)
         /\ Forall (fun m => fst (fst m) = 0) ms
         /\ forall self', r = inr self' -> self' = scenario 1)
      /\ (exists ms r,
            trace_of (get_stats (fun _ => tt) (scenario 1)) = Some (ms, r)
            /\ Forall (fun m => fst (fst m) = 0) ms
            /\ forall self', r = inr self' -> self' = scenario 1)
      /\ (forall ps i c self',
            nth_error ps i = Some (get_stacks (scenario 1))
            \/ nth_error ps i = Some (get_stats (fun _ => tt) (scenario 1)) ->
            steps {| procs := ps; net := [] |} c ->
            nth_error (procs c) i = Some (Ret self') ->
            self' = scenario 1)).
Proof.
  assert (H : rank (scenario 1) <> 0) by (vm_compute; discriminate).
  split; [exact H|].
  exact (followers_unchanged (fun _ => tt) (scenario 1) H).
Defined.

Definition three_calls : list (String.string * @ndarray float) :=
  [("stack"%string, ones22);
   ("mask"%string, {| shape := [3]; data := [1; 2; 3]%float |});
   ("stack"%string, ones22)].



Example add_to_stack_twice :
  exists self : @MPIStats float unit,
    add_all (MPIStats_init {| Get_rank := 1; Get_size := 3 |} [2; 2; 3] 333)
            three_calls = inr self
    /\ dict_get (little_stack_count self) "stack"%string = Some 2
    /\ dict_get (little_stack self) "stack"%string
       = Some {| shape := [2; 2]; data := [2; 2; 2; 2]%float |}.
Proof.
  eexists. split; [vm_compute; reflexivity|].
  split; vm_compute; reflexivity.
Qed.

(** ** The extra properties on the scenario of three processes *)

Lemma get_stacks_total_count_witness :
  stacks_agree (scenario 0) [scenario 1; scenario 2]
  /\ (exists nt self',
        steps {| procs := map get_stacks
                            [scenario 0; scenario 1; scenario 2];
                 net := [] |}
              {| procs := Ret self' :: map Ret [scenario 1; scenario 2];
                 net := nt |})
  /\ (forall c self',
        steps {| procs := map get_stacks
                            [scenario 0; scenario 1; scenario 2];
                 net := [] |} c ->
        nth_error (procs c) 0 = Some (Ret self') ->
        forall label, In label (dict_keys (little_stack (scenario 0))) ->
          attr_getitem (stack_count self') label
          = inr (Py.sum (map (fun p => count_at p label)
                             [scenario 0; scenario 1; scenario 2]))).
Proof.
  split; [exact scenario_stacks_agree|].
  exact (get_stacks_total_count (scenario 0) [scenario 1; scenario 2]
           scenario_stacks_agree).
Defined.


Lemma get_stats_numobj_witness :
  samples_agree (fun _ => 1%nat) (scenario 0) [scenario 1; scenario 2]
  /\ (exists nt self',
        steps {| procs := map (get_stats (fun _ => tt))
                            [scenario 0; scenario 1; scenario 2];
                 net := [] |}
              {| procs := Ret self' :: map Ret [scenario 1; scenario 2];
                 net := nt |})
  /\ (forall c self',
        steps {| procs := map (get_stats (fun _ => tt))
                            [scenario 0; scenario 1; scenario 2];
                 net := [] |} c ->
        nth_error (procs c) 0 = Some (Ret self') ->
        forall label, In label (dict_keys (vectors (scenario 0))) ->
          attr_getitem (numobj self') label
          = inr (map (fun p => Py.len (rows_at p label))
                     [scenario 0; scenario 1; scenario 2])).
Proof.
  split; [exact scenario_samples_agree|].
  exact (get_stats_numobj (fun _ => tt) (fun _ => 1%nat) (scenario 0)
           [scenario 1; scenario 2] scenario_samples_agree).
Defined.

Lemma get_stats_summary_witness :
  samples_agree (fun _ => 1%nat) (scenario 0) [scenario 1; scenario 2]
  /\ (exists nt self',
        steps {| procs := map (get_stats (fun _ => tt))
                            [scenario 0; scenario 1; scenario 2];
                 net := [] |}
              {| procs := Ret self' :: map Ret [scenario 1; scenario 2];
                 net := nt |})
  /\ (forall c self',
        steps {| procs := map (get_stats (fun _ => tt))
                            [scenario 0; scenario 1; scenario 2];
                 net := [] |} c ->
        nth_error (procs c) 0 = Some (Ret self') ->
        forall label, In label (dict_keys (vectors (scenario 0))) ->
          exists m,
            np_array (concat (map (fun p => rows_at p label)
                                  [scenario 0; scenario 1; scenario 2]))
            = inr m
            /\ dict_get (vectors self') label = Some (NdArray m)
            /\ attr_getitem (stats self') label = inr ((fun _ => tt) m)).
Proof.
  split; [exact scenario_samples_agree|].
  exact (get_stats_summary (fun _ => tt) (fun _ => 1%nat) (scenario 0)
           [scenario 1; scenario 2] scenario_samples_agree).
Defined.

Lemma add_to_stats_after_get_stats_witness :
  samples_agree (fun _ => 1%nat) (scenario 0) [scenario 1; scenario 2]
  /\ (exists nt self',
        steps {| procs := map (get_stats (fun _ => tt))
                            [scenario 0; scenario 1; scenario 2];
                 net := [] |}
              {| procs := Ret self' :: map Ret [scenario 1; scenario 2];
                 net := nt |})
  /\ (forall c self',
        steps {| procs := map (get_stats (fun _ => tt))
                            [scenario 0; scenario 1; scenario 2];
                 net := [] |} c ->
        nth_error (procs c) 0 = Some (Ret self') ->
        forall label vector, In label (dict_keys (vectors (scenario 0))) ->
          add_to_stats self' label vector = inl AttributeError).
Proof.
  split; [exact scenario_samples_agree|].
  exact (add_to_stats_after_get_stats (fun _ => tt) (fun _ => 1%nat)
           (scenario 0) [scenario 1; scenario 2] scenario_samples_agree).
Defined.

Lemma get_stacks_follower_messages_witness :
  rank (scenario 1) <> 0
  /\ trace_of (get_stacks (scenario 1))
     = Some (map (fun kl => (0, tag_start (scenario 1) * 300 + fst kl,
                             PyObj (count_at (scenario 1) (snd kl))))
                 (enumerate (dict_keys (little_stack (scenario 1))))
             ++ map (fun kl => (0, tag_start (scenario 1) * 10 + fst kl,
                                Buffer (data (stack_at (scenario 1)
                                                (snd kl)))))
                    (enumerate (dict_keys (little_stack (scenario 1)))),
             inr (scenario 1)).
Proof.
  assert (Hr : rank (scenario 1) <> 0) by (vm_compute; discriminate).
  split; [exact Hr|].
  apply (get_stacks_follower_messages (scenario 1) Hr).
  intros label H. vm_compute in H |- *. exact H.
Defined.

Lemma get_stats_follower_messages_witness :
  rank (scenario 1) <> 0
  /\ trace_of (get_stats (fun _ => tt) (scenario 1))
     = Some (map (fun kl => (0, tag_start (scenario 1) * 200 + fst kl,
                             PyObj (Py.len (rows_at (scenario 1)
                                              (snd kl)))))
                 (enumerate (dict_keys (vectors (scenario 1))))
             ++ map (fun kl => (0, tag_start (scenario 1) + fst kl,
                                Buffer (concat (rows_at (scenario 1)
                                                  (snd kl)))))
                    (enumerate (dict_keys (vectors (scenario 1)))),
             inr (scenario 1)).
Proof.
  assert (Hr : rank (scenario 1) <> 0) by (vm_compute; discriminate).
  split; [exact Hr|].
  apply (get_stats_follower_messages (fun _ => tt) (scenario 1)
           (fun _ => 1%nat) Hr).
  intros label H.
  apply (sagree_rows _ _ _ scenario_samples_agree (scenario 1) label);
    [right; now left|exact H].
Defined.

Lemma gather_tags_distinct_witness :
  0 <= tag_start (scenario 1)
  /\ (NoDup (gather_tags (scenario 1))
      <-> Py.len (dict_keys (vectors (scenario 1)))
          <= 9 * tag_start (scenario 1)
          /\ Py.len (dict_keys (little_stack (scenario 1)))
             <= 190 * tag_start (scenario 1)).
Proof.
  assert (Hts : 0 <= tag_start (scenario 1)) by (vm_compute; discriminate).
  split; [exact Hts|].
  apply (gather_tags_distinct (scenario 1) Hts); vm_compute; discriminate.
Defined.

(** The members of the group of three other than the leader, each with an
    empty 2x2 buffer. *)
Definition group_members : list (Pipeline * @ndarray float) :=
  [(group_member 1, np_empty [2; 2]); (group_member 2, np_empty [2; 2])].

Lemma distribute_broadcast_witness :
  mrank (group_member 0) = 0
  /\ (exists nt,
        steps {| procs := distribute (group_member 0) ones22 7
                          :: map (fun f => distribute (fst f) (snd f) 7)
                                 group_members;
                 net := [] |}
              {| procs := Ret ones22
                          :: map (fun f => Ret {| shape := shape (snd f);
                                                  data := data ones22 |})
                                 group_members;
                 net := nt |})
  /\ (forall c,
        steps {| procs := distribute (group_member 0) ones22 7
                          :: map (fun f => distribute (fst f) (snd f) 7)
                                 group_members;
                 net := [] |} c ->
        (forall a, nth_error (procs c) 0 = Some (Ret a) -> a = ones22)
        /\ (forall i f a,
              nth_error group_members i = Some f ->
              nth_error (procs c) (S i) = Some (Ret a) ->
              a = {| shape := shape (snd f); data := data ones22 |})
        /\ (forall i e, nth_error (procs c) i <> Some (Raise e))).
Proof.
  split; [reflexivity|].
  apply (distribute_broadcast (group_member 0) ones22 7
           group_members).
  - reflexivity.
  - reflexivity.
  - intros f [<-|[<-|[]]]; vm_compute; discriminate.
  - intros f [<-|[<-|[]]]; reflexivity.
Defined.

Lemma distribute_leaves_message_witness :
  mrank (group_member 0) = 0
  /\ (exists nt,
        steps {| procs := [distribute (group_member 0) ones22 7];
                 net := [] |}
              {| procs := [Ret ones22]; net := nt |})
  /\ (forall c a,
        steps {| procs := [distribute (group_member 0) ones22 7];
                 net := [] |} c ->
        nth_error (procs c) 0 = Some (Ret a) ->
        inflight 0 (net c) = [(7, Buffer (data ones22))]).
Proof.
  split; [reflexivity|].
  apply (distribute_leaves_message (group_member 0) ones22 7 []).
  - reflexivity.
  - vm_compute. discriminate.
Defined.

Lemma distribute_rendezvous_deadlock_witness :
  mrank (group_member 0) = 0
  /\ forall ps,
       sync_steps (distribute (group_member 0) ones22 7
                   :: map (fun f => distribute (fst f) (snd f) 7)
                          group_members) ps ->
       ps = distribute (group_member 0) ones22 7
            :: map (fun f => distribute (fst f) (snd f) 7)
                   group_members
       /\ forall a, nth_error ps 0 <> Some (Ret a).
Proof.
  split; [reflexivity|].
  apply (distribute_rendezvous_deadlock (group_member 0) ones22 7
           group_members).
  - reflexivity.
  - vm_compute. discriminate.
  - intros f [<-|[<-|[]]]; vm_compute; discriminate.
Defined.

(** The calls of the scenario: every process adds the 2x2 array of ones to
    ["stack"], and rank [r] the vector [[r]] to ["vec"]. *)
Definition scenario_stack_calls : list (String.string * @ndarray float) :=
  [("stack"%string, ones22)].

Definition scenario_vec_calls (r : Z) : list (String.string * list float) :=
  [("vec"%string, [float_of_Z r])].

Lemma get_stacks_of_added_arrays_witness :
  exists (leader : @MPIStats float unit)
         (followers : list (@MPIStats float unit)),
    stacker (1 + Py.len [scenario_stack_calls; scenario_stack_calls])
      [2; 2; 3] 333 0 scenario_stack_calls = inr leader
    /\ map (fun rc =>
              stacker (1 + Py.len [scenario_stack_calls;
                                   scenario_stack_calls])
                [2; 2; 3] 333 (fst rc) (snd rc))
           (combine
              (cores_from_1
                 (1 + Py.len [scenario_stack_calls; scenario_stack_calls]))
              [scenario_stack_calls; scenario_stack_calls])
       = map inr followers
    /\ (exists nt self',
          steps {| procs := map get_stacks (leader :: followers);
                   net := [] |}
                {| procs := Ret self' :: map Ret followers; net := nt |})
    /\ (forall c self',
          steps {| procs := map get_stacks (leader :: followers);
                   net := [] |} c ->
          nth_error (procs c) 0 = Some (Ret self') ->
          forall label, In label (map fst scenario_stack_calls) ->
            attr_getitem (stacks self') label
            = inr (idiv_int
                     (fold_left arr_add
                        (map (local_sum label)
                             [scenario_stack_calls; scenario_stack_calls])
                        (local_sum label scenario_stack_calls))
                     (Py.sum (map (local_count label)
                                  [scenario_stack_calls;
                                   scenario_stack_calls;
                                   scenario_stack_calls])))).
Proof.
  apply (get_stacks_of_added_arrays [2; 2; 3] 333 scenario_stack_calls
           [scenario_stack_calls; scenario_stack_calls]).
  - intros cs [<-|[<-|[]]]; reflexivity.
  - intros cs cs' label a b Hcs Hcs' Ha Hb.
    assert (Hone : forall cs0 l x,
              In cs0 [scenario_stack_calls; scenario_stack_calls;
                      scenario_stack_calls] ->
              In (l, x) cs0 -> x = ones22).
    { intros cs0 l x [<-|[<-|[<-|[]]]] [H|[]]; now inversion H. }
    now rewrite (Hone cs label a Hcs Ha), (Hone cs' label b Hcs' Hb).
  - intros cs label a [<-|[<-|[<-|[]]]] [H|[]]; inversion H;
      vm_compute; reflexivity.
Defined.

Lemma get_stats_of_added_vectors_witness :
  exists (leader : @MPIStats float unit)
         (followers : list (@MPIStats float unit)),
    sampler (1 + Py.len [scenario_vec_calls 1; scenario_vec_calls 2])
      [2; 2; 3] 333 0 (scenario_vec_calls 0) = inr leader
    /\ map (fun rc =>
              sampler (1 + Py.len [scenario_vec_calls 1;
                                   scenario_vec_calls 2])
                [2; 2; 3] 333 (fst rc) (snd rc))
           (combine
              (cores_from_1
                 (1 + Py.len [scenario_vec_calls 1; scenario_vec_calls 2]))
              [scenario_vec_calls 1; scenario_vec_calls 2])
       = map inr followers
    /\ (exists nt self',
          steps {| procs := map (get_stats (fun _ => tt))
                                (leader :: followers);
                   net := [] |}
                {| procs := Ret self' :: map Ret followers; net := nt |})
    /\ (forall c self',
          steps {| procs := map (get_stats (fun _ => tt))
                                (leader :: followers);
                   net := [] |} c ->
          nth_error (procs c) 0 = Some (Ret self') ->
          forall label, In label (map fst (scenario_vec_calls 0)) ->
            exists m,
              dict_get (vectors self') label = Some (NdArray m)
              /\ np_array (concat (map (vectors_for label)
                                       [scenario_vec_calls 0;
                                        scenario_vec_calls 1;
                                        scenario_vec_calls 2]))
                 = inr m).
Proof.
  apply (get_stats_of_added_vectors (fun _ => tt) [2; 2; 3] 333
           (fun _ => 1%nat) (scenario_vec_calls 0)
           [scenario_vec_calls 1; scenario_vec_calls 2]).
  - intros cs [<-|[<-|[]]]; reflexivity.
  - intros cs label v [<-|[<-|[<-|[]]]] [H|[]]; inversion H; reflexivity.
Defined.

Lemma get_stacks_starves_witness :
  Py.len (dict_keys (little_stack (scenario_init 1)))
  < Py.len (dict_keys (little_stack (scenario 0)))
  /\ forall c a,
       steps {| procs := get_stacks (scenario 0)
                         :: [get_stacks (scenario_init 1);
                             get_stacks (scenario 2)];
                net := [] |} c ->
       nth_error (procs c) 0 <> Some (Ret a).
Proof.
  split; [vm_compute; reflexivity|].
  apply (get_stacks_starves (scenario 0) (scenario_init 1)
           [get_stacks (scenario_init 1); get_stacks (scenario 2)] 0%nat).
  - reflexivity.
  - reflexivity.
  - vm_compute. reflexivity.
  - vm_compute. discriminate.
  - intros label [].
  - reflexivity.
  - vm_compute. discriminate.
  - vm_compute. reflexivity.
Defined.

Lemma get_stats_starves_witness :
  Py.len (dict_keys (vectors (scenario_init 1)))
  < Py.len (dict_keys (vectors (scenario 0)))
  /\ forall c a,
       steps {| procs := get_stats (fun _ => tt) (scenario 0)
                         :: [get_stats (fun _ => tt) (scenario_init 1);
                             get_stats (fun _ => tt) (scenario 2)];
                net := [] |} c ->
       nth_error (procs c) 0 <> Some (Ret a).
Proof.
  split; [vm_compute; reflexivity|].
  apply (get_stats_starves (fun _ => tt) (fun _ => 1%nat) (scenario 0)
           (scenario_init 1)
           [get_stats (fun _ => tt) (scenario_init 1);
            get_stats (fun _ => tt) (scenario 2)] 0%nat).
  - reflexivity.
  - reflexivity.
  - vm_compute. reflexivity.
  - vm_compute. discriminate.
  - intros label [].
  - reflexivity.
  - vm_compute. discriminate.
  - vm_compute. reflexivity.
Defined.
